(* ===== verification/_CoqProject ===== *)
-Q . S2P
Prelude.v
Bytes.v
Strconv.v
Types.v
Partitioner.v
Topology.v
GoTime.v
Serializer.v
Instruction.v
KVStore.v
Redis.v
Containers.v
Instance.v
Dependencies.v
Closure.v
Events.v
Server.v
Messages.v
ClusterMessages.v
Decoding.v
Pool.v
Cluster.v
Reads.v
Fixtures.v
Manager.v
Invariant.v
Prepare.v
Handlers.v
Tarjan.v
Execute.v
Order.v
Execution.v
Leader.v
Routing.v
Replica.v
Frame.v
Components.v
Concurrent.v
Interleaved.v
Network.v
MockNetwork.v
Convergence.v
Agreement.v
Runs.v
Forgotten.v
Recovery.v
