(* ===== verification/Prelude.v ===== *)
(** * kickboxer: a verification library

    kickboxer is a distributed key/value store.  Every node of a cluster holds
    a store; keys are placed on nodes by their position on a ring of tokens
    ([src/partitioner], [src/topology]); commands on a key are ordered among its
    replicas by an egalitarian consensus protocol ([src/consensus]) and executed
    against the store ([src/kvstore]); the nodes find each other, exchange
    messages over pooled connections, stream keys and answer reads
    ([src/cluster]).  This library models these parts as executable functions
    and proves what makes them correct, or shows where they are not.

    ** Style of the model

    A Go function is a Rocq function.  Stateful code is written in the monad
    [ST S E] of this file, in which a call returns a value, returns an error or
    panics, and keeps the state in all three cases.  Structs are records, objects
    that are shared are cells of a heap (instances of consensus, nodes of the
    cluster, connections and the holders of a pool).  The order in which Go
    visits a map is the class [MapOrder]; the theorems hold for every order.
    Integers are [Z], with the wrap-around of [uint32] and [uint64] written out.
    As a function, a call runs without interruption between the points at which
    it waits.  At such a point (answers of other replicas, timeouts, commit
    events) the operation takes as an argument what arrives and what other
    goroutines do to the state in the meantime, or that the wait does not end.
    Where nesting operations into each other's waits is not enough, the
    goroutines are steps that interleave: the execute phase in [Interleaved],
    where every critical section of [getExecutionOrder] and
    [executeDependencyChain] is a step, condition variables in [Events], the
    accepting server in [Server].  In [Interleaved] the execution of one instance
    is one step, since [applyInstance] holds the lock of the instance until it
    returns, and so are the answer to a message and the other operations of the
    phases ([local_action]).  Code outside the repository is a parameter:
    [UUIDLib] for the time in a uuid, [Placement] for the topology as the
    consensus manager sees it (which [Routing] then implements), [Store] and its
    relatives for the interface between consensus, cluster and store.

    ** Files

    - [Prelude]: the monad, [MapOrder], the tactics and the hint databases
      [preserves] (operations that preserve a relation) and, from [Serializer],
      [codec] (encoders and decoders); lemmas on lists.
    - [Bytes], [Strconv], [Types], [GoTime]: bytes, numbers as text, [src/types]
      (sixteen byte ids), and the part of Go's [time] that is used, with its binary
      form.
    - [Partitioner]: [src/partitioner], with MD5 written out.
    - [Topology]: [src/topology], rings and datacenters; Go's binary search.
    - [Serializer]: [src/serializer], over readers with a buffer, whose connections
      deliver chunks, and writers that can fail.
    - [Instruction], [KVStore], [Redis]: [src/store], [src/kvstore], [src/redis].
    - [Containers], [Instance], [Dependencies]: sets of ids, the instance with its
      status machine and encodings, the tree of keys that yields dependencies
      ([instance_containers.go], [instance.go], [manager_depedencies.go]).
    - [Closure]: what the tree still leads to after it has dropped commands.
    - [Events]: the commit event of an instance ([event] of [manager.go]).
    - [Server]: start and stop of [server.go].
    - [Messages], [ClusterMessages], [Decoding]: the messages of [src/consensus] and
      [src/cluster], the framing of [src/message], and what becomes of any bytes
      that arrive.
    - [Pool], [Cluster], [Reads]: [connection.go]; [node.go], [cluster.go] and
      [server.go]; the reads of [cluster.go].
    - [Fixtures]: [testing.go], [node_mock.go] and [store_mock.go] of [src/cluster],
      the rings, nodes, stores and connections that the tests are built of.
    - [Manager], [Prepare]: the state of a replica, the phases preaccept, accept
      and commit and explicit prepare, on the leader's side and in the handlers.
    - [Tarjan], [Execute]: [algorithms.go]; [manager_execute.go] and the life of a
      query in [manager.go].
    - [Invariant], [Handlers], [Order], [Execution], [Leader], [Replica],
      [Routing]: proofs about the previous two groups, and the manager on top of
      the topology.
    - [Frame], [Components], [Concurrent], [Interleaved]: several goroutines of a
      replica that compute orders and execute at the same time; in [Concurrent]
      with orders that are computed undisturbed, in [Interleaved] without
      restriction, lock by lock.
    - [Network], [Convergence], [Agreement]: several replicas, the votes they give two
      leaders, the messages they send each other, their stores in the end.
    - [Recovery]: what recovery completes, where it starts over and which of several
      accepts it follows.  [Runs], [Forgotten] and the end of [Recovery]: runs of
      three replicas, computed in full, after which they differ.
    - [MockNetwork]: [testing_mocks.go] and [testing_setup.go] of [src/consensus],
      the network that the tests run on.

    ** What is shown

    - Consensus, one replica ([Invariant], [Handlers], [Replica]): the invariant
      of the manager's state holds after every message and every query, whatever
      the others send; instances are never lost, statuses never go back and what is
      executed stays executed; every handler
      does what its phase demands on every branch; a promise given to a prepare
      is kept; of two interfering commands one depends on the other.
    - Consensus, the leader ([Leader], [Routing]): what the phases make of the
      answers, what a prepare continues with, and that the quorums of the code
      intersect exactly if the number of replicas is odd, which the replication
      factor decides.
    - Dependencies ([Dependencies], [Closure]): the tree refines a flat
      specification and never loses a dependency that is not executed; what is
      executed and acknowledged is reported once more and then dropped; among
      writes those that it drops are still reached through the reported
      dependencies, among reads they are not.
    - Execution ([Tarjan], [Order], [Execution]): Tarjan's algorithm ends and
      yields the components in reverse topological order; the execution order
      puts dependencies first and is the same on all replicas within a component;
      executing a chain refines a reference interpreter over the store.
    - Concurrency ([Interleaved], [Concurrent], [Events], [Server]): however the
      critical sections of goroutines interleave, a command is executed after the
      dependencies it has been committed with that do not depend on it in turn,
      and of two commands that depend directly on each other the one with the
      earlier id is first, so that replicas execute related commands alike.  The
      race that a comment in [manager.go] asks about is not harmless: the longer
      cycles can be split by it, and two replicas then execute two commands in
      different orders though one depends on the other
      ([cycle_split_by_interleaving]).  If orders are computed undisturbed this
      cannot happen; every such run is one of [Interleaved]
      ([undisturbed_reached]).  Even so, indirect dependencies through a cycle that
      is half executed can be overtaken.  An event wakes exactly those that
      already wait; a stopped server ends.
    - Recovery ([Recovery]): a replica that takes a command over completes what the
      replicas that answer have accepted or committed, if they agree on it, and
      announces it to all.  If they do not know of the command, or have only
      preaccepted it, it starts over, and if they have accepted it in different
      ballots it follows the first answer: either way it can commit something
      else than what is committed, and three such runs are computed.
    - Several replicas ([Network], [Convergence], [Agreement], [Forgotten]): in a
      network that loses, repeats and reorders messages, replicas commit a command
      alike if those do that commit it on their own account; if moreover any two
      interfering commands are related (one depends on the other and not in turn,
      or each directly on the other), replicas that have executed
      the same commands have equal stores.  Of two interfering commands whose
      phases succeed one depends on the other, as long as the first is not executed
      at the replica that their quorums share.  Without that proviso this fails: a
      run without failures in which two replicas end with different values is
      computed in full.
    - Stores ([KVStore], [Redis]): writes commute, repair converges, both stores
      agree.
    - Placement ([Topology]): the ring's invariant; the binary search finds the
      nodes a walk around the ring finds; replicas that know the same nodes agree
      on every placement; in the rings of the tests a key is where its number says
      ([Fixtures]).
    - Cluster ([ClusterMessages], [Decoding], [Pool], [Cluster], [Reads]): all messages
      survive the wire; whatever bytes arrive, decoding ends without a panic, and a
      message that it returns is well-typed and can be sent on unchanged; the pool is
      a bounded queue; streaming sends what the receiver replicates; reads meet their
      consistency level and their repairs converge.
    - Deviations, as theorems: commands that are forgotten too early, cycles that are
      split, recovery that
      loses acknowledged writes, messages lost in the buffer of the one before them,
      commits without a quorum, dependencies dropped when deferring to a successor,
      store errors that block their dependents, handshakes that forget a datacenter,
      a server that panics on streamed data, a race in the pool, local reads that do
      not notice errors, and others that the files point out.

    ** Bounds and fuel

    - [ReadBytes_loop] and [ReadFull_loop] get one more round than there are bytes
      and chunks: a round that does not finish takes a byte or an empty chunk
      ([ReadBytes_ok], [ReadBytes_short]).
    - [addInstance] gets as many levels as there are instances, because nested
      calls add new ones to the graph; [strongConnect] likewise, over vertices.
      [getExecutionOrder_spec] and [tarjanConnect_correct] show that this suffices.
      For [addInstance_program], between whose actions instances may be added, the
      fuel is arbitrary: what is shown holds for every depth.
    - [decimal_loop] gets as many rounds as the number has bits ([digits_loop]).
    - [Search_loop] gets the length of the ring; the distance between its bounds
      decreases ([Search_loop_spec]).
    - Loops over retries and over what arrives are structural recursion on the
      list of rounds or arrivals they are given.

    ** Not modelled

    Sockets, listening and dialing (their outcomes are inputs), the statistics of
    the manager, logging and [String] or JSON formatting; [Persist], which does
    nothing; [src/disk], [src/server], [src/main.go] and [src/clusterproto], which
    have no behaviour; assertions of the tests.  What is left of the modelled files
    are imports, comments, interface types, getters, and wrappers that take a lock
    and call the function that is modelled.  In the network of [Agreement] the
    goroutines of a replica are not followed from phase to phase, but do whatever
    their steps allow; that those who commit a command agree on its dependencies is
    a hypothesis there.  Instances travel as copies; that their wire form carries
    them is shown in [Decoding].  A handler answers its message in one step, though
    it takes the locks of several instances one after the other; races on fields
    that are read without their lock are not modelled. *)

From Stdlib Require Export ZArith Lia.
From stdpp Require Export base tactics list gmap sets strings sorting fin_maps.

#[export] Set Default Goal Selector "!".

Coercion Z.of_nat : nat >-> Z.

(** ** Outcomes of Go code

    A Go function that returns [(A, error)] either returns a value, returns
    an error, or panics (a nil dereference, an index out of range, an explicit
    [panic]).  The state is threaded through all three cases, because Go keeps
    the writes made before an error is returned. *)

Inductive res (E A : Type) : Type :=
  | Ok (a : A)
  | Fail (e : E)
  | Panic.
Arguments Ok {E A} a.
Arguments Fail {E A} e.
Arguments Panic {E A}.

#[export] Instance res_eq_dec {E A} `{EqDecision E, EqDecision A} : EqDecision (res E A).
Proof. solve_decision. Defined.

Definition is_ok {E A} (r : res E A) : bool :=
  match r with Ok _ => true | _ => false end.

(** The state-and-error monad in which stateful operations are written. *)
Definition ST (S E A : Type) : Type := S → res E A * S.

#[export] Instance ST_ret {S E} : MRet (ST S E) := λ A a s, (Ok a, s).
#[export] Instance ST_bind {S E} : MBind (ST S E) := λ A B f m s,
  match m s with
  | (Ok a, s') => f a s'
  | (Fail e, s') => (Fail e, s')
  | (Panic, s') => (Panic, s')
  end.
#[export] Instance ST_fmap {S E} : FMap (ST S E) := λ A B f m,
  m ≫= λ a, mret (f a).

Definition fail {S E A} (e : E) : ST S E A := λ s, (Fail e, s).
Definition panic {S E A} : ST S E A := λ s, (Panic, s).
Definition get {S E} : ST S E S := λ s, (Ok s, s).
Definition gets {S E A} (f : S → A) : ST S E A := λ s, (Ok (f s), s).
Definition modify {S E} (f : S → S) : ST S E unit := λ s, (Ok tt, f s).

(** [try m] turns an error return into a value, as [if err := m(); err != nil]
    does; a panic still propagates. *)
Definition try {S E A} (m : ST S E A) : ST S E (A + E) := λ s,
  match m s with
  | (Ok a, s') => (Ok (inl a), s')
  | (Fail e, s') => (Ok (inr e), s')
  | (Panic, s') => (Panic, s')
  end.

(** [x, ok := p; if !ok panic]: dereference of a possibly nil pointer. *)
Definition deref {S E A} (o : option A) : ST S E A :=
  match o with Some a => mret a | None => panic end.

(** A [for ... range] over a slice whose body may fail. *)
Fixpoint for_each {S E A} (f : A → ST S E unit) (l : list A) : ST S E unit :=
  match l with
  | [] => mret tt
  | a :: l => _ ← f a; for_each f l
  end.

(** ** Go's [map] iteration order

    Go leaves the order in which [range] visits the keys of a map unspecified.
    Every definition that ranges over a map and whose result can depend on the
    order takes it from this interface; the theorems hold for all its
    instances. *)
Class MapOrder := {
  map_order : ∀ {A : Type}, list A → list A;
  map_order_perm : ∀ (A : Type) (l : list A), map_order l ≡ₚ l;
}.

(** The order in which stdpp enumerates its maps; used to evaluate examples. *)
Definition MapOrder_id : MapOrder :=
  {| map_order := λ A l, l; map_order_perm := λ A l, reflexivity l |}.

(** The reverse of it, a second instance on which order-dependent results
    differ. *)
Definition MapOrder_rev : MapOrder :=
  {| map_order := λ A l, reverse l; map_order_perm := λ A l, reverse_Permutation l |}.

(** ** Unsigned 32 bit arithmetic *)
Definition u32_max : Z := 2 ^ 32 - 1.
Definition u32 (z : Z) : Z := z mod 2 ^ 32.

(** [x++] on a [uint32] *)
Definition u32_incr (z : Z) : Z := u32 (z + 1).

(** ** Reasoning about the monad *)

Create HintDb preserves discriminated.

Lemma bind_ok {S E A B} (m : ST S E A) (f : A → ST S E B) s b s' :
  (m ≫= f) s = (Ok b, s') ↔ ∃ a s1, m s = (Ok a, s1) ∧ f a s1 = (Ok b, s').
Proof.
  unfold mbind, ST_bind. destruct (m s) as [[a|e|] s1]; split.
  all: try naive_solver.
Qed.

Lemma bind_run {S E A B} (m : ST S E A) (f : A → ST S E B) s a s1 :
  m s = (Ok a, s1) → (m ≫= f) s = f a s1.
Proof. intros H. unfold mbind, ST_bind. by rewrite H. Qed.

Lemma bind_eval {S E A B} (m : ST S E A) (f : A → ST S E B) s r s1 :
  m s = (r, s1) →
  (m ≫= f) s = match r with Ok a => f a s1 | Fail e => (Fail e, s1) | Panic => (Panic, s1) end.
Proof. intros H. unfold mbind, ST_bind. rewrite H. by destruct r. Qed.

Lemma bind_gets {S E A B} (g : S → A) (f : A → ST S E B) s : (gets g ≫= f) s = f (g s) s.
Proof. done. Qed.

Lemma bind_ret {S E A B} (a : A) (f : A → ST S E B) s : (mret a ≫= f) s = f a s.
Proof. done. Qed.

Lemma bind_try {S E A B} (m : ST S E A) (f : A + E → ST S E B) s :
  (try m ≫= f) s =
    match m s with
    | (Ok a, s1) => f (inl a) s1 | (Fail e, s1) => f (inr e) s1 | (Panic, s1) => (Panic, s1)
    end.
Proof. unfold mbind, ST_bind, try. by destruct (m s) as [[]]. Qed.

(** [preserves R m]: whatever its outcome, [m] takes a state to an [R]-related
    one. *)
Definition preserves {S E A} (R : S → S → Prop) (m : ST S E A) : Prop :=
  ∀ s, R s (m s).2.

Section preserves.
Context {S E : Type} (R : S → S → Prop) `{!PreOrder R}.

Lemma preserves_ret {A} (a : A) : preserves (E:=E) R (mret a).
Proof. intros s; cbn. reflexivity. Qed.

Lemma preserves_fail {A} (e : E) : preserves (A:=A) R (fail e).
Proof. intros s; cbn. reflexivity. Qed.

Lemma preserves_panic {A} : preserves (E:=E) (A:=A) R panic.
Proof. intros s; cbn. reflexivity. Qed.

Lemma preserves_gets {A} (f : S → A) : preserves (E:=E) R (gets f).
Proof. intros s; cbn. reflexivity. Qed.

Lemma preserves_get : preserves (E:=E) R get.
Proof. intros s; cbn. reflexivity. Qed.

Lemma preserves_deref {A} (o : option A) : preserves (E:=E) R (deref o).
Proof. intros s. destruct o; cbn; reflexivity. Qed.

Lemma preserves_modify (f : S → S) : (∀ s, R s (f s)) → preserves (E:=E) R (modify f).
Proof. intros H s; cbn. apply H. Qed.

Lemma preserves_try {A} (m : ST S E A) : preserves R m → preserves R (try m).
Proof. intros H s. specialize (H s). unfold try. by destruct (m s) as [[]]. Qed.

Lemma preserves_bind {A B} (m : ST S E A) (f : A → ST S E B) :
  preserves R m → (∀ a, preserves R (f a)) → preserves R (m ≫= f).
Proof.
  intros Hm Hf s. specialize (Hm s). unfold mbind, ST_bind.
  destruct (m s) as [[a|e|] s1]; cbn in *; [|done..].
  etrans; [exact Hm|]. apply Hf.
Qed.

(** The continuation may use what the first computation established. *)
Lemma preserves_bind_dep {A B} (m : ST S E A) (f : A → ST S E B) s :
  R s (m s).2 →
  (∀ a s1, m s = (Ok a, s1) → R s1 (f a s1).2) →
  R s ((m ≫= f) s).2.
Proof.
  intros Hm Hf. unfold mbind, ST_bind.
  destruct (m s) as [[a|e|] s1] eqn:Hs; cbn in *; [|done..].
  etrans; [exact Hm|]. by apply Hf.
Qed.

Lemma preserves_for_each {A} (f : A → ST S E unit) l :
  (∀ a, a ∈ l → preserves R (f a)) → preserves R (for_each f l).
Proof.
  induction l as [|a l IH]; intros Hf; cbn.
  { apply preserves_ret. }
  apply preserves_bind.
  - apply Hf. left.
  - intros _. apply IH. intros b Hb. apply Hf. by right.
Qed.
End preserves.

(** Walks through a monadic program, splitting on its branches; the operations
    it calls are looked up in the hint database. *)
Ltac preserves_step :=
  lazymatch goal with
  | |- preserves _ (mbind _ _) => apply preserves_bind; [typeclasses eauto| |intros ?]
  | |- preserves _ (fmap _ _) => apply preserves_bind; [typeclasses eauto| |intros ?]
  | |- preserves _ (mret _) => apply preserves_ret; typeclasses eauto
  | |- preserves _ (fail _) => apply preserves_fail; typeclasses eauto
  | |- preserves _ panic => apply preserves_panic; typeclasses eauto
  | |- preserves _ (gets _) => apply preserves_gets; typeclasses eauto
  | |- preserves _ (deref _) => apply preserves_deref; typeclasses eauto
  | |- preserves _ (try _) => apply preserves_try
  | |- preserves _ (for_each _ _) => apply preserves_for_each; [typeclasses eauto|intros ? ?]
  | |- preserves _ (match ?x with _ => _ end) => destruct x eqn:?
  | |- preserves _ (let _ := _ in _) => cbv zeta
  | |- preserves _ _ => solve [eauto with preserves]
  end.
Ltac preserves_tac := repeat preserves_step.

(** Reads the run of a monadic program backwards from its successful end. *)
Ltac st_inv :=
  repeat match goal with
  | H : mbind _ _ _ = (Ok _, _) |- _ =>
      apply bind_ok in H; destruct H as (? & ? & ? & ?)
  | H : mret _ _ = (_, _) |- _ => unfold mret, ST_ret in H; simplify_eq
  | H : gets _ _ = (_, _) |- _ => unfold gets in H; simplify_eq
  | H : get _ = (_, _) |- _ => unfold get in H; simplify_eq
  | H : modify _ _ = (_, _) |- _ => unfold modify in H; simplify_eq
  | H : fail _ _ = (Ok _, _) |- _ => unfold fail in H; discriminate H
  | H : panic _ = (Ok _, _) |- _ => unfold panic in H; discriminate H
  end.

(** ** Integers *)

Lemma u32_range z : (0 ≤ u32 z ≤ u32_max)%Z.
Proof. unfold u32, u32_max. pose proof (Z.mod_pos_bound z (2 ^ 32)). lia. Qed.

Lemma u32_small z : (0 ≤ z ≤ u32_max)%Z → u32 z = z.
Proof. unfold u32, u32_max. intros. apply Z.mod_small. lia. Qed.

(** An increment is strictly increasing except at the last value, where it
    wraps to zero. *)
Lemma u32_incr_spec z :
  (0 ≤ z ≤ u32_max)%Z → u32_incr z = (if decide (z = u32_max) then 0 else z + 1)%Z.
Proof.
  intros Hz. unfold u32_incr. case_decide as H; [by rewrite H|].
  apply u32_small. lia.
Qed.

(** ** Lists *)

Lemma Forall_filter_id {A} (P : A → Prop) `{∀ x, Decision (P x)} (l : list A) :
  Forall P l → filter P l = l.
Proof.
  induction 1 as [|x l Hx _ IH]; [done|].
  by rewrite filter_cons_True, IH.
Qed.

Lemma StronglySorted_impl_in {A} (R R' : relation A) (l : list A) :
  (∀ x y, x ∈ l → y ∈ l → R x y → R' x y) → StronglySorted R l → StronglySorted R' l.
Proof.
  intros HR Hl. induction Hl as [|x l Hl IH Hx]; constructor.
  - apply IH. intros y z Hy Hz. apply HR; by right.
  - rewrite Forall_forall in Hx |- *. intros y Hy. apply HR; [left|by right|auto].
Qed.

Lemma prefix_snoc_inv {A} (l1 l2 : list A) x :
  l1 `prefix_of` l2 ++ [x] → l1 `prefix_of` l2 ∨ l1 = l2 ++ [x].
Proof.
  intros [k Hk]. destruct k as [|y k _] using rev_ind.
  - right. by rewrite app_nil_r in Hk.
  - left. rewrite app_assoc in Hk. apply app_inj_tail in Hk as [-> _]. by exists k.
Qed.

Lemma elem_of_concat {A} (ls : list (list A)) x : x ∈ concat ls ↔ (∃ l, l ∈ ls ∧ x ∈ l).
Proof. setoid_rewrite list_elem_of_In. apply in_concat. Qed.
