(* ===== verification/Bytes.v ===== *)
(** * Bytes and fixed-width integers

    Go's [byte], the conversions between integers and bytes, and the
    little- and big-endian layouts of [encoding/binary] and [time]. *)

From Stdlib Require Export Strings.Byte.
From Stdlib Require Strings.String.
From S2P Require Import Prelude.

Open Scope Z_scope.

Abbreviation byte := Byte.byte.

#[export] Instance byte_eq_dec : EqDecision byte := Byte.byte_eq_dec.

(** [int(b)] and [byte(z)] (which truncates to the low eight bits) *)
Definition Z_of_byte (b : byte) : Z := Z.of_N (Byte.to_N b).
Definition byte_of_Z (z : Z) : byte :=
  match Byte.of_N (Z.to_N (z mod 256)) with Some b => b | None => x00 end.

(** [[]byte(s)] and [string(bs)] *)
Definition bytes_of_string (s : string) : list byte := String.list_byte_of_string s.
Definition string_of_bytes (bs : list byte) : string := String.string_of_list_byte bs.

(** An unsigned integer laid out on [n] bytes, least significant first. *)
Fixpoint le_bytes (n : nat) (z : Z) : list byte :=
  match n with
  | O => []
  | S n => byte_of_Z z :: le_bytes n (z / 256)
  end.
Fixpoint le_Z (bs : list byte) : Z :=
  match bs with
  | [] => 0
  | b :: bs => Z_of_byte b + 256 * le_Z bs
  end.

(** Most significant first. *)
Definition be_bytes (n : nat) (z : Z) : list byte := reverse (le_bytes n z).
Definition be_Z (bs : list byte) : Z := le_Z (reverse bs).

(** Two's complement reading of an unsigned value of width [8 * n]. *)
Definition to_signed (n : nat) (z : Z) : Z :=
  if decide (z < 2 ^ (8 * n - 1)) then z else z - 2 ^ (8 * n).

(** [bytes.Compare] *)
Fixpoint bytes_compare (a b : list byte) : comparison :=
  match a, b with
  | [], [] => Eq
  | [], _ :: _ => Lt
  | _ :: _, [] => Gt
  | x :: a, y :: b =>
      match Z_of_byte x ?= Z_of_byte y with
      | Eq => bytes_compare a b
      | c => c
      end
  end.

(** ** Bytes *)

Lemma Z_of_byte_range b : 0 ≤ Z_of_byte b < 256.
Proof. unfold Z_of_byte. pose proof (Byte.to_N_bounded b). lia. Qed.

Lemma Z_of_byte_of_Z z : Z_of_byte (byte_of_Z z) = z mod 256.
Proof.
  unfold Z_of_byte, byte_of_Z. pose proof (Z.mod_pos_bound z 256 eq_refl).
  destruct (Byte.of_N _) as [b|] eqn:Hb.
  - apply Byte.to_of_N in Hb. rewrite Hb. lia.
  - apply Byte.of_N_None_iff in Hb. lia.
Qed.

Lemma Z_of_byte_inj b1 b2 : Z_of_byte b1 = Z_of_byte b2 → b1 = b2.
Proof.
  unfold Z_of_byte. intros H%N2Z.inj.
  pose proof (Byte.of_to_N b1) as H1. pose proof (Byte.of_to_N b2) as H2. congruence.
Qed.

Lemma byte_of_Z_of_byte b : byte_of_Z (Z_of_byte b) = b.
Proof.
  apply Z_of_byte_inj. rewrite Z_of_byte_of_Z. apply Z.mod_small, Z_of_byte_range.
Qed.

Lemma string_of_bytes_of_string s : string_of_bytes (bytes_of_string s) = s.
Proof. apply String.string_of_list_byte_of_string. Qed.

Lemma bytes_of_string_of_bytes bs : bytes_of_string (string_of_bytes bs) = bs.
Proof. apply String.list_byte_of_string_of_list_byte. Qed.

Lemma bytes_of_string_inj s1 s2 : bytes_of_string s1 = bytes_of_string s2 → s1 = s2.
Proof. intros H. by rewrite <-(string_of_bytes_of_string s1), H, string_of_bytes_of_string. Qed.

(** ** Fixed-width layouts *)

Lemma length_le_bytes n z : length (le_bytes n z) = n.
Proof. revert z; induction n as [|n IH]; intros z; cbn; [done|]. by rewrite IH. Qed.

Lemma length_be_bytes n z : length (be_bytes n z) = n.
Proof. unfold be_bytes. by rewrite length_reverse, length_le_bytes. Qed.

Lemma le_Z_range bs : 0 ≤ le_Z bs < 256 ^ length bs.
Proof.
  induction bs as [|b bs IH]; [cbn; lia|].
  cbn [le_Z length]. pose proof (Z_of_byte_range b).
  replace (256 ^ S (length bs)) with (256 * 256 ^ length bs)
    by (rewrite Nat2Z.inj_succ, Z.pow_succ_r; lia). lia.
Qed.

Lemma le_Z_le_bytes n z : le_Z (le_bytes n z) = z mod 256 ^ n.
Proof.
  revert z; induction n as [|n IH]; intros z; cbn [le_bytes le_Z].
  { by rewrite Z.mod_1_r. }
  rewrite IH, Z_of_byte_of_Z, Nat2Z.inj_succ, Z.pow_succ_r by lia.
  rewrite Z.rem_mul_r by lia. lia.
Qed.

Lemma le_bytes_le_Z n bs : length bs = n → le_bytes n (le_Z bs) = bs.
Proof.
  revert bs; induction n as [|n IH]; intros [|b bs]; cbn; try done.
  intros [= Hn]. pose proof (Z_of_byte_range b). f_equal.
  - apply Z_of_byte_inj. rewrite Z_of_byte_of_Z.
    rewrite Z.mul_comm, Z.mod_add by lia. by apply Z.mod_small.
  - rewrite Z.mul_comm, Z.div_add, Z.div_small by lia. by apply IH.
Qed.

Lemma be_Z_be_bytes n z : be_Z (be_bytes n z) = z mod 256 ^ n.
Proof. unfold be_Z, be_bytes. by rewrite reverse_involutive, le_Z_le_bytes. Qed.

Lemma be_bytes_be_Z n bs : length bs = n → be_bytes n (be_Z bs) = bs.
Proof.
  intros H. unfold be_bytes, be_Z. rewrite le_bytes_le_Z by (by rewrite length_reverse).
  apply reverse_involutive.
Qed.

Lemma be_Z_range bs : 0 ≤ be_Z bs < 256 ^ length bs.
Proof. unfold be_Z. rewrite <-(length_reverse bs). apply le_Z_range. Qed.

Lemma le_Z_app a b : le_Z (a ++ b) = le_Z a + 256 ^ length a * le_Z b.
Proof.
  induction a as [|x a IH]; cbn [app le_Z length]; [cbn; lia|].
  rewrite IH, Nat2Z.inj_succ, Z.pow_succ_r by lia. lia.
Qed.

Lemma be_Z_cons b bs : be_Z (b :: bs) = Z_of_byte b * 256 ^ length bs + be_Z bs.
Proof.
  unfold be_Z. rewrite reverse_cons, le_Z_app, length_reverse. cbn. lia.
Qed.

Lemma to_signed_mod n z :
  (0 < n)%nat → - 2 ^ (8 * n - 1) ≤ z < 2 ^ (8 * n - 1) →
  to_signed n (z mod 256 ^ n) = z.
Proof.
  intros Hn Hz. unfold to_signed.
  assert (256 ^ n = 2 ^ (8 * n)) as -> by (change 256 with (2 ^ 8); rewrite <-Z.pow_mul_r; lia).
  assert (2 ^ (8 * n) = 2 * 2 ^ (8 * n - 1)) as Hp.
  { rewrite <-Z.pow_succ_r by lia. f_equal. lia. }
  assert (0 < 2 ^ (8 * n - 1)) by (apply Z.pow_pos_nonneg; lia).
  destruct (decide (0 ≤ z)).
  - rewrite Z.mod_small by lia. by case_decide; [|lia].
  - assert (z mod 2 ^ (8 * n) = z + 2 ^ (8 * n)) as ->.
    { symmetry. apply Z.mod_unique_pos with (-1); lia. }
    case_decide; lia.
Qed.

(** ** Comparison *)

(** On slices of one length, lexicographic order is the order of the big-endian
    numbers they spell. *)
Lemma bytes_compare_be a b :
  length a = length b → bytes_compare a b = (be_Z a ?= be_Z b).
Proof.
  revert b; induction a as [|x a IH]; intros [|y b]; try done.
  cbn [length]. intros [= Hl]. cbn [bytes_compare]. rewrite !be_Z_cons, <-Hl, IH by done.
  pose proof (be_Z_range a). pose proof (be_Z_range b) as Hb. rewrite <-Hl in Hb.
  assert (0 < 256 ^ length a) by (apply Z.pow_pos_nonneg; lia).
  destruct (Z.compare_spec (Z_of_byte x) (Z_of_byte y)) as [->|Hlt|Hlt].
  - destruct (Z.compare_spec (be_Z a) (be_Z b)); symmetry;
      [apply Z.compare_eq_iff|apply Z.compare_lt_iff|apply Z.compare_gt_iff]; lia.
  - symmetry. apply Z.compare_lt_iff. nia.
  - symmetry. apply Z.compare_gt_iff. nia.
Qed.

Lemma bytes_compare_refl a : bytes_compare a a = Eq.
Proof. rewrite bytes_compare_be by done. apply Z.compare_refl. Qed.

Lemma bytes_compare_eq a b : bytes_compare a b = Eq ↔ a = b.
Proof.
  split; [|intros ->; apply bytes_compare_refl].
  revert b; induction a as [|x a IH]; intros [|y b]; cbn; try done.
  destruct (Z.compare_spec (Z_of_byte x) (Z_of_byte y)) as [Heq| |]; [|done..].
  apply Z_of_byte_inj in Heq as ->. intros H. f_equal. by apply IH.
Qed.

Lemma bytes_compare_antisym a b : bytes_compare b a = CompOpp (bytes_compare a b).
Proof.
  revert b; induction a as [|x a IH]; intros [|y b]; cbn; try done.
  rewrite (Z.compare_antisym (Z_of_byte x)).
  destruct (Z_of_byte x ?= Z_of_byte y); cbn; [apply IH|done..].
Qed.

Lemma bytes_compare_lt_trans a b c :
  bytes_compare a b = Lt → bytes_compare b c = Lt → bytes_compare a c = Lt.
Proof.
  revert b c; induction a as [|x a IH]; intros [|y b] [|z c]; cbn; try done.
  destruct (Z.compare_spec (Z_of_byte x) (Z_of_byte y)) as [->|H1|];
    destruct (Z.compare_spec (Z_of_byte y) (Z_of_byte z)) as [Heq|H2|]; try done.
  - apply IH.
  - intros _ _. rewrite <-Heq. apply Z.compare_lt_iff in H1. by rewrite H1.
  - intros _ _. assert (Z_of_byte x < Z_of_byte z) as H3%Z.compare_lt_iff by lia. by rewrite H3.
Qed.

Create Rewrite HintDb bytes.
#[export] Hint Rewrite string_of_bytes_of_string bytes_of_string_of_bytes
  length_le_bytes length_be_bytes : bytes.

(** The layouts are used through the lemmas above. *)
#[global] Opaque le_bytes be_bytes.
