(* ===== verification/Strconv.v ===== *)
(** * Numbers as text

    What the sources use of the packages [strconv] and [fmt]: [strconv.Atoi],
    and the verbs [%v] and, for integers that are not negative, [%04v] of
    [fmt.Sprintf]. *)

From Stdlib Require Import Ascii.
From S2P Require Import Prelude Bytes.

(** [strconv.Atoi]: an optional sign and decimal digits, within 64 bits. *)
Definition digit (c : ascii) : option Z :=
  let n := Z.of_N (N_of_ascii c) in
  if decide (48 ≤ n ≤ 57) then Some (n - 48) else None.

Fixpoint digits (acc : Z) (s : string) : option Z :=
  match s with
  | EmptyString => Some acc
  | String c s => d ← digit c; digits (10 * acc + d) s
  end.

Definition unsigned (s : string) : option Z := if decide (s = EmptyString) then None else digits 0 s.

Definition Atoi (s : string) : string + Z :=
  let z := match s with
    | String "-" s => Z.opp <$> unsigned s
    | String "+" s => unsigned s
    | s => unsigned s
    end in
  match z with
  | None => inl "invalid syntax"
  | Some z => if decide (- 2 ^ 63 ≤ z < 2 ^ 63) then inr z else inl "value out of range"
  end.

(** [%v] of an integer that is not negative.  Every pass leaves a tenth: as many
    passes as the number has bits are enough. *)
Definition digit_char (d : Z) : ascii := ascii_of_N (Z.to_N (48 + d)).

Fixpoint decimal_loop (fuel : nat) (z : Z) (acc : string) : string :=
  match fuel with
  | O => acc
  | S fuel =>
      let acc := String (digit_char (z `mod` 10)) acc in
      if decide (z < 10) then acc else decimal_loop fuel (z `div` 10) acc
  end.

Definition decimal (z : Z) : string := decimal_loop (S (Z.to_nat (Z.log2 z))) z EmptyString.

Definition format_int (z : Z) : string :=
  if decide (z < 0) then String "-" (decimal (- z)) else decimal z.

(** [%04v]: padded with zeros to four characters. *)
Fixpoint zeros (n : nat) : string :=
  match n with O => EmptyString | S n => String "0" (zeros n) end.

Definition decimal_pad (width : nat) (z : Z) : string :=
  let s := decimal z in (zeros (width - String.length s) +:+ s)%string.

(** ** What is printed is read back *)

Lemma digit_digit_char d : 0 ≤ d < 10 → digit (digit_char d) = Some d.
Proof.
  intros Hd. unfold digit, digit_char. rewrite N_ascii_embedding by lia. rewrite Z2N.id by lia.
  rewrite decide_True by lia. f_equal. lia.
Qed.

(** The digits of [z] followed by [acc] continue a number as [z] digits would. *)
Lemma digits_loop fuel z acc : 0 ≤ z < 2 ^ Z.of_nat fuel → (0 < fuel)%nat →
  ∃ k, 0 ≤ k ∧ ∀ a, digits a (decimal_loop fuel z acc) = digits (a * 10 ^ k + z) acc.
Proof.
  revert z acc. induction fuel as [|fuel IH]; intros z acc Hz Hf; [lia|]. cbn [decimal_loop].
  assert (0 ≤ z `mod` 10 < 10) as Hmod by (apply Z.mod_pos_bound; lia).
  destruct (decide (z < 10)) as [Hlt|Hge].
  - exists 1. split; [lia|]. intros a. cbn [digits]. rewrite digit_digit_char by done. cbn.
    rewrite Z.mod_small by lia. f_equal. lia.
  - assert (0 ≤ z `div` 10 < 2 ^ Z.of_nat fuel) as Hq.
    { split; [apply Z.div_pos; lia|]. apply Z.div_lt_upper_bound; [lia|]. rewrite Nat2Z.inj_succ, Z.pow_succ_r in Hz; lia. }
    assert (0 < fuel)%nat as Hf' by (destruct fuel; [cbn in Hz; lia|lia]).
    destruct (IH (z `div` 10) (String (digit_char (z `mod` 10)) acc) Hq Hf') as (k & Hk & Hd).
    exists (k + 1). split; [lia|]. intros a. rewrite Hd. cbn [digits]. rewrite digit_digit_char by done. cbn.
    f_equal. rewrite Z.pow_add_r by lia. pose proof (Z.div_mod z 10). lia.
Qed.

Lemma digits_decimal z : 0 ≤ z → ∃ k, 0 ≤ k ∧ ∀ a, digits a (decimal z) = Some (a * 10 ^ k + z).
Proof.
  intros Hz. unfold decimal. destruct (digits_loop (S (Z.to_nat (Z.log2 z))) z EmptyString) as (k & Hk & Hd); [|lia|].
  - split; [done|]. rewrite Nat2Z.inj_succ, Z2Nat.id by apply Z.log2_nonneg.
    destruct (decide (z = 0)) as [->|]; [done|]. apply Z.log2_spec. lia.
  - exists k. split; [done|]. intros a. by rewrite Hd.
Qed.

Lemma digits_zeros n s : digits 0 (zeros n +:+ s)%string = digits 0 s.
Proof. induction n as [|n IH]; [done|exact IH]. Qed.

(** A text that is read as a number without a sign does not start with one. *)
Lemma Atoi_unsigned s z : unsigned s = Some z → 0 ≤ z < 2 ^ 63 → Atoi s = inr z.
Proof.
  intros Hs Hz. unfold Atoi.
  assert (match s with
    | String "-" s => Z.opp <$> unsigned s
    | String "+" s => unsigned s
    | s => unsigned s
    end = Some z) as ->.
  { destruct s as [|[[] [] [] [] [] [] [] []] s]; try exact Hs; discriminate Hs. }
  by rewrite decide_True by lia.
Qed.

Lemma decimal_loop_nonempty fuel z acc : (0 < fuel)%nat ∨ acc ≠ EmptyString → decimal_loop fuel z acc ≠ EmptyString.
Proof.
  revert z acc. induction fuel as [|fuel IH]; intros z acc Hf; cbn; [naive_solver lia|].
  case_decide; [done|]. apply IH. by right.
Qed.

Lemma zeros_nonempty n s : s ≠ EmptyString → (zeros n +:+ s)%string ≠ EmptyString.
Proof. by destruct n. Qed.

Lemma Atoi_decimal_pad width z : 0 ≤ z < 2 ^ 63 → Atoi (decimal_pad width z) = inr z.
Proof.
  intros Hz. apply Atoi_unsigned; [|done]. destruct (digits_decimal z) as (k & _ & Hd); [lia|].
  unfold unsigned, decimal_pad. rewrite digits_zeros, Hd, decide_False; [f_equal; lia|].
  apply zeros_nonempty, decimal_loop_nonempty. left. lia.
Qed.

Lemma Atoi_decimal z : 0 ≤ z < 2 ^ 63 → Atoi (decimal z) = inr z.
Proof. apply (Atoi_decimal_pad 0). Qed.

Lemma Atoi_format_int z : - 2 ^ 63 ≤ z < 2 ^ 63 → Atoi (format_int z) = inr z.
Proof.
  intros Hz. unfold format_int. case_decide as Hneg; [|apply Atoi_decimal; lia].
  destruct (digits_decimal (- z)) as (k & _ & Hd); [lia|]. unfold Atoi, unsigned.
  rewrite decide_False by (apply decimal_loop_nonempty; left; lia). rewrite Hd. cbn [fmap option_fmap option_map].
  replace (- (0 * 10 ^ k + - z)) with z by lia. by rewrite decide_True by lia.
Qed.
