(* ===== verification/Types.v ===== *)
(** * Sixteen byte values and UUIDs

    [src/types/b16.go] and [src/types/uuid.go]: the two-word representation of
    a UUID, its binary form, and the identifiers built from it. *)

From S2P Require Import Prelude Bytes.

(** ** [B16] *)

Record B16 := mkB16 { b0 : Z; b1 : Z }.

#[export] Instance B16_eq_dec : EqDecision B16.
Proof. solve_decision. Defined.

#[export] Instance B16_countable : Countable B16.
Proof.
  refine (inj_countable' (λ b, (b0 b, b1 b)) (λ p, mkB16 p.1 p.2) _). by intros [].
Defined.

(** A [B16] whose words are 64 bits wide, as the Go type guarantees. *)
Definition B16_wf (b : B16) : Prop := 0 ≤ b0 b < 2 ^ 64 ∧ 0 ≤ b1 b < 2 ^ 64.

#[export] Instance B16_wf_dec b : Decision (B16_wf b).
Proof. unfold B16_wf. apply _. Defined.

(** [B16{}] *)
Definition B16_zero : B16 := mkB16 0 0.

(** The loop body of [MarshalBinary]: the byte at index [i]. *)
Definition MarshalBinary_at (b : B16) (i : nat) : byte :=
  let '(src, offset) := if (i <? 8)%nat then (b0 b, i) else (b1 b, (i - 8)%nat) in
  byte_of_Z (Z.land (Z.shiftr src ((7 - Z.of_nat offset) * 8)) 255).

Definition MarshalBinary (b : B16) : list byte :=
  map (MarshalBinary_at b) (seq 0 16).

(** The loop body of [UnmarshalBinary]: byte [i] is or-ed into the word. *)
Definition UnmarshalBinary_at (b : B16) (ib : nat * byte) : B16 :=
  let '(i, x) := ib in
  if (i <? 8)%nat
  then mkB16 (Z.lor (b0 b) (Z.shiftl (Z_of_byte x) ((7 - Z.of_nat i) * 8))) (b1 b)
  else mkB16 (b0 b) (Z.lor (b1 b) (Z.shiftl (Z_of_byte x) ((7 - Z.of_nat (i - 8)) * 8))).

Definition UnmarshalBinary (b : B16) (bs : list byte) : option B16 :=
  if decide (length bs = 16%nat)
  then Some (foldl UnmarshalBinary_at b (zip (seq 0 16) bs))
  else None.

Definition IsZero (b : B16) : bool := bool_decide (b0 b = 0) && bool_decide (b1 b = 0).

(** ** [UUID]

    [UUID], [node.NodeId] and [consensus.InstanceID] are structs that embed a
    [B16] and add no fields. *)
Abbreviation UUID := B16.
Abbreviation NodeId := B16.
Abbreviation InstanceID := B16.

Definition UUID_NUM_BYTES : Z := 16.

(** The embedded timestamp is read by the [go-uuid] package, which is not part
    of the repository. *)
Class UUIDLib := uuid_Time : list byte → Z.

(** Used to evaluate examples. *)
Definition example_uuid : UUIDLib := λ bs, be_Z (take 8 bs).

Definition UUID_Bytes (u : UUID) : list byte := MarshalBinary u.
Definition UUID_Time `{UUIDLib} (u : UUID) : Z := uuid_Time (MarshalBinary u).

(** ** The binary form *)

Lemma marshal_byte x s : 0 ≤ s → byte_of_Z (Z.land (Z.shiftr x s) 255) = byte_of_Z (x / 2 ^ s).
Proof.
  intros Hs. apply Z_of_byte_inj. rewrite !Z_of_byte_of_Z, Z.shiftr_div_pow2 by done.
  change 255 with (Z.ones 8). rewrite Z.land_ones by done. by rewrite Z.mod_mod.
Qed.

Lemma MarshalBinary_be b : MarshalBinary b = be_bytes 8 (b0 b) ++ be_bytes 8 (b1 b).
Proof.
  Transparent le_bytes be_bytes.
  unfold MarshalBinary, MarshalBinary_at, be_bytes. cbn.
  by rewrite !marshal_byte, !Z.div_div, ?Z.div_1_r by done.
Qed.

Lemma lor_disjoint x t k : 0 ≤ k → 0 ≤ t < 2 ^ k → Z.lor (Z.shiftl x k) t = x * 2 ^ k + t.
Proof.
  intros Hk Ht. rewrite <-Z.shiftl_mul_pow2 by done. rewrite <-Z.add_lor_land.
  assert (Z.land (Z.shiftl x k) t = 0) as ->; [|by rewrite Z.add_0_r].
  apply Z.bits_inj'. intros n Hn. rewrite Z.land_spec, Z.bits_0.
  destruct (decide (n < k)).
  - by rewrite Z.shiftl_spec_low.
  - destruct (decide (t = 0)) as [->|]; [by rewrite Z.bits_0, andb_false_r|].
    rewrite (Z.bits_above_log2 t n), andb_false_r; [done|by destruct Ht|].
    apply Z.log2_lt_pow2; [lia|]. apply Z.lt_le_trans with (2 ^ k); [lia|].
    apply Z.pow_le_mono_r; lia.
Qed.

Lemma be_Z_cons_lor b bs :
  be_Z (b :: bs) = Z.lor (Z.shiftl (Z_of_byte b) (8 * length bs)) (be_Z bs).
Proof.
  pose proof (be_Z_range bs) as Hr. change 256 with (2 ^ 8) in Hr.
  rewrite <-Z.pow_mul_r in Hr by lia.
  rewrite lor_disjoint by lia. rewrite be_Z_cons.
  change 256 with (2 ^ 8). rewrite <-Z.pow_mul_r by lia. done.
Qed.

(** Decoding ors the bytes into whatever the receiver held before. *)
Lemma UnmarshalBinary_lor b bs :
  UnmarshalBinary b bs =
    if decide (length bs = 16%nat)
    then Some (mkB16 (Z.lor (b0 b) (be_Z (take 8 bs))) (Z.lor (b1 b) (be_Z (drop 8 bs))))
    else None.
Proof.
  unfold UnmarshalBinary. case_decide as Hl; [|done]. f_equal.
  do 16 (destruct bs as [|? bs]; [done|]). destruct bs; [|done].
  cbn [take drop]. cbn -[Z.lor Z.shiftl Z.mul be_Z].
  rewrite !be_Z_cons_lor. cbn [length].
  change (be_Z []) with 0. rewrite !Z.lor_0_r, <-!Z.lor_assoc. done.
Qed.

Lemma length_MarshalBinary b : length (MarshalBinary b) = 16%nat.
Proof. done. Qed.

(** Decoding what was encoded into a fresh value gives the value back. *)
Lemma Unmarshal_Marshal b : B16_wf b → UnmarshalBinary B16_zero (MarshalBinary b) = Some b.
Proof.
  intros [H0 H1]. rewrite UnmarshalBinary_lor, length_MarshalBinary, decide_True by done.
  rewrite MarshalBinary_be, take_app_length', drop_app_length' by (by rewrite length_be_bytes).
  rewrite !be_Z_be_bytes, !Z.lor_0_l. change (256 ^ 8%nat) with (2 ^ 64).
  rewrite !Z.mod_small by done. by destruct b.
Qed.

Lemma Unmarshal_wf bs b : UnmarshalBinary B16_zero bs = Some b → B16_wf b.
Proof.
  rewrite UnmarshalBinary_lor. case_decide as Hl; [|done]. intros [= <-].
  unfold B16_wf. cbn [b0 b1 B16_zero]. rewrite !Z.lor_0_l.
  pose proof (be_Z_range (take 8 bs)) as H1. pose proof (be_Z_range (drop 8 bs)) as H2.
  rewrite length_take, Hl in H1. rewrite length_drop, Hl in H2. done.
Qed.

Lemma Marshal_Unmarshal bs b : UnmarshalBinary B16_zero bs = Some b → MarshalBinary b = bs.
Proof.
  rewrite UnmarshalBinary_lor. case_decide as Hl; [|done]. intros [= <-].
  rewrite MarshalBinary_be. cbn [b0 b1 B16_zero]. rewrite !Z.lor_0_l, !be_bytes_be_Z.
  - apply take_drop.
  - by rewrite length_drop, Hl.
  - by rewrite length_take, Hl.
Qed.

Lemma MarshalBinary_inj b c : B16_wf b → B16_wf c → MarshalBinary b = MarshalBinary c → b = c.
Proof.
  intros Hb%Unmarshal_Marshal Hc%Unmarshal_Marshal Heq. congruence.
Qed.

(** Comparing binary forms compares the words, most significant first. *)
Lemma bytes_compare_Marshal b c :
  B16_wf b → B16_wf c →
  bytes_compare (MarshalBinary b) (MarshalBinary c) =
    match b0 b ?= b0 c with Eq => b1 b ?= b1 c | r => r end.
Proof.
  intros [Hb0 Hb1] [Hc0 Hc1].
  assert (∀ u v w, bytes_compare (u ++ v) (u ++ w) = bytes_compare v w) as Happ.
  { induction u as [|x u IH]; intros; cbn; [done|]. by rewrite Z.compare_refl. }
  assert (∀ n x y, 0 ≤ x < 256 ^ Z.of_nat n → 0 ≤ y < 256 ^ Z.of_nat n →
    bytes_compare (be_bytes n x) (be_bytes n y) = (x ?= y)) as Hbe.
  { intros n x y Hx Hy. rewrite bytes_compare_be by (by rewrite !length_be_bytes).
    by rewrite !be_Z_be_bytes, !Z.mod_small. }
  assert (∀ u u' v w, length u = length u' → u ≠ u' →
    bytes_compare (u ++ v) (u' ++ w) = bytes_compare u u') as Hne.
  { induction u as [|x u IH]; intros [|y u'] v w Hl Hn; cbn in *; try done.
    destruct (Z.compare_spec (Z_of_byte x) (Z_of_byte y)) as [Heq| |]; [|done..].
    apply Z_of_byte_inj in Heq as ->. apply IH; [lia|congruence]. }
  rewrite !MarshalBinary_be.
  destruct (decide (b0 b = b0 c)) as [->|Hd].
  - rewrite Happ, Z.compare_refl. by apply Hbe.
  - assert (be_bytes 8 (b0 b) ≠ be_bytes 8 (b0 c)) as Hd'.
    { intros Heq. apply Hd. apply (f_equal be_Z) in Heq.
      rewrite !be_Z_be_bytes in Heq. by rewrite !Z.mod_small in Heq. }
    rewrite Hne, Hbe by (done || by rewrite !length_be_bytes).
    by destruct (Z.compare_spec (b0 b) (b0 c)).
Qed.

(** ** Properties *)

(** The 16 byte encoding of ids is a bijection that keeps the order:
    decoding into a zero value undoes encoding, every 16 bytes are the encoding
    of exactly one id, any other length is refused, and the byte order by which
    ids are sorted is the order of the two 64 bit words. *)
Theorem b16_encoding (b c : B16) (bs : list byte)
    (Hb : B16_wf b) (Hc : B16_wf c) :
  UnmarshalBinary B16_zero (MarshalBinary b) = Some b ∧
  (length bs = 16%nat → ∃ d, UnmarshalBinary B16_zero bs = Some d ∧ B16_wf d ∧ MarshalBinary d = bs) ∧
  (length bs ≠ 16%nat → UnmarshalBinary c bs = None) ∧
  bytes_compare (MarshalBinary b) (MarshalBinary c) =
    match Z.compare (b0 b) (b0 c) with Eq => Z.compare (b1 b) (b1 c) | o => o end.
Proof.
  split_and!; [by apply Unmarshal_Marshal| | |by apply bytes_compare_Marshal].
  - intros Hl. pose proof (UnmarshalBinary_lor B16_zero bs) as Hu. rewrite decide_True in Hu by done.
    eexists. split; [exact Hu|]. split; [by eapply Unmarshal_wf|by apply Marshal_Unmarshal].
  - intros Hl. by rewrite UnmarshalBinary_lor, decide_False.
Qed.

Lemma b16_encoding_witness :
  UnmarshalBinary B16_zero (MarshalBinary (mkB16 1 2)) = Some (mkB16 1 2) ∧
  bytes_compare (MarshalBinary (mkB16 1 2)) (MarshalBinary (mkB16 1 3)) = Lt.
Proof.
  assert (B16_wf (mkB16 1 2)) as Hb by (unfold B16_wf; cbn; lia).
  assert (B16_wf (mkB16 1 3)) as Hc by (unfold B16_wf; cbn; lia).
  destruct (b16_encoding _ _ [] Hb Hc) as (H1 & _ & _ & H2). split; [exact H1|exact H2].
Defined.


#[global] Opaque le_bytes be_bytes MarshalBinary UnmarshalBinary.
