(* ===== verification/Partitioner.v ===== *)
(** * The partitioner

    [src/partitioner]: keys are mapped to tokens by their MD5 digest, which the
    code takes from Go's [crypto/md5]; it is written out here after RFC 1321.
    Words are 32 bits wide, kept as integers modulo [2 ^ 32]. *)

From S2P Require Import Prelude Bytes.

(** [type Token []byte] *)
Abbreviation Token := (list byte).

(** [type Partitioner interface] *)
Class Partitioner := partitioner_GetToken : string → Token.

Module MD5.

Definition rotl (x s : Z) : Z := u32 (Z.lor (Z.shiftl x s) (Z.shiftr x (32 - s))).
Definition not32 (x : Z) : Z := Z.lxor x u32_max.

(** The sines of 1 to 64 in radians, as 32 bit fractions. *)
Definition K : list Z := [
  3614090360; 3905402710; 606105819; 3250441966; 4118548399; 1200080426; 2821735955; 4249261313;
  1770035416; 2336552879; 4294925233; 2304563134; 1804603682; 4254626195; 2792965006; 1236535329;
  4129170786; 3225465664; 643717713; 3921069994; 3593408605; 38016083; 3634488961; 3889429448;
  568446438; 3275163606; 4107603335; 1163531501; 2850285829; 4243563512; 1735328473; 2368359562;
  4294588738; 2272392833; 1839030562; 4259657740; 2763975236; 1272893353; 4139469664; 3200236656;
  681279174; 3936430074; 3572445317; 76029189; 3654602809; 3873151461; 530742520; 3299628645;
  4096336452; 1126891415; 2878612391; 4237533241; 1700485571; 2399980690; 4293915773; 2240044497;
  1873313359; 4264355552; 2734768916; 1309151649; 4149444226; 3174756917; 718787259; 3951481745].

(** The shifts of the four rounds. *)
Definition shift (i : nat) : Z :=
  let row := match (i `div` 16)%nat with
             | 0%nat => [7; 12; 17; 22] | 1%nat => [5; 9; 14; 20]
             | 2%nat => [4; 11; 16; 23] | _ => [6; 10; 15; 21]
             end in
  nth (i mod 4)%nat row 0.

Record state := mkState { sa : Z; sb : Z; sc : Z; sd : Z }.

(** The mixing function of step [i] and the word of the block it takes. *)
Definition mix (i : nat) (s : state) : Z * nat :=
  match (i `div` 16)%nat with
  | 0%nat => (Z.lor (Z.land (sb s) (sc s)) (Z.land (not32 (sb s)) (sd s)), i)
  | 1%nat => (Z.lor (Z.land (sd s) (sb s)) (Z.land (not32 (sd s)) (sc s)), ((5 * i + 1) mod 16)%nat)
  | 2%nat => (Z.lxor (Z.lxor (sb s) (sc s)) (sd s), ((3 * i + 5) mod 16)%nat)
  | _ => (Z.lxor (sc s) (Z.lor (sb s) (not32 (sd s))), ((7 * i) mod 16)%nat)
  end.

Definition step (block : list Z) (s : state) (i : nat) : state :=
  let '(f, g) := mix i s in
  let x := u32 (f + sa s + nth i K 0 + nth g block 0) in
  mkState (sd s) (u32 (sb s + rotl x (shift i))) (sb s) (sc s).

Definition compress (s : state) (block : list Z) : state :=
  let t := foldl (step block) s (seq 0 64) in
  mkState (u32 (sa s + sa t)) (u32 (sb s + sb t)) (u32 (sc s + sc t)) (u32 (sd s + sd t)).

(** A one bit, zeros up to 56 bytes of the last block, the length in bits. *)
Definition pad (bs : list byte) : list byte :=
  let zeros := ((119 - length bs mod 64) mod 64)%nat in
  bs ++ byte_of_Z 128 :: replicate zeros (byte_of_Z 0) ++ le_bytes 8 (8 * length bs).

(** [n] pieces of [k] elements. *)
Fixpoint chunks {A} (k n : nat) (l : list A) : list (list A) :=
  match n with
  | O => []
  | S n => take k l :: chunks k n (drop k l)
  end.

Definition words (bs : list byte) : list Z := map le_Z (chunks 4 16 bs).

Definition init : state := mkState 1732584193 4023233417 2562383102 271733878.

Definition Sum (bs : list byte) : list byte :=
  let msg := pad bs in
  let blocks := map words (chunks 64 (length msg `div` 64)%nat msg) in
  let s := foldl compress init blocks in
  le_bytes 4 (sa s) ++ le_bytes 4 (sb s) ++ le_bytes 4 (sc s) ++ le_bytes 4 (sd s).

End MD5.

(** [MD5Partitioner.GetToken] *)
Definition GetToken (key : string) : Token := MD5.Sum (bytes_of_string key).

(** [NewMD5Partitioner] *)
Definition MD5Partitioner : Partitioner := GetToken.

(** ** Padding *)

Lemma length_pad bs : (length (MD5.pad bs) mod 64 = 0)%nat.
Proof.
  unfold MD5.pad. rewrite length_app. cbn [length].
  rewrite length_app, length_replicate, length_le_bytes.
  pose proof (Nat.div_mod_eq (length bs) 64) as Hd.
  pose proof (Nat.mod_upper_bound (length bs) 64) as Hb.
  set (r := (length bs mod 64)%nat) in *. set (q := (length bs / 64)%nat) in *. clearbody q r.
  destruct (decide (r ≤ 55)%nat) as [Hr|Hr].
  - assert ((119 - r) mod 64 = 55 - r)%nat as ->.
    { replace (119 - r)%nat with (55 - r + 1 * 64)%nat by lia. rewrite Nat.Div0.mod_add. apply Nat.mod_small. lia. }
    replace (length bs + S (55 - r + 8))%nat with (0 + (q + 1) * 64)%nat by lia.
    by rewrite Nat.Div0.mod_add.
  - rewrite (Nat.mod_small (119 - r)) by lia.
    replace (length bs + S (119 - r + 8))%nat with (0 + (q + 2) * 64)%nat by lia.
    by rewrite Nat.Div0.mod_add.
Qed.

Lemma concat_chunks {A} k n (l : list A) : (length l = k * n)%nat → concat (MD5.chunks k n l) = l.
Proof.
  revert l. induction n as [|n IH]; intros l Hl; cbn.
  - destruct l; [done|cbn in Hl; lia].
  - rewrite IH; [apply take_drop|]. rewrite length_drop. lia.
Qed.

Lemma length_chunks {A} k n (l : list A) c :
  (length l = k * n)%nat → c ∈ MD5.chunks k n l → length c = k.
Proof.
  revert l. induction n as [|n IH]; intros l Hl; cbn; [by intros ?%elem_of_nil|].
  intros [->|Hc]%elem_of_cons; [rewrite length_take; lia|].
  eapply IH; [|exact Hc]. rewrite length_drop. lia.
Qed.

(** ** Tokens *)

Definition token_of (ns : list Z) : Token := map byte_of_Z ns.

(** The digests [partitioner/md5_test.go] expects, and one of RFC 1321. *)
Example GetToken_1234 :
  GetToken "1234" = token_of [129; 220; 155; 219; 82; 208; 77; 194; 0; 54; 219; 216; 49; 62; 208; 85].
Proof. vm_compute. reflexivity. Qed.

Example GetToken_blake :
  GetToken "blake" = token_of [58; 164; 158; 198; 191; 201; 16; 100; 127; 161; 197; 160; 19; 228; 142; 239].
Proof. vm_compute. reflexivity. Qed.

Example Sum_two_blocks :
  GetToken "12345678901234567890123456789012345678901234567890123456789012345678901234567890" =
  token_of [87; 237; 244; 162; 43; 227; 201; 85; 172; 73; 218; 46; 33; 7; 182; 122].
Proof. vm_compute. reflexivity. Qed.
