(* ===== verification/Topology.v ===== *)
(** * The topology

    [src/topology]: the ring of a datacenter, on which the replicas of a token
    are found, the container of the rings of all datacenters, and the topology
    a replica routes with.  Every operation of the code holds the lock of the
    object it works on; an index out of range (a panic) is [None]. *)

From S2P Require Import Prelude Bytes Types Partitioner.

Abbreviation DatacenterID := string.

Inductive NodeStatus := NODE_INITIALIZING | NODE_UP | NODE_DOWN.

#[export] Instance NodeStatus_eq_dec : EqDecision NodeStatus.
Proof. solve_decision. Defined.

(** The part of [type Node interface] the topology uses. *)
Class TopologyNode (N : Type) := {
  GetId : N → NodeId;
  GetToken : N → Token;
  GetDatacenterId : N → DatacenterID;
}.

(** ** [sort.Search]

    Go's binary search for the first index at which [f] holds.  The distance
    between the bounds decreases in every round, so [n] rounds are enough. *)
Fixpoint Search_loop (fuel : nat) (f : nat → bool) (i j : nat) : nat :=
  match fuel with
  | O => i
  | S fuel =>
      if (i <? j)%nat then
        let h := (i + (j - i) / 2)%nat in
        if negb (f h) then Search_loop fuel f (h + 1) j else Search_loop fuel f i h
      else i
  end.
Definition Search (n : nat) (f : nat → bool) : nat := Search_loop n f 0 n.

(** The bounds after [fuel] rounds, to state that the loop has ended. *)
Lemma Search_loop_spec fuel f n i j :
  (i ≤ j ≤ n)%nat → (j - i ≤ fuel)%nat →
  (∀ a b, (a ≤ b < n)%nat → f a = true → f b = true) →
  (∀ k, (k < i)%nat → f k = false) → (∀ k, (j ≤ k < n)%nat → f k = true) →
  let r := Search_loop fuel f i j in
  (r ≤ n)%nat ∧ (∀ k, (k < r)%nat → f k = false) ∧ (∀ k, (r ≤ k < n)%nat → f k = true).
Proof.
  intros Hij Hfuel Hmono. revert i j Hij Hfuel.
  induction fuel as [|fuel IH]; intros i j Hij Hfuel Hlo Hhi; cbn [Search_loop].
  - replace j with i in * by lia. cbn. split_and!; [lia|done|done].
  - destruct (Nat.ltb_spec i j) as [Hlt|Hge]; cycle 1.
    { replace j with i in * by lia. cbn. split_and!; [lia|done|done]. }
    assert (i ≤ i + (j - i) / 2 < j)%nat as Hh.
    { pose proof (Nat.div_lt (j - i) 2). lia. }
    set (h := (i + (j - i) / 2)%nat) in *. clearbody h.
    destruct (f h) eqn:Hf; cbn [negb]; apply IH; try lia; [done| |intros k Hk|done].
    + intros k Hk. apply (Hmono h); [lia|done].
    + destruct (f k) eqn:Hfk; [|done]. exfalso.
      rewrite (Hmono k h) in Hf; [done|lia|done].
Qed.

(** ** Rings *)

Section topology.
Context {N : Type} {TN : TopologyNode N} {Mo : MapOrder}.

(** [nodeSorter.Less] *)
Definition Less (n m : N) : bool := bool_decide (bytes_compare (GetToken n) (GetToken m) = Lt).

(** What [sort.Sort] establishes between an element and the ones after it. *)
Definition not_after (n m : N) : Prop := Less m n = false.

#[export] Instance not_after_dec : RelDecision not_after.
Proof. intros n m. unfold not_after. apply _. Defined.

Record Ring := mkRing {
  nodeMap : gmap NodeId N;
  tokenRing : list N;
  priorRing : list N;
}.

Definition NewRing : Ring := mkRing ∅ [] [].

Definition Ring_Size (r : Ring) : nat := length (tokenRing r).

Definition Ring_GetNode (nid : NodeId) (r : Ring) : string + N :=
  match nodeMap r !! nid with
  | Some n => inr n
  | None => inl "No node found by node id"
  end.

(** Any algorithm that sorts will do for [sort.Sort]: the order of nodes with
    equal tokens depends on the order in which the map is visited anyway. *)
Definition refreshRing (r : Ring) : Ring :=
  let nodes := map_order (map_to_list (nodeMap r)).*2 in
  mkRing (nodeMap r) (merge_sort not_after nodes) (tokenRing r).

Definition Ring_AddNode (n : N) : ST Ring string unit := λ r,
  match nodeMap r !! GetId n with
  | Some _ => (Fail "This node is already a part of the ring", r)
  | None => (Ok tt, refreshRing (mkRing (<[GetId n := n]> (nodeMap r)) (tokenRing r) (priorRing r)))
  end.

Definition Ring_AllNodes (r : Ring) : list N := tokenRing r.

(** [searcher]; [sort.Search] calls it with indices in range. *)
Definition searcher (t : Token) (r : Ring) (i : nat) : bool :=
  match tokenRing r !! i with
  | Some n => bool_decide (bytes_compare t (GetToken n) ≠ Gt)
  | None => false
  end.

Definition Ring_GetNodesForToken (t : Token) (replicationFactor : Z) (r : Ring) : option (list N) :=
  let ringLen := length (tokenRing r) in
  let numNodes := if (ringLen <? Z.to_nat replicationFactor)%nat then ringLen
                  else Z.to_nat replicationFactor in
  let idx := Search ringLen (searcher t r) in
  mapM (λ i, tokenRing r !! ((idx + i) mod ringLen)%nat) (seq 0 numNodes).

(** ** Datacenters *)

Abbreviation rings_t := (gmap DatacenterID Ring).

(** [DatacenterContainer] is a struct with the field [rings]. *)
Definition DC_AddNode (n : N) : ST rings_t string unit := λ rings,
  let dcId := GetDatacenterId n in
  let rings := if decide (is_Some (rings !! dcId)) then rings else <[dcId := NewRing]> rings in
  match rings !! dcId with
  | Some ring => let '(r, ring) := Ring_AddNode n ring in (r, <[dcId := ring]> rings)
  | None => (Panic, rings)
  end.

Definition DC_Size (rings : rings_t) : nat :=
  foldl (λ num ring, (num + Ring_Size ring)%nat) 0%nat (map_order (map_to_list rings)).*2.

Definition DC_AllNodes (rings : rings_t) : list N :=
  foldl (λ nodes ring, nodes ++ Ring_AllNodes ring) [] (map_order (map_to_list rings)).*2.

Definition DC_GetRing (dcId : DatacenterID) (rings : rings_t) : string + Ring :=
  match rings !! dcId with Some ring => inr ring | None => inl "Unknown datacenter" end.

Fixpoint nodes_for_token (t : Token) (replicationFactor : Z) (rings : list (DatacenterID * Ring))
    (nodes : gmap DatacenterID (list N)) : option (gmap DatacenterID (list N)) :=
  match rings with
  | [] => Some nodes
  | (dcid, ring) :: rings =>
      l ← Ring_GetNodesForToken t replicationFactor ring;
      nodes_for_token t replicationFactor rings (<[dcid := l]> nodes)
  end.

Definition DC_GetNodesForToken (t : Token) (replicationFactor : Z) (rings : rings_t) :
    option (gmap DatacenterID (list N)) :=
  nodes_for_token t replicationFactor (map_order (map_to_list rings)) ∅.

(** ** The topology *)

Record Topology := mkTopology {
  partitioner : Partitioner;
  localNodeID : NodeId;
  localDcID : DatacenterID;
  replicationFactor : Z;
  rings : rings_t;
  nodes : gmap NodeId N;
}.

Definition NewTopology (localNID : NodeId) (localDCID : DatacenterID) (prtnr : Partitioner)
    (rf : Z) : Topology :=
  mkTopology prtnr localNID localDCID rf ∅ ∅.

Definition AddNode (n : N) : ST Topology string unit := λ t,
  let dcId := GetDatacenterId n in
  let rs := if decide (is_Some (rings t !! dcId)) then rings t else <[dcId := NewRing]> (rings t) in
  match rs !! dcId with
  | Some ring =>
      let '(err, ring) := Ring_AddNode n ring in
      let ns := if is_ok err then <[GetId n := n]> (nodes t) else nodes t in
      (err, mkTopology (partitioner t) (localNodeID t) (localDcID t) (replicationFactor t)
              (<[dcId := ring]> rs) ns)
  | None => (Panic, t)
  end.

Definition Size (t : Topology) : nat :=
  foldl (λ num ring, (num + Ring_Size ring)%nat) 0%nat (map_order (map_to_list (rings t))).*2.

Definition AllNodes (t : Topology) : list N :=
  foldl (λ ns ring, ns ++ Ring_AllNodes ring) [] (map_order (map_to_list (rings t))).*2.

(** [AllNodes] on the nil ring of a datacenter without nodes panics. *)
Definition AllLocalNodes (t : Topology) : option (list N) :=
  ring ← rings t !! localDcID t; Some (Ring_AllNodes ring).

Definition GetRing (dcId : DatacenterID) (t : Topology) : string + Ring :=
  match rings t !! dcId with Some ring => inr ring | None => inl "Unknown datacenter" end.

Definition GetNode (nid : NodeId) (t : Topology) : string + N :=
  match nodes t !! nid with Some n => inr n | None => inl "No node found by node id" end.

Definition GetLocalNodeID (t : Topology) : NodeId := localNodeID t.
Definition GetLocalDatacenterID (t : Topology) : DatacenterID := localDcID t.
Definition Topology_GetToken (key : string) (t : Topology) : Token := partitioner t key.

(** The replication factor is a [uint]; the ring takes it as a [uint32]. *)
Definition GetNodesForToken (tk : Token) (t : Topology) : option (gmap DatacenterID (list N)) :=
  nodes_for_token tk (u32 (replicationFactor t)) (map_order (map_to_list (rings t))) ∅.

Definition GetLocalNodesForToken (tk : Token) (t : Topology) : option (list N) :=
  match rings t !! localDcID t with
  | None => Some []
  | Some ring => Ring_GetNodesForToken tk (u32 (replicationFactor t)) ring
  end.

Definition TokenLocallyReplicated (tk : Token) (t : Topology) : option bool :=
  ns ← GetLocalNodesForToken tk t;
  Some (existsb (λ n, bool_decide (GetId n = localNodeID t)) ns).

End topology.
Arguments Ring : clear implicits.
Arguments Topology : clear implicits.

(** ** Lists *)

Lemma StronglySorted_lookup {A} (R : relation A) l i j x y :
  StronglySorted R l → l !! i = Some x → l !! j = Some y → (i < j)%nat → R x y.
Proof.
  intros Hs. revert i j. induction Hs as [|a l _ IH Ha]; intros i j Hi Hj Hij; [done|].
  destruct j as [|j]; [lia|]. destruct i as [|i]; cbn in Hi, Hj.
  - simplify_eq. rewrite Forall_lookup in Ha. by eapply Ha.
  - eapply IH; [done..|lia].
Qed.

Lemma filter_none {A} (P : A → Prop) `{∀ x, Decision (P x)} l :
  Forall (λ x, ¬ P x) l → filter P l = [].
Proof. induction 1 as [|x l Hx _ IH]; [done|]. by rewrite filter_cons, decide_False. Qed.

(** ** Tokens *)

Section spec.
Context {N : Type} {TN : TopologyNode N}.

(** The order of the ring: [n] is at or before [m]. *)
Lemma not_after_spec (n m : N) : not_after n m ↔ bytes_compare (GetToken n) (GetToken m) ≠ Gt.
Proof.
  unfold not_after, Less. rewrite bool_decide_eq_false, (bytes_compare_antisym (GetToken n)).
  by destruct (bytes_compare (GetToken n) (GetToken m)).
Qed.

Lemma bytes_compare_le_trans a b c :
  bytes_compare a b ≠ Gt → bytes_compare b c ≠ Gt → bytes_compare a c ≠ Gt.
Proof.
  intros Hab Hbc Hac. rewrite bytes_compare_antisym in Hac.
  destruct (bytes_compare c a) eqn:Hca; [done| |done].
  destruct (bytes_compare b c) eqn:E; [|  |done].
  - apply bytes_compare_eq in E as ->. by rewrite bytes_compare_antisym, Hca in Hab.
  - apply Hab. by rewrite bytes_compare_antisym, (bytes_compare_lt_trans b c a).
Qed.

#[export] Instance not_after_trans : Transitive (not_after (N:=N)).
Proof. intros a b c. rewrite !not_after_spec. apply bytes_compare_le_trans. Qed.

#[export] Instance not_after_total : Total (not_after (N:=N)).
Proof.
  intros a b. rewrite !not_after_spec, (bytes_compare_antisym (GetToken a)).
  destruct (bytes_compare (GetToken a) (GetToken b)); cbn; auto.
Qed.

Lemma not_after_antisym (n m : N) : not_after n m → not_after m n → GetToken n = GetToken m.
Proof.
  rewrite !not_after_spec, (bytes_compare_antisym (GetToken n)), <-bytes_compare_eq.
  by destruct (bytes_compare (GetToken n) (GetToken m)).
Qed.

(** ** The invariant of a ring

    The ring holds the nodes of the map, each under its id, in the order of
    their tokens. *)
Record ring_wf (r : Ring N) : Prop := {
  ring_ids : ∀ nid n, nodeMap r !! nid = Some n → GetId n = nid;
  ring_nodes : tokenRing r ≡ₚ (map_to_list (nodeMap r)).*2;
  ring_sorted : StronglySorted not_after (tokenRing r);
}.

Lemma elem_of_ring r n : ring_wf r → n ∈ tokenRing r ↔ nodeMap r !! GetId n = Some n.
Proof.
  intros Hr. rewrite (ring_nodes r Hr), list_elem_of_fmap. split.
  - intros ([nid m] & -> & Hm%elem_of_map_to_list). cbn in *. by rewrite (ring_ids r Hr nid m Hm).
  - intros Hn. exists (GetId n, n). by rewrite elem_of_map_to_list.
Qed.

Lemma ring_ids_NoDup r : ring_wf r → NoDup (GetId <$> tokenRing r).
Proof.
  intros Hr. rewrite (ring_nodes r Hr), <-list_fmap_compose.
  rewrite (list_fmap_ext _ fst); [apply NoDup_fst_map_to_list|].
  intros i [nid n] Hi%list_elem_of_lookup_2%elem_of_map_to_list. cbn. by apply (ring_ids r Hr).
Qed.

Lemma ring_size r : ring_wf r → length (tokenRing r) = size (nodeMap r).
Proof. intros Hr. by rewrite (ring_nodes r Hr), length_fmap, length_map_to_list. Qed.

Lemma NewRing_wf : ring_wf (NewRing (N:=N)).
Proof.
  split; cbn; [by intros ??; rewrite lookup_empty|by rewrite map_to_list_empty|constructor].
Qed.

Lemma refreshRing_wf {Mo : MapOrder} r :
  (∀ nid n, nodeMap r !! nid = Some n → GetId n = nid) → ring_wf (refreshRing r).
Proof.
  intros Hids. split; [exact Hids| |].
  - cbn. by rewrite merge_sort_Permutation, map_order_perm.
  - cbn. apply StronglySorted_merge_sort; apply _.
Qed.

Lemma Ring_AddNode_spec {Mo : MapOrder} n r :
  ring_wf r →
  match nodeMap r !! GetId n with
  | Some _ => Ring_AddNode n r = (Fail "This node is already a part of the ring", r)
  | None => ∃ r', Ring_AddNode n r = (Ok tt, r') ∧ ring_wf r' ∧
              nodeMap r' = <[GetId n := n]> (nodeMap r) ∧ priorRing r' = tokenRing r ∧
              tokenRing r' ≡ₚ n :: tokenRing r
  end.
Proof.
  intros Hr. unfold Ring_AddNode. destruct (nodeMap r !! GetId n) as [m|] eqn:Hn; [done|].
  eexists. split; [done|]. assert (ring_wf (refreshRing (mkRing (<[GetId n:=n]> (nodeMap r))
    (tokenRing r) (priorRing r)))) as Hw.
  { apply refreshRing_wf. cbn. intros nid m. rewrite lookup_insert_Some.
    intros [[<- <-]|[_ Hm]]; [done|by apply (ring_ids r Hr)]. }
  split_and!; [exact Hw|done|done|].
  rewrite (ring_nodes _ Hw). cbn [refreshRing nodeMap].
  rewrite map_to_list_insert by done. cbn. by rewrite (ring_nodes r Hr).
Qed.

Lemma Ring_AddNode_wf {Mo : MapOrder} n r : ring_wf r → ring_wf (Ring_AddNode n r).2.
Proof.
  intros Hr. pose proof (Ring_AddNode_spec n r Hr) as Hn.
  destruct (nodeMap r !! GetId n); [by rewrite Hn|]. destruct Hn as (r' & -> & Hr' & _). exact Hr'.
Qed.

(** ** The replicas of a token

    Reference definition: walking the ring from the first node whose token is
    not below [t], and around. *)
Definition from_token (t : Token) (l : list N) : list N :=
  filter (λ n, bytes_compare t (GetToken n) ≠ Gt) l ++
  filter (λ n, bytes_compare t (GetToken n) = Gt) l.

Definition replicas_of (t : Token) (rf : Z) (l : list N) : list N :=
  take (Z.to_nat rf) (from_token t l).

Lemma from_token_perm t l : from_token t l ≡ₚ l.
Proof.
  unfold from_token. induction l as [|n l IH]; [done|]. rewrite !filter_cons.
  destruct (decide (bytes_compare t (GetToken n) = Gt)) as [E|E].
  - rewrite decide_False by (intros E'; exact (E' E)). rewrite <-Permutation_middle. by constructor.
  - rewrite decide_True by done. cbn. by constructor.
Qed.

(** A sorted ring is split by the token at a single place. *)
Lemma split_at_token t l idx :
  (idx ≤ length l)%nat →
  (∀ i n, (i < idx)%nat → l !! i = Some n → bytes_compare t (GetToken n) = Gt) →
  (∀ i n, (idx ≤ i)%nat → l !! i = Some n → bytes_compare t (GetToken n) ≠ Gt) →
  from_token t l = drop idx l ++ take idx l.
Proof.
  intros Hidx Hlo Hhi.
  assert (Forall (λ n, bytes_compare t (GetToken n) = Gt) (take idx l)) as Ht.
  { apply Forall_lookup. intros i n [Hi Hlt]%lookup_take_Some. apply (Hlo i); [lia|done]. }
  assert (Forall (λ n, bytes_compare t (GetToken n) ≠ Gt) (drop idx l)) as Hd.
  { apply Forall_lookup. intros i n. rewrite lookup_drop. intros Hi.
    apply (Hhi (idx + i)%nat); [lia|done]. }
  unfold from_token. rewrite <-(take_drop idx l) at 1 2. rewrite !filter_app.
  rewrite (Forall_filter_id (λ n, _ ≠ Gt) (drop idx l)) by done.
  rewrite (Forall_filter_id (λ n, _ = Gt) (take idx l)) by done.
  rewrite (filter_none (λ n, _ = Gt) (drop idx l)) by done.
  rewrite (filter_none (λ n, _ ≠ Gt) (take idx l)); [by rewrite app_nil_r|].
  eapply Forall_impl; [exact Ht|]. cbn. naive_solver.
Qed.

Lemma lookup_rotate (l : list N) idx i :
  (idx ≤ length l)%nat → (i < length l)%nat →
  l !! ((idx + i) mod length l)%nat = (drop idx l ++ take idx l) !! i.
Proof.
  intros Hidx Hi. destruct (decide (idx + i < length l)%nat) as [Hlt|Hge].
  - rewrite Nat.mod_small by done. rewrite lookup_app_l by (rewrite length_drop; lia).
    by rewrite lookup_drop.
  - replace (idx + i)%nat with (idx + i - length l + 1 * length l)%nat by lia.
    rewrite Nat.Div0.mod_add, Nat.mod_small by lia.
    rewrite lookup_app_r; rewrite length_drop; [|lia]. rewrite lookup_take_lt by lia. f_equal. lia.
Qed.

Lemma mapM_lookup_take (l : list N) f k :
  (k ≤ length l)%nat → (∀ i, (i < k)%nat → f i = l !! i) → mapM f (seq 0 k) = Some (take k l).
Proof.
  intros Hk Hf. apply mapM_Some. apply Forall2_same_length_lookup.
  rewrite length_seq, length_take. split; [lia|].
  intros i x n Hx Hn. apply lookup_seq in Hx as [-> Hi]. apply lookup_take_Some in Hn as [Hn _].
  cbn. by rewrite Hf.
Qed.

(** The searcher is false below the place where the token belongs and true
    from there on. *)
Lemma searcher_mono t r a b :
  StronglySorted not_after (tokenRing r) → (a ≤ b < length (tokenRing r))%nat →
  searcher t r a = true → searcher t r b = true.
Proof.
  unfold searcher. intros Hs Hab.
  destruct (lookup_lt_is_Some_2 (tokenRing r) b) as [m Hm]; [lia|]. rewrite Hm.
  destruct (tokenRing r !! a) as [n|] eqn:Hn; [|done]. rewrite !bool_decide_eq_true.
  destruct (decide (a = b)) as [->|Hne]; [congruence|]. intros Ht.
  eapply bytes_compare_le_trans; [exact Ht|]. apply not_after_spec.
  eapply StronglySorted_lookup; [exact Hs|exact Hn|exact Hm|lia].
Qed.

Lemma Search_ring t r :
  StronglySorted not_after (tokenRing r) →
  let idx := Search (length (tokenRing r)) (searcher t r) in
  (idx ≤ length (tokenRing r))%nat ∧
  from_token t (tokenRing r) = drop idx (tokenRing r) ++ take idx (tokenRing r).
Proof.
  intros Hs idx.
  destruct (Search_loop_spec (length (tokenRing r)) (searcher t r) (length (tokenRing r))
    0 (length (tokenRing r))) as (Hle & Hlo & Hhi); [lia..| |lia|lia|].
  { intros a b. by apply searcher_mono. }
  fold (Search (length (tokenRing r)) (searcher t r)) in Hle, Hlo, Hhi. fold idx in Hle, Hlo, Hhi.
  split; [done|]. apply split_at_token; [done| |].
  - intros i n Hi Hn. specialize (Hlo i Hi). unfold searcher in Hlo. rewrite Hn in Hlo.
    apply bool_decide_eq_false in Hlo. by apply dec_stable.
  - intros i n Hi Hn. pose proof (lookup_lt_Some _ _ _ Hn). specialize (Hhi i ltac:(lia)).
    unfold searcher in Hhi. rewrite Hn in Hhi. by apply bool_decide_eq_true in Hhi.
Qed.

Lemma Ring_GetNodesForToken_spec t rf r :
  ring_wf r → Ring_GetNodesForToken t rf r = Some (replicas_of t rf (tokenRing r)).
Proof.
  intros Hr. unfold Ring_GetNodesForToken, replicas_of.
  destruct (Search_ring t r (ring_sorted r Hr)) as [Hidx Hfrom].
  set (idx := Search _ _) in *. clearbody idx.
  pose proof (Permutation_length (from_token_perm t (tokenRing r))) as Hlen.
  set (k := if (_ <? _)%nat then _ else _).
  assert (k ≤ length (tokenRing r) ∧
    take k (from_token t (tokenRing r)) = take (Z.to_nat rf) (from_token t (tokenRing r)))%nat as [Hk <-].
  { subst k. destruct (Nat.ltb_spec (length (tokenRing r)) (Z.to_nat rf)); [|done].
    split; [done|]. rewrite !take_ge; [done|lia..]. }
  apply mapM_lookup_take; [lia|]. intros i Hi. rewrite Hfrom. apply lookup_rotate; lia.
Qed.

(** ** The invariant of a topology *)

Record topology_wf (t : Topology N) : Prop := {
  topology_rings : map_Forall (λ _ r, ring_wf r) (rings t);
  topology_dcs : ∀ dc r n, rings t !! dc = Some r → n ∈ tokenRing r → GetDatacenterId n = dc;
  topology_index : ∀ nid n, nodes t !! nid = Some n →
    GetId n = nid ∧ ∃ r, rings t !! GetDatacenterId n = Some r ∧ n ∈ tokenRing r;
  topology_indexed : ∀ dc r n, rings t !! dc = Some r → n ∈ tokenRing r → is_Some (nodes t !! GetId n);
}.

(** The ring [AddNode] works on. *)
Definition ring_of (dc : DatacenterID) (t : Topology N) : Ring N := default NewRing (rings t !! dc).

Lemma ring_of_wf dc t : topology_wf t → ring_wf (ring_of dc t).
Proof.
  intros Ht. unfold ring_of. destruct (rings t !! dc) as [r|] eqn:Hr; [|apply NewRing_wf].
  exact (topology_rings t Ht dc r Hr).
Qed.

Lemma AddNode_eq {Mo : MapOrder} n t :
  AddNode n t =
    let '(err, ring) := Ring_AddNode n (ring_of (GetDatacenterId n) t) in
    (err, mkTopology (partitioner t) (localNodeID t) (localDcID t) (replicationFactor t)
            (<[GetDatacenterId n := ring]> (rings t))
            (if is_ok err then <[GetId n := n]> (nodes t) else nodes t)).
Proof.
  unfold AddNode, ring_of. destruct (rings t !! GetDatacenterId n) as [r|] eqn:Hr.
  - rewrite decide_True by done. rewrite Hr. done.
  - rewrite decide_False by (by intros [? ?]). rewrite lookup_insert_eq.
    cbn [default]. destruct (Ring_AddNode n NewRing) as [err ring]. by rewrite insert_insert_eq.
Qed.

(** [AddNode] adds a node whose id is new to its datacenter, and reports an
    error without a change otherwise. *)
Lemma AddNode_spec {Mo : MapOrder} n t :
  topology_wf t →
  let dc := GetDatacenterId n in
  match nodeMap (ring_of dc t) !! GetId n with
  | Some _ => AddNode n t = (Fail "This node is already a part of the ring", t)
  | None => ∃ r, AddNode n t = (Ok tt, mkTopology (partitioner t) (localNodeID t) (localDcID t)
                   (replicationFactor t) (<[dc := r]> (rings t)) (<[GetId n := n]> (nodes t))) ∧
              ring_wf r ∧ tokenRing r ≡ₚ n :: tokenRing (ring_of dc t) ∧
              priorRing r = tokenRing (ring_of dc t)
  end.
Proof.
  intros Ht dc. rewrite AddNode_eq. fold dc.
  pose proof (Ring_AddNode_spec n (ring_of dc t) (ring_of_wf dc t Ht)) as Hn.
  destruct (nodeMap (ring_of dc t) !! GetId n) as [m|] eqn:Hm.
  - rewrite Hn. cbn [is_ok]. rewrite insert_id; [by destruct t|].
    unfold ring_of in *. by destruct (rings t !! dc).
  - destruct Hn as (r & -> & Hr & _ & Hprior & Hperm). exists r. cbn [is_ok]. done.
Qed.

Lemma AddNode_wf {Mo : MapOrder} n t : topology_wf t → topology_wf (AddNode n t).2.
Proof.
  intros Ht. pose proof (AddNode_spec n t Ht) as Hn. cbv zeta in Hn.
  destruct (nodeMap _ !! _) as [m|] eqn:Hm; [by rewrite Hn|].
  destruct Hn as (r & -> & Hr & Hperm & _). cbn [snd].
  set (dc := GetDatacenterId n) in *.
  assert (∀ m, m ∈ tokenRing (ring_of dc t) → ∃ r0, rings t !! dc = Some r0 ∧ m ∈ tokenRing r0) as Hold.
  { intros m' Hm'. unfold ring_of in Hm'. destruct (rings t !! dc) as [r0|]; [by exists r0|].
    by apply elem_of_nil in Hm'. }
  split; cbn [rings nodes].
  - apply map_Forall_insert_2; [exact Hr|exact (topology_rings t Ht)].
  - intros dc' r' n'. rewrite lookup_insert_Some. intros [[<- <-]|[_ Hr']].
    + rewrite Hperm, elem_of_cons. intros [->|(r0 & Hr0 & Hn')%Hold]; [done|].
      by eapply (topology_dcs t Ht).
    + by apply (topology_dcs t Ht).
  - intros nid m'. rewrite lookup_insert_Some. intros [[<- <-]|[_ Hm']].
    + split; [done|]. exists r. fold dc. rewrite lookup_insert_eq. split; [done|].
      rewrite Hperm. by left.
    + destruct (topology_index t Ht nid m' Hm') as (Hid & r0 & Hr0 & Hin). split; [done|].
      destruct (decide (GetDatacenterId m' = dc)) as [Hdc|Hne].
      * exists r. rewrite Hdc, lookup_insert_eq. split; [done|]. rewrite Hperm. right.
        unfold ring_of. by rewrite <-Hdc, Hr0.
      * exists r0. by rewrite lookup_insert_ne.
  - intros dc' r' n'. rewrite lookup_insert_Some. intros [[<- <-]|[_ Hr']] Hn'.
    + rewrite Hperm, elem_of_cons in Hn'. destruct Hn' as [->|(r0 & Hr0 & Hn')%Hold].
      * by rewrite lookup_insert_eq.
      * apply lookup_insert_is_Some'. right. by eapply (topology_indexed t Ht).
    + apply lookup_insert_is_Some'. right. by eapply (topology_indexed t Ht).
Qed.

Lemma NewTopology_wf nid dc p rf : topology_wf (NewTopology (N:=N) nid dc p rf).
Proof. split; cbn; [apply map_Forall_empty|set_solver..]. Qed.

(** Adding nodes one after the other. *)
Definition add_all {Mo : MapOrder} (ns : list N) (t : Topology N) : Topology N :=
  foldl (λ t n, (AddNode n t).2) t ns.

Lemma add_all_wf {Mo : MapOrder} ns t : topology_wf t → topology_wf (add_all ns t).
Proof. revert t. induction ns as [|n ns IH]; intros t Ht; [done|]. apply IH. by apply AddNode_wf. Qed.

Lemma add_all_snoc {Mo : MapOrder} ns n t : add_all (ns ++ [n]) t = (AddNode n (add_all ns t)).2.
Proof. unfold add_all. by rewrite foldl_app. Qed.

(** ** Rings built from the same nodes *)

(** The nodes of a datacenter. *)
Definition members (dc : DatacenterID) (ns : list N) : list N :=
  filter (λ n, GetDatacenterId n = dc) ns.

(** Nodes of one datacenter differ in their ids. *)
Definition ids_distinct (ns : list N) : Prop :=
  NoDup ((λ n, (GetDatacenterId n, GetId n)) <$> ns).

(** Nodes of one datacenter differ in their tokens. *)
Definition tokens_distinct (ns : list N) : Prop :=
  ∀ n m, n ∈ ns → m ∈ ns → GetDatacenterId n = GetDatacenterId m → GetToken n = GetToken m → n = m.

Lemma AddNode_fields {Mo : MapOrder} n t :
  partitioner (AddNode n t).2 = partitioner t ∧ localNodeID (AddNode n t).2 = localNodeID t ∧
  localDcID (AddNode n t).2 = localDcID t ∧ replicationFactor (AddNode n t).2 = replicationFactor t.
Proof. rewrite AddNode_eq. by destruct (Ring_AddNode _ _) as [err r]. Qed.

Lemma add_all_fields {Mo : MapOrder} ns t :
  partitioner (add_all ns t) = partitioner t ∧ localNodeID (add_all ns t) = localNodeID t ∧
  localDcID (add_all ns t) = localDcID t ∧ replicationFactor (add_all ns t) = replicationFactor t.
Proof.
  induction ns as [|n ns IH] using rev_ind; [done|]. rewrite add_all_snoc.
  destruct IH as (<- & <- & <- & <-). apply AddNode_fields.
Qed.

(** A datacenter has a ring once it has a node, and the ring has its nodes. *)
Lemma add_all_rings {Mo : MapOrder} ns nid dc0 p rf dc :
  ids_distinct ns →
  match rings (add_all ns (NewTopology nid dc0 p rf)) !! dc with
  | Some r => tokenRing r ≡ₚ members dc ns ∧ members dc ns ≠ []
  | None => members dc ns = []
  end.
Proof.
  induction ns as [|n ns IH] using rev_ind; intros Hids; [by cbn|].
  unfold ids_distinct in Hids. rewrite fmap_app, NoDup_app in Hids. destruct Hids as (Hids & Hnew & _).
  specialize (IH Hids). rewrite add_all_snoc. set (t := add_all ns _) in *.
  assert (topology_wf t) as Ht by apply add_all_wf, NewTopology_wf.
  pose proof (AddNode_spec n t Ht) as Hn. cbv zeta in Hn.
  unfold members in *. rewrite filter_app, filter_cons, filter_nil.
  destruct (decide (GetDatacenterId n = dc)) as [Hdc|Hdc]; cycle 1.
  { rewrite app_nil_r. destruct (nodeMap _ !! _); [by rewrite Hn|].
    destruct Hn as (r & -> & _). cbn [snd rings]. by rewrite lookup_insert_ne. }
  assert (tokenRing (ring_of dc t) ≡ₚ filter (λ n, GetDatacenterId n = dc) ns) as Hperm.
  { unfold ring_of. destruct (rings t !! dc) as [r|]; [by apply IH|]. by rewrite IH. }
  rewrite Hdc in Hn. destruct (nodeMap (ring_of dc t) !! GetId n) as [m|] eqn:Hm.
  - exfalso. pose proof (ring_of_wf dc t Ht) as Hw.
    pose proof (ring_ids _ Hw _ _ Hm) as Hid. rewrite <-Hid in Hm.
    apply (elem_of_ring _ _ Hw) in Hm. rewrite Hperm in Hm. apply list_elem_of_filter in Hm as [Hmdc Hm].
    apply (Hnew (GetDatacenterId m, GetId m)).
    + by apply (list_elem_of_fmap_2 (λ n, (GetDatacenterId n, GetId n))).
    + cbn. rewrite Hmdc, Hid, Hdc. by left.
  - destruct Hn as (r & -> & _ & Hr & _). cbn [snd rings]. rewrite lookup_insert_eq.
    split; [|by destruct (filter _ ns)]. by rewrite Hr, Hperm, Permutation_cons_append.
Qed.

(** ** The replicas in every datacenter *)

Lemma nodes_for_token_spec tk rf l acc :
  NoDup l.*1 → Forall (λ p, ring_wf p.2) l →
  nodes_for_token tk rf l acc =
    Some (list_to_map ((λ p, (p.1, replicas_of tk rf (tokenRing p.2))) <$> l) ∪ acc).
Proof.
  revert acc. induction l as [|[dc r] l IH]; intros acc Hl Hw; cbn [nodes_for_token].
  { cbn. by rewrite (left_id_L ∅ (∪)). }
  apply Forall_cons in Hw as [Hr Hw]. cbn in Hl. apply NoDup_cons in Hl as [Hdc Hl].
  rewrite Ring_GetNodesForToken_spec by done. cbn. rewrite IH by done. f_equal.
  rewrite <-insert_union_l, insert_union_r; [done|].
  apply not_elem_of_list_to_map. rewrite <-list_fmap_compose. exact Hdc.
Qed.

Lemma GetNodesForToken_spec {Mo : MapOrder} tk t :
  topology_wf t →
  GetNodesForToken tk t = Some ((λ r, replicas_of tk (u32 (replicationFactor t)) (tokenRing r)) <$> rings t).
Proof.
  intros Ht. unfold GetNodesForToken. rewrite nodes_for_token_spec.
  - f_equal. rewrite (right_id_L ∅ (∪)), <-(list_to_map_to_list (_ <$> rings t)).
    rewrite map_to_list_fmap. apply list_to_map_proper.
    + rewrite <-list_fmap_compose. rewrite map_order_perm. apply NoDup_fst_map_to_list.
    + rewrite map_order_perm. done.
  - rewrite map_order_perm. apply NoDup_fst_map_to_list.
  - rewrite map_order_perm. apply Forall_forall. intros [dc r] Hr%elem_of_map_to_list.
    exact (topology_rings t Ht dc r Hr).
Qed.

Lemma GetLocalNodesForToken_spec tk t :
  topology_wf t →
  GetLocalNodesForToken tk t =
    Some (replicas_of tk (u32 (replicationFactor t)) (tokenRing (ring_of (localDcID t) t))).
Proof.
  intros Ht. unfold GetLocalNodesForToken, ring_of.
  destruct (rings t !! localDcID t) as [r|] eqn:Hr.
  - apply Ring_GetNodesForToken_spec. exact (topology_rings t Ht _ _ Hr).
  - unfold replicas_of. change (from_token tk (tokenRing (default NewRing None))) with (@nil N).
    by rewrite take_nil.
Qed.

Lemma replicas_of_length tk rf (l : list N) : length (replicas_of tk rf l) = (Z.to_nat rf `min` length l)%nat.
Proof. unfold replicas_of. by rewrite length_take, (Permutation_length (from_token_perm tk l)). Qed.

Lemma replicas_of_subset tk rf (l : list N) n : n ∈ replicas_of tk rf l → n ∈ l.
Proof. intros Hn%subseteq_take. by rewrite from_token_perm in Hn. Qed.

Lemma replicas_of_NoDup tk rf r : ring_wf r → NoDup (GetId <$> replicas_of tk rf (tokenRing r)).
Proof.
  intros Hr. unfold replicas_of. rewrite fmap_take. eapply sublist_NoDup; [|apply sublist_take].
  rewrite (fmap_Permutation GetId _ _ (from_token_perm tk _)). by apply ring_ids_NoDup.
Qed.

(** Sorting leaves no choice when the tokens differ. *)
Lemma ring_unique r r' :
  ring_wf r → ring_wf r' → tokenRing r ≡ₚ tokenRing r' →
  (∀ n m, n ∈ tokenRing r → m ∈ tokenRing r → GetToken n = GetToken m → n = m) →
  tokenRing r = tokenRing r'.
Proof.
  intros Hr Hr' Hperm Htok. eapply StronglySorted_unique_strong; [|apply Hr|apply Hr'|done].
  intros n m Hn Hm H1 H2. rewrite <-Hperm in Hm. apply Htok; [done..|]. by apply not_after_antisym.
Qed.

(** [Size] and [AllNodes] do not depend on the order of the rings. *)
Lemma foldl_app_concat {A B} (f : A → list B) l acc :
  foldl (λ ns r, ns ++ f r) acc l = acc ++ concat (f <$> l).
Proof.
  revert acc. induction l as [|a l IH]; intros acc; cbn; [by rewrite app_nil_r|].
  by rewrite IH, app_assoc.
Qed.

Lemma foldl_length {A B} (f : A → list B) l k :
  foldl (λ num r, (num + length (f r))%nat) k l = (k + length (concat (f <$> l)))%nat.
Proof.
  revert k. induction l as [|a l IH]; intros k; cbn; [lia|]. rewrite IH, length_app. lia.
Qed.

Lemma AllNodes_eq {Mo : MapOrder} (t : Topology N) :
  AllNodes t = concat (tokenRing <$> (map_order (map_to_list (rings t))).*2).
Proof. unfold AllNodes, Ring_AllNodes. by rewrite foldl_app_concat. Qed.

Lemma Size_eq {Mo : MapOrder} (t : Topology N) : Size t = length (AllNodes t).
Proof. rewrite AllNodes_eq. unfold Size, Ring_Size. by rewrite foldl_length. Qed.

Lemma elem_of_AllNodes {Mo : MapOrder} (t : Topology N) n :
  n ∈ AllNodes t ↔ ∃ dc r, rings t !! dc = Some r ∧ n ∈ tokenRing r.
Proof.
  rewrite AllNodes_eq, elem_of_concat. split.
  - intros (l & Hl & Hn). apply list_elem_of_fmap in Hl as (r & -> & Hr).
    apply list_elem_of_fmap in Hr as ([dc r'] & -> & Hr). rewrite map_order_perm in Hr.
    apply elem_of_map_to_list in Hr. by exists dc, r'.
  - intros (dc & r & Hr & Hn). exists (tokenRing r). split; [|done].
    apply list_elem_of_fmap. exists r. split; [done|]. apply list_elem_of_fmap.
    exists (dc, r). rewrite map_order_perm, elem_of_map_to_list. done.
Qed.

Lemma AllNodes_insert {Mo : MapOrder} (t t' : Topology N) dc r n :
  rings t' = <[dc := r]> (rings t) → tokenRing r ≡ₚ n :: tokenRing (ring_of dc t) →
  AllNodes t' ≡ₚ n :: AllNodes t.
Proof.
  intros Hrings Hr. rewrite !AllNodes_eq, Hrings, !map_order_perm.
  rewrite <-insert_delete_eq, map_to_list_insert by apply lookup_delete_eq. cbn. rewrite Hr.
  unfold ring_of. destruct (rings t !! dc) as [r0|] eqn:Hr0.
  - rewrite <-(insert_delete_id (rings t) dc r0 Hr0) at 2.
    rewrite map_to_list_insert by apply lookup_delete_eq. done.
  - by rewrite delete_id.
Qed.

(** The datacenter of [n] has a node with the id of [n]. *)
Definition known {Mo : MapOrder} (n : N) (t : Topology N) : Prop :=
  ∃ m, m ∈ AllNodes t ∧ GetDatacenterId m = GetDatacenterId n ∧ GetId m = GetId n.

Lemma known_spec {Mo : MapOrder} n t :
  topology_wf t → known n t ↔ is_Some (nodeMap (ring_of (GetDatacenterId n) t) !! GetId n).
Proof.
  intros Ht. pose proof (ring_of_wf (GetDatacenterId n) t Ht) as Hw. split.
  - intros (m & (dc & r & Hr & Hm)%elem_of_AllNodes & Hdc & <-).
    rewrite (topology_dcs t Ht dc r m Hr Hm) in Hdc. subst dc.
    assert (m ∈ tokenRing (ring_of (GetDatacenterId n) t)) as Hin by (unfold ring_of; by rewrite Hr).
    apply (elem_of_ring _ _ Hw) in Hin. by exists m.
  - intros [m Hm]. pose proof (ring_ids _ Hw _ _ Hm) as Hid. rewrite <-Hid in Hm.
    apply (elem_of_ring _ _ Hw) in Hm. unfold ring_of in Hm.
    destruct (rings t !! GetDatacenterId n) as [r|] eqn:Hr; [|by apply elem_of_nil in Hm].
    exists m. rewrite elem_of_AllNodes. split_and!; [by eexists _, r| |done].
    by eapply (topology_dcs t Ht).
Qed.

(** However a topology was built, its rings hold the nodes of their
    datacenters in the order of their tokens and its index knows all of them;
    [Size] counts what [AllNodes] lists.  [AddNode] then adds any node whose id
    its datacenter does not have, and otherwise reports an error and changes
    nothing. *)
Theorem topology_invariant {Mo : MapOrder} nid dc p rf ns n :
  let t := add_all ns (NewTopology nid dc p rf) in
  topology_wf t ∧ Size t = length (AllNodes t) ∧
  ((known n t ∧ AddNode n t = (Fail "This node is already a part of the ring", t)) ∨
   (¬ known n t ∧ ∃ t', AddNode n t = (Ok tt, t') ∧ AllNodes t' ≡ₚ n :: AllNodes t ∧
      GetNode (GetId n) t' = inr n)).
Proof.
  intros t. assert (topology_wf t) as Ht by apply add_all_wf, NewTopology_wf.
  split_and!; [done|apply Size_eq|]. pose proof (AddNode_spec n t Ht) as Hn. cbv zeta in Hn.
  pose proof (known_spec n t Ht) as Hknown.
  destruct (nodeMap _ !! _) as [m|] eqn:Hm; [left|right].
  - split; [|done]. apply Hknown. by exists m.
  - split; [rewrite Hknown; by intros [? ?]|]. destruct Hn as (r & -> & _ & Hr & _).
    eexists. split; [done|]. split; [by eapply AllNodes_insert|].
    unfold GetNode. cbn [nodes]. by rewrite lookup_insert_eq.
Qed.

(** C28. However a topology was built, [GetNodesForToken] gives every datacenter
    the nodes met when walking its ring from the first token that is not below
    the given one and around, as many as the replication factor or all there
    are, none twice: the binary search and the arithmetic on indices compute
    exactly that. *)
Theorem ring_replicas_reference {Mo : MapOrder} nid dc0 p rf ns tk :
  let t := add_all ns (NewTopology nid dc0 p rf) in
  ∃ m, GetNodesForToken tk t = Some m ∧ dom m = dom (rings t) ∧
    ∀ dc ring, rings t !! dc = Some ring → ∃ l, m !! dc = Some l ∧
      l = take (Z.to_nat (u32 rf)) (from_token tk (tokenRing ring)) ∧
      length l = (Z.to_nat (u32 rf) `min` Ring_Size ring)%nat ∧ NoDup (GetId <$> l).
Proof.
  intros t. assert (topology_wf t) as Ht by apply add_all_wf, NewTopology_wf.
  assert (replicationFactor t = rf) as Hrf by apply add_all_fields.
  eexists. split; [by apply GetNodesForToken_spec|]. split; [by rewrite dom_fmap_L|].
  intros dc ring Hr. eexists. rewrite lookup_fmap, Hr, Hrf. split; [done|].
  split; [done|]. split; [apply replicas_of_length|].
  apply replicas_of_NoDup. exact (topology_rings t Ht dc ring Hr).
Qed.

(** C27. Two replicas that know the same nodes, in whatever order they learnt of
    them, choose the same replicas for every token in every datacenter, as long
    as the nodes of a datacenter have distinct ids and distinct tokens. *)
Theorem replicas_agree_on_placement (Mo Mo' : MapOrder) nid nid' dc dc' p rf ns ns' tk :
  ns ≡ₚ ns' → ids_distinct ns → tokens_distinct ns →
  let t := add_all (Mo:=Mo) ns (NewTopology nid dc p rf) in
  let t' := add_all (Mo:=Mo') ns' (NewTopology nid' dc' p rf) in
  GetNodesForToken (Mo:=Mo) tk t = GetNodesForToken (Mo:=Mo') tk t'.
Proof.
  intros Hperm Hids Htok t t'.
  assert (topology_wf t) as Ht by apply add_all_wf, NewTopology_wf.
  assert (topology_wf t') as Ht' by apply add_all_wf, NewTopology_wf.
  rewrite !GetNodesForToken_spec by done. f_equal.
  assert (replicationFactor t = replicationFactor t') as <-.
  { trans rf; [apply add_all_fields|symmetry; apply add_all_fields]. }
  apply map_eq. intros d. rewrite !lookup_fmap.
  pose proof (add_all_rings (Mo:=Mo) ns nid dc p rf d Hids) as Hr.
  assert (ids_distinct ns') as Hids' by (unfold ids_distinct; by rewrite <-Hperm).
  pose proof (add_all_rings (Mo:=Mo') ns' nid' dc' p rf d Hids') as Hr'. fold t in Hr. fold t' in Hr'.
  assert (members d ns ≡ₚ members d ns') as Hm by (unfold members; by rewrite Hperm).
  destruct (rings t !! d) as [r|] eqn:E, (rings t' !! d) as [r'|] eqn:E'; cbn; [|exfalso..|done].
  - do 2 f_equal. destruct Hr as [Hr _], Hr' as [Hr' _].
    apply ring_unique; [exact (topology_rings t Ht d r E)|exact (topology_rings t' Ht' d r' E')|by rewrite Hr, Hr'|].
    intros n m. rewrite !Hr. intros [Hd1 H1]%list_elem_of_filter [Hd2 H2]%list_elem_of_filter.
    apply Htok; [done..|congruence].
  - apply (proj2 Hr). by apply Permutation_nil_r; rewrite Hm, Hr'.
  - apply (proj2 Hr'). by apply Permutation_nil_r; rewrite <-Hm, Hr.
Qed.
End spec.

(** Only the tokens of the nodes matter for finding replicas. *)
Lemma Search_loop_ext fuel f g i j :
  (∀ k, f k = g k) → Search_loop fuel f i j = Search_loop fuel g i j.
Proof.
  intros Hfg. revert i j. induction fuel as [|fuel IH]; intros i j; [done|].
  cbn [Search_loop]. destruct (i <? j)%nat; [|done]. rewrite Hfg. destruct (g _); apply IH.
Qed.

Lemma GetLocalNodesForToken_ext {N} (TN TN' : TopologyNode N) tk t :
  (∀ n, @GetToken N TN n = @GetToken N TN' n) →
  @GetLocalNodesForToken N TN tk t = @GetLocalNodesForToken N TN' tk t.
Proof.
  intros Htok. unfold GetLocalNodesForToken. destruct (rings t !! localDcID t) as [r|]; [|done].
  unfold Ring_GetNodesForToken. unfold Search at 1. rewrite (Search_loop_ext _ _ (@searcher N TN' tk r)); [done|].
  intros k. unfold searcher. destruct (tokenRing r !! k); [|done]. by rewrite Htok.
Qed.

(** The invariant only looks at the nodes that are in the rings. *)
Lemma topology_wf_ext {N} (TN TN' : TopologyNode N) t :
  (∀ dc r n, rings t !! dc = Some r → n ∈ tokenRing r →
     @GetId N TN' n = @GetId N TN n ∧ @GetToken N TN' n = @GetToken N TN n ∧
     @GetDatacenterId N TN' n = @GetDatacenterId N TN n) →
  @topology_wf N TN t → @topology_wf N TN' t.
Proof.
  intros Heq Ht. split.
  - intros dc r Hr. pose proof (@topology_rings N TN t Ht dc r Hr) as Hw. split.
    + intros nid n Hn. rewrite <-(@ring_ids N TN r Hw nid n Hn). eapply (Heq dc r n Hr).
      apply (@elem_of_ring N TN r n Hw). by rewrite (@ring_ids N TN r Hw nid n Hn).
    + apply (@ring_nodes N TN r Hw).
    + eapply StronglySorted_impl_in; [|apply (@ring_sorted N TN r Hw)].
      intros n m Hn Hm. unfold not_after, Less.
      destruct (Heq dc r n Hr Hn) as (_ & -> & _), (Heq dc r m Hr Hm) as (_ & -> & _). done.
  - intros dc r n Hr Hn. destruct (Heq dc r n Hr Hn) as (_ & _ & ->). by eapply (@topology_dcs N TN).
  - intros nid n Hn. destruct (@topology_index N TN t Ht nid n Hn) as (Hid & r & Hr & Hin).
    destruct (Heq _ r n Hr Hin) as (-> & _ & ->). eauto.
  - intros dc r n Hr Hn. destruct (Heq dc r n Hr Hn) as (-> & _ & _). by eapply (@topology_indexed N TN).
Qed.

(** ** The nodes of the tests

    [mocks.go]; queries and messages to such a node panic, its address is
    empty. *)

Module Mocks.

Record mockNode := mkMockNode {
  mock_id : NodeId;
  mock_dcID : DatacenterID;
  mock_token : Token;
  mock_name : string;
  mock_status : NodeStatus;
  mock_started : bool;
}.

Definition newMockNode (id : NodeId) (dcid : DatacenterID) (token : Token) (name : string) : mockNode :=
  mkMockNode id dcid token name NODE_UP false.

Definition Start (n : mockNode) : mockNode :=
  mkMockNode (mock_id n) (mock_dcID n) (mock_token n) (mock_name n) (mock_status n) true.
Definition Stop (n : mockNode) : mockNode :=
  mkMockNode (mock_id n) (mock_dcID n) (mock_token n) (mock_name n) (mock_status n) false.

End Mocks.

Definition mock_TN : TopologyNode Mocks.mockNode :=
  {| GetId := Mocks.mock_id; GetToken := Mocks.mock_token; GetDatacenterId := Mocks.mock_dcID |}.

(** ** Example *)

Abbreviation example_node := Mocks.mockNode.
Abbreviation example_node_TN := mock_TN.

(** The nodes [ring_test.go] builds its rings of, with a second datacenter. *)
Definition example_nodes : list example_node :=
  (λ p : Z * string, Mocks.newMockNode (mkB16 1 p.1) p.2 (token_of [0; 0; p.1; 0]) "N") <$>
  [(1, "DC1"); (2, "DC1"); (3, "DC1"); (4, "DC2")].

Lemma replicas_agree_on_placement_witness :
  let t := add_all (TN:=example_node_TN) (Mo:=MapOrder_id) example_nodes
             (NewTopology (mkB16 1 1) "DC1" MD5Partitioner 2) in
  let t' := add_all (TN:=example_node_TN) (Mo:=MapOrder_rev) (reverse example_nodes)
             (NewTopology (mkB16 1 4) "DC2" MD5Partitioner 2) in
  let tk := token_of [0; 0; 3; 0] in
  GetNodesForToken (TN:=example_node_TN) (Mo:=MapOrder_id) tk t =
    GetNodesForToken (TN:=example_node_TN) (Mo:=MapOrder_rev) tk t' ∧
  (m ← GetNodesForToken (TN:=example_node_TN) (Mo:=MapOrder_id) tk t; m !! "DC1") =
    Some ((λ i, Mocks.newMockNode (mkB16 1 i) "DC1" (token_of [0; 0; i; 0]) "N") <$> [3; 1]).
Proof.
  split; [|vm_compute; reflexivity].
  apply (replicas_agree_on_placement (TN:=example_node_TN)).
  - symmetry. apply reverse_Permutation.
  - apply (bool_decide_unpack _). vm_compute. exact I.
  - intros n m Hn Hm. cbn in Hn, Hm. rewrite !elem_of_cons, elem_of_nil in Hn, Hm.
    destruct_or!; subst; try done; vm_compute; congruence.
Defined.
