(* ===== verification/GoTime.v ===== *)
(** * Wall-clock times

    The part of Go's [time.Time] that the repository uses: comparison, addition
    of a duration, the zero test, and the fifteen byte form that [GobEncode]
    writes and [GobDecode] reads. *)

From S2P Require Import Prelude Bytes.

(** Seconds since 1 January of year 1, nanoseconds within the second, and the
    location: [None] is UTC, [Some s] a zone [s] seconds east of it. *)
Record Time := mkTime { t_sec : Z; t_nsec : Z; t_loc : option Z }.

#[export] Instance Time_eq_dec : EqDecision Time.
Proof. solve_decision. Defined.

Definition Time_zero : Time := mkTime 0 0 None.

(** Values a Go [Time] can hold: [sec] is an [int64], [nsec] is normalised. *)
Definition Time_wf (t : Time) : Prop :=
  - 2 ^ 63 ≤ t_sec t < 2 ^ 63 ∧ 0 ≤ t_nsec t < 1000000000.

(** Values that fit the fields of the struct, an [int64] and an [int32], normalised
    or not. *)
Definition Time_fits (t : Time) : Prop :=
  - 2 ^ 63 ≤ t_sec t < 2 ^ 63 ∧ - 2 ^ 31 ≤ t_nsec t < 2 ^ 31.

(** The instant as a number of nanoseconds. *)
Definition Time_nanos (t : Time) : Z := t_sec t * 1000000000 + t_nsec t.

Definition Time_Before (t u : Time) : bool :=
  (t_sec t <? t_sec u) || ((t_sec t =? t_sec u) && (t_nsec t <? t_nsec u)).
Definition Time_After (t u : Time) : bool :=
  (t_sec t >? t_sec u) || ((t_sec t =? t_sec u) && (t_nsec t >? t_nsec u)).
Definition Time_IsZero (t : Time) : bool := (t_sec t =? 0) && (t_nsec t =? 0).

(** [t.Add(d)] for a duration of [d] nanoseconds *)
Definition Time_Add (t : Time) (d : Z) : Time :=
  let n := Time_nanos t + d in mkTime (n / 1000000000) (n mod 1000000000) (t_loc t).

Definition Millisecond : Z := 1000000.

(** Minutes east of UTC, -1 being UTC itself; an offset that is not of whole
    minutes, or of too many or of -1, is an error. *)
Definition zone_offset (t : Time) : string + Z :=
  match t_loc t with
  | None => inr (-1)
  | Some s =>
      if decide (Z.rem s 60 ≠ 0) then inl "Time.GobEncode: zone offset has fractional minute"
      else
        let m := Z.quot s 60 in
        if decide (m < -32768 ∨ m = -1 ∨ m > 32767) then inl "Time.GobEncode: unexpected zone offset"
        else inr m
  end.

(** [None] is an error of the zone. *)
Definition GobEncode (t : Time) : option (list byte) :=
  match zone_offset t with
  | inl _ => None
  | inr off =>
      Some (byte_of_Z 1 :: be_bytes 8 (t_sec t) ++ be_bytes 4 (t_nsec t) ++ be_bytes 2 off)
  end.

(** The error of a time that cannot be encoded. *)
Definition GobEncode_error (t : Time) : string := match zone_offset t with inl e => e | inr _ => "" end.

(** [None] stands for the errors "no data", "unsupported version" and
    "invalid length". *)
Definition GobDecode (bs : list byte) : option Time :=
  match bs with
  | [] => None
  | v :: data =>
      if decide (Z_of_byte v ≠ 1) then None
      else if decide (length bs ≠ 15%nat) then None
      else
        let off := to_signed 2 (be_Z (drop 12 data)) in
        Some (mkTime (to_signed 8 (be_Z (take 8 data)))
                     (to_signed 4 (be_Z (take 4 (drop 8 data))))
                     (if decide (off = -1) then None else Some (off * 60)))
  end.

(** ** Order *)

Lemma Time_Before_nanos t u :
  Time_wf t → Time_wf u → Time_Before t u = bool_decide (Time_nanos t < Time_nanos u).
Proof.
  intros [_ Ht] [_ Hu]. unfold Time_Before, Time_nanos. symmetry.
  destruct (Z.ltb_spec (t_sec t) (t_sec u)); cbn [orb].
  { apply bool_decide_eq_true_2. lia. }
  destruct (Z.eqb_spec (t_sec t) (t_sec u)); cbn [andb].
  - destruct (Z.ltb_spec (t_nsec t) (t_nsec u));
      [apply bool_decide_eq_true_2|apply bool_decide_eq_false_2]; lia.
  - apply bool_decide_eq_false_2. lia.
Qed.

Lemma Time_After_Before t u : Time_After t u = Time_Before u t.
Proof.
  unfold Time_After, Time_Before. rewrite !Z.gtb_ltb, (Z.eqb_sym (t_sec u)). done.
Qed.

Lemma Time_Before_irrefl t : Time_Before t t = false.
Proof. unfold Time_Before. rewrite !Z.ltb_irrefl. by rewrite andb_false_r. Qed.

Lemma Time_Before_trans t u v :
  Time_Before t u = true → Time_Before u v = true → Time_Before t v = true.
Proof. unfold Time_Before. lia. Qed.

Lemma Time_Before_asym t u : Time_Before t u = true → Time_Before u t = false.
Proof. unfold Time_Before. lia. Qed.

Lemma Time_Before_total t u :
  Time_Before t u = false → Time_Before u t = false → t_sec t = t_sec u ∧ t_nsec t = t_nsec u.
Proof. unfold Time_Before. lia. Qed.

Lemma Time_Add_nanos t d : Time_nanos (Time_Add t d) = Time_nanos t + d.
Proof.
  unfold Time_Add, Time_nanos at 1. cbn.
  pose proof (Z.div_mod (Time_nanos t + d) 1000000000). lia.
Qed.

(** ** The binary form *)

Lemma GobEncode_length t bs : GobEncode t = Some bs → length bs = 15%nat.
Proof.
  unfold GobEncode. destruct (zone_offset t); [done|].
  intros [= <-]. rewrite length_cons, !length_app, !length_be_bytes. done.
Qed.

(** A time whose zone can be written is read back unchanged. *)
Lemma GobDecode_GobEncode t bs : Time_fits t → GobEncode t = Some bs → GobDecode bs = Some t.
Proof.
  intros [Hs Hn] Henc. pose proof (GobEncode_length _ _ Henc) as Hl. revert Henc Hl.
  unfold GobEncode. destruct (zone_offset t) as [|off] eqn:Hoff; [done|].
  intros [= <-] Hl. unfold GobDecode.
  rewrite Z_of_byte_of_Z, (decide_False (P:=1 mod 256 ≠ 1)), decide_False by (done || auto).
  assert (-32768 ≤ off ≤ 32767 ∧ (off = -1 ↔ t_loc t = None) ∧ (off ≠ -1 → t_loc t = Some (off * 60))) as (Hr & Hu & Hz).
  { unfold zone_offset in Hoff. destruct (t_loc t) as [m|]; [|naive_solver lia].
    case_decide as Hrem; [done|]. cbv zeta in Hoff. case_decide; [done|]. injection Hoff as <-.
    pose proof (Z.quot_rem' m 60). split_and!; [lia..|split; [lia|done]|intros _; f_equal; lia]. }
  rewrite take_app_length', drop_app_length' by (by rewrite length_be_bytes).
  rewrite take_app_length' by (by rewrite length_be_bytes).
  change 12%nat with (8 + 4)%nat.
  rewrite <-drop_drop, !drop_app_length' by (by rewrite length_be_bytes).
  rewrite !be_Z_be_bytes, !to_signed_mod by (cbn; lia).
  destruct t as [s n l]. cbn in *. case_decide as Hd; do 2 f_equal.
  - symmetry. by apply Hu.
  - symmetry. by apply Hz.
Qed.
