(* ===== verification/Serializer.v ===== *)
(** * Field serialization

    [src/serializer/serializer.go] over models of [bufio.Reader] and
    [bufio.Writer], and [WriteBuffer] / [ReadBuffer] of [src/types/uuid.go].
    A reader is its buffer and the sequence of chunks its connection delivers, so
    the loops that reassemble a field out of several reads are part of the
    model; the theorems hold however the bytes are cut into chunks. *)

From S2P Require Import Prelude Bytes Types GoTime.

Inductive io_error :=
  | EOF
  | ErrUnexpectedEOF
  | ErrWrite                     (** the underlying writer failed *)
  | ErrEncoding (msg : string)   (** [MessageEncodingError] *)
  | IOErrorf (msg : string).

#[export] Instance io_error_eq_dec : EqDecision io_error.
Proof. solve_decision. Defined.

(** ** [bufio.Reader] *)

(** A connection: the chunks that are still to be delivered, one by each read at
    most; an empty chunk is a read that returned no bytes and no error. *)
Abbreviation conn := (list (list byte)).

Definition conn_Read (n : nat) (c : conn) : res io_error (list byte) * conn :=
  match c with
  | [] => (Fail EOF, [])
  | bs :: c' =>
      if decide (length bs ≤ n)%nat then (Ok bs, c')
      else (Ok (take n bs), drop n bs :: c')
  end.

(** What has been read from the connection and not yet been asked for. *)
Record reader := mkReader { rd_buffer : list byte; rd_conn : conn }.
Definition flat (r : reader) : list byte := rd_buffer r ++ concat (rd_conn r).

Abbreviation R := (ST reader io_error).

Definition defaultBufSize : nat := Z.to_nat 4096.

(** [buf.Read(p)] with [len(p) = n].  What is in the buffer is returned first; if it
    is empty, the connection is read once, past the buffer if as much is asked for
    as fits into it. *)
Definition buf_Read (n : nat) : R (list byte) := λ r,
  if decide (n = 0%nat) then (Ok [], r) else
  match rd_buffer r with
  | [] =>
      if decide (defaultBufSize ≤ n)%nat then
        let '(x, c) := conn_Read n (rd_conn r) in (x, mkReader [] c)
      else
        match conn_Read defaultBufSize (rd_conn r) with
        | (Ok bs, c) => (Ok (take n bs), mkReader (drop n bs) c)
        | (x, c) => (x, mkReader [] c)
        end
  | bs => (Ok (take n bs), mkReader (drop n bs) (rd_conn r))
  end.

(** [bufio.NewReader(conn)] for the time of one call: what is left in the buffer
    is dropped with the reader. *)
Definition with_bufio {A} (p : R A) : ST conn io_error A := λ c,
  let '(x, r) := p (mkReader [] c) in (x, rd_conn r).

(** [for numRead < size]: every iteration that does not finish takes a byte or an
    empty chunk, so one more iteration than there are of these is enough. *)
Definition to_read (r : reader) : nat := length (flat r) + length (rd_conn r).

Fixpoint ReadBytes_loop (fuel size : nat) (target : list byte) : R (list byte) :=
  match fuel with
  | O => panic
  | S fuel =>
      if decide (length target < size)%nat then
        bs ← buf_Read (size - length target);
        ReadBytes_loop fuel size (target ++ bs)
      else mret target
  end.

Definition ReadBytes (size : nat) : R (list byte) := λ r,
  ReadBytes_loop (S (to_read r)) size [] r.

(** [io.ReadFull], which [binary.Read] and [ReadByte] use *)
Fixpoint ReadFull_loop (fuel size : nat) (target : list byte) : R (list byte) :=
  match fuel with
  | O => panic
  | S fuel =>
      if decide (length target < size)%nat then
        x ← try (buf_Read (size - length target));
        match x with
        | inl bs => ReadFull_loop fuel size (target ++ bs)
        | inr EOF => fail (if decide (target = []) then EOF else ErrUnexpectedEOF)
        | inr e => fail e
        end
      else mret target
  end.
Definition ReadFull (size : nat) : R (list byte) := λ r,
  ReadFull_loop (S (to_read r)) size [] r.

(** [binary.Read] of a [uint32] and of a [byte], little endian *)
Definition binary_Read_u32 : R Z := le_Z <$> ReadFull 4.
Definition binary_Read_u8 : R Z := le_Z <$> ReadFull 1.

(** ** [bufio.Writer] *)

(** What has been written, how much room the underlying writer has left
    ([None]: unlimited), and the sticky error flag. *)
Record writer := mkWriter { w_out : list byte; w_room : option nat; w_err : bool }.

Abbreviation W := (ST writer io_error).

Definition new_writer : writer := mkWriter [] None false.

(** [buf.Write(bs)] returns the number of bytes written.  The real one may keep
    bytes in its buffer and report a failure of the underlying writer with a later
    [Write] or with [Flush]; every caller goes on to these unless it has failed. *)
Definition buf_Write (bs : list byte) : W nat := λ w,
  if w_err w then (Fail ErrWrite, w) else
  match w_room w with
  | None => (Ok (length bs), mkWriter (w_out w ++ bs) None false)
  | Some k =>
      if decide (length bs ≤ k)%nat
      then (Ok (length bs), mkWriter (w_out w ++ bs) (Some (k - length bs)%nat) false)
      else (Fail ErrWrite, mkWriter (w_out w ++ take k bs) (Some 0%nat) true)
  end.

Definition buf_Flush : W unit := λ w, (if w_err w then Fail ErrWrite else Ok tt, w).

(** [binary.Write] of a [uint32] and of a [byte], little endian *)
Definition binary_Write_u32 (z : Z) : W unit := _ ← buf_Write (le_bytes 4 z); mret tt.
Definition binary_Write_u8 (z : Z) : W unit := _ ← buf_Write (le_bytes 1 z); mret tt.

(** ** [serializer.go] *)

Definition WriteFieldBytes (bs : list byte) : W unit :=
  let size := u32 (length bs) in
  _ ← binary_Write_u32 size;
  n ← buf_Write bs;
  if decide (u32 (Z.of_nat n) ≠ size) then fail (IOErrorf "unexpected num bytes written")
  else mret tt.

Definition ReadFieldBytes : R (list byte) :=
  size ← binary_Read_u32;
  bytesRead ← ReadBytes (Z.to_nat size);
  if decide (length bytesRead ≠ Z.to_nat size)
  then fail (IOErrorf "unexpected num bytes read")
  else mret bytesRead.

Definition WriteFieldString (s : string) : W unit := WriteFieldBytes (bytes_of_string s).

Definition ReadFieldString : R string := string_of_bytes <$> ReadFieldBytes.

Definition WriteTime (t : Time) : W unit :=
  match GobEncode t with
  | None => fail (IOErrorf (GobEncode_error t))
  | Some b => WriteFieldBytes b
  end.

Definition ReadTime : R Time :=
  timeBytes ← ReadFieldBytes;
  match GobDecode timeBytes with
  | None => fail (IOErrorf "Time.GobDecode")
  | Some t => mret t
  end.

Definition NumStringBytes (s : string) : Z := 4 + length (bytes_of_string s).
Definition NumSliceBytes (bs : list byte) : Z := 4 + length bs.
Definition NumTimeBytes : Z := 4 + 15.

(** ** [uuid.go] *)

Definition UUID_WriteBuffer (u : UUID) : W unit :=
  num ← buf_Write (UUID_Bytes u);
  if decide (num ≠ 16%nat) then fail (IOErrorf "Expected 16 bytes written")
  else mret tt.

(** Reads into the receiver [u]. *)
Definition UUID_ReadBuffer (u : UUID) : R UUID :=
  bs ← ReadBytes 16;
  match UnmarshalBinary u bs with
  | None => fail (IOErrorf "Exactly 16 bytes required for unmarshal")
  | Some u => mret u
  end.

(** A [for] loop that reads [n] elements of a slice. *)
Fixpoint read_n {A} (n : nat) (p : R A) : R (list A) :=
  match n with
  | O => mret []
  | S n => a ← p; l ← read_n n p; mret (a :: l)
  end.

(** Booleans travel as [0x00] / [0xff]. *)
Definition write_bool (b : bool) : W unit := binary_Write_u8 (if b then 255 else 0).
Definition read_bool : R bool := (λ z, negb (z =? 0)) <$> binary_Read_u8.

(** ** Specifications of readers and writers *)

(** [decodes p bs v]: on any reader that starts with the bytes [bs], in
    whatever chunks, [p] returns [v] and leaves exactly the rest. *)
Definition decodes {A} (p : R A) (bs : list byte) (v : A) : Prop :=
  ∀ r rest, flat r = bs ++ rest → ∃ r', p r = (Ok v, r') ∧ flat r' = rest.

Definition fits (bs : list byte) (w : writer) : Prop :=
  match w_room w with None => True | Some k => (length bs ≤ k)%nat end.

#[export] Instance fits_dec bs w : Decision (fits bs w).
Proof. unfold fits. destruct (w_room w); apply _. Defined.

(** The writer after [bs] has been handed to it. *)
Definition written (bs : list byte) (w : writer) : writer :=
  match w_room w with
  | None => mkWriter (w_out w ++ bs) None false
  | Some k =>
      if decide (length bs ≤ k)%nat
      then mkWriter (w_out w ++ bs) (Some (k - length bs)%nat) false
      else mkWriter (w_out w ++ take k bs) (Some 0%nat) true
  end.

(** [encodes m bs]: [m] writes exactly [bs], and returns without an error when
    there is room for it; a writer that has failed is left alone. *)
Record encodes (m : W unit) (bs : list byte) : Prop := {
  encodes_err : ∀ w, w_err w = true → (m w).2 = w;
  encodes_out : ∀ w, w_err w = false → (m w).2 = written bs w;
  encodes_ok : ∀ w, w_err w = false → fits bs w → (m w).1 = Ok tt;
}.

Create HintDb codec discriminated.

(** ** Readers *)

Lemma conn_Read_spec n c :
  (0 < n)%nat →
  (c = [] ∧ conn_Read n c = (Fail EOF, [])) ∨
  ∃ bs c', conn_Read n c = (Ok bs, c') ∧ concat c = bs ++ concat c' ∧ (length bs ≤ n)%nat ∧
    (length c' < length c + length bs)%nat ∧ (length c' ≤ length c)%nat.
Proof.
  intros Hn. destruct c as [|bs c]; [by left|right]. unfold conn_Read. case_decide.
  - exists bs, c. cbn [concat length]. split_and!; [done..|lia|lia].
  - exists (take n bs), (drop n bs :: c). cbn [concat length]. rewrite app_assoc, take_drop, length_take.
    split_and!; [done..|lia|lia|lia].
Qed.

(** A read returns the next bytes, if there are any, and is not for nothing. *)
Lemma buf_Read_spec n r :
  (0 < n)%nat →
  (r = mkReader [] [] ∧ buf_Read n r = (Fail EOF, r)) ∨
  ∃ bs r', buf_Read n r = (Ok bs, r') ∧ flat r = bs ++ flat r' ∧ (length bs ≤ n)%nat ∧ (to_read r' < to_read r)%nat.
Proof.
  intros Hn. destruct r as [[|b bs] c]; unfold buf_Read; rewrite decide_False by lia; cbn [rd_buffer rd_conn].
  - case_decide as Hd.
    + destruct (conn_Read_spec n c Hn) as [[-> ->]|(bs & c' & -> & Hc & Hl & Hm & Hm')]; [by left|right].
      exists bs, (mkReader [] c'). unfold to_read, flat. cbn [rd_buffer rd_conn app]. rewrite Hc, length_app.
      split_and!; [done..|lia].
    + destruct (conn_Read_spec defaultBufSize c) as [[-> ->]|(bs & c' & -> & Hc & Hl & Hm & Hm')];
        [unfold defaultBufSize; lia|by left|right].
      exists (take n bs), (mkReader (drop n bs) c'). unfold to_read, flat. cbn [rd_buffer rd_conn app].
      rewrite app_assoc, take_drop, length_take, Hc, !length_app, length_drop. split_and!; [done..|lia|lia].
  - right. exists (take n (b :: bs)), (mkReader (drop n (b :: bs)) c). unfold to_read, flat. cbn [rd_buffer rd_conn].
    rewrite app_assoc, take_drop, length_take, !length_app, length_drop. cbn [length]. split_and!; [done..|lia|lia].
Qed.

Lemma ReadBytes_loop_ok fuel size target r :
  (to_read r < fuel)%nat → (length target ≤ size)%nat →
  (size - length target ≤ length (flat r))%nat →
  ∃ r', ReadBytes_loop fuel size target r =
          (Ok (target ++ take (size - length target) (flat r)), r') ∧
        flat r' = drop (size - length target) (flat r).
Proof.
  revert target r; induction fuel as [|fuel IH]; intros target r Hf Ht Hs; [lia|].
  cbn [ReadBytes_loop]. case_decide as Hd.
  - destruct (buf_Read_spec (size - length target) r) as [[-> _]|(bs & r1 & Hr & Hfl & Hl & Hm)]; [lia|cbn in Hs; lia|].
    rewrite (bind_run _ _ _ _ _ Hr). rewrite Hfl, length_app in Hs.
    destruct (IH (target ++ bs) r1) as (r' & Hr' & Hfl'); rewrite ?length_app; try lia.
    exists r'. rewrite Hr', Hfl', Hfl, length_app, take_app_ge, drop_app_ge by lia.
    rewrite <-app_assoc, Nat.sub_add_distr. done.
  - exists r. replace (size - length target)%nat with 0%nat by lia.
    rewrite take_0, drop_0, app_nil_r. done.
Qed.

(** [ReadBytes] returns the next [size] bytes of the stream ... *)
Lemma ReadBytes_ok size r :
  (size ≤ length (flat r))%nat →
  ∃ r', ReadBytes size r = (Ok (take size (flat r)), r') ∧ flat r' = drop size (flat r).
Proof.
  intros H. unfold ReadBytes.
  destruct (ReadBytes_loop_ok (S (to_read r)) size [] r) as (r' & Hr & Hf); cbn [length]; try lia.
  cbn [length] in *. rewrite Nat.sub_0_r in *. eauto.
Qed.

(** ... and fails when there are not that many. *)
Lemma ReadBytes_loop_short fuel size target r :
  (to_read r < fuel)%nat → (length (flat r) + length target < size)%nat →
  ReadBytes_loop fuel size target r = (Fail EOF, mkReader [] []).
Proof.
  revert target r; induction fuel as [|fuel IH]; intros target r Hf Hs; [lia|].
  cbn [ReadBytes_loop]. rewrite decide_True by lia.
  destruct (buf_Read_spec (size - length target) r) as [[-> Hr]|(bs & r1 & Hr & Hfl & Hl & Hm)]; [lia|..].
  - unfold mbind, ST_bind. by rewrite Hr.
  - rewrite (bind_run _ _ _ _ _ Hr). rewrite Hfl, length_app in Hs. apply IH; rewrite ?length_app; lia.
Qed.

Lemma ReadBytes_short size r :
  (length (flat r) < size)%nat → ReadBytes size r = (Fail EOF, mkReader [] []).
Proof. intros H. apply ReadBytes_loop_short; cbn [length]; lia. Qed.

Lemma decodes_ReadBytes size bs : length bs = size → decodes (ReadBytes size) bs bs.
Proof.
  intros <- r rest Hr. destruct (ReadBytes_ok (length bs) r) as (r' & H1 & H2).
  { rewrite Hr, length_app. lia. }
  exists r'. rewrite H1, H2, Hr, take_app_length, drop_app_length. done.
Qed.

(** [ReadFull] agrees with [ReadBytes] when there are enough bytes. *)
Lemma ReadFull_loop_ReadBytes fuel size target r v r' :
  ReadBytes_loop fuel size target r = (Ok v, r') →
  ReadFull_loop fuel size target r = (Ok v, r').
Proof.
  revert target r; induction fuel as [|fuel IH]; intros target r; [done|].
  cbn. case_decide; [|done].
  unfold mbind, ST_bind, try. destruct (buf_Read _ r) as [[bs|e|] r1]; [|done..].
  apply IH.
Qed.

(** At the end of the stream there is nothing to read. *)
Lemma ReadFull_end fuel size r :
  (to_read r < fuel)%nat → (0 < size)%nat → flat r = [] → ReadFull_loop fuel size [] r = (Fail EOF, mkReader [] []).
Proof.
  revert r. induction fuel as [|fuel IH]; intros r Hf Hs Hr; [lia|]. cbn [ReadFull_loop length]. rewrite decide_True by lia.
  rewrite bind_try. destruct (buf_Read_spec (size - 0) r) as [[-> ->]|(bs & r1 & -> & Hfl & _ & Hm)]; [lia|done|].
  rewrite Hr in Hfl. symmetry in Hfl. apply app_nil in Hfl as [-> Hfl]. apply IH; [lia|done..].
Qed.

Lemma ReadFieldBytes_end r : flat r = [] → ReadFieldBytes r = (Fail EOF, mkReader [] []).
Proof.
  intros Hr. unfold ReadFieldBytes, binary_Read_u32, ReadFull, fmap, ST_fmap, mbind, ST_bind.
  by rewrite ReadFull_end by (done || lia).
Qed.

Lemma decodes_ReadFull size bs : length bs = size → decodes (ReadFull size) bs bs.
Proof.
  intros Hs r rest Hr. destruct (decodes_ReadBytes size bs Hs r rest Hr) as (r' & H1 & H2).
  exists r'. split; [|done]. by apply ReadFull_loop_ReadBytes.
Qed.

Lemma decodes_ret {A} (a : A) : decodes (mret a) [] a.
Proof. intros r rest Hr. by exists r. Qed.

Lemma decodes_bind {A B} (p : R A) (f : A → R B) bs1 bs2 a b :
  decodes p bs1 a → decodes (f a) bs2 b → decodes (p ≫= f) (bs1 ++ bs2) b.
Proof.
  intros Hp Hf r rest Hr. rewrite <-app_assoc in Hr.
  destruct (Hp r (bs2 ++ rest) Hr) as (r1 & H1 & Hr1).
  destruct (Hf r1 rest Hr1) as (r2 & H2 & Hr2).
  exists r2. rewrite (bind_run _ _ _ _ _ H1). done.
Qed.

Lemma decodes_bind_nil {A B} (p : R A) (f : A → R B) bs a b :
  decodes p bs a → decodes (f a) [] b → decodes (p ≫= f) bs b.
Proof. intros. rewrite <-(app_nil_r bs). by eapply decodes_bind. Qed.

Lemma decodes_fmap {A B} (g : A → B) (p : R A) bs a b :
  decodes p bs a → g a = b → decodes (g <$> p) bs b.
Proof.
  intros Hp <-. eapply decodes_bind_nil; [done|]. apply (decodes_ret (g a)).
Qed.

Lemma decodes_u32 z : 0 ≤ z ≤ u32_max → decodes binary_Read_u32 (le_bytes 4 z) z.
Proof.
  intros Hz. eapply decodes_fmap; [apply decodes_ReadFull, length_le_bytes|].
  rewrite le_Z_le_bytes. apply u32_small in Hz. done.
Qed.

Lemma decodes_u8 z : 0 ≤ z < 256 → decodes binary_Read_u8 (le_bytes 1 z) z.
Proof.
  intros Hz. eapply decodes_fmap; [apply decodes_ReadFull, length_le_bytes|].
  rewrite le_Z_le_bytes. by apply Z.mod_small.
Qed.

Lemma decodes_read_bool (b : bool) : decodes read_bool (le_bytes 1 (if b then 255 else 0)) b.
Proof. eapply decodes_fmap; [apply decodes_u8; by destruct b|]. by destruct b. Qed.

(** The bytes of a field: its length, then its contents. *)
Definition field (bs : list byte) : list byte := le_bytes 4 (length bs) ++ bs.

Lemma decodes_field bs : Z.of_nat (length bs) ≤ u32_max → decodes ReadFieldBytes (field bs) bs.
Proof.
  intros Hl. unfold ReadFieldBytes, field. eapply decodes_bind.
  { apply decodes_u32. lia. }
  rewrite Nat2Z.id. eapply decodes_bind_nil.
  { by apply decodes_ReadBytes. }
  rewrite decide_False by auto. apply decodes_ret.
Qed.

Lemma decodes_string s :
  Z.of_nat (length (bytes_of_string s)) ≤ u32_max →
  decodes ReadFieldString (field (bytes_of_string s)) s.
Proof.
  intros H. eapply decodes_fmap; [by apply decodes_field|]. apply string_of_bytes_of_string.
Qed.

Lemma decodes_time t bs :
  Time_fits t → GobEncode t = Some bs → decodes ReadTime (field bs) t.
Proof.
  intros Ht He. unfold ReadTime. eapply decodes_bind_nil.
  { apply decodes_field. rewrite (GobEncode_length _ _ He). done. }
  rewrite (GobDecode_GobEncode _ _ Ht He). apply decodes_ret.
Qed.

Lemma decodes_uuid u : B16_wf u → decodes (UUID_ReadBuffer B16_zero) (MarshalBinary u) u.
Proof.
  intros Hu. unfold UUID_ReadBuffer.
  eapply decodes_bind_nil; [apply decodes_ReadBytes, length_MarshalBinary|].
  rewrite Unmarshal_Marshal by done. apply decodes_ret.
Qed.

Lemma decodes_read_n {A} (p : R A) (enc : A → list byte) (l : list A) :
  (∀ a, a ∈ l → decodes p (enc a) a) → decodes (read_n (length l) p) (concat (map enc l)) l.
Proof.
  induction l as [|a l IH]; intros H; cbn; [apply decodes_ret|].
  eapply decodes_bind; [apply H; left|].
  eapply decodes_bind_nil.
  - apply IH. intros b Hb. apply H. by right.
  - apply decodes_ret.
Qed.

(** ** Writers *)

Lemma encodes_write bs : encodes (_ ← buf_Write bs; mret tt) bs.
Proof.
  split; intros w He; unfold mbind, ST_bind, buf_Write, written, fits; rewrite He; try done.
  - destruct (w_room w); [case_decide|]; done.
  - destruct (w_room w); [|done]. intros. by rewrite decide_True.
Qed.

Lemma written_app bs1 bs2 w :
  w_err w = false →
  (w_err (written bs1 w) = true ∧ written (bs1 ++ bs2) w = written bs1 w ∧ ¬ fits (bs1 ++ bs2) w) ∨
  (w_err (written bs1 w) = false ∧ fits bs1 w ∧
    written (bs1 ++ bs2) w = written bs2 (written bs1 w) ∧
    (fits (bs1 ++ bs2) w ↔ fits bs2 (written bs1 w))).
Proof.
  intros He. unfold written, fits. destruct (w_room w) as [k|]; cbn.
  2: { right. rewrite app_assoc. done. }
  rewrite length_app. destruct (decide (length bs1 ≤ k)%nat) as [H1|H1]; cbn.
  - right. split_and!; [done|done| |lia].
    repeat case_decide; try lia.
    + rewrite app_assoc. do 2 f_equal. lia.
    + f_equal. rewrite <-app_assoc. f_equal. by rewrite take_app_ge by lia.
  - left. rewrite decide_False by lia. split_and!; [done| |lia].
    f_equal. rewrite take_app_le by lia. done.
Qed.

Lemma encodes_bind (m1 m2 : W unit) bs1 bs2 :
  encodes m1 bs1 → encodes m2 bs2 → encodes (_ ← m1; m2) (bs1 ++ bs2).
Proof.
  intros [E1 O1 K1] [E2 O2 K2]. split; intros w He.
  - specialize (E1 w He). unfold mbind, ST_bind.
    destruct (m1 w) as [[]]; cbn in *; subst; auto.
  - specialize (O1 w He). specialize (K1 w He). unfold mbind, ST_bind.
    destruct (written_app bs1 bs2 w He) as [(H1 & H2 & H3)|(H1 & H2 & H3 & H4)].
    + destruct (m1 w) as [[[]| |] w1]; cbn in *; subst; try congruence.
      rewrite H2. auto.
    + specialize (K1 H2). destruct (m1 w) as [r w1]; cbn in *; subst.
      rewrite H3. auto.
  - intros Hfit. specialize (O1 w He). specialize (K1 w He). unfold mbind, ST_bind.
    destruct (written_app bs1 bs2 w He) as [(H1 & H2 & H3)|(H1 & H2 & H3 & H4)]; [done|].
    specialize (K1 H2). destruct (m1 w) as [r w1]; cbn in *; subst.
    apply K2; [done|]. by apply H4.
Qed.

Lemma encodes_ret : encodes (mret tt) [].
Proof.
  split; intros w He; unfold written, fits; cbn; try done.
  destruct w as [o [k|] e]; cbn in *; subst; [rewrite ?decide_True by lia|];
    rewrite ?take_nil, ?app_nil_r, ?Nat.sub_0_r; done.
Qed.

Lemma encodes_u32 z : encodes (binary_Write_u32 z) (le_bytes 4 z).
Proof. apply encodes_write. Qed.

Lemma encodes_u8 z : encodes (binary_Write_u8 z) (le_bytes 1 z).
Proof. apply encodes_write. Qed.

Lemma encodes_write_bool (b : bool) : encodes (write_bool b) (le_bytes 1 (if b then 255 else 0)).
Proof. apply encodes_write. Qed.

(** A check of the count that [buf_Write] returns never fails. *)
Lemma encodes_write_checked bs (P : nat → Prop) `{∀ n, Decision (P n)} e :
  ¬ P (length bs) →
  encodes (n ← buf_Write bs; if decide (P n) then fail e else mret tt) bs.
Proof.
  intros HP. split; intros w He; unfold mbind, ST_bind, buf_Write, written, fits; rewrite He; try done.
  - destruct (w_room w) as [k|]; [case_decide; [|done]|]; by rewrite decide_False.
  - destruct (w_room w); [intros; rewrite decide_True by done|intros _]; by rewrite decide_False.
Qed.

Lemma encodes_field bs :
  Z.of_nat (length bs) ≤ u32_max → encodes (WriteFieldBytes bs) (field bs).
Proof.
  intros Hl. unfold WriteFieldBytes, field. cbv zeta. rewrite u32_small by lia.
  apply encodes_bind; [apply encodes_u32|].
  apply encodes_write_checked. rewrite u32_small by lia. auto.
Qed.

Lemma encodes_string s :
  Z.of_nat (length (bytes_of_string s)) ≤ u32_max →
  encodes (WriteFieldString s) (field (bytes_of_string s)).
Proof. apply encodes_field. Qed.

Lemma encodes_time t bs : GobEncode t = Some bs → encodes (WriteTime t) (field bs).
Proof.
  intros He. unfold WriteTime. rewrite He. apply encodes_field.
  by rewrite (GobEncode_length _ _ He).
Qed.

Lemma encodes_uuid u : encodes (UUID_WriteBuffer u) (MarshalBinary u).
Proof. apply encodes_write_checked. rewrite length_MarshalBinary. auto. Qed.

Lemma encodes_for_each {A} (f : A → W unit) (enc : A → list byte) (l : list A) :
  (∀ a, a ∈ l → encodes (f a) (enc a)) → encodes (for_each f l) (concat (map enc l)).
Proof.
  induction l as [|a l IH]; intros H; cbn; [apply encodes_ret|].
  apply encodes_bind; [apply H; left|]. apply IH. intros b Hb. apply H. by right.
Qed.

Lemma length_field bs : Z.of_nat (length (field bs)) = NumSliceBytes bs.
Proof. unfold field, NumSliceBytes. rewrite length_app, length_le_bytes. lia. Qed.

#[export] Hint Resolve decodes_ret decodes_u32 decodes_u8 decodes_read_bool decodes_field
  decodes_string decodes_time decodes_uuid encodes_ret encodes_u32 encodes_u8 encodes_write_bool
  encodes_field encodes_string encodes_time encodes_uuid : codec.

(** [transmits m p v n]: on a writer without a limit, [m] writes [n] bytes and
    returns no error, and whatever the chunks in which these bytes arrive and
    whatever follows them, [p] reads back [v] and leaves what follows. *)
Definition transmits {A} (m : W unit) (p : R A) (v : A) (n : Z) : Prop :=
  ∃ bs, Z.of_nat (length bs) = n ∧ m new_writer = (Ok tt, mkWriter bs None false) ∧ decodes p bs v.

Lemma transmits_intro {A} (m : W unit) (p : R A) v bs n :
  encodes m bs → decodes p bs v → Z.of_nat (length bs) = n → transmits m p v n.
Proof.
  intros [_ Ho Hk] Hd Hn. exists bs. split_and!; [done| |done].
  specialize (Ho new_writer eq_refl). specialize (Hk new_writer eq_refl I).
  destruct (m new_writer) as [r w]; cbn in *; subst. done.
Qed.

(** ** Properties *)

(** A length-prefixed field survives the wire: at most 2^32 - 1 bytes are
    read back exactly, however the stream is cut into chunks, and
    [NumSliceBytes] is the number of bytes written; when the stream ends
    before the announced length, [ReadFieldBytes] returns an error and never a
    part of the field. *)
Theorem field_roundtrip_or_error (bs : list byte)
    (Hlen : Z.of_nat (length bs) ≤ u32_max) :
  transmits (WriteFieldBytes bs) ReadFieldBytes bs (NumSliceBytes bs) ∧
  ∀ r k, (k < length bs)%nat → flat r = le_bytes 4 (length bs) ++ take k bs →
    ∃ e r', ReadFieldBytes r = (Fail e, r').
Proof.
  split.
  { eapply transmits_intro; [by apply encodes_field|by apply decodes_field|apply length_field]. }
  intros r k Hk Hr. unfold ReadFieldBytes.
  destruct (decodes_u32 (length bs) ltac:(lia) r _ Hr) as (r1 & E1 & F1).
  rewrite (bind_run _ _ _ _ _ E1), Nat2Z.id.
  exists EOF, (mkReader [] []). unfold mbind, ST_bind. rewrite ReadBytes_short; [done|].
  rewrite F1, length_take. lia.
Qed.

Lemma field_roundtrip_or_error_witness :
  let bs := bytes_of_string "abc" in
  transmits (WriteFieldBytes bs) ReadFieldBytes bs 7 ∧
  ∀ r k, (k < length bs)%nat → flat r = le_bytes 4 (length bs) ++ take k bs →
    ∃ e r', ReadFieldBytes r = (Fail e, r').
Proof. apply field_roundtrip_or_error. vm_compute. discriminate. Defined.
