(* ===== verification/Instruction.v ===== *)
(** * Store instructions

    [src/store/instruction.go]: the commands that consensus orders and stores
    execute. *)

From S2P Require Import Prelude Bytes Types GoTime Serializer.

Record Instruction := NewInstruction {
  Cmd : string;
  Key : string;
  Args : list string;
  Timestamp : Time;
}.

#[export] Instance Instruction_eq_dec : EqDecision Instruction.
Proof. solve_decision. Defined.

(** [Instruction{}] *)
Definition Instruction_zero : Instruction := NewInstruction "" "" [] Time_zero.

Module Instruction.

(** [for n:=0; n<len(i.Args); n++ { if i.Args[n] != o.Args[n] ... }] *)
Fixpoint args_equal (a b : list string) : bool :=
  match a, b with
  | x :: a, y :: b => if decide (x ≠ y) then false else args_equal a b
  | _, _ => true
  end.

Definition Equal (i o : Instruction) : bool :=
  if decide (Cmd i ≠ Cmd o) then false
  else if decide (Key i ≠ Key o) then false
  else if decide (length (Args i) ≠ length (Args o)) then false
  else if negb (args_equal (Args i) (Args o)) then false
  else if decide (Timestamp i ≠ Timestamp o) then false
  else true.

Definition Copy (i : Instruction) : Instruction :=
  NewInstruction (Cmd i) (Key i) (Args i) (Timestamp i).

Definition IsZero (i : Instruction) : bool :=
  bool_decide (Cmd i = "") && bool_decide (Key i = "") &&
  bool_decide (length (Args i) = 0%nat) && Time_IsZero (Timestamp i).

(** [for _, arg := range i.Args { numBytes += NumStringBytes(arg) }] *)
Definition NumBytes (i : Instruction) : Z :=
  NumStringBytes (Cmd i) + NumStringBytes (Key i) + 4 +
  foldl (λ n arg, n + NumStringBytes arg) 0 (Args i) + NumTimeBytes.

Definition Serialize (i : Instruction) : W unit :=
  _ ← WriteFieldString (Cmd i);
  _ ← WriteFieldString (Key i);
  _ ← binary_Write_u32 (u32 (length (Args i)));
  _ ← for_each WriteFieldString (Args i);
  WriteTime (Timestamp i).

Definition Deserialize : R Instruction :=
  cmd ← ReadFieldString;
  key ← ReadFieldString;
  numArgs ← binary_Read_u32;
  args ← read_n (Z.to_nat numArgs) ReadFieldString;
  ts ← ReadTime;
  mret (NewInstruction cmd key args ts).

(** ** Equality *)

Lemma args_equal_spec a b :
  length a = length b → args_equal a b = bool_decide (a = b).
Proof.
  revert b; induction a as [|x a IH]; intros [|y b]; cbn; try done.
  intros [= Hl]. case_decide as Hd.
  - symmetry. apply bool_decide_eq_false_2. congruence.
  - rewrite IH by done. apply bool_decide_ext. destruct (decide (x = y)); naive_solver.
Qed.

Lemma instruction_Equal_spec i o : Equal i o = bool_decide (i = o).
Proof.
  apply eq_true_iff_eq. rewrite bool_decide_eq_true. unfold Equal. split.
  - repeat (case_decide; [done|]). destruct (args_equal _ _) eqn:Ha; cbn; [|done].
    case_decide; [done|]. intros _. rewrite args_equal_spec in Ha by done.
    apply bool_decide_eq_true in Ha. destruct i, o; cbn in *. congruence.
  - intros ->. rewrite args_equal_spec, !decide_False by auto.
    by rewrite bool_decide_eq_true_2.
Qed.

(** ** Wire format *)

(** Lengths fit their 32 bit headers and the zone can be written. *)
Definition string_ok (s : string) : Prop := Z.of_nat (length (bytes_of_string s)) ≤ u32_max.

Record ok (i : Instruction) : Prop := {
  ok_cmd : string_ok (Cmd i);
  ok_key : string_ok (Key i);
  ok_args : Forall string_ok (Args i);
  ok_nargs : Z.of_nat (length (Args i)) ≤ u32_max;
  ok_time : Time_fits (Timestamp i);
  ok_zone : is_Some (GobEncode (Timestamp i));
}.

Definition time_bytes (t : Time) : list byte :=
  field (match GobEncode t with Some bs => bs | None => [] end).

Definition bytes (i : Instruction) : list byte :=
  field (bytes_of_string (Cmd i)) ++ field (bytes_of_string (Key i)) ++
  le_bytes 4 (length (Args i)) ++
  concat (map (field ∘ bytes_of_string) (Args i)) ++ time_bytes (Timestamp i).

Lemma instruction_encodes_Serialize i : ok i → encodes (Serialize i) (bytes i).
Proof.
  intros [H1 H2 H3 H4 H5 [tb H6]]. unfold Serialize, bytes, time_bytes.
  rewrite u32_small by lia. rewrite H6.
  repeat (apply encodes_bind; [auto with codec|]); auto with codec.
  apply encodes_for_each. intros a Ha. rewrite Forall_forall in H3. by apply encodes_string, H3.
Qed.

Lemma instruction_decodes_Deserialize i : ok i → decodes Deserialize (bytes i) i.
Proof.
  intros [H1 H2 H3 H4 H5 [tb H6]]. unfold Deserialize, bytes, time_bytes. rewrite H6.
  eapply decodes_bind; [auto with codec|].
  eapply decodes_bind; [auto with codec|].
  eapply decodes_bind; [apply decodes_u32; lia|]. rewrite Nat2Z.id.
  eapply decodes_bind.
  { apply decodes_read_n. intros a Ha. rewrite Forall_forall in H3. by apply decodes_string, H3. }
  eapply decodes_bind_nil; [eauto with codec|]. destruct i. apply decodes_ret.
Qed.

Lemma length_concat_fields l :
  Z.of_nat (length (concat (map (field ∘ bytes_of_string) l))) =
    foldl (λ n arg, n + NumStringBytes arg) 0 l.
Proof.
  assert (∀ n, foldl (λ n arg, n + NumStringBytes arg) n l =
    n + Z.of_nat (length (concat (map (field ∘ bytes_of_string) l)))) as H; [|rewrite H; lia].
  induction l as [|s l IH]; intros n; cbn [foldl map concat]; [cbn; lia|].
  rewrite IH, length_app. cbn [compose]. pose proof (length_field (bytes_of_string s)).
  unfold NumSliceBytes, NumStringBytes in *. lia.
Qed.

Lemma NumBytes_bytes i : ok i → NumBytes i = length (bytes i).
Proof.
  intros [H1 H2 H3 H4 H5 [tb H6]]. unfold NumBytes, bytes, time_bytes. rewrite H6.
  rewrite !length_app, !Nat2Z.inj_add, !length_field, length_concat_fields, length_le_bytes.
  unfold NumSliceBytes, NumStringBytes, NumTimeBytes. rewrite (GobEncode_length _ _ H6). lia.
Qed.

(** An instruction whose strings are shorter than 2^32 bytes and whose
    timestamp can be encoded survives the wire, in exactly [NumBytes] bytes. *)
Theorem instruction_roundtrip (i : Instruction) (Hok : ok i) :
  transmits (Serialize i) Deserialize i (NumBytes i).
Proof.
  eapply transmits_intro; [by apply instruction_encodes_Serialize|by apply instruction_decodes_Deserialize|].
  symmetry. by apply NumBytes_bytes.
Qed.

Definition example : Instruction := NewInstruction "SET" "k" ["v"] (mkTime 63000000000 7 None).

Lemma instruction_example_ok : ok example.
Proof. repeat (split || constructor); cbn; (done || lia || (eexists; reflexivity) || idtac). Qed.

Lemma instruction_roundtrip_witness : transmits (Serialize example) Deserialize example 40.
Proof. apply (instruction_roundtrip example). apply instruction_example_ok. Defined.

End Instruction.

(** ** The store interface ([src/store/store.go])

    What consensus asks of a store: to execute an instruction, and to name the
    nested keys it touches, from the most general to the most specific. *)
Class Store := {
  store_state : Type;
  store_value : Type;
  store_ExecuteInstruction : Instruction → ST store_state string (option store_value);
  store_InterferingKeys : Instruction → list string;
}.

#[export] Hint Resolve Instruction.instruction_encodes_Serialize Instruction.instruction_decodes_Deserialize : codec.

(** A store that records the instructions it executes and whose keys are nested:
    [Args] are the path below [Key].  Used to evaluate examples. *)
Definition LogStore : Store := {|
  store_state := list Instruction;
  store_value := string;
  store_ExecuteInstruction := λ i s, (Ok (Some (Key i)), s ++ [i]);
  store_InterferingKeys := λ i, Key i :: Args i;
|}.
