(* ===== verification/KVStore.v ===== *)
(** * The key/value store

    [src/kvstore]: string and tombstone values, the commands [GET], [SET] and
    [DEL], reconciliation of replicas that disagree, and the encoding of
    values. *)

From S2P Require Import Prelude Bytes Types GoTime Serializer Instruction.

(** ** Values *)

Inductive Value :=
  | VString (value : string) (time : Time)
  | VTombstone (time : Time)
  | VBoolean (value : bool) (time : Time).

#[export] Instance Value_eq_dec : EqDecision Value.
Proof. solve_decision. Defined.

Module KVStore.

Definition GET : string := "GET".
Definition SET : string := "SET".
Definition DEL : string := "DEL".

Definition STRING_VALUE : string := "STRING".
Definition TOMBSTONE_VALUE : string := "TOMBSTONE".
Definition BOOL_VALUE : string := "BOOL".

Definition GetTimestamp (v : Value) : Time :=
  match v with VString _ t | VTombstone t | VBoolean _ t => t end.

Definition GetValueType (v : Value) : string :=
  match v with
  | VString _ _ => STRING_VALUE
  | VTombstone _ => TOMBSTONE_VALUE
  | VBoolean _ _ => BOOL_VALUE
  end.

Definition baseValueEqual (v0 v1 : Value) : bool :=
  if decide (GetValueType v0 ≠ GetValueType v1) then false
  else if decide (GetTimestamp v0 ≠ GetTimestamp v1) then false
  else true.

(** The type assertion after [baseValueEqual] cannot fail. *)
Definition String_Equal (value : string) (time : Time) (o : Value) : bool :=
  if negb (baseValueEqual (VString value time) o) then false
  else match o with VString value' _ => if decide (value ≠ value') then false else true | _ => true end.
Definition Tombstone_Equal (time : Time) (o : Value) : bool := baseValueEqual (VTombstone time) o.
Definition Boolean_Equal (value : bool) (time : Time) (o : Value) : bool :=
  if negb (baseValueEqual (VBoolean value time) o) then false
  else match o with VBoolean value' _ => if decide (value ≠ value') then false else true | _ => true end.

Definition Equal (v o : Value) : bool :=
  match v with
  | VString s t => String_Equal s t o
  | VTombstone t => Tombstone_Equal t o
  | VBoolean b t => Boolean_Equal b t o
  end.

(** ** The store *)

Record KVStore := mkKVStore { data : gmap string Value }.

Definition NewKVStore : KVStore := mkKVStore ∅.

(** Error messages are kept as strings. *)
Abbreviation S := (ST KVStore string).

Definition validateGet (args : list string) : option string :=
  if decide (length args ≠ 0%nat) then Some "too many args for GET" else None.

(** A missing key reads as the nil interface. *)
Definition get (key : string) : S (option Value) := gets (λ s, data s !! key).

Definition validateSet (args : list string) (timestamp : Time) : option string :=
  if decide (length args ≠ 1%nat) then Some "incorrect number of args for SET"
  else if Time_IsZero timestamp then Some "DEL Got zero timestamp"
  else None.

Definition set (key val : string) (ts : Time) : S Value := λ s,
  match data s !! key with
  | Some existing =>
      if Time_Before ts (GetTimestamp existing) then (Ok existing, s)
      else (Ok (VString val ts), mkKVStore (<[key := VString val ts]> (data s)))
  | None => (Ok (VString val ts), mkKVStore (<[key := VString val ts]> (data s)))
  end.

Definition validateDel (args : list string) (timestamp : Time) : option string :=
  if decide (length args ≠ 0%nat) then Some "DEL takes 0 args"
  else if Time_IsZero timestamp then Some "DEL Got zero timestamp"
  else None.

Definition del (key : string) (ts : Time) : S Value := λ s,
  match data s !! key with
  | Some val => (Ok (VBoolean true (GetTimestamp val)), mkKVStore (<[key := VTombstone ts]> (data s)))
  | None => (Ok (VBoolean false Time_zero), s)
  end.

(** [if err := validate...; err != nil { return nil, err }] *)
Definition guard (o : option string) : S unit :=
  match o with Some e => fail e | None => mret tt end.

Definition ExecuteInstruction (i : Instruction) : S (option Value) :=
  if decide (Cmd i = GET) then
    _ ← guard (validateGet (Args i)); get (Key i)
  else if decide (Cmd i = SET) then
    _ ← guard (validateSet (Args i) (Timestamp i));
    arg ← deref (head (Args i));
    Some <$> set (Key i) arg (Timestamp i)
  else if decide (Cmd i = DEL) then
    _ ← guard (validateDel (Args i) (Timestamp i));
    Some <$> del (Key i) (Timestamp i)
  else fail "Unrecognized write command".

(** [strings.ToUpper], as far as a comparison with a word over [A-Z] can see:
    ASCII letters, and the two runes outside ASCII that map into it. *)
Fixpoint to_upper (bs : list byte) : list byte :=
  match bs with
  | xc5 :: xbf :: bs => x53 :: to_upper bs  (** long s *)
  | xc4 :: xb1 :: bs => x49 :: to_upper bs  (** dotless i *)
  | b :: bs =>
      (if decide (97 ≤ Z_of_byte b ≤ 122) then byte_of_Z (Z_of_byte b - 32) else b) :: to_upper bs
  | [] => []
  end.
Definition ToUpper (s : string) : string := string_of_bytes (to_upper (bytes_of_string s)).

Definition IsReadOnly (i : Instruction) : bool := bool_decide (ToUpper (Cmd i) = GET).
Definition IsWriteOnly (i : Instruction) : bool :=
  bool_decide (ToUpper (Cmd i) = SET) || bool_decide (ToUpper (Cmd i) = DEL).
Definition ReturnsValue (cmd : string) : bool := bool_decide (ToUpper cmd = GET).
Definition InterferingKeys (i : Instruction) : list string := [Key i].

Definition GetRawKey (key : string) : S Value := λ s,
  match data s !! key with
  | Some v => (Ok v, s)
  | None => (Fail "key does not exist", s)
  end.
Definition SetRawKey (key : string) (val : Value) : S unit :=
  modify (λ s, mkKVStore (<[key := val]> (data s))).
Definition GetKeys `{MapOrder} (s : KVStore) : list string :=
  map_order (map_to_list (data s)).*1.
Definition KeyExists (key : string) (s : KVStore) : bool := bool_decide (is_Some (data s !! key)).

(** ** Reconciliation

    [Reconcile] gets interface values: nil, or a pointer to a value.  The
    tombstone case compares pointers, so they are kept. *)
Record vref := mkRef { v_ptr : positive; v_val : Value }.

#[export] Instance vref_eq_dec : EqDecision vref.
Proof. solve_decision. Defined.

(** The loop of [getHighValue]; calling a method on nil panics. *)
Fixpoint getHighValue_loop (values : list (option vref)) (highTimestamp : Time)
    (highValue : option vref) : res string (option vref) :=
  match values with
  | [] => Ok highValue
  | None :: _ => Panic
  | Some val :: values =>
      let ts := GetTimestamp (v_val val) in
      if Time_After ts highTimestamp then getHighValue_loop values ts (Some val)
      else getHighValue_loop values highTimestamp highValue
  end.

Definition getHighValue (values : list (option vref)) : res string (option vref) :=
  getHighValue_loop values Time_zero None.

Definition reconcileString (key hval : string) (htime : Time) (values : list vref) :
    list (list Instruction) :=
  map (λ val, if negb (Equal (VString hval htime) (v_val val))
              then [NewInstruction SET key [hval] htime] else []) values.

Definition reconcileTombstone (key : string) (hptr : positive) (htime : Time) (values : list vref) :
    list (list Instruction) :=
  map (λ val, if decide (v_ptr val ≠ hptr)
              then [NewInstruction DEL key [] htime] else []) values.

Definition Reconcile (key : string) (values : list (option vref)) :
    res string (option vref * list (list Instruction)) :=
  match values with
  | [] => Fail "At least one value must be provided"
  | [val] => Ok (val, [])
  | _ =>
      match getHighValue values with
      | Ok (Some high) =>
          match v_val high with
          | VString s t => Ok (Some high, reconcileString key s t (omap id values))
          | VTombstone t => Ok (Some high, reconcileTombstone key (v_ptr high) t (omap id values))
          | VBoolean _ _ => Fail "Unknown value type"
          end
      | Ok None => Panic
      | Fail e => Fail e
      | Panic => Panic
      end
  end.

(** ** Encoding of values *)

Definition String_Serialize (value : string) (time : Time) : W unit :=
  _ ← WriteFieldBytes (bytes_of_string value); _ ← WriteTime time; buf_Flush.
Definition Tombstone_Serialize (time : Time) : W unit := _ ← WriteTime time; buf_Flush.
Definition Boolean_Serialize (value : bool) (time : Time) : W unit :=
  _ ← binary_Write_u8 (if value then 255 else 0); _ ← WriteTime time; buf_Flush.

Definition String_Deserialize : R Value :=
  val ← ReadFieldBytes; t ← ReadTime; mret (VString (string_of_bytes val) t).
Definition Tombstone_Deserialize : R Value := t ← ReadTime; mret (VTombstone t).
Definition Boolean_Deserialize : R Value :=
  b ← binary_Read_u8; t ← ReadTime; mret (VBoolean (negb (b =? 0)) t).

Definition Serialize (v : Value) : W unit :=
  match v with
  | VString s t => String_Serialize s t
  | VTombstone t => Tombstone_Serialize t
  | VBoolean b t => Boolean_Serialize b t
  end.

Definition WriteValue (v : Value) : W unit :=
  _ ← WriteFieldBytes (bytes_of_string (GetValueType v));
  _ ← Serialize v;
  buf_Flush.

Definition ReadValue : R (Value * string) :=
  vstr ← ReadFieldBytes;
  let vtype := string_of_bytes vstr in
  if decide (vtype = STRING_VALUE) then v ← String_Deserialize; mret (v, vtype)
  else if decide (vtype = TOMBSTONE_VALUE) then v ← Tombstone_Deserialize; mret (v, vtype)
  else if decide (vtype = BOOL_VALUE) then v ← Boolean_Deserialize; mret (v, vtype)
  else fail (IOErrorf "Unexpected value type").

Definition SerializeValue (v : Value) : res io_error (list byte) :=
  let '(r, w) := WriteValue v new_writer in
  match r with Ok _ => Ok (w_out w) | Fail e => Fail e | Panic => Panic end.

Definition DeserializeValue (bs : list byte) : res io_error (Value * string) :=
  (with_bufio ReadValue [bs]).1.

(** [var _ = store.Store(&KVStore{})] *)
#[export] Instance KVStore_Store : Store := {|
  store_state := KVStore;
  store_value := Value;
  store_ExecuteInstruction := ExecuteInstruction;
  store_InterferingKeys := InterferingKeys;
|}.

(** A sequence of instructions applied to one store. *)
Definition run_all (l : list Instruction) (s : KVStore) : KVStore :=
  foldl (λ s i, (ExecuteInstruction i s).2) s l.

(** ** Execution *)

Lemma exec_set i s arg :
  Cmd i = SET → Args i = [arg] → Time_IsZero (Timestamp i) = false →
  ExecuteInstruction i s = (Some <$> set (Key i) arg (Timestamp i)) s.
Proof.
  intros Hc Ha Ht. unfold ExecuteInstruction. rewrite Hc, Ha. cbn.
  unfold validateSet. by rewrite decide_False, Ht by auto.
Qed.

Lemma exec_del i s :
  Cmd i = DEL → Args i = [] → Time_IsZero (Timestamp i) = false →
  ExecuteInstruction i s = (Some <$> del (Key i) (Timestamp i)) s.
Proof.
  intros Hc Ha Ht. unfold ExecuteInstruction. rewrite Hc, Ha. cbn.
  unfold validateDel. by rewrite decide_False, Ht by auto.
Qed.

(** The commands and argument shapes that the store accepts. *)
Inductive accepted : Instruction → Prop :=
  | acc_get i : Cmd i = GET → Args i = [] → accepted i
  | acc_set i arg : Cmd i = SET → Args i = [arg] → Time_IsZero (Timestamp i) = false → accepted i
  | acc_del i : Cmd i = DEL → Args i = [] → Time_IsZero (Timestamp i) = false → accepted i.

Lemma exec_cases i s :
  (accepted i ∧ is_ok (ExecuteInstruction i s).1 = true) ∨
  (¬ accepted i ∧ ∃ e, ExecuteInstruction i s = (Fail e, s)).
Proof.
  unfold ExecuteInstruction. destruct (decide (Cmd i = GET)) as [Hc|Hg].
  { unfold validateGet. destruct (Args i) as [|a l] eqn:Ha; cbn.
    - left. split; [by apply acc_get|done].
    - right. split; [|by eauto]. inversion 1; unfold GET, SET, DEL in *; congruence. }
  destruct (decide (Cmd i = SET)) as [Hc|Hs].
  { unfold validateSet. destruct (Args i) as [|a [|b l]] eqn:Ha; cbn.
    - right. split; [|by eauto]. inversion 1; unfold GET, SET, DEL in *; congruence.
    - destruct (Time_IsZero (Timestamp i)) eqn:Ht; cbn.
      + right. split; [|by eauto]. inversion 1; unfold GET, SET, DEL in *; congruence.
      + left. split; [by eapply acc_set|]. unfold fmap, ST_fmap, mbind, ST_bind, set.
        by repeat case_match.
    - right. split; [|by eauto]. inversion 1; unfold GET, SET, DEL in *; congruence. }
  destruct (decide (Cmd i = DEL)) as [Hc|Hd].
  { unfold validateDel. destruct (Args i) as [|a l] eqn:Ha; cbn.
    - destruct (Time_IsZero (Timestamp i)) eqn:Ht; cbn.
      + right. split; [|by eauto]. inversion 1; unfold GET, SET, DEL in *; congruence.
      + left. split; [by apply acc_del|]. unfold fmap, ST_fmap, mbind, ST_bind, del.
        by repeat case_match.
    - right. split; [|by eauto]. inversion 1; unfold GET, SET, DEL in *; congruence. }
  right. split; [|by eauto]. inversion 1; congruence.
Qed.

(** Stored values are strings and tombstones with a non-zero timestamp. *)
Definition wf (s : KVStore) : Prop :=
  map_Forall (λ _ v, match v with VBoolean _ _ => False | _ => True end ∧
                     Time_IsZero (GetTimestamp v) = false) (data s).

Lemma set_state key val ts s :
  (set key val ts s).2 =
    match data s !! key with
    | Some existing => if Time_Before ts (GetTimestamp existing) then s
                       else mkKVStore (<[key := VString val ts]> (data s))
    | None => mkKVStore (<[key := VString val ts]> (data s))
    end.
Proof. unfold set. by repeat case_match. Qed.

Lemma fmap_state {A B} (f : A → B) (m : S A) s : ((f <$> m) s).2 = (m s).2.
Proof. unfold fmap, ST_fmap, mbind, ST_bind. by destruct (m s) as [[]]. Qed.

Lemma wf_insert k v s :
  wf s → match v with VBoolean _ _ => False | _ => True end →
  Time_IsZero (GetTimestamp v) = false → wf (mkKVStore (<[k := v]> (data s))).
Proof. intros Hs Hv Ht. apply map_Forall_insert_2; done. Qed.

Lemma exec_wf i s : wf s → wf (ExecuteInstruction i s).2.
Proof.
  intros Hs. destruct (exec_cases i s) as [[Ha _]|[_ [e ->]]]; [|done].
  destruct Ha as [i Hc Ha|i arg Hc Ha Ht|i Hc Ha Ht].
  - unfold ExecuteInstruction. rewrite Hc, Ha. done.
  - rewrite (exec_set _ _ arg), fmap_state, set_state by done.
    repeat case_match; try done; by apply wf_insert.
  - rewrite exec_del, fmap_state by done. unfold del.
    destruct (data s !! Key i); [|done]. by apply wf_insert.
Qed.

(** ** Writes commute *)

(** Two writes of different instants to one key leave the later one,
    whichever comes first. *)
Lemma set_comm k v1 t1 v2 t2 s :
  Time_Before t1 t2 = true →
  (set k v2 t2 (set k v1 t1 s).2).2 = (set k v1 t1 (set k v2 t2 s).2).2.
Proof.
  intros Hlt. pose proof (Time_Before_asym _ _ Hlt) as Hn. rewrite !set_state.
  destruct (data s !! k) as [e|] eqn:He.
  - destruct (Time_Before t1 (GetTimestamp e)) eqn:H1, (Time_Before t2 (GetTimestamp e)) eqn:H2;
      rewrite ?He, ?H1, ?H2; cbn; rewrite ?lookup_insert_eq; cbn; rewrite ?H1, ?H2, ?Hlt, ?Hn; try done.
    + by rewrite (Time_Before_trans t1 t2 (GetTimestamp e)) in H1.
    + by rewrite insert_insert_eq.
  - cbn. rewrite !lookup_insert_eq. cbn. by rewrite Hlt, Hn, insert_insert_eq.
Qed.

Lemma set_comm_ne k1 k2 v1 t1 v2 t2 s :
  k1 ≠ k2 → (set k2 v2 t2 (set k1 v1 t1 s).2).2 = (set k1 v1 t1 (set k2 v2 t2 s).2).2.
Proof.
  intros Hk. rewrite !set_state.
  destruct (data s !! k1) as [e1|] eqn:H1; [destruct (Time_Before t1 (GetTimestamp e1)) eqn:Hb1|];
  (destruct (data s !! k2) as [e2|] eqn:H2; [destruct (Time_Before t2 (GetTimestamp e2)) eqn:Hb2|]);
    cbn; rewrite ?lookup_insert_ne, ?H1, ?H2, ?Hb1, ?Hb2 by done; cbn; try done;
    by rewrite insert_insert_ne.
Qed.

(** A well-formed [SET]. *)
Definition is_set (i : Instruction) : Prop :=
  Cmd i = SET ∧ (∃ arg, Args i = [arg]) ∧ Time_IsZero (Timestamp i) = false.

(** The register an instruction addresses and the instant it carries. *)
Definition instant (i : Instruction) : string * Z * Z :=
  (Key i, t_sec (Timestamp i), t_nsec (Timestamp i)).

Lemma exec_set_comm i j s :
  is_set i → is_set j → instant i ≠ instant j →
  (ExecuteInstruction j (ExecuteInstruction i s).2).2 =
  (ExecuteInstruction i (ExecuteInstruction j s).2).2.
Proof.
  intros (Hi & [a Ha] & Hti) (Hj & [b Hb] & Htj) Hne.
  rewrite !(exec_set i _ a), !(exec_set j _ b), !fmap_state by done.
  destruct (decide (Key i = Key j)) as [Hk|Hk]; [|by apply set_comm_ne].
  rewrite Hk. destruct (Time_Before (Timestamp i) (Timestamp j)) eqn:H1; [by apply set_comm|].
  destruct (Time_Before (Timestamp j) (Timestamp i)) eqn:H2; [by symmetry; apply set_comm|].
  destruct Hne. unfold instant. destruct (Time_Before_total _ _ H1 H2). congruence.
Qed.

Lemma run_all_perm l l' s :
  l ≡ₚ l' → Forall is_set l → NoDup (instant <$> l) → run_all l s = run_all l' s.
Proof.
  intros Hp. revert s. unfold run_all.
  induction Hp as [|i l l' Hp IH|i j l|l1 l2 l3 Hp1 IH1 Hp2 IH2]; intros s Hs Hd; cbn; [done|..].
  - inversion Hs; subst. apply NoDup_cons in Hd as [_ Hd]. by apply IH.
  - inversion Hs as [|? ? Hsi Hs']; inversion Hs' as [|? ? Hsj _]; subst.
    rewrite !fmap_cons, !NoDup_cons in Hd. destruct Hd as [[Hni _]%not_elem_of_cons _].
    by rewrite exec_set_comm.
  - rewrite IH1 by done. apply IH2; [by rewrite <-Hp1|]. by rewrite <-Hp1.
Qed.

(** ** Reconciliation *)

Lemma Equal_eq v o : Equal v o = true ↔ v = o.
Proof.
  unfold Equal, String_Equal, Tombstone_Equal, Boolean_Equal, baseValueEqual. split.
  - destruct v, o; cbn; repeat case_decide; cbn; try done; intros _; congruence.
  - intros <-. destruct v; rewrite !decide_False by auto; cbn; by rewrite ?decide_False by auto.
Qed.

Lemma getHighValue_loop_spec vs ht hv :
  (getHighValue_loop (Some <$> vs) ht hv = Ok hv ∧
    ∀ u, u ∈ vs → Time_After (GetTimestamp (v_val u)) ht = false) ∨
  (∃ v, getHighValue_loop (Some <$> vs) ht hv = Ok (Some v) ∧ v ∈ vs ∧
    Time_After (GetTimestamp (v_val v)) ht = true ∧
    ∀ u, u ∈ vs → Time_After (GetTimestamp (v_val u)) (GetTimestamp (v_val v)) = false).
Proof.
  revert ht hv; induction vs as [|v vs IH]; intros ht hv; cbn.
  { left. split; [done|]. intros u Hu. by apply elem_of_nil in Hu. }
  destruct (Time_After (GetTimestamp (v_val v)) ht) eqn:Hv.
  - right. destruct (IH (GetTimestamp (v_val v)) (Some v)) as [[H1 H2]|(w & H1 & H2 & H3 & H4)].
    + exists v. split_and!; [done|left|done|]. intros u [->|Hu]%elem_of_cons; [|by apply H2].
      rewrite Time_After_Before. apply Time_Before_irrefl.
    + exists w. rewrite !Time_After_Before in *. split_and!; [done|by right|..].
      * by eapply Time_Before_trans.
      * intros u [->|Hu]%elem_of_cons; rewrite Time_After_Before.
        -- by apply Time_Before_asym.
        -- specialize (H4 u Hu). by rewrite Time_After_Before in H4.
  - destruct (IH ht hv) as [[H1 H2]|(w & H1 & H2 & H3 & H4)].
    + left. split; [done|]. intros u [->|Hu]%elem_of_cons; auto.
    + right. exists w. split_and!; [done|by right|done|].
      intros u [->|Hu]%elem_of_cons; [|auto]. rewrite Time_After_Before in *.
      destruct (Time_Before (GetTimestamp (v_val w)) (GetTimestamp (v_val v))) eqn:Hwv; [|done].
      by rewrite (Time_Before_trans _ _ _ H3 Hwv) in Hv.
Qed.

(** Pointers identify values. *)
Definition ptr_consistent (vs : list vref) : Prop :=
  ∀ u v, u ∈ vs → v ∈ vs → v_ptr u = v_ptr v → u = v.

Lemma omap_Some_id {A} (l : list A) : omap id (Some <$> l) = l.
Proof. induction l as [|a l IH]; cbn; [done|]. by f_equal. Qed.

Lemma After_zero_nonzero t : Time_After t Time_zero = true → Time_IsZero t = false.
Proof. unfold Time_After, Time_IsZero. cbn. lia. Qed.

(** Executing the instructions that [Reconcile] returns for a replica leaves
    the replica with the winning value. *)
Lemma repair_string key hv ht v s :
  Time_IsZero ht = false → Time_After (GetTimestamp v) ht = false →
  data s !! key = Some v →
  data (run_all (if negb (Equal (VString hv ht) v)
                 then [NewInstruction SET key [hv] ht] else []) s) !! key = Some (VString hv ht).
Proof.
  intros Hz Ha Hs. destruct (Equal (VString hv ht) v) eqn:He; cbn -[ExecuteInstruction].
  - by apply Equal_eq in He as ->.
  - rewrite (exec_set _ _ hv), fmap_state, set_state by done. cbn.
    rewrite Hs. rewrite Time_After_Before in Ha. rewrite Ha. cbn. apply lookup_insert_eq.
Qed.

Lemma repair_tombstone key ht v s :
  Time_IsZero ht = false → data s !! key = Some v →
  data (run_all [NewInstruction DEL key [] ht] s) !! key = Some (VTombstone ht).
Proof.
  intros Hz Hs. cbn -[ExecuteInstruction]. rewrite exec_del, fmap_state by done. cbn.
  unfold del. rewrite Hs. cbn. apply lookup_insert_eq.
Qed.

Lemma Reconcile_high key vs :
  (2 ≤ length vs)%nat →
  (∃ v, v ∈ vs ∧ Time_After (GetTimestamp (v_val v)) Time_zero = true) →
  ∃ high, high ∈ vs ∧ Time_After (GetTimestamp (v_val high)) Time_zero = true ∧
    (∀ u, u ∈ vs → Time_After (GetTimestamp (v_val u)) (GetTimestamp (v_val high)) = false) ∧
    Reconcile key (Some <$> vs) =
      match v_val high with
      | VString s t => Ok (Some high, reconcileString key s t vs)
      | VTombstone t => Ok (Some high, reconcileTombstone key (v_ptr high) t vs)
      | VBoolean _ _ => Fail "Unknown value type"
      end.
Proof.
  intros Hl (v & Hv & Hva).
  destruct (getHighValue_loop_spec vs Time_zero None) as [[_ H]|(high & H1 & H2 & H3 & H4)].
  { specialize (H v Hv). congruence. }
  exists high. split_and!; [done..|]. unfold Reconcile, getHighValue.
  destruct vs as [|v1 [|v2 vs]]; [cbn in Hl; lia..|].
  rewrite omap_Some_id, H1. done.
Qed.

(** ** Encoding *)

(** The bytes of a value: its type name, its contents, its timestamp. *)
Definition value_bytes (v : Value) : list byte :=
  field (bytes_of_string (GetValueType v)) ++
  match v with
  | VString s t => field (bytes_of_string s) ++ Instruction.time_bytes t
  | VTombstone t => Instruction.time_bytes t
  | VBoolean b t => le_bytes 1 (if b then 255 else 0) ++ Instruction.time_bytes t
  end.

Definition value_ok (v : Value) : Prop :=
  match v with VString s _ => Instruction.string_ok s | _ => True end ∧
  Time_fits (GetTimestamp v) ∧ is_Some (GobEncode (GetTimestamp v)).

Lemma encodes_flush (m : W unit) bs : encodes m bs → encodes (_ ← m; buf_Flush) bs.
Proof.
  intros Hm. rewrite <-(app_nil_r bs). apply encodes_bind; [done|].
  destruct encodes_ret as [H1 H2 H3]. split; intros w He.
  - done.
  - exact (H2 w He).
  - intros _. cbn. by rewrite He.
Qed.

Lemma type_field_ok v : Z.of_nat (length (bytes_of_string (GetValueType v))) ≤ u32_max.
Proof. by destruct v. Qed.

Lemma encodes_WriteValue v : value_ok v → encodes (WriteValue v) (value_bytes v).
Proof.
  intros (Hs & Ht & [tb Htb]). unfold WriteValue, value_bytes.
  assert (encodes (WriteTime (GetTimestamp v)) (Instruction.time_bytes (GetTimestamp v))) as Henc.
  { unfold Instruction.time_bytes. rewrite Htb. by apply encodes_time. }
  apply encodes_bind; [apply encodes_field, type_field_ok|]. apply encodes_flush.
  destruct v as [s t|t|b t]; cbn [GetTimestamp] in *; cbn [Serialize].
  - apply encodes_bind; [by apply encodes_field|]. by apply encodes_flush.
  - by apply encodes_flush.
  - apply encodes_bind; [apply encodes_u8|]. by apply encodes_flush.
Qed.

Lemma decodes_ReadValue v : value_ok v → decodes ReadValue (value_bytes v) (v, GetValueType v).
Proof.
  intros (Hs & Ht & [tb Htb]). unfold ReadValue, value_bytes.
  assert (decodes ReadTime (Instruction.time_bytes (GetTimestamp v)) (GetTimestamp v)) as Hdec.
  { unfold Instruction.time_bytes. rewrite Htb. by apply decodes_time. }
  eapply decodes_bind; [apply decodes_field, type_field_ok|]. cbv zeta.
  rewrite string_of_bytes_of_string.
  destruct v as [s t|t|b t]; cbn [GetValueType GetTimestamp] in *.
  - rewrite decide_True by done. eapply decodes_bind_nil; [|apply decodes_ret].
    eapply decodes_bind; [by apply decodes_field|].
    eapply decodes_bind_nil; [done|]. rewrite string_of_bytes_of_string. apply decodes_ret.
  - rewrite decide_False, decide_True by done. eapply decodes_bind_nil; [|apply decodes_ret].
    eapply decodes_bind_nil; [done|]. apply decodes_ret.
  - rewrite !decide_False, decide_True by done. eapply decodes_bind_nil; [|apply decodes_ret].
    eapply decodes_bind; [apply decodes_u8; by destruct b|].
    eapply decodes_bind_nil; [done|]. destruct b; apply decodes_ret.
Qed.

(** ** Properties *)

(** Executing an instruction never panics: it returns a value exactly for
    the accepted commands (GET without arguments, SET with one argument and a
    non-zero timestamp, DEL without arguments and with a non-zero timestamp);
    every other instruction is refused with an error and leaves the store as
    it was.  Either way the stored values remain strings and tombstones with
    non-zero timestamps. *)
Theorem kv_execute_total (i : Instruction) (s : KVStore) :
  ((accepted i ∧ is_ok (ExecuteInstruction i s).1 = true) ∨
   (¬ accepted i ∧ ∃ e, ExecuteInstruction i s = (Fail e, s))) ∧
  (wf s → wf (ExecuteInstruction i s).2).
Proof. split; [apply exec_cases|apply exec_wf]. Qed.

Lemma kv_execute_total_witness :
  let s := (ExecuteInstruction (NewInstruction "SET" "k" ["v"] (mkTime 5 0 None)) NewKVStore).2 in
  wf s ∧ data s !! "k" = Some (VString "v" (mkTime 5 0 None)) ∧ wf (ExecuteInstruction (NewInstruction "DEL" "k" [] (mkTime 6 0 None)) s).2.
Proof.
  cbn zeta. assert (wf NewKVStore) as H0 by apply map_Forall_empty.
  pose proof (proj2 (kv_execute_total (NewInstruction "SET" "k" ["v"] (mkTime 5 0 None)) NewKVStore) H0) as H1.
  split; [exact H1|]. split; [reflexivity|]. exact (proj2 (kv_execute_total _ _) H1).
Defined.

(** Writes are last-write-wins registers: a set of SETs in which no two
    write one key at one instant has the same effect on a store in whatever
    order the replica executes it. *)
Theorem kv_sets_commute (l l' : list Instruction) (s : KVStore) :
  l ≡ₚ l' → Forall is_set l → NoDup (instant <$> l) → run_all l s = run_all l' s.
Proof. apply run_all_perm. Qed.

Lemma kv_sets_commute_witness :
  let a := NewInstruction "SET" "k" ["x"] (mkTime 5 0 None) in
  let b := NewInstruction "SET" "k" ["y"] (mkTime 6 0 None) in
  run_all [a; b] NewKVStore = run_all [b; a] NewKVStore.
Proof.
  cbn zeta. apply kv_sets_commute.
  - apply perm_swap.
  - repeat constructor; eauto.
  - apply (bool_decide_eq_true_1 _). vm_compute. reflexivity.
Defined.

Lemma Reconcile_converges (key : string) (vs : list vref) :
  (2 ≤ length vs)%nat →
  (∃ v, v ∈ vs ∧ Time_After (GetTimestamp (v_val v)) Time_zero = true) →
  Forall (λ v, match v_val v with VBoolean _ _ => False | _ => True end) vs →
  ptr_consistent vs →
  ∃ high repairs,
    Reconcile key (Some <$> vs) = Ok (Some high, repairs) ∧ high ∈ vs ∧
    (∀ u, u ∈ vs → Time_After (GetTimestamp (v_val u)) (GetTimestamp (v_val high)) = false) ∧
    length repairs = length vs ∧
    ∀ n v l s, vs !! n = Some v → repairs !! n = Some l → data s !! key = Some (v_val v) →
      data (run_all l s) !! key = Some (v_val high).
Proof.
  intros Hl Hex Hnb Hpc. destruct (Reconcile_high key vs Hl Hex) as (high & Hin & Hz & Hmax & HR).
  apply After_zero_nonzero in Hz. rewrite Forall_forall in Hnb. specialize (Hnb high Hin).
  destruct (v_val high) as [hv ht|ht|] eqn:Hv; [| |done].
  - exists high. eexists. split_and!; [done|done|by rewrite Hv|by unfold reconcileString; rewrite length_map|].
    intros n v l s Hvn Hln Hs. unfold reconcileString in Hln.
    rewrite list_lookup_fmap, Hvn in Hln. cbn in Hln. simplify_eq. rewrite Hv.
    apply repair_string with (v := v_val v); [done| |done].
    apply Hmax. by eapply list_elem_of_lookup_2.
  - exists high. eexists. split_and!; [done|done|by rewrite Hv|by unfold reconcileTombstone; rewrite length_map|].
    intros n v l s Hvn Hln Hs. unfold reconcileTombstone in Hln.
    rewrite list_lookup_fmap, Hvn in Hln. cbn in Hln. simplify_eq. rewrite Hv.
    case_decide as Hp; [by eapply repair_tombstone|].
    assert (v = high) as ->; [|cbn; congruence].
    apply Hpc; [by eapply list_elem_of_lookup_2|done..].
Qed.

(** Read repair converges: given at least two replies, one of which has a
    timestamp after the zero time and none of which is a boolean,
    [Reconcile] returns a reply no other reply is newer than, and a list of
    instructions for every replier; executing a replier's instructions on a
    store that holds its reply leaves the winning value under the key. *)
Theorem kv_reconcile_converges (key : string) (vs : list vref) :
  (2 ≤ length vs)%nat →
  (∃ v, v ∈ vs ∧ Time_After (GetTimestamp (v_val v)) Time_zero = true) →
  Forall (λ v, match v_val v with VBoolean _ _ => False | _ => True end) vs →
  ptr_consistent vs →
  ∃ high repairs,
    Reconcile key (Some <$> vs) = Ok (Some high, repairs) ∧ high ∈ vs ∧
    (∀ u, u ∈ vs → Time_After (GetTimestamp (v_val u)) (GetTimestamp (v_val high)) = false) ∧
    length repairs = length vs ∧
    ∀ n v l s, vs !! n = Some v → repairs !! n = Some l → data s !! key = Some (v_val v) →
      data (run_all l s) !! key = Some (v_val high).
Proof. apply Reconcile_converges. Qed.

Lemma kv_reconcile_converges_witness :
  let a := mkRef 1 (VString "old" (mkTime 5 0 None)) in
  let b := mkRef 2 (VTombstone (mkTime 6 0 None)) in
  ∃ high repairs,
    Reconcile "k" (Some <$> [a; b]) = Ok (Some high, repairs) ∧ high ∈ [a; b] ∧
    (∀ u, u ∈ [a; b] → Time_After (GetTimestamp (v_val u)) (GetTimestamp (v_val high)) = false) ∧
    length repairs = length [a; b] ∧
    ∀ n v l s, [a; b] !! n = Some v → repairs !! n = Some l → data s !! "k" = Some (v_val v) →
      data (run_all l s) !! "k" = Some (v_val high).
Proof.
  cbn zeta. apply kv_reconcile_converges.
  - cbn. lia.
  - eexists. split; [left|reflexivity].
  - repeat constructor.
  - intros u v Hu Hv.
    repeat (apply elem_of_cons in Hu as [->|Hu] || apply elem_of_nil in Hu as []);
    repeat (apply elem_of_cons in Hv as [->|Hv] || apply elem_of_nil in Hv as []); done.
Defined.

Lemma SerializeValue_roundtrip v :
  value_ok v →
  ∃ bs, SerializeValue v = Ok bs ∧ DeserializeValue bs = Ok (v, GetValueType v).
Proof.
  intros Hv. exists (value_bytes v). destruct (encodes_WriteValue v Hv) as [_ Ho Hk].
  unfold SerializeValue, DeserializeValue.
  specialize (Ho new_writer eq_refl). specialize (Hk new_writer eq_refl I).
  destruct (WriteValue v new_writer) as [r w]; cbn in *; subst. split; [done|].
  unfold with_bufio. destruct (decodes_ReadValue v Hv (mkReader [] [value_bytes v]) []) as (r' & -> & _); [done|]. done.
Qed.

(** A value with a writable timestamp and a string of at most 2^32 - 1
    bytes survives [SerializeValue] followed by [DeserializeValue], with its
    type name. *)
Theorem kv_value_roundtrip (v : Value) :
  value_ok v →
  ∃ bs, SerializeValue v = Ok bs ∧ DeserializeValue bs = Ok (v, GetValueType v).
Proof. apply SerializeValue_roundtrip. Qed.

Lemma kv_value_roundtrip_witness :
  ∃ bs, SerializeValue (VString "abc" (mkTime 63000000000 7 None)) = Ok bs ∧
        DeserializeValue bs = Ok (VString "abc" (mkTime 63000000000 7 None), "STRING").
Proof.
  apply kv_value_roundtrip. split; [|split].
  - vm_compute. discriminate.
  - split; cbn; lia.
  - eexists. reflexivity.
Defined.

End KVStore.
