(* ===== verification/Redis.v ===== *)
(** * The redis store

    [src/redis]: the predecessor of the key/value store, with separate reads and
    writes and a [Reconcile] over maps from nodes to values.  Values, their
    comparison and their encoding are written like those of [src/kvstore]; they,
    and what differs, are proved to agree with it. *)

From S2P Require Import Prelude Bytes Types GoTime Serializer Instruction KVStore.

Module Redis.

Record Redis := mkRedis { data : gmap string Value }.

Definition NewRedis : Redis := mkRedis ∅.

Abbreviation S := (ST Redis string).

Definition validateGet (args : list string) : option string :=
  if decide (length args ≠ 0%nat) then Some "too many args for GET" else None.

Definition get (key : string) : S (option Value) := gets (λ s, data s !! key).

Definition validateSet (args : list string) (timestamp : Time) : option string :=
  if decide (length args ≠ 1%nat) then Some "incorrect number of args for SET"
  else if Time_IsZero timestamp then Some "DEL Got zero timestamp"
  else None.

Definition set (key val : string) (ts : Time) : S Value := λ s,
  match data s !! key with
  | Some existing =>
      if Time_Before ts (KVStore.GetTimestamp existing) then (Ok existing, s)
      else (Ok (VString val ts), mkRedis (<[key := VString val ts]> (data s)))
  | None => (Ok (VString val ts), mkRedis (<[key := VString val ts]> (data s)))
  end.

Definition validateDel (args : list string) (timestamp : Time) : option string :=
  if decide (length args ≠ 0%nat) then Some "DEL takes 0 args"
  else if Time_IsZero timestamp then Some "DEL Got zero timestamp"
  else None.

Definition del (key : string) (ts : Time) : S Value := λ s,
  match data s !! key with
  | Some val =>
      (Ok (VBoolean true (KVStore.GetTimestamp val)), mkRedis (<[key := VTombstone ts]> (data s)))
  | None => (Ok (VBoolean false Time_zero), s)
  end.

Definition guard (o : option string) : S unit :=
  match o with Some e => fail e | None => mret tt end.

Definition ExecuteRead (cmd key : string) (args : list string) : S (option Value) :=
  if decide (cmd = KVStore.GET) then _ ← guard (validateGet args); get key
  else fail "Unrecognized read command".

Definition ExecuteWrite (cmd key : string) (args : list string) (timestamp : Time) : S (option Value) :=
  if decide (cmd = KVStore.SET) then
    _ ← guard (validateSet args timestamp);
    arg ← deref (head args);
    Some <$> set key arg timestamp
  else if decide (cmd = KVStore.DEL) then
    _ ← guard (validateDel args timestamp);
    Some <$> del key timestamp
  else fail "Unrecognized write command".

Definition IsReadCommand (cmd : string) : bool := bool_decide (KVStore.ToUpper cmd = KVStore.GET).
Definition IsWriteCommand (cmd : string) : bool :=
  bool_decide (KVStore.ToUpper cmd = KVStore.SET) || bool_decide (KVStore.ToUpper cmd = KVStore.DEL).
Definition ReturnsValue (cmd : string) : bool := bool_decide (KVStore.ToUpper cmd = KVStore.GET).

Definition GetRawKey (key : string) : S Value := λ s,
  match data s !! key with
  | Some v => (Ok v, s)
  | None => (Fail "key does not exist", s)
  end.
Definition SetRawKey (key : string) (val : Value) : S unit :=
  modify (λ s, mkRedis (<[key := val]> (data s))).
Definition GetKeys `{MapOrder} (s : Redis) : list string := map_order (map_to_list (data s)).*1.
Definition KeyExists (key : string) (s : Redis) : bool := bool_decide (is_Some (data s !! key)).

(** ** Values *)

Definition baseValueEqual (v0 v1 : Value) : bool :=
  if decide (KVStore.GetValueType v0 ≠ KVStore.GetValueType v1) then false
  else if decide (KVStore.GetTimestamp v0 ≠ KVStore.GetTimestamp v1) then false
  else true.

(** The type assertion after [baseValueEqual] cannot fail. *)
Definition String_Equal (value : string) (time : Time) (o : Value) : bool :=
  if negb (baseValueEqual (VString value time) o) then false
  else match o with VString value' _ => negb (bool_decide (value ≠ value')) | _ => true end.
Definition Tombstone_Equal (time : Time) (o : Value) : bool := baseValueEqual (VTombstone time) o.
Definition Boolean_Equal (value : bool) (time : Time) (o : Value) : bool :=
  if negb (baseValueEqual (VBoolean value time) o) then false
  else match o with VBoolean value' _ => negb (bool_decide (value ≠ value')) | _ => true end.

Definition Equal (v o : Value) : bool :=
  match v with
  | VString s t => String_Equal s t o
  | VTombstone t => Tombstone_Equal t o
  | VBoolean b t => Boolean_Equal b t o
  end.

Definition String_Serialize (value : string) (time : Time) : W unit :=
  _ ← WriteFieldBytes (bytes_of_string value); _ ← WriteTime time; buf_Flush.
Definition Tombstone_Serialize (time : Time) : W unit := _ ← WriteTime time; buf_Flush.
Definition Boolean_Serialize (value : bool) (time : Time) : W unit :=
  _ ← binary_Write_u8 (if value then 255 else 0); _ ← WriteTime time; buf_Flush.

Definition String_Deserialize : R Value :=
  val ← ReadFieldBytes; t ← ReadTime; mret (VString (string_of_bytes val) t).
Definition Tombstone_Deserialize : R Value := t ← ReadTime; mret (VTombstone t).
Definition Boolean_Deserialize : R Value :=
  b ← binary_Read_u8; t ← ReadTime; mret (VBoolean (negb (b =? 0)) t).

Definition WriteValue (v : Value) : W unit :=
  _ ← WriteFieldBytes (bytes_of_string (KVStore.GetValueType v));
  _ ← match v with
      | VString s t => String_Serialize s t
      | VTombstone t => Tombstone_Serialize t
      | VBoolean b t => Boolean_Serialize b t
      end;
  buf_Flush.

Definition ReadValue : R (Value * string) :=
  vstr ← ReadFieldBytes;
  let vtype := string_of_bytes vstr in
  if decide (vtype = KVStore.STRING_VALUE) then v ← String_Deserialize; mret (v, vtype)
  else if decide (vtype = KVStore.TOMBSTONE_VALUE) then v ← Tombstone_Deserialize; mret (v, vtype)
  else if decide (vtype = KVStore.BOOL_VALUE) then v ← Boolean_Deserialize; mret (v, vtype)
  else fail (IOErrorf "Unexpected value type").

Definition SerializeValue (v : Value) : res io_error (list byte) :=
  let '(r, w) := WriteValue v new_writer in
  match r with Ok _ => Ok (w_out w) | Fail e => Fail e | Panic => Panic end.
Definition DeserializeValue (bs : list byte) : res io_error (Value * string) := (with_bufio ReadValue [bs]).1.

(** ** Reconciliation *)

Section reconcile.
Context {Mo : MapOrder}.

(** [map[string]store.Value], a nil value being [None] *)
Abbreviation values_t := (gmap string (option KVStore.vref)).
Abbreviation instructions_t := (gmap string (list Instruction)).

Fixpoint getHighValue_loop (values : list (string * option KVStore.vref)) (highTimestamp : Time)
    (highValue : option KVStore.vref) : res string (option KVStore.vref) :=
  match values with
  | [] => Ok highValue
  | (_, None) :: _ => Panic
  | (_, Some val) :: values =>
      let ts := KVStore.GetTimestamp (KVStore.v_val val) in
      if Time_After ts highTimestamp then getHighValue_loop values ts (Some val)
      else getHighValue_loop values highTimestamp highValue
  end.

Definition getHighValue (values : values_t) : res string (option KVStore.vref) :=
  getHighValue_loop (map_order (map_to_list values)) Time_zero None.

(** [for nodeid, val := range values { if differs { instructions[nodeid] = ... } }] *)
Definition instruct (differs : KVStore.vref → bool) (i : Instruction)
    (l : list (string * option KVStore.vref)) : instructions_t :=
  foldl (λ m p, match p.2 with
                | Some v => if differs v then <[p.1 := [i]]> m else m
                | None => m
                end) ∅ l.

(** Calling [Equal] on a nil value would panic, but [getHighValue] did before. *)
Definition reconcileString (key hval : string) (htime : Time) (values : values_t) : instructions_t :=
  instruct (λ v, negb (KVStore.Equal (VString hval htime) (KVStore.v_val v)))
    (NewInstruction KVStore.SET key [hval] htime) (map_order (map_to_list values)).

Definition reconcileTombstone (key : string) (hptr : positive) (htime : Time) (values : values_t) :
    instructions_t :=
  instruct (λ v, bool_decide (KVStore.v_ptr v ≠ hptr))
    (NewInstruction KVStore.DEL key [] htime) (map_order (map_to_list values)).

Definition Reconcile (key : string) (values : values_t) :
    res string (option KVStore.vref * instructions_t) :=
  match (map_order (map_to_list values)).*2 with
  | [] => Fail "At least one value must be provided"
  | [val] => Ok (val, ∅)
  | _ =>
      match getHighValue values with
      | Ok (Some high) =>
          match KVStore.v_val high with
          | VString s t => Ok (Some high, reconcileString key s t values)
          | VTombstone t => Ok (Some high, reconcileTombstone key (KVStore.v_ptr high) t values)
          | VBoolean _ _ => Fail "Unknown value type"
          end
      | Ok None => Panic
      | Fail e => Fail e
      | Panic => Panic
      end
  end.

(** ** Agreement with the key/value store *)

Definition to_kv (s : Redis) : KVStore.KVStore := KVStore.mkKVStore (data s).

(** Running the command of an instruction: [GET] as a read, others as writes. *)
Definition execute (i : Instruction) : S (option Value) :=
  if decide (Cmd i = KVStore.GET) then ExecuteRead (Cmd i) (Key i) (Args i)
  else ExecuteWrite (Cmd i) (Key i) (Args i) (Timestamp i).

Lemma redis_set_kv key val ts s :
  KVStore.set key val ts (to_kv s) = let '(r, s') := set key val ts s in (r, to_kv s').
Proof.
  unfold KVStore.set, set, to_kv. cbn. destruct (data s !! key) as [e|]; [|done].
  by destruct (Time_Before ts (KVStore.GetTimestamp e)).
Qed.

Lemma redis_del_kv key ts s :
  KVStore.del key ts (to_kv s) = let '(r, s') := del key ts s in (r, to_kv s').
Proof. unfold KVStore.del, del, to_kv. cbn. by destruct (data s !! key). Qed.

(** The loop finds the value that the loop over the slice finds. *)
Lemma getHighValue_loop_kv l t h :
  getHighValue_loop l t h = KVStore.getHighValue_loop l.*2 t h.
Proof.
  revert t h. induction l as [|[nid [v|]] l IH]; intros t h; cbn; [done| |done].
  by destruct (Time_After _ t).
Qed.

Lemma instruct_lookup differs i l nid v :
  NoDup l.*1 → (nid, Some v) ∈ l → default [] (instruct differs i l !! nid) = if differs v then [i] else [].
Proof.
  unfold instruct. intros Hnd Hin.
  assert (∀ m : instructions_t, m !! nid = None → default [] (foldl (λ m p, match p.2 with
    | Some v => if differs v then <[p.1 := [i]]> m else m | None => m end) m l !! nid) =
    if differs v then [i] else []) as H; [|by apply H].
  assert (∀ (l : list (string * option KVStore.vref)) (m : instructions_t), nid ∉ l.*1 →
    foldl (λ m p, match p.2 with Some v => if differs v then <[p.1 := [i]]> m else m | None => m end) m l !! nid
    = m !! nid) as Hskip.
  { clear. induction l as [|[nid' [u|]] l IH]; intros m Hn; cbn in *; [done| |apply IH; set_solver].
    rewrite IH by set_solver. destruct (differs u); [|done]. by rewrite lookup_insert_ne by set_solver. }
  induction l as [|[nid' o] l IH]; [by apply elem_of_nil in Hin|]. intros m Hm.
  cbn in Hnd. apply NoDup_cons in Hnd as [Hnid' Hnd]. cbn [foldl].
  apply elem_of_cons in Hin as [[= <- <-]|Hin].
  - cbn [snd fst]. rewrite Hskip by done. destruct (differs v); [by rewrite lookup_insert_eq|by rewrite Hm].
  - assert (nid ≠ nid') as Hne by (intros ->; apply Hnid'; by apply (list_elem_of_fmap_2 fst _ (nid', Some v))).
    apply IH; [done|done|]. destruct o as [u|]; [|done]. cbn. destruct (differs u); [|done].
    by rewrite lookup_insert_ne.
Qed.

(** With two answers or more both have to compare timestamps. *)
Lemma Reconcile_many key values :
  (2 ≤ length (map_order (map_to_list values)))%nat →
  Reconcile key values =
    match getHighValue values with
    | Ok (Some high) =>
        match KVStore.v_val high with
        | VString s t => Ok (Some high, reconcileString key s t values)
        | VTombstone t => Ok (Some high, reconcileTombstone key (KVStore.v_ptr high) t values)
        | VBoolean _ _ => Fail "Unknown value type"
        end
    | Ok None => Panic
    | Fail e => Fail e
    | Panic => Panic
    end.
Proof.
  unfold Reconcile. intros H. destruct (map_order (map_to_list values)) as [|? [|? ?]]; [cbn in H; lia..|done].
Qed.

Lemma kv_Reconcile_many key values :
  (2 ≤ length values)%nat →
  KVStore.Reconcile key values =
    match KVStore.getHighValue values with
    | Ok (Some high) =>
        match KVStore.v_val high with
        | VString s t => Ok (Some high, KVStore.reconcileString key s t (omap id values))
        | VTombstone t => Ok (Some high, KVStore.reconcileTombstone key (KVStore.v_ptr high) t (omap id values))
        | VBoolean _ _ => Fail "Unknown value type"
        end
    | Ok None => Panic
    | Fail e => Fail e
    | Panic => Panic
    end.
Proof. intros H. destruct values as [|? [|? ?]]; [cbn in H; lia..|done]. Qed.

(** [Reconcile] finds the winner the key/value store finds, and has the same
    instructions for every node. *)
Lemma Reconcile_kv key values l high repairs :
  map_order (map_to_list values) = l → (2 ≤ length l)%nat → Forall (λ p, p.2 ≠ None) l →
  KVStore.Reconcile key l.*2 = Ok (high, repairs) →
  ∃ instructions, Reconcile key values = Ok (high, instructions) ∧
    ∀ i nid v, l !! i = Some (nid, Some v) → repairs !! i = Some (default [] (instructions !! nid)).
Proof.
  intros Hl Hlen Hsome Hrec.
  assert (NoDup l.*1) as Hnd by (rewrite <-Hl, map_order_perm; apply NoDup_fst_map_to_list).
  assert (∀ (differs : KVStore.vref → bool) (i : Instruction) k nid v, l !! k = Some (nid, Some v) →
    (λ val, if differs val then [i] else []) <$> (omap id l.*2 !! k) = Some (default [] (instruct differs i l !! nid)))
    as Hins.
  { intros differs i k nid v Hk. rewrite (instruct_lookup _ _ _ _ v) by (done || by eapply list_elem_of_lookup_2).
    assert (omap id l.*2 !! k = Some v) as ->; [|done].
    clear -Hk Hsome. revert k Hk. induction Hsome as [|[nid' [u|]] l Hu _ IH]; intros k Hk; [done| |done].
    destruct k as [|k]; cbn in Hk |- *; [by injection Hk as <- <-|by apply IH]. }
  rewrite kv_Reconcile_many in Hrec by (by rewrite length_fmap). rewrite Reconcile_many by (by rewrite Hl).
  unfold KVStore.getHighValue, getHighValue in *. rewrite Hl, getHighValue_loop_kv.
  destruct (KVStore.getHighValue_loop l.*2 Time_zero None) as [[h|]|e|]; [|done..].
  destruct (KVStore.v_val h) as [hv ht|ht|]; [| |done]; injection Hrec as <- <-;
    (eexists; split; [done|]); intros k nid v Hk; unfold KVStore.reconcileString, KVStore.reconcileTombstone,
    reconcileString, reconcileTombstone; rewrite Hl, list_lookup_fmap.
  - by apply Hins with (v := v).
  - rewrite <-(Hins _ _ _ _ _ Hk). destruct (omap id l.*2 !! k) as [u|]; [|done]. cbn. f_equal.
    destruct (decide (KVStore.v_ptr u ≠ KVStore.v_ptr h)); [by rewrite bool_decide_eq_true_2|by rewrite bool_decide_eq_false_2].
Qed.
End reconcile.

(** The redis store executes every command as the key/value store does: the
    same answer or error and the same contents, with [GET] sent to [ExecuteRead]
    and everything else to [ExecuteWrite]; what is proved of the one holds of the
    other. *)
Theorem redis_agrees_with_kvstore (i : Instruction) (s : Redis) :
  KVStore.ExecuteInstruction i (to_kv s) = (let '(r, s') := execute i s in (r, to_kv s')) ∧
  (Cmd i = KVStore.GET → (execute i s).2 = s).
Proof.
  unfold KVStore.ExecuteInstruction, execute, ExecuteRead, ExecuteWrite. split.
  - destruct (decide (Cmd i = KVStore.GET)) as [Hg|Hg].
    + unfold KVStore.validateGet, validateGet. by destruct (decide _).
    + destruct (decide (Cmd i = KVStore.SET)) as [Hs|Hs].
      * unfold KVStore.validateSet, validateSet. destruct (decide _); [done|].
        destruct (Time_IsZero (Timestamp i)); [done|]. destruct (Args i) as [|a l]; [done|].
        cbn [KVStore.guard guard deref head]. rewrite !bind_ret.
        unfold fmap, ST_fmap, mbind, ST_bind. rewrite redis_set_kv. by destruct (set _ _ _ s) as [[]].
      * destruct (decide (Cmd i = KVStore.DEL)) as [Hd|Hd]; [|done].
        unfold KVStore.validateDel, validateDel. destruct (decide _); [done|].
        destruct (Time_IsZero (Timestamp i)); [done|].
        cbn [KVStore.guard guard]. rewrite !bind_ret.
        unfold fmap, ST_fmap, mbind, ST_bind. rewrite redis_del_kv. by destruct (del _ _ s) as [[]].
  - intros Hg. rewrite !decide_True by done. unfold validateGet. by destruct (decide _).
Qed.

Lemma redis_agrees_with_kvstore_witness :
  let s := mkRedis {[ "a" := VString "x" (mkTime 5 0 None) ]} in
  (execute (NewInstruction "GET" "a" [] Time_zero) s).2 = s.
Proof. intros s. apply (redis_agrees_with_kvstore (NewInstruction "GET" "a" [] Time_zero) s). reflexivity. Defined.

(** The two stores compare values alike, and each reads what the other has
    written. *)
Theorem redis_values_agree (v o : Value) :
  Equal v o = KVStore.Equal v o ∧ (Equal v o = true ↔ v = o) ∧
  (KVStore.value_ok v → ∃ bs, SerializeValue v = Ok bs ∧ KVStore.SerializeValue v = Ok bs ∧
     DeserializeValue bs = Ok (v, KVStore.GetValueType v) ∧
     KVStore.DeserializeValue bs = Ok (v, KVStore.GetValueType v)).
Proof.
  assert (Equal v o = KVStore.Equal v o) as Heq.
  { destruct v; cbn; unfold String_Equal, Tombstone_Equal, Boolean_Equal, KVStore.String_Equal, KVStore.Tombstone_Equal,
      KVStore.Boolean_Equal; change baseValueEqual with KVStore.baseValueEqual; try done;
      destruct (negb _); try done; destruct o; try done; case_bool_decide; by case_decide. }
  split; [done|]. split; [rewrite Heq; apply KVStore.Equal_eq|]. intros Hok.
  destruct (KVStore.SerializeValue_roundtrip v Hok) as (bs & Hs & Hd). exists bs.
  split_and!; [by destruct v|done|exact Hd|done].
Qed.

(** Read repair in the redis store: whatever the order in which Go visits the
    map of answers, [Reconcile] picks an answer no other is newer than, and the
    instructions it files under a node leave that value under the key of a store
    that holds the node's answer. *)
Theorem redis_reconcile_converges {Mo : MapOrder} (key : string) (values : gmap string KVStore.vref) :
  (2 ≤ size values)%nat →
  (∃ nid v, values !! nid = Some v ∧ Time_After (KVStore.GetTimestamp (KVStore.v_val v)) Time_zero = true) →
  map_Forall (λ _ v, match KVStore.v_val v with VBoolean _ _ => False | _ => True end) values →
  (∀ nid nid' u v, values !! nid = Some u → values !! nid' = Some v → KVStore.v_ptr u = KVStore.v_ptr v → u = v) →
  ∃ high instructions, Reconcile key (Some <$> values) = Ok (Some high, instructions) ∧
    (∃ nid, values !! nid = Some high) ∧
    (∀ nid u, values !! nid = Some u →
       Time_After (KVStore.GetTimestamp (KVStore.v_val u)) (KVStore.GetTimestamp (KVStore.v_val high)) = false) ∧
    ∀ nid v s, values !! nid = Some v → KVStore.data s !! key = Some (KVStore.v_val v) →
      KVStore.data (KVStore.run_all (default [] (instructions !! nid)) s) !! key = Some (KVStore.v_val high).
Proof.
  intros Hsize (nid0 & v0 & Hv0 & Hts) Hnb Hpc.
  set (l := map_order (map_to_list (Some <$> values))).
  assert (∀ nid o, (nid, o) ∈ l ↔ ∃ v, o = Some v ∧ values !! nid = Some v) as Hin.
  { intros nid o. unfold l. rewrite map_order_perm, elem_of_map_to_list, lookup_fmap, fmap_Some. naive_solver. }
  assert (∃ vs, l.*2 = Some <$> vs ∧ ∀ v, v ∈ vs ↔ ∃ nid, values !! nid = Some v) as (vs & Hvs & Hmem).
  { exists (omap id l.*2). assert (Forall (λ p, p.2 ≠ None) l) as Hall.
    { apply Forall_forall. intros [nid o] (v & -> & _)%Hin. done. }
    split.
    - clear -Hall. induction Hall as [|[nid [v|]] l Hv _ IH]; [done| |done]. cbn. by f_equal.
    - intros v. rewrite list_elem_of_omap. setoid_rewrite list_elem_of_fmap. split.
      + intros (o & ([nid o'] & -> & (u & -> & Hu)%Hin) & [= ->]). by exists nid.
      + intros [nid Hv]. exists (Some v). split; [|done]. exists (nid, Some v). rewrite Hin. eauto. }
  assert (length l = size values) as Hlen.
  { unfold l. by rewrite map_order_perm, length_map_to_list, map_size_fmap. }
  destruct (KVStore.Reconcile_converges key vs) as (high & repairs & Hrec & Hhigh & Hmax & Hrl & Hrun).
  { rewrite <-(length_fmap Some vs), <-Hvs, length_fmap, Hlen. done. }
  { exists v0. rewrite Hmem. eauto. }
  { apply Forall_forall. intros v [nid Hv]%Hmem. by apply (Hnb nid v). }
  { intros u v [nid Hu]%Hmem [nid' Hv]%Hmem. by eapply Hpc. }
  destruct (Reconcile_kv key (Some <$> values) l (Some high) repairs) as (instructions & Hr & Hto).
  { done. } { lia. }
  { apply Forall_forall. intros [nid o] (v & -> & _)%Hin. done. }
  { by rewrite Hvs. }
  exists high, instructions. split_and!; [done|by apply Hmem| |].
  - intros nid u Hu. apply Hmax, Hmem. eauto.
  - intros nid v s Hv Hs. assert ((nid, Some v) ∈ l) as [k Hk]%list_elem_of_lookup by (apply Hin; eauto).
    eapply (Hrun k v); [|by eapply Hto|done].
    assert ((Some <$> vs) !! k = Some (Some v)) as Hsv by (by rewrite <-Hvs, list_lookup_fmap, Hk).
    rewrite list_lookup_fmap in Hsv. destruct (vs !! k); cbn in Hsv; congruence.
Qed.
End Redis.
