(* ===== verification/Containers.v ===== *)
(** * Sets of instance ids

    [InstanceIDSet] of [src/consensus/instance_containers.go]: a Go map from
    ids to [true].  The map is kept as it is; [dom] is the finite set it
    stands for, and every operation is shown to refine the set operation it is
    named after. *)

From S2P Require Import Prelude Bytes Types.

(** [map[InstanceID]bool] *)
Abbreviation InstanceIDSet := (gmap InstanceID bool).

Module InstanceIDSet.

(** The keys, for loops whose result does not depend on the order. *)
Definition keys (i : InstanceIDSet) : list InstanceID := (map_to_list i).*1.

(** [for _, id := range ids { i[id] = true }] *)
Definition Add (i : InstanceIDSet) (ids : list InstanceID) : InstanceIDSet :=
  foldl (λ s id, <[id := true]> s) i ids.

Definition NewInstanceIDSet (ids : list InstanceID) : InstanceIDSet := Add ∅ ids.

(** [!o[key]] is true for a key that is absent. *)
Definition Equal (i o : InstanceIDSet) : bool :=
  if decide (size i ≠ size o) then false
  else forallb (λ key, default false (o !! key)) (keys i).

Definition Union (i o : InstanceIDSet) : InstanceIDSet :=
  Add (Add ∅ (keys i)) (keys o).

Definition Contains (i : InstanceIDSet) (id : InstanceID) : bool :=
  bool_decide (is_Some (i !! id)).

Definition Intersect (i o : InstanceIDSet) : InstanceIDSet :=
  foldl (λ n k, if Contains o k then <[k := true]> n else n) ∅ (keys i).

Definition Remove (i : InstanceIDSet) (ids : list InstanceID) : InstanceIDSet :=
  foldl (λ s id, delete id s) i ids.

Definition Combine (i : InstanceIDSet) (idSets : list InstanceIDSet) : InstanceIDSet :=
  foldl (λ s ids, Add s (keys ids)) i idSets.

Definition Difference (i o : InstanceIDSet) : InstanceIDSet :=
  foldl (λ s key, if negb (Contains o key) then Add s [key] else s) (NewInstanceIDSet []) (keys i).

Definition Subtract (i o : InstanceIDSet) : InstanceIDSet :=
  foldl (λ s key, delete key s) i (keys o).

Definition Clear (i : InstanceIDSet) : InstanceIDSet :=
  foldl (λ s key, delete key s) i (keys i).

Definition Copy (i : InstanceIDSet) : InstanceIDSet := Add ∅ (keys i).

Definition Size (i : InstanceIDSet) : nat := size i.

(** The only operation whose result shows the order of [range]. *)
Definition List `{MapOrder} (i : InstanceIDSet) : list InstanceID := map_order (keys i).

(** Every value in the map is [true]. *)
Definition wf (i : InstanceIDSet) : Prop := map_Forall (λ _ b, b = true) i.

(** ** Membership *)

Lemma elem_of_keys i id : id ∈ keys i ↔ id ∈ dom i.
Proof.
  unfold keys. rewrite elem_of_dom, list_elem_of_fmap. split.
  - intros ([k b] & -> & H). apply elem_of_map_to_list in H. by exists b.
  - intros [b H]. exists (id, b). split; [done|]. by apply elem_of_map_to_list.
Qed.

Lemma NoDup_keys i : NoDup (keys i).
Proof. apply NoDup_fst_map_to_list. Qed.

Lemma length_keys i : length (keys i) = size i.
Proof. unfold keys. by rewrite length_fmap, length_map_to_list. Qed.

Lemma list_to_set_keys i : (list_to_set (keys i) : gset InstanceID) = dom i.
Proof. apply set_eq. intros id. by rewrite elem_of_list_to_set, elem_of_keys. Qed.

Lemma dom_Add i ids : dom (Add i ids) = dom i ∪ list_to_set ids.
Proof.
  revert i; induction ids as [|id ids IH]; intros i; cbn; [set_solver|].
  unfold Add in IH. rewrite IH, dom_insert_L. set_solver.
Qed.

Lemma dom_New ids : dom (NewInstanceIDSet ids) = list_to_set ids.
Proof. unfold NewInstanceIDSet. rewrite dom_Add. set_solver. Qed.

Lemma dom_Union i o : dom (Union i o) = dom i ∪ dom o.
Proof. unfold Union. rewrite !dom_Add, !list_to_set_keys. set_solver. Qed.

Lemma Contains_dom i id : Contains i id = bool_decide (id ∈ dom i).
Proof. unfold Contains. apply bool_decide_ext. by rewrite elem_of_dom. Qed.

Lemma dom_foldl_filter (P : InstanceID → bool) ks (s : InstanceIDSet) :
  dom (foldl (λ n k, if P k then <[k := true]> n else n) s ks) =
    dom s ∪ list_to_set (filter (λ k, P k = true) ks).
Proof.
  revert s; induction ks as [|k ks IH]; intros s; cbn [foldl]; [set_solver|].
  rewrite IH, filter_cons. destruct (P k); cbn [decide bool_decide].
  - rewrite dom_insert_L. set_solver.
  - set_solver.
Qed.

Lemma dom_Intersect i o : dom (Intersect i o) = dom i ∩ dom o.
Proof.
  unfold Intersect. rewrite dom_foldl_filter. apply set_eq. intros k.
  rewrite elem_of_union, dom_empty, elem_of_list_to_set, list_elem_of_filter, elem_of_keys,
    Contains_dom, bool_decide_eq_true. set_solver.
Qed.

Lemma dom_Remove i ids : dom (Remove i ids) = dom i ∖ list_to_set ids.
Proof.
  revert i; induction ids as [|id ids IH]; intros i; cbn; [set_solver|].
  unfold Remove in IH. rewrite IH, dom_delete_L. set_solver.
Qed.

Lemma dom_Combine i sets : dom (Combine i sets) = dom i ∪ ⋃ (dom <$> sets).
Proof.
  revert i; induction sets as [|o sets IH]; intros i; cbn; [set_solver|].
  unfold Combine in IH. rewrite IH, dom_Add, list_to_set_keys. set_solver.
Qed.

Lemma dom_Combine1 i o : dom (Combine i [o]) = dom i ∪ dom o.
Proof. rewrite dom_Combine. cbn. set_solver. Qed.

Lemma dom_Difference i o : dom (Difference i o) = dom i ∖ dom o.
Proof.
  unfold Difference. cbn. rewrite (dom_foldl_filter (λ k, negb (Contains o k))).
  apply set_eq. intros k.
  rewrite elem_of_union, dom_empty, elem_of_list_to_set, list_elem_of_filter, elem_of_keys,
    Contains_dom, negb_true_iff, bool_decide_eq_false. set_solver.
Qed.

Lemma dom_Subtract i o : dom (Subtract i o) = dom i ∖ dom o.
Proof. change (Subtract i o) with (Remove i (keys o)). by rewrite dom_Remove, list_to_set_keys. Qed.

Lemma dom_Clear i : dom (Clear i) = ∅.
Proof.
  change (Clear i) with (Remove i (keys i)). rewrite dom_Remove, list_to_set_keys. set_solver.
Qed.

Lemma dom_Copy i : dom (Copy i) = dom i.
Proof. unfold Copy. rewrite dom_Add, list_to_set_keys. set_solver. Qed.

Lemma List_perm `{MapOrder} i : List i ≡ₚ elements (dom i).
Proof.
  unfold List. rewrite map_order_perm. apply NoDup_Permutation.
  - apply NoDup_keys.
  - apply NoDup_elements.
  - intros id. by rewrite elem_of_keys, elem_of_elements.
Qed.

Lemma elem_of_List `{MapOrder} i id : id ∈ List i ↔ id ∈ dom i.
Proof. by rewrite List_perm, elem_of_elements. Qed.

Lemma NoDup_List `{MapOrder} i : NoDup (List i).
Proof. rewrite List_perm. apply NoDup_elements. Qed.

(** ** All values are [true] *)

Lemma wf_empty : wf ∅.
Proof. apply map_Forall_empty. Qed.

Lemma wf_Add i ids : wf i → wf (Add i ids).
Proof.
  revert i; induction ids as [|id ids IH]; intros i Hi; cbn; [done|].
  apply IH. by apply map_Forall_insert_2.
Qed.

Lemma wf_New ids : wf (NewInstanceIDSet ids).
Proof. apply wf_Add, wf_empty. Qed.

(** [Equal] decides equality of the sets. *)
Lemma idset_Equal_spec i o : wf o → Equal i o = bool_decide (dom i = dom o).
Proof.
  intros Ho. unfold Equal. apply eq_true_iff_eq. rewrite bool_decide_eq_true. split.
  - case_decide as Hs; [done|]. rewrite forallb_forall. intros Hf.
    assert (dom i ⊆ dom o) as Hsub.
    { intros id Hid%elem_of_keys%list_elem_of_In%Hf. apply elem_of_dom.
      destruct (o !! id); [by eexists|done]. }
    apply (anti_symm (⊆)); [done|].
    assert (size (dom i) = size (dom o)) by (rewrite !size_dom; lia).
    assert (dom i = dom o) as ->; [|done]. apply set_eq.
    intros x. split; [apply Hsub|]. intros Hx.
    destruct (decide (x ∈ dom i)) as [|Hn]; [done|].
    assert (dom i ⊂ dom o) as Hlt%subset_size by set_solver. lia.
  - intros Hd. rewrite decide_False.
    + apply forallb_forall. intros id Hid%list_elem_of_In%elem_of_keys.
      rewrite Hd in Hid. apply elem_of_dom in Hid as [b Hb]. rewrite Hb. cbn. by apply (Ho id).
    + rewrite <-!size_dom, Hd. auto.
Qed.

(** Two sets with the same members are the same map. *)
Lemma wf_ext i o : wf i → wf o → dom i = dom o → i = o.
Proof.
  intros Hi Ho Hd. apply map_eq. intros id.
  destruct (i !! id) as [b|] eqn:Hb.
  - assert (id ∈ dom o) as [c Hc]%elem_of_dom by (rewrite <-Hd; apply elem_of_dom; eauto).
    rewrite Hc, (Hi id b Hb), (Ho id c Hc). done.
  - symmetry. apply not_elem_of_dom. rewrite <-Hd. by apply not_elem_of_dom.
Qed.

Create Rewrite HintDb idset.
#[export] Hint Rewrite dom_Add dom_New dom_Union dom_Intersect dom_Remove dom_Combine1
  dom_Difference dom_Subtract dom_Clear dom_Copy Contains_dom : idset.

(** Every operation of [InstanceIDSet] refines the operation on finite
    sets it is named after, and [Equal] decides equality of the sets when the
    values of its argument are all [true], which [NewInstanceIDSet] ensures. *)
Theorem idset_refines_set `{MapOrder} (i o : InstanceIDSet) (ids : list InstanceID)
    (sets : list InstanceIDSet) (id : InstanceID) :
  dom (NewInstanceIDSet ids) = list_to_set ids ∧ wf (NewInstanceIDSet ids) ∧
  dom (Add i ids) = dom i ∪ list_to_set ids ∧
  dom (Remove i ids) = dom i ∖ list_to_set ids ∧
  dom (Union i o) = dom i ∪ dom o ∧ dom (Intersect i o) = dom i ∩ dom o ∧
  dom (Difference i o) = dom i ∖ dom o ∧ dom (Subtract i o) = dom i ∖ dom o ∧
  dom (Combine i sets) = dom i ∪ ⋃ (dom <$> sets) ∧
  dom (Copy i) = dom i ∧ dom (Clear i) = ∅ ∧
  Contains i id = bool_decide (id ∈ dom i) ∧ Size i = size (dom i) ∧
  List i ≡ₚ elements (dom i) ∧
  Equal i (NewInstanceIDSet ids) = bool_decide (dom i = list_to_set ids).
Proof.
  split_and!; auto using dom_New, wf_New, dom_Add, dom_Remove, dom_Union, dom_Intersect,
    dom_Difference, dom_Subtract, dom_Combine, dom_Copy, dom_Clear, Contains_dom, List_perm.
  - unfold Size. by rewrite size_dom.
  - rewrite idset_Equal_spec by apply wf_New. by rewrite dom_New.
Qed.

End InstanceIDSet.
