(* ===== verification/Instance.v ===== *)
(** * Consensus instances

    [src/consensus/instance.go]: the record a replica keeps for every command,
    its status machine, and its two encodings.  Operations that need the
    manager (the dependency computation of [preaccept]) are completed in
    [Manager.v]. *)

From S2P Require Import Prelude Bytes Types GoTime Serializer Instruction Containers.

(** ** Errors ([src/consensus/errors.go]) *)

Inductive error :=
  | TimeoutError (msg : string)
  | BallotError (msg : string)
  | InvalidStatusUpdateError (iid : InstanceID) (current proposed : Z)
  | Errorf (msg : string).

#[export] Instance error_eq_dec : EqDecision error.
Proof. solve_decision. Defined.

(** [_, ok := err.(InvalidStatusUpdateError)] *)
Definition is_InvalidStatusUpdateError (e : error) : bool :=
  match e with InvalidStatusUpdateError _ _ _ => true | _ => false end.
Definition is_BallotError (e : error) : bool :=
  match e with BallotError _ => true | _ => false end.

(** ** Status *)

(** A byte; values off the wire may be none of the four constants. *)
Definition INSTANCE_PREACCEPTED : Z := 1.
Definition INSTANCE_ACCEPTED : Z := 2.
Definition INSTANCE_COMMITTED : Z := 3.
Definition INSTANCE_EXECUTED : Z := 4.

(** [PAXOS_DEBUG], a package variable whose value is [false] *)
Definition PAXOS_DEBUG : bool := false.

(** Timeouts, in milliseconds ([manager.go]) *)
Definition PREACCEPT_TIMEOUT : Z := 2000.
Definition ACCEPT_TIMEOUT : Z := 2000.
Definition PREACCEPT_COMMIT_TIMEOUT : Z := PREACCEPT_TIMEOUT + ACCEPT_TIMEOUT + 50.
Definition ACCEPT_COMMIT_TIMEOUT : Z := ACCEPT_TIMEOUT + 50.

(** The channel a client waits on for the result. *)
Abbreviation InstanceResultChan := positive.

Record DepsLog := mkDepsLog { dl_Reason : string; dl_Deps : list InstanceID }.

(** The locks, the commit event and the pointer to the manager are not kept. *)
Record Instance := mkInstance {
  i_InstanceID : InstanceID;
  i_LeaderID : NodeId;
  i_Successors : list NodeId;
  i_Command : Instruction;
  i_Dependencies : list InstanceID;
  i_Status : Z;
  i_MaxBallot : Z;
  i_Noop : bool;
  i_DependencyMatch : bool;
  i_ReadOnly : bool;
  i_ResultListeners : list InstanceResultChan;
  i_DepsLog : list DepsLog;
  i_StronglyConnected : InstanceIDSet;
  i_commitTimeout : Time;
}.

(** [&Instance{}] *)
Definition Instance_zero : Instance :=
  mkInstance B16_zero B16_zero [] Instruction_zero [] 0 0 false false false [] [] ∅ Time_zero.

(** ** Field assignment *)

Definition with_Dependencies (v : list InstanceID) (i : Instance) : Instance :=
  mkInstance (i_InstanceID i) (i_LeaderID i) (i_Successors i) (i_Command i) v
    (i_Status i) (i_MaxBallot i) (i_Noop i) (i_DependencyMatch i) (i_ReadOnly i)
    (i_ResultListeners i) (i_DepsLog i) (i_StronglyConnected i) (i_commitTimeout i).
Definition with_Status (v : Z) (i : Instance) : Instance :=
  mkInstance (i_InstanceID i) (i_LeaderID i) (i_Successors i) (i_Command i) (i_Dependencies i)
    v (i_MaxBallot i) (i_Noop i) (i_DependencyMatch i) (i_ReadOnly i)
    (i_ResultListeners i) (i_DepsLog i) (i_StronglyConnected i) (i_commitTimeout i).
Definition with_MaxBallot (v : Z) (i : Instance) : Instance :=
  mkInstance (i_InstanceID i) (i_LeaderID i) (i_Successors i) (i_Command i) (i_Dependencies i)
    (i_Status i) v (i_Noop i) (i_DependencyMatch i) (i_ReadOnly i)
    (i_ResultListeners i) (i_DepsLog i) (i_StronglyConnected i) (i_commitTimeout i).
Definition with_Noop (v : bool) (i : Instance) : Instance :=
  mkInstance (i_InstanceID i) (i_LeaderID i) (i_Successors i) (i_Command i) (i_Dependencies i)
    (i_Status i) (i_MaxBallot i) v (i_DependencyMatch i) (i_ReadOnly i)
    (i_ResultListeners i) (i_DepsLog i) (i_StronglyConnected i) (i_commitTimeout i).
Definition with_DependencyMatch (v : bool) (i : Instance) : Instance :=
  mkInstance (i_InstanceID i) (i_LeaderID i) (i_Successors i) (i_Command i) (i_Dependencies i)
    (i_Status i) (i_MaxBallot i) (i_Noop i) v (i_ReadOnly i)
    (i_ResultListeners i) (i_DepsLog i) (i_StronglyConnected i) (i_commitTimeout i).
Definition with_ResultListeners (v : list InstanceResultChan) (i : Instance) : Instance :=
  mkInstance (i_InstanceID i) (i_LeaderID i) (i_Successors i) (i_Command i) (i_Dependencies i)
    (i_Status i) (i_MaxBallot i) (i_Noop i) (i_DependencyMatch i) (i_ReadOnly i)
    v (i_DepsLog i) (i_StronglyConnected i) (i_commitTimeout i).
Definition with_DepsLog (v : list DepsLog) (i : Instance) : Instance :=
  mkInstance (i_InstanceID i) (i_LeaderID i) (i_Successors i) (i_Command i) (i_Dependencies i)
    (i_Status i) (i_MaxBallot i) (i_Noop i) (i_DependencyMatch i) (i_ReadOnly i)
    (i_ResultListeners i) v (i_StronglyConnected i) (i_commitTimeout i).
Definition with_StronglyConnected (v : InstanceIDSet) (i : Instance) : Instance :=
  mkInstance (i_InstanceID i) (i_LeaderID i) (i_Successors i) (i_Command i) (i_Dependencies i)
    (i_Status i) (i_MaxBallot i) (i_Noop i) (i_DependencyMatch i) (i_ReadOnly i)
    (i_ResultListeners i) (i_DepsLog i) v (i_commitTimeout i).
Definition with_commitTimeout (v : Time) (i : Instance) : Instance :=
  mkInstance (i_InstanceID i) (i_LeaderID i) (i_Successors i) (i_Command i) (i_Dependencies i)
    (i_Status i) (i_MaxBallot i) (i_Noop i) (i_DependencyMatch i) (i_ReadOnly i)
    (i_ResultListeners i) (i_DepsLog i) (i_StronglyConnected i) v.

Module Instance.

(** ** Accessors that change state *)

Definition incrementBallot (i : Instance) : Instance * Z :=
  let i' := with_MaxBallot (u32_incr (i_MaxBallot i)) i in (i', i_MaxBallot i').

Definition updateBallot (ballot : Z) (i : Instance) : Instance * bool :=
  if decide (ballot > i_MaxBallot i) then (with_MaxBallot ballot i, true) else (i, false).

Definition setDeps (reason : string) (deps : list InstanceID) (i : Instance) : Instance :=
  let i := with_Dependencies deps i in
  if PAXOS_DEBUG then with_DepsLog (i_DepsLog i ++ [mkDepsLog reason deps]) i else i.

Definition setStronglyConnectedIds (iids : list InstanceID) (i : Instance) : Instance :=
  with_StronglyConnected (InstanceIDSet.NewInstanceIDSet iids) i.

(** The new channel is named by the caller. *)
Definition addListener (listener : InstanceResultChan) (i : Instance) : Instance :=
  with_ResultListeners (i_ResultListeners i ++ [listener]) i.

Definition setNoop (i : Instance) : Instance := with_Noop true i.

(** [Copy] lists the fields it copies; [ReadOnly] and [StronglyConnected] are
    not among them. *)
Definition Copy (i : Instance) : Instance :=
  mkInstance (i_InstanceID i) (i_LeaderID i) (i_Successors i)
    (Instruction.Copy (i_Command i)) (i_Dependencies i) (i_Status i) (i_MaxBallot i)
    (i_Noop i) (i_DependencyMatch i) false [] [] ∅ (i_commitTimeout i).

Definition mergeAttributes `{MapOrder} (deps : list InstanceID) (i : Instance) :
    res error (Instance * bool) :=
  if decide (i_Status i ≠ INSTANCE_PREACCEPTED)
  then Fail (Errorf "attributes can only be merged on instances with preaccepted status")
  else
    let iSet := InstanceIDSet.NewInstanceIDSet (i_Dependencies i) in
    let oSet := InstanceIDSet.NewInstanceIDSet deps in
    if negb (InstanceIDSet.Equal iSet oSet) then
      Ok (setDeps "merge attrs" (InstanceIDSet.List (InstanceIDSet.Union iSet oSet)) i, true)
    else Ok (i, false).

(** ** Status changes

    [other] is the instance passed in when it is a different object from the
    receiver, and [None] when the receiver was passed to itself. *)

Definition makePreAcceptCommitTimeout (now : Time) : Time :=
  Time_Add now (PREACCEPT_COMMIT_TIMEOUT * Millisecond).
Definition makeAcceptCommitTimeout (now : Time) : Time :=
  Time_Add now (ACCEPT_COMMIT_TIMEOUT * Millisecond).

(** [i.Noop = inst.Noop; if inst.MaxBallot > i.MaxBallot { ... }] *)
Definition take_ballot (o : Instance) (i : Instance) : Instance :=
  let i := with_Noop (i_Noop o) i in
  if decide (i_MaxBallot o > i_MaxBallot i) then with_MaxBallot (i_MaxBallot o) i else i.

Definition bump (incr : bool) (i : Instance) : Instance :=
  if incr then with_MaxBallot (u32_incr (i_MaxBallot i)) i else i.

(** [preaccept] up to the call of [getInstanceDeps] ... *)
Definition preaccept_enter (other : option Instance) (i : Instance) : res error Instance :=
  if decide (i_Status i > INSTANCE_PREACCEPTED)
  then Fail (InvalidStatusUpdateError (i_InstanceID i) (i_Status i) INSTANCE_PREACCEPTED)
  else
    let i := match other with Some o => take_ballot o i | None => i end in
    Ok (with_Status INSTANCE_PREACCEPTED i).

(** ... and after it. *)
Definition preaccept_leave (deps : list InstanceID) (now : Time) (incr : bool) (i : Instance) :
    Instance :=
  let i := setDeps "preaccept" deps i in
  let i := with_commitTimeout (makePreAcceptCommitTimeout now) i in
  bump incr i.

Definition accept (other : option Instance) (now : Time) (incr : bool) (i : Instance) :
    res error Instance :=
  if decide (i_Status i > INSTANCE_ACCEPTED)
  then Fail (InvalidStatusUpdateError (i_InstanceID i) (i_Status i) INSTANCE_ACCEPTED)
  else
    let i := match other with
             | Some o => take_ballot o (setDeps "accept" (i_Dependencies o) i)
             | None => i
             end in
    let i := with_Status INSTANCE_ACCEPTED i in
    let i := with_commitTimeout (makeAcceptCommitTimeout now) i in
    Ok (bump incr i).

Definition commit (other : option Instance) (incr : bool) (i : Instance) : res error Instance :=
  if decide (i_Status i > INSTANCE_COMMITTED)
  then Fail (InvalidStatusUpdateError (i_InstanceID i) (i_Status i) INSTANCE_COMMITTED)
  else
    let i := match other with
             | Some o => take_ballot o (setDeps "commit" (i_Dependencies o) i)
             | None => i
             end in
    let i := with_Status INSTANCE_COMMITTED i in
    Ok (bump incr i).

(** ** Encoding *)

Definition NumBytesLimited (i : Instance) : Z :=
  UUID_NUM_BYTES + UUID_NUM_BYTES +
  4 + UUID_NUM_BYTES * length (i_Successors i) +
  Instruction.NumBytes (i_Command i) +
  4 + UUID_NUM_BYTES * length (i_Dependencies i) +
  1 + 4 + 1 + 1 + 1.

(** The error of [Command.Serialize] is replaced by nil. *)
Definition SerializeLimited (i : Instance) : W unit :=
  _ ← UUID_WriteBuffer (i_InstanceID i);
  _ ← UUID_WriteBuffer (i_LeaderID i);
  _ ← binary_Write_u32 (u32 (length (i_Successors i)));
  _ ← for_each UUID_WriteBuffer (i_Successors i);
  x ← try (Instruction.Serialize (i_Command i));
  match x with
  | inr _ => mret tt
  | inl _ =>
      _ ← binary_Write_u32 (u32 (length (i_Dependencies i)));
      _ ← for_each UUID_WriteBuffer (i_Dependencies i);
      _ ← binary_Write_u8 (i_Status i);
      _ ← binary_Write_u32 (i_MaxBallot i);
      _ ← write_bool (i_Noop i);
      _ ← write_bool (i_DependencyMatch i);
      write_bool (i_ReadOnly i)
  end.

(** Every caller decodes into a fresh [&Instance{}]. *)
Definition DeserializeLimited : R Instance :=
  iid ← UUID_ReadBuffer B16_zero;
  leader ← UUID_ReadBuffer B16_zero;
  numSuccessors ← binary_Read_u32;
  successors ← read_n (Z.to_nat numSuccessors) (UUID_ReadBuffer B16_zero);
  command ← Instruction.Deserialize;
  numDeps ← binary_Read_u32;
  deps ← read_n (Z.to_nat numDeps) (UUID_ReadBuffer B16_zero);
  status ← binary_Read_u8;
  ballot ← binary_Read_u32;
  noop ← read_bool;
  mtch ← read_bool;
  readonly ← read_bool;
  let i := mkInstance iid leader successors command [] status ballot noop mtch readonly [] [] ∅ Time_zero in
  mret (setDeps "deserialize" deps i).

Definition NumBytes (i : Instance) : Z := NumBytesLimited i + NumTimeBytes * 1.

Definition Serialize (i : Instance) : W unit :=
  _ ← SerializeLimited i; WriteTime (i_commitTimeout i).

Definition Deserialize : R Instance :=
  i ← DeserializeLimited;
  t ← ReadTime;
  mret (with_commitTimeout t i).

End Instance.

(** ** The wire format *)

Module InstanceWire.
Import Instance.

(** The fields that travel; the others are zero on the receiving side. *)
Definition wire_view (i : Instance) : Instance :=
  mkInstance (i_InstanceID i) (i_LeaderID i) (i_Successors i) (i_Command i) (i_Dependencies i)
    (i_Status i) (i_MaxBallot i) (i_Noop i) (i_DependencyMatch i) (i_ReadOnly i) [] [] ∅ Time_zero.

(** Widths: ids are 16 bytes, the status a byte, the ballot and the counts
    32 bits, and the command can be encoded. *)
Record ok (i : Instance) : Prop := {
  ok_iid : B16_wf (i_InstanceID i);
  ok_leader : B16_wf (i_LeaderID i);
  ok_succ : Forall B16_wf (i_Successors i);
  ok_nsucc : Z.of_nat (length (i_Successors i)) ≤ u32_max;
  ok_command : Instruction.ok (i_Command i);
  ok_deps : Forall B16_wf (i_Dependencies i);
  ok_ndeps : Z.of_nat (length (i_Dependencies i)) ≤ u32_max;
  ok_status : 0 ≤ i_Status i < 256;
  ok_ballot : 0 ≤ i_MaxBallot i ≤ u32_max;
}.

Definition bool_byte (b : bool) : list byte := le_bytes 1 (if b then 255 else 0).

Definition bytes (i : Instance) : list byte :=
  MarshalBinary (i_InstanceID i) ++ MarshalBinary (i_LeaderID i) ++
  le_bytes 4 (length (i_Successors i)) ++ concat (map MarshalBinary (i_Successors i)) ++
  Instruction.bytes (i_Command i) ++
  le_bytes 4 (length (i_Dependencies i)) ++ concat (map MarshalBinary (i_Dependencies i)) ++
  le_bytes 1 (i_Status i) ++ le_bytes 4 (i_MaxBallot i) ++
  bool_byte (i_Noop i) ++ bool_byte (i_DependencyMatch i) ++ bool_byte (i_ReadOnly i).

(** Dropping the error of a write does not matter on a writer whose error is
    sticky: what follows is not written either. *)
Lemma encodes_swallow (m1 m2 : W unit) bs1 bs2 :
  encodes m1 bs1 → encodes m2 bs2 →
  encodes (x ← try m1; match x with inr _ => mret tt | inl _ => m2 end) (bs1 ++ bs2).
Proof.
  intros [E1 O1 K1] [E2 O2 K2]. split; intros w He; unfold mbind, ST_bind, try.
  - specialize (E1 w He). destruct (m1 w) as [[]]; cbn in *; subst; auto.
  - specialize (O1 w He). specialize (K1 w He).
    destruct (written_app bs1 bs2 w He) as [(H1 & H2 & H3)|(H1 & H2 & H3 & H4)].
    + destruct (m1 w) as [[[]| |] w1]; cbn in *; subst; try congruence. rewrite H2. auto.
    + specialize (K1 H2). destruct (m1 w) as [r w1]; cbn in *; subst. rewrite H3. auto.
  - intros Hfit. specialize (O1 w He). specialize (K1 w He).
    destruct (written_app bs1 bs2 w He) as [(H1 & H2 & H3)|(H1 & H2 & H3 & H4)]; [done|].
    specialize (K1 H2). destruct (m1 w) as [r w1]; cbn in *; subst. apply K2; [done|]. by apply H4.
Qed.

Lemma encodes_SerializeLimited i : ok i → encodes (SerializeLimited i) (bytes i).
Proof.
  intros [H1 H2 H3 H4 H5 H6 H7 H8 H9]. unfold SerializeLimited, bytes.
  rewrite !u32_small by lia.
  repeat first
    [ solve [auto with codec]
    | apply encodes_for_each; intros; apply encodes_uuid
    | apply encodes_swallow | apply encodes_bind ].
Qed.

Lemma decodes_uuids l :
  Forall B16_wf l → decodes (read_n (length l) (UUID_ReadBuffer B16_zero)) (concat (map MarshalBinary l)) l.
Proof.
  intros Hl. rewrite Forall_forall in Hl. apply decodes_read_n. intros u Hu. by apply decodes_uuid, Hl.
Qed.

Lemma decodes_DeserializeLimited i : ok i → decodes DeserializeLimited (bytes i) (wire_view i).
Proof.
  intros [H1 H2 H3 H4 H5 H6 H7 H8 H9]. unfold DeserializeLimited, bytes.
  eapply decodes_bind; [by apply decodes_uuid|].
  eapply decodes_bind; [by apply decodes_uuid|].
  eapply decodes_bind; [apply decodes_u32; lia|]. rewrite Nat2Z.id.
  eapply decodes_bind; [by apply decodes_uuids|].
  eapply decodes_bind; [by apply Instruction.instruction_decodes_Deserialize|].
  eapply decodes_bind; [apply decodes_u32; lia|]. rewrite Nat2Z.id.
  eapply decodes_bind; [by apply decodes_uuids|].
  eapply decodes_bind; [by apply decodes_u8|].
  eapply decodes_bind; [apply decodes_u32; lia|].
  eapply decodes_bind; [apply decodes_read_bool|].
  eapply decodes_bind; [apply decodes_read_bool|].
  eapply decodes_bind_nil; [apply decodes_read_bool|]. apply decodes_ret.
Qed.

Lemma length_uuids l : length (concat (map MarshalBinary l)) = (16 * length l)%nat.
Proof. induction l as [|u l IH]; cbn; [done|]. rewrite length_app, length_MarshalBinary, IH. lia. Qed.

Lemma NumBytesLimited_bytes i : ok i → NumBytesLimited i = length (bytes i).
Proof.
  intros H. unfold NumBytesLimited, bytes, UUID_NUM_BYTES, bool_byte.
  rewrite (Instruction.NumBytes_bytes _ (ok_command _ H)).
  rewrite !length_app, !length_uuids, !length_MarshalBinary, !length_le_bytes. lia.
Qed.

(** The full encoding adds the commit timeout. *)
Definition time_ok (t : Time) : Prop := Time_fits t ∧ is_Some (GobEncode t).

Lemma instance_encodes_Serialize i :
  ok i → time_ok (i_commitTimeout i) →
  encodes (Serialize i) (bytes i ++ Instruction.time_bytes (i_commitTimeout i)).
Proof.
  intros Hi [Ht [tb Hb]]. apply encodes_bind; [by apply encodes_SerializeLimited|].
  unfold Instruction.time_bytes. rewrite Hb. by apply encodes_time.
Qed.

Lemma instance_decodes_Deserialize i :
  ok i → time_ok (i_commitTimeout i) →
  decodes Deserialize (bytes i ++ Instruction.time_bytes (i_commitTimeout i))
    (with_commitTimeout (i_commitTimeout i) (wire_view i)).
Proof.
  intros Hi [Ht [tb Hb]]. eapply decodes_bind; [by apply decodes_DeserializeLimited|].
  unfold Instruction.time_bytes. rewrite Hb.
  eapply decodes_bind_nil; [by apply decodes_time|]. apply decodes_ret.
Qed.

(** An instance of encodable fields survives both encodings: the limited
    one, in which it travels between replicas, in exactly [NumBytesLimited]
    bytes and without the fields of its receiver's own (listeners, debug log,
    component, commit timeout); the full one in exactly [NumBytes] bytes and
    with the commit timeout. *)
Theorem instance_roundtrip (i : Instance) (Hok : ok i) (Htime : time_ok (i_commitTimeout i)) :
  transmits (SerializeLimited i) DeserializeLimited (wire_view i) (NumBytesLimited i) ∧
  transmits (Serialize i) Deserialize (with_commitTimeout (i_commitTimeout i) (wire_view i)) (NumBytes i).
Proof.
  split.
  - eapply transmits_intro;
      [by apply encodes_SerializeLimited|by apply decodes_DeserializeLimited|].
    symmetry. by apply NumBytesLimited_bytes.
  - eapply transmits_intro; [by apply instance_encodes_Serialize|by apply instance_decodes_Deserialize|].
    unfold NumBytes. rewrite (NumBytesLimited_bytes _ Hok), length_app, Nat2Z.inj_add.
    destruct Htime as [_ [tb Hb]]. unfold Instruction.time_bytes. rewrite Hb, length_field.
    unfold NumSliceBytes, NumTimeBytes. rewrite (GobEncode_length _ _ Hb). lia.
Qed.

Definition example : Instance :=
  mkInstance (mkB16 1 2) (mkB16 3 4) [mkB16 5 6] Instruction.example [mkB16 1 1] INSTANCE_ACCEPTED 7
    false true true [] [] ∅ (mkTime 63000000000 7 None).

Lemma instance_example_ok : ok example.
Proof. split; try apply Instruction.instruction_example_ok; repeat constructor; cbn; try lia; done. Qed.

Lemma example_time_ok : time_ok (i_commitTimeout example).
Proof. split; [split; cbn; (done || lia)|by eexists]. Qed.

Lemma instance_roundtrip_witness :
  transmits (SerializeLimited example) DeserializeLimited (wire_view example) 120 ∧
  transmits (Serialize example) Deserialize (with_commitTimeout (i_commitTimeout example) (wire_view example)) 139.
Proof. apply (instance_roundtrip example); [apply instance_example_ok|apply example_time_ok]. Defined.

(** [SerializeLimited] can hide a failing write: there is an encodable
    instance and a connection that takes fewer bytes than its encoding, on
    which the error of the command's [Serialize] is dropped and success is
    reported for an instance that has been cut off in the middle, while the
    command's own [Serialize] reports the failure. *)
Theorem instance_serialize_hides_error :
  ∃ (i : Instance) (k : nat), ok i ∧ (k < length (bytes i))%nat ∧
    is_ok (Instruction.Serialize (i_Command i) (mkWriter [] (Some (k - 52)%nat) false)).1 = false ∧
    SerializeLimited i (mkWriter [] (Some k) false) = (Ok tt, mkWriter (take k (bytes i)) (Some 0%nat) true).
Proof.
  exists example, 60%nat. split; [apply instance_example_ok|]. split; [vm_compute; lia|].
  split; vm_compute; reflexivity.
Qed.

End InstanceWire.

#[export] Hint Resolve InstanceWire.encodes_SerializeLimited
  InstanceWire.decodes_DeserializeLimited : codec.
