(* ===== verification/Dependencies.v ===== *)
(** * The dependency manager

    [src/consensus/manager_depedencies.go]: a tree of the keys that commands
    touch, which records for every node of the tree the reads and writes a new
    command may interfere with.

    The abstraction [view] forgets the tree and keeps, for every key path, the
    four sets recorded there; [interferes] is the relation between paths that
    the file's header describes: a command depends on the commands at its own
    path, at the parents, and at the children, but not at the siblings. *)

From S2P Require Import Prelude Bytes Types GoTime Serializer Instruction Containers.
From S2P Require Import Instance.
Import InstanceIDSet.

(** ** The tree *)

Inductive dependencies :=
  mkDeps (writes reads executed acknowledged : InstanceIDSet)
         (subDependencies : gmap string dependencies).

Abbreviation dependencyMap := (gmap string dependencies).

Definition d_writes (d : dependencies) : InstanceIDSet := let 'mkDeps w _ _ _ _ := d in w.
Definition d_reads (d : dependencies) : InstanceIDSet := let 'mkDeps _ r _ _ _ := d in r.
Definition d_executed (d : dependencies) : InstanceIDSet := let 'mkDeps _ _ e _ _ := d in e.
Definition d_acknowledged (d : dependencies) : InstanceIDSet := let 'mkDeps _ _ _ a _ := d in a.
Definition d_sub (d : dependencies) : dependencyMap := let 'mkDeps _ _ _ _ s := d in s.

Definition newDependencies : dependencies := mkDeps ∅ ∅ ∅ ∅ ∅.

(** [dm.get(key)]: the node is created when it is missing. *)
Definition dependencyMap_get (dm : dependencyMap) (key : string) : dependencies * dependencyMap :=
  match dm !! key with
  | Some deps => (deps, dm)
  | None => (newDependencies, <[key := newDependencies]> dm)
  end.

Definition getLocalDeps (d : dependencies) (instance : Instance) : InstanceIDSet :=
  let deps := Copy (d_writes d) in
  if negb (i_ReadOnly instance) then Combine deps [d_reads d] else deps.

Fixpoint getChildDeps (instance : Instance) (d : dependencies) : InstanceIDSet :=
  let 'mkDeps w r e a sub := d in
  map_fold (λ _ subDeps deps, Combine deps [getChildDeps instance subDeps])
    (getLocalDeps d instance) sub.

(** Replaces the subtree under [key]. *)
Definition set_sub (d : dependencies) (sub : dependencyMap) : dependencies :=
  let 'mkDeps w r e a _ := d in mkDeps w r e a sub.

(** The node for the last key: collect, record, and drop what has been both
    executed and acknowledged. *)
Definition GetAndSetDeps_last (instance : Instance) (d : dependencies) :
    InstanceIDSet * dependencies :=
  let deps := map_fold (λ _ subDeps deps, Combine deps [getChildDeps instance subDeps])
                (getLocalDeps d instance) (d_sub d) in
  let reads := if i_ReadOnly instance then Add (d_reads d) [i_InstanceID instance] else d_reads d in
  let writes := if i_ReadOnly instance then d_writes d else Add (d_writes d) [i_InstanceID instance] in
  let exAcked := Intersect (d_executed d) (d_acknowledged d) in
  (deps, mkDeps (Subtract writes exAcked) (Subtract reads exAcked)
           (Subtract (d_executed d) exAcked) (Subtract (d_acknowledged d) exAcked) (d_sub d)).

(** [None] is the panic of [keys[1:]] on an empty slice. *)
Fixpoint GetAndSetDeps (keys : list string) (instance : Instance) (d : dependencies) :
    option (InstanceIDSet * dependencies) :=
  match keys with
  | [] => None
  | _ :: nextKeys =>
      match nextKeys with
      | [] =>
          let '(deps, d) := GetAndSetDeps_last instance d in
          Some (Remove deps [i_InstanceID instance], d)
      | next :: _ =>
          let deps := getLocalDeps d instance in
          let '(subDeps, sub) := dependencyMap_get (d_sub d) next in
          match GetAndSetDeps nextKeys instance subDeps with
          | None => None
          | Some (below, subDeps) =>
              Some (Remove (Combine deps [below]) [i_InstanceID instance],
                    set_sub d (<[next := subDeps]> sub))
          end
      end
  end.

Definition ReportAcknowledged_last (instance : Instance) (d : dependencies) : dependencies :=
  let containsInstance := Contains (d_acknowledged d) (i_InstanceID instance) in
  let acked := Add (d_acknowledged d) (i_Dependencies instance) in
  let acked := if negb containsInstance then Remove acked [i_InstanceID instance] else acked in
  mkDeps (d_writes d) (d_reads d) (d_executed d) acked (d_sub d).

Fixpoint ReportAcknowledged (keys : list string) (instance : Instance) (d : dependencies) :
    option dependencies :=
  match keys with
  | [] => None
  | _ :: nextKeys =>
      match nextKeys with
      | [] => Some (ReportAcknowledged_last instance d)
      | next :: _ =>
          let '(subDeps, sub) := dependencyMap_get (d_sub d) next in
          match ReportAcknowledged nextKeys instance subDeps with
          | None => None
          | Some subDeps => Some (set_sub d (<[next := subDeps]> sub))
          end
      end
  end.

(** For more than one key, [ReportExecuted] and [AddDependency] hand over to
    [ReportAcknowledged] of the next node. *)
Definition ReportExecuted (keys : list string) (instance : Instance) (d : dependencies) :
    option dependencies :=
  match keys with
  | [] => None
  | [_] =>
      Some (mkDeps (d_writes d) (d_reads d) (Add (d_executed d) [i_InstanceID instance])
              (d_acknowledged d) (d_sub d))
  | _ :: (next :: _) as nextKeys =>
      let '(subDeps, sub) := dependencyMap_get (d_sub d) next in
      match ReportAcknowledged nextKeys instance subDeps with
      | None => None
      | Some subDeps => Some (set_sub d (<[next := subDeps]> sub))
      end
  end.

Definition AddDependency (keys : list string) (instance : Instance) (d : dependencies) :
    option dependencies :=
  match keys with
  | [] => None
  | [_] =>
      Some (if i_ReadOnly instance
            then mkDeps (d_writes d) (Add (d_reads d) [i_InstanceID instance]) (d_executed d)
                   (d_acknowledged d) (d_sub d)
            else mkDeps (Add (d_writes d) [i_InstanceID instance]) (d_reads d) (d_executed d)
                   (d_acknowledged d) (d_sub d))
  | _ :: (next :: _) as nextKeys =>
      let '(subDeps, sub) := dependencyMap_get (d_sub d) next in
      match ReportAcknowledged nextKeys instance subDeps with
      | None => None
      | Some subDeps => Some (set_sub d (<[next := subDeps]> sub))
      end
  end.

(** ** The manager, the root of the tree *)

Module DepsMngr.
Section deps_mngr.
Context `{Store}.

Definition no_keys : error := Errorf "at least one interfering key required, none found".

Definition GetAndSetDeps `{MapOrder} (instance : Instance) :
    ST dependencyMap error (list InstanceID) := λ dm,
  match store_InterferingKeys (i_Command instance) with
  | [] => (Fail no_keys, dm)
  | (key :: _) as keys =>
      let '(d, dm) := dependencyMap_get dm key in
      match Dependencies.GetAndSetDeps keys instance d with
      | None => (Panic, dm)
      | Some (deps, d) => (Ok (List deps), <[key := d]> dm)
      end
  end.

(** The common shape of the three reports. *)
Definition report (f : list string → Instance → dependencies → option dependencies)
    (instance : Instance) : ST dependencyMap error unit := λ dm,
  match store_InterferingKeys (i_Command instance) with
  | [] => (Fail no_keys, dm)
  | (key :: _) as keys =>
      let '(d, dm) := dependencyMap_get dm key in
      match f keys instance d with
      | None => (Panic, dm)
      | Some d => (Ok tt, <[key := d]> dm)
      end
  end.

Definition ReportAcknowledged := report Dependencies.ReportAcknowledged.
Definition ReportExecuted := report Dependencies.ReportExecuted.
Definition AddDependency := report Dependencies.AddDependency.

End deps_mngr.
End DepsMngr.

(** ** The abstraction *)

(** What the tree records at one key path. *)
Record sets := mkSets {
  s_writes : gset InstanceID;
  s_reads : gset InstanceID;
  s_executed : gset InstanceID;
  s_acknowledged : gset InstanceID;
}.
Definition no_sets : sets := mkSets ∅ ∅ ∅ ∅.

Fixpoint node_view (d : dependencies) (p : list string) : sets :=
  match p with
  | [] => mkSets (dom (d_writes d)) (dom (d_reads d)) (dom (d_executed d)) (dom (d_acknowledged d))
  | k :: p => match d_sub d !! k with Some d => node_view d p | None => no_sets end
  end.

Definition view (dm : dependencyMap) (p : list string) : sets :=
  match p with
  | [] => no_sets
  | k :: p => match dm !! k with Some d => node_view d p | None => no_sets end
  end.

(** Paths on one branch of the key hierarchy. *)
Definition interferes (p q : list string) : Prop := p `prefix_of` q ∨ q `prefix_of` p.

(** What a new command must be ordered after: the writes, and for a write the
    reads too. *)
Definition conflicts (readOnly : bool) (s : sets) : gset InstanceID :=
  s_writes s ∪ (if readOnly then ∅ else s_reads s).

(** The effect of each operation at its own path. *)
Definition spec_record (i : Instance) (s : sets) : sets :=
  let self := {[i_InstanceID i]} in
  let done := s_executed s ∩ s_acknowledged s in
  mkSets ((s_writes s ∪ (if i_ReadOnly i then ∅ else self)) ∖ done)
         ((s_reads s ∪ (if i_ReadOnly i then self else ∅)) ∖ done)
         (s_executed s ∖ done) (s_acknowledged s ∖ done).

Definition spec_acknowledge (i : Instance) (s : sets) : sets :=
  mkSets (s_writes s) (s_reads s) (s_executed s)
    (s_acknowledged s ∪ (list_to_set (i_Dependencies i) ∖ {[i_InstanceID i]})).

Definition spec_execute (i : Instance) (s : sets) : sets :=
  mkSets (s_writes s) (s_reads s) (s_executed s ∪ {[i_InstanceID i]}) (s_acknowledged s).

Definition spec_add (i : Instance) (s : sets) : sets :=
  mkSets (s_writes s ∪ (if i_ReadOnly i then ∅ else {[i_InstanceID i]}))
         (s_reads s ∪ (if i_ReadOnly i then {[i_InstanceID i]} else ∅))
         (s_executed s) (s_acknowledged s).

(** [f] applied at one path *)
Definition at_path (q : list string) (f : sets → sets) (v : list string → sets) :
    list string → sets :=
  λ p, if decide (p = q) then f (v p) else v p.

(** ** Recursion on the tree *)

Fixpoint dsize (d : dependencies) : nat :=
  let 'mkDeps _ _ _ _ sub := d in S (map_fold (λ _ d n, dsize d + n)%nat 0%nat sub).

Lemma dsize_sub d k d' : d_sub d !! k = Some d' → (dsize d' < dsize d)%nat.
Proof.
  destruct d as [w r e a sub]; cbn [d_sub dsize].
  intros Hk. rewrite (map_fold_delete_L _ _ k d' sub) by (done || intros; lia). lia.
Qed.

Lemma dependencies_ind' (P : dependencies → Prop) :
  (∀ d, (∀ k d', d_sub d !! k = Some d' → P d') → P d) → ∀ d, P d.
Proof.
  intros H d. remember (dsize d) as n eqn:Hn. revert d Hn.
  induction (lt_wf n) as [n _ IH]. intros d ->. apply H.
  intros k d' Hk. eapply IH; [|done]. by eapply dsize_sub.
Qed.

(** ** What is collected *)

Lemma dom_getLocalDeps d i :
  dom (getLocalDeps d i) = conflicts (i_ReadOnly i) (node_view d []).
Proof.
  unfold getLocalDeps, conflicts. destruct (i_ReadOnly i); cbn -[Combine];
    autorewrite with idset; set_solver.
Qed.

Lemma dom_fold_Combine (f : dependencies → InstanceIDSet) b (sub : dependencyMap) id :
  id ∈ dom (map_fold (λ _ d deps, Combine deps [f d]) b sub) ↔
  id ∈ dom b ∨ ∃ k d, sub !! k = Some d ∧ id ∈ dom (f d).
Proof.
  apply (map_fold_weak_ind (λ r m, id ∈ dom r ↔ id ∈ dom b ∨ ∃ k d, m !! k = Some d ∧ id ∈ dom (f d))).
  - setoid_rewrite lookup_empty. naive_solver.
  - intros k d m r Hk IH. rewrite dom_Combine1. rewrite !elem_of_union, IH. split.
    + intros [[Hb|(k' & d' & Hk' & Hd')]|Hd]; [by left| |].
      * right. exists k', d'. rewrite lookup_insert_ne by congruence. done.
      * right. exists k, d. by rewrite lookup_insert_eq.
    + intros [Hb|(k' & d' & Hk' & Hd')]; [by left; left|].
      apply lookup_insert_Some in Hk' as [[-> ->]|[Hne Hk']]; [by right|].
      left. right. eauto.
Qed.

(** The subtree's conflicts, at any depth. *)
Lemma elem_of_getChildDeps i d id :
  id ∈ dom (getChildDeps i d) ↔ ∃ p, id ∈ conflicts (i_ReadOnly i) (node_view d p).
Proof.
  induction d as [d IH] using dependencies_ind'.
  assert (getChildDeps i d =
    map_fold (λ _ d deps, Combine deps [getChildDeps i d]) (getLocalDeps d i) (d_sub d)) as ->
    by (by destruct d).
  rewrite dom_fold_Combine, dom_getLocalDeps. split.
  - intros [Hl|(k & d' & Hk & Hd)]; [by exists []|].
    apply (IH k d' Hk) in Hd as [p Hp]. exists (k :: p). cbn. by rewrite Hk.
  - intros [[|k p] Hp]; [by left|]. right. cbn in Hp.
    destruct (d_sub d !! k) as [d'|] eqn:Hk.
    + exists k, d'. split; [done|]. apply (IH k d' Hk). eauto.
    + unfold conflicts in Hp. cbn in Hp. destruct (i_ReadOnly i); set_solver.
Qed.

Lemma GetAndSetDeps_last_spec i d :
  let '(deps, d') := GetAndSetDeps_last i d in
  (∀ id, id ∈ dom deps ↔ ∃ p, id ∈ conflicts (i_ReadOnly i) (node_view d p)) ∧
  ∀ p, node_view d' p = at_path [] (spec_record i) (node_view d) p.
Proof.
  unfold GetAndSetDeps_last. split.
  - intros id. rewrite <-elem_of_getChildDeps. by destruct d.
  - intros [|k p]; unfold at_path; [rewrite decide_True by done|by rewrite decide_False].
    unfold spec_record. cbn -[Add Subtract Intersect].
    destruct (i_ReadOnly i); autorewrite with idset; f_equal; set_solver.
Qed.

(** ** Walking down the tree *)

(** The node a lookup continues from, whether it was there or is created. *)
Lemma node_view_new p : node_view newDependencies p = no_sets.
Proof. destruct p as [|k p]; cbn; [by rewrite !dom_empty_L|by rewrite lookup_empty]. Qed.

Lemma dependencyMap_get_spec dm key d dm' :
  dependencyMap_get dm key = (d, dm') →
  (∀ p, node_view d p = match dm !! key with Some d => node_view d p | None => no_sets end) ∧
  (∀ d', <[key := d']> dm' = <[key := d']> dm).
Proof.
  unfold dependencyMap_get. destruct (dm !! key); intros [= <- <-]; split; try done.
  - intros p. apply node_view_new.
  - intros d'. by rewrite insert_insert_eq.
Qed.

(** Replacing the node under [next] by one that differs at [q] only. *)
Lemma node_view_set_sub d next dn dn' sub q f :
  dependencyMap_get (d_sub d) next = (dn, sub) →
  (∀ p, node_view dn' p = at_path q f (node_view dn) p) →
  ∀ p, node_view (set_sub d (<[next := dn']> sub)) p = at_path (next :: q) f (node_view d) p.
Proof.
  intros Hget Hn. apply dependencyMap_get_spec in Hget as [Hv Hi].
  assert (∀ k, d_sub (set_sub d (<[next := dn']> sub)) !! k = <[next := dn']> (d_sub d) !! k) as Hs.
  { intros k. rewrite <-Hi. by destruct d. }
  intros [|k p]; unfold at_path.
  { rewrite decide_False by done. by destruct d. }
  cbn. rewrite Hs. destruct (decide (next = k)) as [<-|Hne].
  - rewrite lookup_insert_eq, Hn. unfold at_path. rewrite Hv.
    destruct (decide (p = q)) as [->|Hpq]; [by rewrite decide_True|].
    rewrite decide_False by congruence. done.
  - rewrite lookup_insert_ne by done. rewrite decide_False by congruence. done.
Qed.

Lemma interferes_nil p : interferes p [].
Proof. right. apply prefix_nil. Qed.

Lemma interferes_cons k p q : interferes (k :: p) (k :: q) ↔ interferes p q.
Proof.
  unfold interferes. split; (intros [H|H]; [left|right]);
    first [by eapply prefix_cons_inv_2 | by apply prefix_cons].
Qed.

Lemma interferes_cons_inv k k' p q : interferes (k :: p) (k' :: q) → k = k'.
Proof. intros [H|H]; apply prefix_cons_inv_1 in H; done. Qed.

Lemma GetAndSetDeps_spec k rest i d :
  ∃ deps d',
    GetAndSetDeps (k :: rest) i d = Some (deps, d') ∧
    (∀ id, id ∈ dom deps ↔ id ≠ i_InstanceID i ∧
       ∃ p, interferes p rest ∧ id ∈ conflicts (i_ReadOnly i) (node_view d p)) ∧
    ∀ p, node_view d' p = at_path rest (spec_record i) (node_view d) p.
Proof.
  revert k d; induction rest as [|next rest IH]; intros k d.
  - cbn [GetAndSetDeps]. pose proof (GetAndSetDeps_last_spec i d) as Hl.
    destruct (GetAndSetDeps_last i d) as [deps d']. destruct Hl as [Hd Hv].
    eexists _, d'. split_and!; [done| |done].
    intros id. rewrite dom_Remove, elem_of_difference, Hd, list_to_set_singleton, elem_of_singleton.
    pose proof interferes_nil. naive_solver.
  - destruct (dependencyMap_get (d_sub d) next) as [dn sub] eqn:Hget.
    destruct (IH next dn) as (deps & dn' & Hrec & Hd & Hv).
    cbn [GetAndSetDeps]. rewrite Hget. cbn [GetAndSetDeps] in Hrec. rewrite Hrec.
    eexists _, _. split_and!; [done| |by eapply node_view_set_sub].
    apply dependencyMap_get_spec in Hget as [Hn _].
    intros id. rewrite dom_Remove, dom_Combine1, dom_getLocalDeps.
    rewrite elem_of_difference, !elem_of_union, Hd, list_to_set_singleton, elem_of_singleton.
    split.
    + intros [[Hl|(_ & p & Hp & Hc)] Hself]; (split; [done|]).
      * exists []. split; [left; apply prefix_nil|done].
      * exists (next :: p). rewrite interferes_cons. split; [done|]. cbn. by rewrite Hn in Hc.
    + intros (Hself & p & Hp & Hc). split; [|done]. destruct p as [|k' p]; [by left|].
      right. pose proof (interferes_cons_inv _ _ _ _ Hp) as ->.
      rewrite interferes_cons in Hp. split; [done|]. exists p. split; [done|].
      rewrite Hn. exact Hc.
Qed.

(** One report on a path, by an operation [g] on the last node. *)
Lemma ReportAcknowledged_spec k rest i d :
  ∃ d', ReportAcknowledged (k :: rest) i d = Some d' ∧
    ∀ p, node_view d' p = at_path rest (spec_acknowledge i) (node_view d) p.
Proof.
  revert k d; induction rest as [|next rest IH]; intros k d.
  - eexists. split; [done|]. intros [|k' p]; unfold at_path; [|by rewrite decide_False].
    rewrite decide_True by done. unfold ReportAcknowledged_last, spec_acknowledge.
    cbn -[Add Remove]. f_equal. rewrite Contains_dom. case_bool_decide as Hc; cbn [negb].
    + autorewrite with idset. apply set_eq. intros x.
      destruct (decide (x = i_InstanceID i)); set_solver.
    + autorewrite with idset. cbn. set_solver.
  - destruct (dependencyMap_get (d_sub d) next) as [dn sub] eqn:Hget.
    destruct (IH next dn) as (dn' & Hrec & Hv). cbn [ReportAcknowledged] in *. rewrite Hget, Hrec.
    eexists. split; [done|]. by eapply node_view_set_sub.
Qed.

Lemma ReportExecuted_spec k rest i d :
  ∃ d', ReportExecuted (k :: rest) i d = Some d' ∧
    ∀ p, node_view d' p =
      at_path rest (match rest with [] => spec_execute i | _ => spec_acknowledge i end) (node_view d) p.
Proof.
  destruct rest as [|next rest]; cbn [ReportExecuted].
  - eexists. split; [done|]. intros [|k' p]; unfold at_path; [|done].
    unfold spec_execute. cbn -[Add]. autorewrite with idset. f_equal. set_solver.
  - destruct (dependencyMap_get (d_sub d) next) as [dn sub] eqn:Hget.
    destruct (ReportAcknowledged_spec next rest i dn) as (dn' & Hrec & Hv). rewrite Hrec.
    eexists. split; [done|]. by eapply node_view_set_sub.
Qed.

Lemma AddDependency_spec k rest i d :
  ∃ d', AddDependency (k :: rest) i d = Some d' ∧
    ∀ p, node_view d' p =
      at_path rest (match rest with [] => spec_add i | _ => spec_acknowledge i end) (node_view d) p.
Proof.
  destruct rest as [|next rest]; cbn [AddDependency].
  - eexists. split; [done|]. intros [|k' p]; unfold at_path; [|by destruct (i_ReadOnly i)].
    unfold spec_add. destruct (i_ReadOnly i); cbn -[Add]; autorewrite with idset; f_equal; set_solver.
  - destruct (dependencyMap_get (d_sub d) next) as [dn sub] eqn:Hget.
    destruct (ReportAcknowledged_spec next rest i dn) as (dn' & Hrec & Hv). rewrite Hrec.
    eexists. split; [done|]. by eapply node_view_set_sub.
Qed.

(** ** The manager against its specification *)

Lemma view_insert dm key d dm1 d' rest f :
  dependencyMap_get dm key = (d, dm1) →
  (∀ p, node_view d' p = at_path rest f (node_view d) p) →
  ∀ p, view (<[key := d']> dm1) p = at_path (key :: rest) f (view dm) p.
Proof.
  intros Hget Hn. apply dependencyMap_get_spec in Hget as [Hv Hi]. rewrite Hi.
  intros [|k p]; unfold at_path; [done|]. cbn.
  destruct (decide (key = k)) as [<-|Hne].
  - rewrite lookup_insert_eq, Hn. unfold at_path. rewrite Hv.
    destruct (decide (p = rest)) as [->|Hpq]; [by rewrite decide_True|].
    rewrite decide_False by congruence. done.
  - rewrite lookup_insert_ne by done. rewrite decide_False by congruence. done.
Qed.

Section refinement.
Context `{Store, MapOrder}.

Definition keys_of (i : Instance) : list string := store_InterferingKeys (i_Command i).

(** The commands recorded on the paths that interfere with a command's own. *)
Definition interfering (i : Instance) (v : list string → sets) (id : InstanceID) : Prop :=
  ∃ p, interferes p (keys_of i) ∧ id ∈ conflicts (i_ReadOnly i) (v p).

Lemma mngr_GetAndSetDeps i dm :
  keys_of i ≠ [] →
  ∃ deps dm',
    DepsMngr.GetAndSetDeps i dm = (Ok deps, dm') ∧ NoDup deps ∧
    (∀ id, id ∈ deps ↔ id ≠ i_InstanceID i ∧ interfering i (view dm) id) ∧
    ∀ p, view dm' p = at_path (keys_of i) (spec_record i) (view dm) p.
Proof.
  intros Hk. unfold DepsMngr.GetAndSetDeps, interfering, keys_of in *.
  destruct (store_InterferingKeys (i_Command i)) as [|key rest]; [done|].
  destruct (dependencyMap_get dm key) as [d dm1] eqn:Hget.
  destruct (GetAndSetDeps_spec key rest i d) as (deps & d' & Hrun & Hd & Hv). rewrite Hrun.
  eexists _, _. split_and!; [done|apply NoDup_List| |by eapply view_insert].
  apply dependencyMap_get_spec in Hget as [Hn _].
  intros id. rewrite elem_of_List, Hd. split.
  - intros (Hs & p & Hp & Hc). split; [done|]. exists (key :: p).
    rewrite interferes_cons. split; [done|]. cbn. by rewrite Hn in Hc.
  - intros (Hs & p & Hp & Hc). split; [done|]. destruct p as [|k' p].
    { unfold conflicts in Hc. cbn in Hc. destruct (i_ReadOnly i); set_solver. }
    pose proof (interferes_cons_inv _ _ _ _ Hp) as ->. rewrite interferes_cons in Hp.
    exists p. split; [done|]. rewrite Hn. exact Hc.
Qed.

Lemma mngr_report f g i dm :
  (∀ k rest d, ∃ d', f (k :: rest) i d = Some d' ∧
     ∀ p, node_view d' p = at_path rest (g rest) (node_view d) p) →
  keys_of i ≠ [] →
  ∃ dm', DepsMngr.report f i dm = (Ok tt, dm') ∧
    ∀ p, view dm' p = at_path (keys_of i) (g (tail (keys_of i))) (view dm) p.
Proof.
  intros Hf Hk. unfold DepsMngr.report, keys_of in *.
  destruct (store_InterferingKeys (i_Command i)) as [|key rest]; [done|].
  destruct (dependencyMap_get dm key) as [d dm1] eqn:Hget.
  destruct (Hf key rest d) as (d' & Hrun & Hv). rewrite Hrun.
  eexists. split; [done|]. by eapply view_insert.
Qed.

Lemma mngr_ReportAcknowledged i dm :
  keys_of i ≠ [] →
  ∃ dm', DepsMngr.ReportAcknowledged i dm = (Ok tt, dm') ∧
    ∀ p, view dm' p = at_path (keys_of i) (spec_acknowledge i) (view dm) p.
Proof.
  intros Hk. apply (mngr_report _ (λ _, spec_acknowledge i)); [|done].
  intros. apply ReportAcknowledged_spec.
Qed.

Lemma mngr_ReportExecuted i dm :
  keys_of i ≠ [] →
  ∃ dm', DepsMngr.ReportExecuted i dm = (Ok tt, dm') ∧
    ∀ p, view dm' p = at_path (keys_of i)
      (match tail (keys_of i) with [] => spec_execute i | _ => spec_acknowledge i end) (view dm) p.
Proof.
  intros Hk.
  apply (mngr_report _ (λ rest, match rest with [] => spec_execute i | _ => spec_acknowledge i end)); [|done].
  intros. apply ReportExecuted_spec.
Qed.

Lemma mngr_AddDependency i dm :
  keys_of i ≠ [] →
  ∃ dm', DepsMngr.AddDependency i dm = (Ok tt, dm') ∧
    ∀ p, view dm' p = at_path (keys_of i)
      (match tail (keys_of i) with [] => spec_add i | _ => spec_acknowledge i end) (view dm) p.
Proof.
  intros Hk.
  apply (mngr_report _ (λ rest, match rest with [] => spec_add i | _ => spec_acknowledge i end)); [|done].
  intros. apply AddDependency_spec.
Qed.

(** Without keys every operation is an error and changes nothing. *)
Lemma mngr_no_keys i dm :
  keys_of i = [] →
  DepsMngr.GetAndSetDeps i dm = (Fail DepsMngr.no_keys, dm) ∧
  DepsMngr.ReportAcknowledged i dm = (Fail DepsMngr.no_keys, dm) ∧
  DepsMngr.ReportExecuted i dm = (Fail DepsMngr.no_keys, dm) ∧
  DepsMngr.AddDependency i dm = (Fail DepsMngr.no_keys, dm).
Proof.
  unfold keys_of, DepsMngr.GetAndSetDeps, DepsMngr.ReportAcknowledged, DepsMngr.ReportExecuted,
    DepsMngr.AddDependency, DepsMngr.report. intros ->. done.
Qed.

(** ** No recorded command is lost *)

(** The calls that the rest of consensus makes on the dependency manager. *)
Inductive deps_op :=
  | OpRecord (i : Instance)
  | OpAcknowledge (i : Instance)
  | OpExecuted (i : Instance)
  | OpAdd (i : Instance).

Definition run_op (o : deps_op) (dm : dependencyMap) : dependencyMap :=
  match o with
  | OpRecord i => (DepsMngr.GetAndSetDeps i dm).2
  | OpAcknowledge i => (DepsMngr.ReportAcknowledged i dm).2
  | OpExecuted i => (DepsMngr.ReportExecuted i dm).2
  | OpAdd i => (DepsMngr.AddDependency i dm).2
  end.
Definition run_ops (l : list deps_op) (dm : dependencyMap) : dependencyMap :=
  foldl (λ dm o, run_op o dm) dm l.

(** [i] is recorded at its path and has not been executed. *)
Definition pending (i : Instance) (v : list string → sets) : Prop :=
  let s := v (keys_of i) in
  i_InstanceID i ∈ (if i_ReadOnly i then s_reads s else s_writes s) ∧
  i_InstanceID i ∉ s_executed s.

(** The operation does not report [id] as executed. *)
Definition not_executing (id : InstanceID) (o : deps_op) : Prop :=
  match o with OpExecuted j => i_InstanceID j ≠ id | _ => True end.

Lemma pending_at_path i f q v v' :
  (∀ p, v' p = at_path q f v p) →
  (∀ s, i_InstanceID i ∉ s_executed s → i_InstanceID i ∈ (if i_ReadOnly i then s_reads s else s_writes s) →
    i_InstanceID i ∈ (if i_ReadOnly i then s_reads (f s) else s_writes (f s)) ∧
    i_InstanceID i ∉ s_executed (f s)) →
  pending i v → pending i v'.
Proof.
  intros Hv Hf [Hin Hne]. unfold pending. rewrite Hv. unfold at_path.
  case_decide; [by apply Hf|done].
Qed.

Lemma pending_run_op i o dm :
  not_executing (i_InstanceID i) o → pending i (view dm) → pending i (view (run_op o dm)).
Proof.
  intros Hno Hp.
  assert (∀ j dm', keys_of j = [] → dm' = dm → pending i (view dm')) as Hnil by (by intros ?? _ ->).
  destruct o as [j|j|j|j]; cbn [run_op];
    (destruct (decide (keys_of j = [])) as [Hk|Hk];
     [destruct (mngr_no_keys j dm Hk) as (E1 & E2 & E3 & E4); rewrite ?E1, ?E2, ?E3, ?E4; done|]).
  - destruct (mngr_GetAndSetDeps j dm Hk) as (deps & dm' & -> & _ & _ & Hv).
    eapply pending_at_path; [exact Hv| |done].
    intros s He Hs. unfold spec_record. cbn. destruct (i_ReadOnly i), (i_ReadOnly j); set_solver.
  - destruct (mngr_ReportAcknowledged j dm Hk) as (dm' & -> & Hv).
    eapply pending_at_path; [exact Hv|done|done].
  - destruct (mngr_ReportExecuted j dm Hk) as (dm' & -> & Hv). cbn in Hno.
    eapply pending_at_path; [exact Hv| |done].
    intros s He Hs. destruct (tail (keys_of j)); [|done]. cbn. split; [done|]. set_solver.
  - destruct (mngr_AddDependency j dm Hk) as (dm' & -> & Hv).
    eapply pending_at_path; [exact Hv| |done].
    intros s He Hs. destruct (tail (keys_of j)); [|done]. cbn. destruct (i_ReadOnly i); set_solver.
Qed.

(** Only a report of execution marks an id as executed. *)
Lemma executed_run_op o dm p id :
  id ∈ s_executed (view (run_op o dm) p) →
  id ∈ s_executed (view dm p) ∨ ∃ j, o = OpExecuted j ∧ id = i_InstanceID j.
Proof.
  destruct o as [j|j|j|j]; cbn [run_op];
    (destruct (decide (keys_of j = [])) as [Hk|Hk];
     [destruct (mngr_no_keys j dm Hk) as (E1 & E2 & E3 & E4); rewrite ?E1, ?E2, ?E3, ?E4; by left|]).
  - destruct (mngr_GetAndSetDeps j dm Hk) as (deps & dm' & -> & _ & _ & Hv). cbn. rewrite Hv.
    unfold at_path. case_decide; [|by left]. cbn. set_solver.
  - destruct (mngr_ReportAcknowledged j dm Hk) as (dm' & -> & Hv). cbn. rewrite Hv.
    unfold at_path. case_decide; by left.
  - destruct (mngr_ReportExecuted j dm Hk) as (dm' & -> & Hv). cbn. rewrite Hv.
    unfold at_path. case_decide; [|by left]. destruct (tail (keys_of j)); cbn; set_solver.
  - destruct (mngr_AddDependency j dm Hk) as (dm' & -> & Hv). cbn. rewrite Hv.
    unfold at_path. case_decide; [|by left]. destruct (tail (keys_of j)); by left.
Qed.

Lemma pending_run_ops i l dm :
  Forall (not_executing (i_InstanceID i)) l → pending i (view dm) → pending i (view (run_ops l dm)).
Proof.
  intros Hl. revert dm. induction Hl as [|o l Ho Hl IH]; intros dm Hp; cbn; [done|].
  apply IH. by apply pending_run_op.
Qed.

Lemma pending_record i dm :
  keys_of i ≠ [] → i_InstanceID i ∉ s_executed (view dm (keys_of i)) →
  pending i (view (run_op (OpRecord i) dm)).
Proof.
  intros Hk Hne. cbn. destruct (mngr_GetAndSetDeps i dm Hk) as (deps & dm' & -> & _ & _ & Hv).
  unfold pending. rewrite Hv. unfold at_path. rewrite decide_True by done. cbn.
  destruct (i_ReadOnly i); set_solver.
Qed.

Lemma pending_interfering i j dm :
  pending i (view dm) → interferes (keys_of i) (keys_of j) →
  i_ReadOnly i && i_ReadOnly j = false → interfering j (view dm) (i_InstanceID i).
Proof.
  intros [Hin _] Hint Hro. exists (keys_of i). split; [done|].
  unfold conflicts. destruct (i_ReadOnly i), (i_ReadOnly j); try done; set_solver.
Qed.

(** The operation does not record [id]. *)
Definition not_recording (id : InstanceID) (o : deps_op) : Prop :=
  match o with OpRecord j | OpAdd j => i_InstanceID j ≠ id | _ => True end.

(** [id] is recorded nowhere. *)
Definition absent (id : InstanceID) (v : list string → sets) : Prop :=
  ∀ p, id ∉ s_writes (v p) ∪ s_reads (v p).

Lemma absent_at_path id f q v v' :
  (∀ p, v' p = at_path q f v p) →
  (∀ s, id ∉ s_writes s ∪ s_reads s → id ∉ s_writes (f s) ∪ s_reads (f s)) → absent id v → absent id v'.
Proof. intros Hv Hf Ha p. rewrite Hv. unfold at_path. case_decide; [apply Hf|]; apply Ha. Qed.

Lemma absent_run_op id o dm : not_recording id o → absent id (view dm) → absent id (view (run_op o dm)).
Proof.
  intros Hno Ha. destruct o as [j|j|j|j]; cbn [run_op];
    (destruct (decide (keys_of j = [])) as [Hk|Hk];
     [destruct (mngr_no_keys j dm Hk) as (E1 & E2 & E3 & E4); rewrite ?E1, ?E2, ?E3, ?E4; done|]).
  - destruct (mngr_GetAndSetDeps j dm Hk) as (deps & dm' & -> & _ & _ & Hv). cbn in Hno.
    eapply absent_at_path; [exact Hv| |done]. intros s Hs. cbn. destruct (i_ReadOnly j); set_solver.
  - destruct (mngr_ReportAcknowledged j dm Hk) as (dm' & -> & Hv). by eapply absent_at_path; [exact Hv|..].
  - destruct (mngr_ReportExecuted j dm Hk) as (dm' & -> & Hv). eapply absent_at_path; [exact Hv| |done].
    intros s Hs. by destruct (tail (keys_of j)).
  - destruct (mngr_AddDependency j dm Hk) as (dm' & -> & Hv). cbn in Hno. eapply absent_at_path; [exact Hv| |done].
    intros s Hs. destruct (tail (keys_of j)); [|done]. cbn. destruct (i_ReadOnly j); set_solver.
Qed.

Lemma absent_run_ops id l dm :
  Forall (not_recording id) l → absent id (view dm) → absent id (view (run_ops l dm)).
Proof.
  intros Hl. revert dm. induction Hl as [|o l Ho Hl IH]; intros dm Ha; cbn; [done|]. apply IH. by apply absent_run_op.
Qed.
End refinement.

(** ** Properties *)

(** Instances of [LogStore] commands, for the examples. *)
Definition example_instance (n : Z) (key : string) (args : list string) (ro : bool) : Instance :=
  mkInstance (mkB16 0 n) (mkB16 1 1) [] (NewInstruction "SET" key args Time_zero) [] 0 0
    false false ro [] [] ∅ Time_zero.

(** C17. [GetAndSetDeps] refines its specification on the abstract [view] of the
    tree, for a command with at least one key: it returns, without duplicates
    and without the command itself, exactly the conflicting commands recorded
    on an interfering path (its own, a parent or a child of it), and the only
    path it changes is its own, where it records the command and drops what is
    both executed and acknowledged. *)
Theorem deps_GetAndSetDeps_refines `{Store, MapOrder} (i : Instance) (dm : dependencyMap)
    (Hkeys : keys_of i ≠ []) :
  ∃ deps dm',
    DepsMngr.GetAndSetDeps i dm = (Ok deps, dm') ∧ NoDup deps ∧
    (∀ id, id ∈ deps ↔ id ≠ i_InstanceID i ∧ interfering i (view dm) id) ∧
    ∀ p, view dm' p = at_path (keys_of i) (spec_record i) (view dm) p.
Proof. by apply mngr_GetAndSetDeps. Qed.

Lemma deps_GetAndSetDeps_refines_witness :
  let i := example_instance 2 "a" ["b"] false in
  keys_of (H:=LogStore) i ≠ [] ∧
  ∃ deps dm',
    DepsMngr.GetAndSetDeps (H:=LogStore) (H0:=MapOrder_id) i ∅ = (Ok deps, dm') ∧ NoDup deps ∧
    (∀ id, id ∈ deps ↔ id ≠ i_InstanceID i ∧ interfering (H:=LogStore) i (view ∅) id) ∧
    ∀ p, view dm' p = at_path (keys_of (H:=LogStore) i) (spec_record i) (view ∅) p.
Proof.
  split; [discriminate|].
  apply (@deps_GetAndSetDeps_refines LogStore MapOrder_id). discriminate.
Defined.

(** A command is not forgotten: once it has been recorded, it is among the
    dependencies of every later interfering command, unless both only read,
    whatever sequence of calls (records, acknowledgements, additions,
    executions of other commands) the dependency manager sees in between, until
    it is itself reported executed. *)
Theorem deps_never_lost `{Store, MapOrder} (a b : Instance) (dm : dependencyMap) (l : list deps_op)
    (Hfresh : i_InstanceID a ∉ s_executed (view dm (keys_of a)))
    (Hpending : Forall (not_executing (i_InstanceID a)) l)
    (Hdistinct : i_InstanceID a ≠ i_InstanceID b)
    (Hkeys : keys_of a ≠ []) (Hinterferes : interferes (keys_of a) (keys_of b))
    (Hwrite : i_ReadOnly a && i_ReadOnly b = false) (Hkeysb : keys_of b ≠ []) :
  ∃ deps dm', DepsMngr.GetAndSetDeps b (run_ops (OpRecord a :: l) dm) = (Ok deps, dm') ∧
    i_InstanceID a ∈ deps.
Proof.
  destruct (mngr_GetAndSetDeps b (run_ops (OpRecord a :: l) dm) Hkeysb)
    as (deps & dm' & Hrun & _ & Hd & _).
  exists deps, dm'. split; [done|]. apply Hd. split; [done|].
  apply pending_interfering; [|done..].
  apply (pending_run_ops a l (run_op (OpRecord a) dm)); [done|]. by apply pending_record.
Qed.

Lemma deps_never_lost_witness :
  let a := example_instance 1 "a" ["b"] false in
  let b := example_instance 2 "a" [] true in
  let c := example_instance 3 "a" ["b"] false in
  ∃ deps dm', DepsMngr.GetAndSetDeps (H:=LogStore) (H0:=MapOrder_id) b
      (run_ops (H:=LogStore) (H0:=MapOrder_id) [OpRecord a; OpRecord c; OpExecuted c; OpAcknowledge a] ∅)
      = (Ok deps, dm') ∧ mkB16 0 1 ∈ deps.
Proof.
  intros a b c.
  apply (@deps_never_lost LogStore MapOrder_id a b ∅ [OpRecord c; OpExecuted c; OpAcknowledge a]).
  - cbn. apply not_elem_of_empty.
  - repeat constructor. discriminate.
  - discriminate.
  - discriminate.
  - right. by exists ["b"].
  - reflexivity.
  - discriminate.
Defined.

(** C7. What has been executed and acknowledged is reported to one more command
    only.  Let a command be recorded at the path of its keys and nowhere else, and be
    marked there both as executed and as acknowledged.  The next command with this
    path is told of it, if they conflict; from then on no command is, whatever the
    dependency manager is asked to do, unless the first one is recorded anew. *)
Theorem executed_reported_once `{Store, MapOrder} (id : InstanceID) (b c : Instance) (dm : dependencyMap)
    (l : list deps_op)
    (Hdone : id ∈ s_executed (view dm (keys_of b)) ∩ s_acknowledged (view dm (keys_of b)))
    (Hplace : ∀ p, p ≠ keys_of b → id ∉ s_writes (view dm p) ∪ s_reads (view dm p))
    (Hother : i_InstanceID b ≠ id) (Hlater : Forall (not_recording id) l)
    (Hkeysb : keys_of b ≠ []) (Hkeysc : keys_of c ≠ []) :
  ∃ depsb dmb depsc dmc,
    DepsMngr.GetAndSetDeps b dm = (Ok depsb, dmb) ∧
    (id ∈ depsb ↔ id ∈ conflicts (i_ReadOnly b) (view dm (keys_of b))) ∧
    DepsMngr.GetAndSetDeps c (run_ops l dmb) = (Ok depsc, dmc) ∧ id ∉ depsc.
Proof.
  destruct (mngr_GetAndSetDeps b dm Hkeysb) as (depsb & dmb & Hrunb & _ & Hdb & Hvb).
  destruct (mngr_GetAndSetDeps c (run_ops l dmb) Hkeysc) as (depsc & dmc & Hrunc & _ & Hdc & _).
  exists depsb, dmb, depsc, dmc. split_and!; [done| |done|].
  - rewrite Hdb. split.
    + intros [_ (p & _ & Hp)]. destruct (decide (p = keys_of b)) as [->|Hne]; [done|].
      exfalso. apply (Hplace p Hne). unfold conflicts in Hp. destruct (i_ReadOnly b); set_solver.
    + intros Hc. split; [done|]. exists (keys_of b). split; [by left|done].
  - rewrite Hdc. intros [_ (p & _ & Hp)].
    assert (absent id (view dmb)) as Ha.
    { intros q. rewrite Hvb. unfold at_path. case_decide as Hq; [|by apply Hplace]. subst q. cbn.
      destruct (i_ReadOnly b); set_solver. }
    apply (absent_run_ops id l dmb Hlater Ha p). unfold conflicts in Hp. destruct (i_ReadOnly c); set_solver.
Qed.

(** 1 is recorded, executed, and acknowledged as a dependency of 2. *)
Lemma executed_reported_once_witness :
  let a := example_instance 1 "a" [] false in
  let ack := with_Dependencies [mkB16 0 1] (example_instance 2 "a" [] false) in
  let dm := run_ops (H:=LogStore) (H0:=MapOrder_id) [OpRecord a; OpExecuted a; OpAcknowledge ack] ∅ in
  let b := example_instance 3 "a" [] false in
  let c := example_instance 4 "a" [] false in
  ∃ depsb dmb depsc dmc,
    DepsMngr.GetAndSetDeps (H:=LogStore) (H0:=MapOrder_id) b dm = (Ok depsb, dmb) ∧
    (mkB16 0 1 ∈ depsb ↔ mkB16 0 1 ∈ conflicts (i_ReadOnly b) (view dm (keys_of (H:=LogStore) b))) ∧
    DepsMngr.GetAndSetDeps (H:=LogStore) (H0:=MapOrder_id) c
      (run_ops (H:=LogStore) (H0:=MapOrder_id) [OpAcknowledge ack] dmb) = (Ok depsc, dmc) ∧ mkB16 0 1 ∉ depsc.
Proof.
  intros a ack dm b c. apply (@executed_reported_once LogStore MapOrder_id (mkB16 0 1) b c dm [OpAcknowledge ack]).
  - apply (bool_decide_eq_true_1 _). vm_compute. reflexivity.
  - intros p Hp. change (p ≠ ["a"]) in Hp. assert (∃ d, dm = {["a" := d]} ∧ d_sub d = ∅) as (d & Hdm & Hd).
    { exists (default newDependencies (dm !! "a")). split; vm_compute; reflexivity. }
    rewrite Hdm. clear Hdm.
    destruct p as [|k p]; [vm_compute; set_solver|]. unfold view. destruct (decide (k = "a")) as [->|Hk].
    + rewrite lookup_singleton_eq. destruct p as [|k p]; [done|]. cbn [node_view]. rewrite Hd. vm_compute. set_solver.
    + rewrite lookup_singleton_ne by done. vm_compute. set_solver.
  - discriminate.
  - by repeat constructor.
  - discriminate.
  - discriminate.
Defined.

(** [ReportAcknowledged], and for a command with a single key also
    [ReportExecuted] and [AddDependency], change exactly the set they are named
    after, at the command's own path; a command without keys is an error for
    all four operations and changes nothing. *)
Theorem deps_reports_refine `{Store, MapOrder} (i : Instance) (dm : dependencyMap) :
  (keys_of i ≠ [] →
    ∃ dm', DepsMngr.ReportAcknowledged i dm = (Ok tt, dm') ∧
      ∀ p, view dm' p = at_path (keys_of i) (spec_acknowledge i) (view dm) p) ∧
  (length (keys_of i) = 1%nat →
    (∃ dm', DepsMngr.ReportExecuted i dm = (Ok tt, dm') ∧
      ∀ p, view dm' p = at_path (keys_of i) (spec_execute i) (view dm) p) ∧
    (∃ dm', DepsMngr.AddDependency i dm = (Ok tt, dm') ∧
      ∀ p, view dm' p = at_path (keys_of i) (spec_add i) (view dm) p)) ∧
  (keys_of i = [] →
    DepsMngr.GetAndSetDeps i dm = (Fail DepsMngr.no_keys, dm) ∧
    DepsMngr.ReportAcknowledged i dm = (Fail DepsMngr.no_keys, dm) ∧
    DepsMngr.ReportExecuted i dm = (Fail DepsMngr.no_keys, dm) ∧
    DepsMngr.AddDependency i dm = (Fail DepsMngr.no_keys, dm)).
Proof.
  split_and!; [apply mngr_ReportAcknowledged| |apply mngr_no_keys].
  intros Hk. assert (tail (keys_of i) = []) as Ht by (by destruct (keys_of i) as [|? []]).
  assert (keys_of i ≠ []) as Hne by (intros He; by rewrite He in Hk).
  pose proof (mngr_ReportExecuted i dm Hne) as He. pose proof (mngr_AddDependency i dm Hne) as Ha.
  rewrite Ht in He, Ha. done.
Qed.

Lemma deps_reports_refine_witness :
  let i := example_instance 2 "a" [] false in
  ∃ dm', DepsMngr.ReportExecuted (H:=LogStore) i ∅ = (Ok tt, dm') ∧
    ∀ p, view dm' p = at_path (keys_of (H:=LogStore) i) (spec_execute i) (view ∅) p.
Proof.
  intros i. apply (@deps_reports_refine LogStore MapOrder_id i ∅). reflexivity.
Defined.

(** For a command with nested keys, [ReportExecuted] and [AddDependency]
    only acknowledge the command's dependencies, exactly as
    [ReportAcknowledged] does: the command is neither marked executed nor
    recorded as a read or a write. *)
Theorem deps_nested_reports_acknowledge `{Store} (i : Instance) (dm : dependencyMap)
    (Hkeys : (1 < length (keys_of i))%nat) :
  (∃ dm', DepsMngr.ReportExecuted i dm = (Ok tt, dm') ∧
    ∀ p, view dm' p = at_path (keys_of i) (spec_acknowledge i) (view dm) p) ∧
  (∃ dm', DepsMngr.AddDependency i dm = (Ok tt, dm') ∧
    ∀ p, view dm' p = at_path (keys_of i) (spec_acknowledge i) (view dm) p).
Proof.
  assert (keys_of i ≠ []) as Hne by (intros He; rewrite He in Hkeys; cbn in Hkeys; lia).
  pose proof (mngr_ReportExecuted i dm Hne) as He. pose proof (mngr_AddDependency i dm Hne) as Ha.
  destruct (tail (keys_of i)) eqn:Ht; [|done].
  destruct (keys_of i) as [|? []]; cbn in *; [lia..|done].
Qed.

Lemma deps_nested_reports_acknowledge_witness :
  let i := example_instance 2 "a" ["b"] false in
  ∃ dm', DepsMngr.AddDependency (H:=LogStore) i ∅ = (Ok tt, dm') ∧
    ∀ p, view dm' p = at_path ["a"; "b"] (spec_acknowledge i) (view ∅) p.
Proof. intros i. apply (@deps_nested_reports_acknowledge LogStore i ∅). cbn. lia. Defined.
