(* ===== verification/Closure.v ===== *)
(** * What the dependency manager may forget

    [src/consensus/manager_depedencies.go] drops a command once it has been
    executed here and some accepted or committed command depends on it.  The
    dependencies that are reported from then on no longer name it; shown here
    is that, among writes, the dependencies this replica reports still lead to
    it, and that among reads they do not.  Whether those reports are counted is
    another matter ([Forgotten]). *)

From S2P Require Import Prelude Bytes Types GoTime Serializer Instruction Containers.
From S2P Require Import Instance Dependencies.

Section closure.
Context `{St : Store, Mo : MapOrder}.

(** What a call reports: for each dependency returned, the command and the
    dependency. *)
Definition reported (o : deps_op) (dm : dependencyMap) : list (InstanceID * InstanceID) :=
  match o with
  | OpRecord i =>
      match (DepsMngr.GetAndSetDeps i dm).1 with
      | Ok ds => map (pair (i_InstanceID i)) ds
      | _ => []
      end
  | _ => []
  end.

Fixpoint reports (l : list deps_op) (dm : dependencyMap) : list (InstanceID * InstanceID) :=
  match l with
  | [] => []
  | o :: l => reported o dm ++ reports l (run_op o dm)
  end.

(** Writes are recorded before they are executed. *)
Definition orderly_op (o : deps_op) (dm : dependencyMap) : Prop :=
  match o with
  | OpRecord i => i_ReadOnly i = false ∧ i_InstanceID i ∉ s_executed (view dm (keys_of i))
  | OpAdd i => i_ReadOnly i = false
  | _ => True
  end.

Fixpoint orderly (l : list deps_op) (dm : dependencyMap) : Prop :=
  match l with
  | [] => True
  | o :: l => orderly_op o dm ∧ orderly l (run_op o dm)
  end.

(** [a] can be reached by [R] from a write that is recorded at [p]. *)
Definition reachable_at (R : relation InstanceID) (dm : dependencyMap) (p : list string) (a : InstanceID) : Prop :=
  ∃ w, w ∈ s_writes (view dm p) ∧ rtc R w a.

Lemma reported_record i dm d :
  keys_of i ≠ [] → d ≠ i_InstanceID i → interfering i (view dm) d →
  (i_InstanceID i, d) ∈ reported (OpRecord i) dm.
Proof.
  intros Hk Hne Hd. cbn. destruct (mngr_GetAndSetDeps i dm Hk) as (ds & dm' & -> & _ & Hds & _). cbn.
  apply list_elem_of_fmap. exists d. split; [done|]. by apply Hds.
Qed.

Lemma reachable_run_op (R : relation InstanceID) o dm p a :
  orderly_op o dm → (∀ c d, (c, d) ∈ reported o dm → R c d) →
  reachable_at R dm p a → reachable_at R (run_op o dm) p a.
Proof.
  intros Ho HR (w & Hw & Hwa). destruct o as [j|j|j|j]; cbn [run_op];
    (destruct (decide (keys_of j = [])) as [Hk|Hk];
     [destruct (mngr_no_keys j dm Hk) as (E1 & E2 & E3 & E4); rewrite ?E1, ?E2, ?E3, ?E4; by exists w|]).
  - assert (interferes p (keys_of j) → w ≠ i_InstanceID j → R (i_InstanceID j) w) as Hjw.
    { intros Hp Hne. apply HR, reported_record; [done..|]. exists p. split; [done|]. unfold conflicts. set_solver. }
    destruct (mngr_GetAndSetDeps j dm Hk) as (ds & dm' & -> & _ & _ & Hv). unfold reachable_at. cbn. rewrite Hv.
    unfold at_path. case_decide as Hp; [|by exists w]. subst p. destruct Ho as [Hro Hne]. cbn. rewrite Hro.
    destruct (decide (w ∈ s_executed (view dm (keys_of j)) ∩ s_acknowledged (view dm (keys_of j)))) as [Hd|Hd].
    + exists (i_InstanceID j). split; [set_solver|]. eapply rtc_l; [|exact Hwa].
      apply Hjw; [by left|set_solver].
    + exists w. split; [set_solver|done].
  - destruct (mngr_ReportAcknowledged j dm Hk) as (dm' & -> & Hv). exists w. split; [|done].
    cbn. rewrite Hv. unfold at_path. by case_decide; subst.
  - destruct (mngr_ReportExecuted j dm Hk) as (dm' & -> & Hv). exists w. split; [|done].
    cbn. rewrite Hv. unfold at_path. case_decide; subst; by destruct (tail (keys_of j)).
  - destruct (mngr_AddDependency j dm Hk) as (dm' & -> & Hv). exists w. split; [|done].
    cbn. rewrite Hv. unfold at_path. case_decide; subst; [|done]. destruct (tail (keys_of j)); [|done].
    cbn in *. rewrite Ho. set_solver.
Qed.

Lemma reachable_run_ops (R : relation InstanceID) l dm p a :
  orderly l dm → (∀ c d, (c, d) ∈ reports l dm → R c d) →
  reachable_at R dm p a → reachable_at R (run_ops l dm) p a.
Proof.
  revert dm. induction l as [|o l IH]; intros dm Hl HR Ha; [done|]. cbn in *. destruct Hl as [Ho Hl].
  apply IH; [done| |apply reachable_run_op; [done| |done]]; intros c d Hcd; apply HR, elem_of_app; auto.
Qed.

Lemma reports_app l l' dm : reports (l ++ l') dm = reports l dm ++ reports l' (run_ops l dm).
Proof. revert dm; induction l; intros dm; cbn; [done|]. by rewrite IHl, app_assoc. Qed.

(** C6. Among writes nothing is forgotten: after a write has been recorded, and
    whatever calls follow (records of writes that are not executed yet,
    acknowledgements, executions, also of the write itself), every later
    interfering write is reported to depend on it, directly or through the
    reported dependencies of writes recorded in between. *)
Theorem deps_lead_to_every_write (a b : Instance) (l : list deps_op) (dm : dependencyMap)
    (Horderly : orderly (OpRecord a :: l ++ [OpRecord b]) dm)
    (Hkeysa : keys_of a ≠ []) (Hkeysb : keys_of b ≠ []) (Hinterferes : interferes (keys_of a) (keys_of b)) :
  rtc (λ c d, (c, d) ∈ reports (OpRecord a :: l ++ [OpRecord b]) dm) (i_InstanceID b) (i_InstanceID a).
Proof.
  set (R := λ c d, _). pose proof Horderly as [[Hra Hea] Hl]. set (dm1 := run_op (OpRecord a) dm) in *.
  assert (∀ l l' dm, orderly (l ++ l') dm → orderly l dm ∧ orderly l' (run_ops l dm)) as Happ.
  { clear. induction l as [|o l IH]; intros l' dm; cbn; [done|]. intros [? [? ?]%IH]. done. }
  destruct (Happ _ _ _ Hl) as [Hl1 [[Hrb _] _]].
  assert (reachable_at R (run_ops l dm1) (keys_of a) (i_InstanceID a)) as (w & Hw & Hwa).
  { apply reachable_run_ops; [done| |].
    - intros c d Hcd. unfold R. cbn. rewrite reports_app. set_solver.
    - exists (i_InstanceID a). split; [|apply rtc_refl]. unfold dm1. cbn.
      destruct (mngr_GetAndSetDeps a dm Hkeysa) as (ds & dm' & -> & _ & _ & Hv). cbn. rewrite Hv.
      unfold at_path. rewrite decide_True by done. cbn. rewrite Hra. set_solver. }
  destruct (decide (w = i_InstanceID b)) as [->|Hne]; [done|]. eapply rtc_l; [|exact Hwa].
  unfold R. cbn. rewrite reports_app. apply elem_of_app. right. apply elem_of_app. right.
  apply elem_of_app. left. apply reported_record; [done..|].
  exists (keys_of a). split; [done|]. unfold conflicts. set_solver.
Qed.

(** ** Calls for one key *)

Definition op_instance (o : deps_op) : Instance :=
  match o with OpRecord i | OpAcknowledge i | OpExecuted i | OpAdd i => i end.

Definition op_spec (o : deps_op) : sets → sets :=
  match o with
  | OpRecord i => spec_record i
  | OpAcknowledge i => spec_acknowledge i
  | OpExecuted i => spec_execute i
  | OpAdd i => spec_add i
  end.

Lemma run_op_view o dm p :
  length (keys_of (op_instance o)) = 1%nat →
  view (run_op o dm) p = at_path (keys_of (op_instance o)) (op_spec o) (view dm) p.
Proof.
  intros Hk. assert (keys_of (op_instance o) ≠ []) as Hne by (intros E; by rewrite E in Hk).
  assert (tail (keys_of (op_instance o)) = []) as Ht by (by destruct (keys_of (op_instance o)) as [|? []]).
  destruct o as [i|i|i|i]; cbn in *.
  - by destruct (mngr_GetAndSetDeps i dm Hne) as (? & ? & -> & _ & _ & ->).
  - by destruct (mngr_ReportAcknowledged i dm Hne) as (? & -> & ->).
  - destruct (mngr_ReportExecuted i dm Hne) as (? & -> & Hv). cbn. by rewrite Hv, Ht.
  - destruct (mngr_AddDependency i dm Hne) as (? & -> & Hv). cbn. by rewrite Hv, Ht.
Qed.

(** They change the sets at its path, each as it is specified to. *)
Lemma run_ops_view ks l dm p :
  length ks = 1%nat → Forall (λ o, keys_of (op_instance o) = ks) l →
  view (run_ops l dm) p = if decide (p = ks) then foldl (λ s o, op_spec o s) (view dm ks) l else view dm p.
Proof.
  intros Hk Hl. revert dm. induction Hl as [|o l Ho _ IH]; intros dm; [cbn; by case_decide; subst|].
  change (run_ops (o :: l) dm) with (run_ops l (run_op o dm)). cbn [foldl]. rewrite IH, !run_op_view by (by rewrite Ho). rewrite Ho. unfold at_path. rewrite (decide_True _ _ (eq_refl ks)).
  by repeat case_decide.
Qed.

(** What a read gets then. *)
Lemma read_deps ks l dm r :
  length ks = 1%nat → Forall (λ o, keys_of (op_instance o) = ks) l → (∀ p, view dm p = no_sets) →
  keys_of r = ks → i_ReadOnly r = true →
  ∃ deps dm', DepsMngr.GetAndSetDeps r (run_ops l dm) = (Ok deps, dm') ∧ NoDup deps ∧
    ∀ id, id ∈ deps ↔ id ≠ i_InstanceID r ∧ id ∈ s_writes (foldl (λ s o, op_spec o s) no_sets l).
Proof.
  intros Hk Hl Hv Hr Hro. assert (keys_of r ≠ []) as Hne by (intros E; by rewrite <- Hr, E in Hk).
  destruct (mngr_GetAndSetDeps r (run_ops l dm) Hne) as (deps & dm' & Hrun & Hnd & Hd & _).
  exists deps, dm'. split; [done|]. split; [done|]. intros id. rewrite Hd. f_equiv. unfold interfering, conflicts.
  rewrite Hro. split.
  - intros (p & _ & Hp). rewrite (run_ops_view ks), !Hv in Hp by done. case_decide; [set_solver|]. cbn in Hp. set_solver.
  - intros Hid. exists ks. rewrite Hr. split; [by left|]. rewrite (run_ops_view ks), Hv, decide_True by done. set_solver.
Qed.

(** Among reads an executed write is forgotten: let a write [a] be recorded,
    then a read [c], and let [c] be accepted or committed with [a] as its
    dependency and [a] be executed.  The next read [b] still depends on [a], but
    [a] is dropped with it, and as reads do not depend on reads, the read [d]
    after it is reported to depend on nothing at all: a replica that has not
    executed [a] yet may execute [d] first. *)
Theorem read_loses_executed_write (a b c d : Instance) (dm : dependencyMap)
    (Hview : ∀ p, view dm p = no_sets) (Hkeys : length (keys_of a) = 1%nat)
    (Hb : keys_of b = keys_of a) (Hc : keys_of c = keys_of a) (Hd : keys_of d = keys_of a)
    (Hra : i_ReadOnly a = false) (Hrb : i_ReadOnly b = true) (Hrc : i_ReadOnly c = true)
    (Hrd : i_ReadOnly d = true) (Hdep : i_Dependencies c = [i_InstanceID a])
    (Hca : i_InstanceID c ≠ i_InstanceID a) (Hba : i_InstanceID b ≠ i_InstanceID a) :
  let l := [OpRecord a; OpRecord c; OpAcknowledge c; OpExecuted a] in
  (∃ dm', DepsMngr.GetAndSetDeps b (run_ops l dm) = (Ok [i_InstanceID a], dm')) ∧
  (∃ dm', DepsMngr.GetAndSetDeps d (run_ops (l ++ [OpRecord b]) dm) = (Ok [], dm')).
Proof.
  intros l. assert (Forall (λ o, keys_of (op_instance o) = keys_of a) (l ++ [OpRecord b])) as Hl by (by repeat constructor).
  assert (Forall (λ o, keys_of (op_instance o) = keys_of a) l) as Hl' by (by apply Forall_app in Hl as [? _]).
  split.
  - destruct (read_deps (keys_of a) l dm b) as (deps & dm' & Hrun & Hnd & Hin); [done..|]. exists dm'. rewrite Hrun.
    assert (deps = [i_InstanceID a]) as ->; [|done]. apply Permutation_singleton_r, NoDup_Permutation; [done|apply NoDup_singleton|].
    intros id. rewrite Hin. cbn. rewrite Hra, Hrc. set_solver.
  - destruct (read_deps (keys_of a) (l ++ [OpRecord b]) dm d) as (deps & dm' & Hrun & Hnd & Hin); [done..|].
    exists dm'. rewrite Hrun. assert (deps = []) as ->; [|done]. apply elem_of_nil_inv. intros id. rewrite Hin. cbn.
    rewrite Hra, Hrb, Hrc, Hdep. set_solver.
Qed.

End closure.

(** ** Examples *)

Section examples.
#[local] Existing Instances LogStore MapOrder_id.

Lemma deps_lead_to_every_write_witness :
  let a := example_instance 1 "a" [] false in
  let c := with_Dependencies [mkB16 0 1] (example_instance 2 "a" [] false) in
  let e := example_instance 3 "a" [] false in
  let b := example_instance 4 "a" [] false in
  let l := [OpRecord c; OpAcknowledge c; OpExecuted a; OpRecord e] in
  (DepsMngr.GetAndSetDeps b (run_ops (OpRecord a :: l) ∅)).1 = Ok [mkB16 0 3; mkB16 0 2] ∧
  rtc (λ c d, (c, d) ∈ reports (OpRecord a :: l ++ [OpRecord b]) ∅) (i_InstanceID b) (i_InstanceID a).
Proof.
  intros a c e b l. split; [vm_compute; reflexivity|]. apply deps_lead_to_every_write.
  - repeat split; apply (bool_decide_eq_true_1 _); vm_compute; reflexivity.
  - discriminate.
  - discriminate.
  - by left.
Defined.

Lemma read_loses_executed_write_witness :
  let a := example_instance 1 "a" [] false in
  let c := with_Dependencies [mkB16 0 1] (example_instance 2 "a" [] true) in
  let b := example_instance 3 "a" [] true in
  let d := example_instance 4 "a" [] true in
  ∃ dm', DepsMngr.GetAndSetDeps d
    (run_ops ([OpRecord a; OpRecord c; OpAcknowledge c; OpExecuted a] ++ [OpRecord b]) ∅) = (Ok [], dm').
Proof.
  intros a c b d. apply (read_loses_executed_write a b c d ∅).
  - by intros [|k p].
  - reflexivity.
  - reflexivity.
  - reflexivity.
  - reflexivity.
  - reflexivity.
  - reflexivity.
  - reflexivity.
  - reflexivity.
  - reflexivity.
  - discriminate.
  - discriminate.
Defined.

End examples.
