(* ===== verification/Events.v ===== *)
(** * Commit events

    The [event] of [src/consensus/manager.go], by which goroutines wait for an
    instance to be committed, and the event of an instance
    ([getCommitEvent] and [broadcastCommitEvent] of [instance.go]).  [getChan]
    starts a goroutine that waits on a condition variable and then sends on an
    unbuffered channel.  An event is the mutex of its condition variable and what
    is left of these goroutines, in the order in which they have been started;
    they are interleaved operation by operation. *)

From S2P Require Import Prelude.

(** ** The goroutines of an event *)

(** What a goroutine does next.  [cond.Wait] releases the mutex and suspends the
    goroutine ([Asleep]); woken up by a broadcast ([Woken]), it takes the mutex
    again before it returns. *)
Inductive instr := Lock | Wait | Asleep | Woken | Unlock | Send.

#[export] Instance instr_eq_dec : EqDecision instr.
Proof. solve_decision. Defined.

(** Which goroutine holds [cond.L], and the goroutines. *)
Record event := mkEvent {
  ev_holder : option nat;
  ev_waiters : list (list instr);
}.

Definition newEvent : event := mkEvent None [].

(** The channel is the number of its goroutine. *)
Definition getChan (e : event) : nat * event :=
  (length (ev_waiters e), mkEvent (ev_holder e) (ev_waiters e ++ [[Lock; Wait; Unlock; Send]])).

(** [cond.Broadcast] wakes the goroutines that are suspended at that moment. *)
Definition wake (code : list instr) : list instr :=
  match code with Asleep :: code => Woken :: code | _ => code end.

Definition broadcast (e : event) : event := mkEvent (ev_holder e) (wake <$> ev_waiters e).

(** The next operation of a goroutine, if nothing blocks it. *)
Definition go_on (k : nat) (e : event) : option event :=
  match ev_waiters e !! k with
  | Some (Lock :: code) | Some (Woken :: code) =>
      if decide (ev_holder e = None) then Some (mkEvent (Some k) (<[k := code]> (ev_waiters e))) else None
  | Some (Wait :: code) =>
      if decide (ev_holder e = Some k) then Some (mkEvent None (<[k := Asleep :: code]> (ev_waiters e))) else None
  | Some (Unlock :: code) =>
      if decide (ev_holder e = Some k) then Some (mkEvent None (<[k := code]> (ev_waiters e))) else None
  | _ => None
  end.

(** Someone receives from the channel, which nobody can do before the goroutine
    sends. *)
Definition receive_from (k : nat) (e : event) : option event :=
  match ev_waiters e !! k with
  | Some (Send :: code) => Some (mkEvent (ev_holder e) (<[k := code]> (ev_waiters e)))
  | _ => None
  end.

(** *** The event of an instance, made when someone first asks for it *)

Definition getCommitEvent (commitEvent : option event) : option event :=
  Some (default newEvent commitEvent).

Definition broadcastCommitEvent (commitEvent : option event) : option event :=
  broadcast <$> commitEvent.

(** ** Interleavings *)

Inductive event_act := AGetChan | AGo (k : nat) | ABroadcast | AReceive (k : nat).

#[export] Instance event_act_eq_dec : EqDecision event_act.
Proof. solve_decision. Defined.

Inductive event_step : event_act → event → event → Prop :=
  | step_getChan e : event_step AGetChan e (getChan e).2
  | step_go k e e' : go_on k e = Some e' → event_step (AGo k) e e'
  | step_broadcast e : event_step ABroadcast e (broadcast e)
  | step_receive k e e' : receive_from k e = Some e' → event_step (AReceive k) e e'.

Definition any_step (e e' : event) : Prop := ∃ a, event_step a e e'.

(** Any step but [a]. *)
Definition step_but (a : event_act) (e e' : event) : Prop := ∃ b, b ≠ a ∧ event_step b e e'.

(** Only goroutines of the event act. *)
Definition go_steps (e e' : event) : Prop := rtc (λ e e', ∃ k, go_on k e = Some e') e e'.

(** *** Where the goroutines can be *)

Definition holding : list (list instr) := [[Wait; Unlock; Send]; [Unlock; Send]].
Definition not_holding : list (list instr) :=
  [[Lock; Wait; Unlock; Send]; [Asleep; Unlock; Send]; [Woken; Unlock; Send]; [Send]; []].

(** Whoever holds the mutex is between taking and releasing it, and nobody else is. *)
Definition placed (e : event) : Prop :=
  (∀ k code, ev_waiters e !! k = Some code → code ∈ (if decide (ev_holder e = Some k) then holding else not_holding)) ∧
  (∀ k, ev_holder e = Some k → is_Some (ev_waiters e !! k)).

Lemma placed_insert e h k code0 code :
  placed e → ev_waiters e !! k = Some code0 → (∀ j, j ≠ k → ev_holder e ≠ Some j) → h = None ∨ h = Some k →
  code ∈ (if decide (h = Some k) then holding else not_holding) →
  placed (mkEvent h (<[k := code]> (ev_waiters e))).
Proof.
  intros [H1 _] Hk Hh Hh' Hc. split; cbn [ev_holder ev_waiters].
  - intros j c [(<- & <- & _)|[Hne Hj]]%list_lookup_insert_Some; [done|]. apply H1 in Hj.
    rewrite decide_False in Hj by (apply Hh; done). rewrite decide_False; [done|]. destruct Hh' as [->| ->]; congruence.
  - intros j ->. destruct Hh' as [|[= ->]]; [done|]. rewrite list_lookup_insert_eq by (by eapply lookup_lt_Some). done.
Qed.

(** The possible steps of a goroutine. *)
Lemma go_on_placed k e e' : placed e → go_on k e = Some e' → placed e'.
Proof.
  intros Hp. unfold go_on. destruct (ev_waiters e !! k) as [code|] eqn:Hk; [|done].
  destruct code as [|[] code]; try done; (case_decide as Hh; [|done]); intros [= <-];
    pose proof (proj1 Hp _ _ Hk) as Hc; rewrite Hh in Hc;
    (eapply placed_insert; [done|exact Hk|intros j Hj; congruence|auto|]);
    rewrite ?(decide_True (P := Some k = Some k)) in * by done; rewrite ?(decide_False (P := None = Some k)) in * by done;
    unfold holding, not_holding in *; set_solver.
Qed.

Lemma placed_step a e e' : placed e → event_step a e e' → placed e'.
Proof.
  intros Hp Hs. destruct Hs as [e|k e e' Hs|e|k e e' Hs].
  - destruct Hp as [H1 H2]. split; cbn [getChan broadcast ev_holder ev_waiters snd].
    + intros k code [Hk|(Hl & Hk)]%lookup_app_Some; [by apply H1|]. apply list_lookup_singleton_Some in Hk as [Hk <-].
      rewrite decide_False; [left|]. intros [c Hc%lookup_lt_Some]%H2. lia.
    + intros k [c Hk]%H2. exists c. by apply lookup_app_l_Some.
  - by eapply go_on_placed.
  - destruct Hp as [H1 H2]. split; cbn [getChan broadcast ev_holder ev_waiters snd].
    + intros k code. rewrite list_lookup_fmap. intros (c & Hk & ->)%fmap_Some. apply H1 in Hk. revert Hk.
      unfold holding, not_holding. case_decide; set_unfold; intros Hc;
        (repeat destruct Hc as [->|Hc]); cbn; auto 10.
    + intros k [c Hk]%H2. by rewrite list_lookup_fmap, Hk.
  - unfold receive_from in Hs. destruct (ev_waiters e !! k) as [[|[] code]|] eqn:Hk; simplify_eq.
    pose proof (proj1 Hp _ _ Hk) as Hc. case_decide as Hh; [unfold holding in Hc; set_solver|].
    destruct Hp as [H1 H2]. split; cbn [ev_holder ev_waiters].
    + intros j c [(<- & <- & _)|[Hne Hj]]%list_lookup_insert_Some; [|by apply H1].
      rewrite decide_False by done. unfold not_holding in *. set_solver.
    + intros j Hj. destruct (H2 j Hj) as [c Hjc]. exists c. rewrite list_lookup_insert_ne; [done|congruence].
Qed.

(** *** What becomes of one goroutine *)

(** The others do not touch it, but for the broadcast. *)
Lemma step_lookup a k e e' code :
  event_step a e e' → ev_waiters e !! k = Some code → a ≠ AGo k → a ≠ AReceive k → a ≠ ABroadcast →
  ev_waiters e' !! k = Some code.
Proof.
  intros Hs Hk Hg Hr Hb. destruct Hs as [e|j e e' Hs|e|j e e' Hs]; [by apply lookup_app_l_Some| |done|].
  - unfold go_on in Hs. destruct (ev_waiters e !! j) as [[|[] c]|]; try done; case_decide; simplify_eq;
      cbn [ev_waiters]; rewrite list_lookup_insert_ne; congruence.
  - unfold receive_from in Hs. destruct (ev_waiters e !! j) as [[|[] c]|]; simplify_eq;
      cbn [ev_waiters]; rewrite list_lookup_insert_ne; congruence.
Qed.

(** It has not been woken up. *)
Definition unwoken (k : nat) (e : event) : Prop :=
  ∃ code, ev_waiters e !! k = Some code ∧
    code ∈ [[Lock; Wait; Unlock; Send]; [Wait; Unlock; Send]; [Asleep; Unlock; Send]].

(** It has been woken up, and its channel has not been read. *)
Definition woken (k : nat) (e : event) : Prop :=
  ∃ code, ev_waiters e !! k = Some code ∧ code ∈ [[Woken; Unlock; Send]; [Unlock; Send]; [Send]].

Definition asleep (k : nat) (e : event) : Prop := ev_waiters e !! k = Some [Asleep; Unlock; Send].

(** A step of the goroutine itself. *)
Lemma go_on_own k e e' code :
  go_on k e = Some e' → ev_waiters e !! k = Some code →
  ev_waiters e' !! k = Some (match code with Wait :: code => Asleep :: code | _ :: code => code | [] => [] end).
Proof.
  unfold go_on. intros Hg Hk. rewrite Hk in Hg. pose proof (lookup_lt_Some _ _ _ Hk).
  destruct code as [|[] code]; try done; case_decide; simplify_eq; cbn [ev_waiters]; by apply list_lookup_insert_eq.
Qed.

Lemma own_blocked k e : unwoken k e → receive_from k e = None.
Proof.
  intros (code & Hk & Hc). unfold receive_from. rewrite Hk. set_unfold in Hc. naive_solver.
Qed.

Lemma unwoken_stays k e e' : rtc (step_but ABroadcast) e e' → unwoken k e → unwoken k e'.
Proof.
  induction 1 as [|e1 e2 e3 Hs _ IH]; [done|]. intros Hu. apply IH. destruct Hs as (a & Ha & Hs).
  pose proof Hu as (code & Hk & Hc). destruct (decide (a = AGo k)) as [->|Hg]; [|destruct (decide (a = AReceive k)) as [->|Hr]].
  - inversion Hs as [|? ? ? Hgo| |]; subst. pose proof (go_on_own _ _ _ _ Hgo Hk) as Hk'.
    unfold go_on in Hgo. rewrite Hk in Hgo. eexists. split; [exact Hk'|].
    set_unfold in Hc. destruct Hc as [->|[->|[->|[]]]]; [set_solver..|done].
  - inversion Hs as [| | |? ? ? Hrec]; subst. by rewrite own_blocked in Hrec.
  - exists code. split; [by eapply step_lookup|done].
Qed.

Lemma woken_stays k e e' : rtc (step_but (AReceive k)) e e' → woken k e → woken k e'.
Proof.
  induction 1 as [|e1 e2 e3 Hs _ IH]; [done|]. intros Hu. apply IH. destruct Hs as (a & Ha & Hs).
  pose proof Hu as (code & Hk & Hc). destruct (decide (a = AGo k)) as [->|Hg]; [|destruct (decide (a = ABroadcast)) as [->|Hb]].
  - inversion Hs as [|? ? ? Hgo| |]; subst. pose proof (go_on_own _ _ _ _ Hgo Hk) as Hk'.
    unfold go_on in Hgo. rewrite Hk in Hgo. eexists. split; [exact Hk'|].
    set_unfold in Hc. destruct Hc as [->|[->|[->|[]]]]; [set_solver..|done].
  - inversion Hs; subst. eexists. cbn [broadcast ev_waiters]. rewrite list_lookup_fmap, Hk. split; [done|].
    set_unfold in Hc. destruct Hc as [->|[->|[->|[]]]]; cbn; set_solver.
  - exists code. split; [by eapply step_lookup|done].
Qed.

(** Whoever holds the mutex can release it, and nobody else is affected. *)
Lemma mutex_freed e :
  placed e → ∃ e', go_steps e e' ∧ ev_holder e' = None ∧
    ∀ k, ev_holder e ≠ Some k → ev_waiters e' !! k = ev_waiters e !! k.
Proof.
  intros [H1 H2]. destruct (ev_holder e) as [h|] eqn:Hh; [|exists e; split_and!; [apply rtc_refl|done..]].
  destruct (H2 h eq_refl) as [code Hk]. pose proof (H1 h code Hk) as Hc. rewrite decide_True in Hc by done.
  assert (∃ code', go_on h e = Some (mkEvent None (<[h := code']> (ev_waiters e)))) as [code' Hgo].
  { unfold go_on. rewrite Hk, Hh. unfold holding in Hc. set_unfold in Hc.
    destruct Hc as [->|[->|[]]]; rewrite decide_True by done; by eexists. }
  eexists. split_and!; [apply rtc_once; by exists h|done|]. intros k Hne. cbn [ev_waiters].
  apply list_lookup_insert_ne. congruence.
Qed.

(** A goroutine that wants the mutex can get it and do the next thing. *)
Lemma go_lock_next e k i code :
  placed e → ev_waiters e !! k = Some (i :: code) → i = Lock ∨ i = Woken →
  ∃ e', go_steps e e' ∧ ev_holder e' = Some k ∧ ev_waiters e' !! k = Some code.
Proof.
  intros Hp Hk Hi. destruct (mutex_freed e Hp) as (e1 & H1 & Hh & Hsame).
  assert (ev_waiters e1 !! k = Some (i :: code)) as Hk1.
  { rewrite Hsame; [done|]. intros Hhk. pose proof (proj1 Hp _ _ Hk) as Hc. rewrite decide_True in Hc by done.
    unfold holding in Hc. set_unfold in Hc. destruct Hi as [->| ->]; naive_solver. }
  eexists. split; [eapply rtc_r; [exact H1|]; exists k; unfold go_on; rewrite Hk1; destruct Hi as [->| ->]; by rewrite decide_True|].
  split; [done|]. cbn [ev_waiters]. apply list_lookup_insert_eq. by eapply lookup_lt_Some.
Qed.

Lemma woken_sends k e : placed e → woken k e → ∃ e', go_steps e e' ∧ is_Some (receive_from k e').
Proof.
  intros Hp (code & Hk & Hc).
  assert (∀ e1, ev_holder e1 = Some k → ev_waiters e1 !! k = Some [Unlock; Send] →
    ∃ e', go_steps e1 e' ∧ is_Some (receive_from k e')) as Hlast.
  { intros e1 Hh1 Hk1. eexists. split; [apply rtc_once; exists k; unfold go_on; by rewrite Hk1, decide_True|].
    unfold receive_from. cbn [ev_waiters]. rewrite list_lookup_insert_eq by (by eapply lookup_lt_Some). done. }
  set_unfold in Hc. destruct Hc as [->|[->|[->|[]]]].
  - destruct (go_lock_next e k _ _ Hp Hk) as (e1 & H1 & Hh1 & Hk1); [auto|].
    destruct (Hlast e1 Hh1 Hk1) as (e' & H2 & Hr). exists e'. split; [unfold go_steps in *; by etrans|done].
  - apply Hlast; [|done]. pose proof (proj1 Hp _ _ Hk) as Hc. case_decide; [done|]. unfold not_holding in Hc. set_solver.
  - exists e. split; [apply rtc_refl|]. unfold receive_from. by rewrite Hk.
Qed.

Lemma starts_to_wait k e :
  placed e → ev_waiters e !! k = Some [Lock; Wait; Unlock; Send] → ∃ e', go_steps e e' ∧ asleep k e'.
Proof.
  intros Hp Hk. destruct (go_lock_next e k _ _ Hp Hk) as (e1 & H1 & Hh1 & Hk1); [auto|].
  eexists. split; [eapply rtc_r; [exact H1|]; exists k; unfold go_on; by rewrite Hk1, decide_True|].
  unfold asleep. cbn [ev_waiters]. apply list_lookup_insert_eq. by eapply lookup_lt_Some.
Qed.

Lemma placed_steps (R : event → event → Prop) e e' :
  (∀ x y, R x y → any_step x y) → rtc R e e' → placed e → placed e'.
Proof. intros HR. induction 1 as [|x y z [a Ha]%HR _ IH]; [done|]. intros. by eapply IH, placed_step. Qed.

(** C36. Who waits is notified; who is late is not.  Take any state that the
    goroutines, the broadcasts and the receivers of an event can bring it to, and
    call [getChan].  (1) The goroutine that it starts can come to wait: no more is
    needed than that the goroutines of the event go on.  (2) Before a broadcast
    nothing can be received from the channel.  (3) If the goroutine is waiting
    when the event is broadcast, then, whatever else happens until the channel is
    read, the goroutines of the event can always go on to where it can be read.
    (4) If it has not yet begun to wait when the event is broadcast for the first
    time after the call, as the channel is returned before it has, it misses this:
    nothing can be received before another broadcast. *)
Theorem event_notifies_who_waits e0 k e1 :
  rtc any_step newEvent e0 → getChan e0 = (k, e1) →
  (∃ e2, go_steps e1 e2 ∧ asleep k e2) ∧
  (∀ e2, rtc (step_but ABroadcast) e1 e2 → receive_from k e2 = None) ∧
  (∀ e2, rtc any_step e1 e2 → asleep k e2 → ∀ e3, rtc (step_but (AReceive k)) (broadcast e2) e3 →
     ∃ e4, go_steps e3 e4 ∧ is_Some (receive_from k e4)) ∧
  (∀ e2, rtc (step_but ABroadcast) e1 e2 → ¬ asleep k e2 → ∀ e3, rtc (step_but ABroadcast) (broadcast e2) e3 →
     receive_from k e3 = None).
Proof.
  intros Hr Hget. assert (placed newEvent) as Hp by (split; [by intros k' code ?|by intros k' ?]).
  eapply placed_steps in Hr; [|done|done]. apply (placed_step AGetChan _ (getChan e0).2) in Hr; [|apply step_getChan].
  rewrite Hget in Hr. cbn [snd] in Hr. clear Hp.
  assert (ev_waiters e1 !! k = Some [Lock; Wait; Unlock; Send]) as Hk.
  { unfold getChan in Hget. simplify_eq. cbn [ev_waiters]. rewrite lookup_app_r, Nat.sub_diag by lia. done. }
  assert (unwoken k e1) as Hu by (eexists; split; [exact Hk|left]). split_and!.
  - by apply starts_to_wait.
  - intros e2 H12. by eapply own_blocked, unwoken_stays.
  - intros e2 H12 Ha e3 H23. apply woken_sends.
    + eapply placed_steps; [|exact H23|]; [by intros x y (a & _ & ?); exists a|].
      eapply placed_step; [|apply step_broadcast]. by eapply placed_steps.
    + eapply woken_stays; [exact H23|]. eexists. cbn [broadcast ev_waiters]. rewrite list_lookup_fmap, Ha.
      split; [done|]. left.
  - intros e2 H12 Ha e3 H23. eapply own_blocked, unwoken_stays; [exact H23|].
    destruct (unwoken_stays k _ _ H12 Hu) as (code & Hk2 & Hc). exists code. cbn [broadcast ev_waiters].
    rewrite list_lookup_fmap, Hk2. split; [|done]. unfold asleep in Ha. set_unfold in Hc. naive_solver.
Qed.

Lemma event_notifies_who_waits_witness :
  (∃ e2, go_steps (getChan (getChan newEvent).2).2 e2 ∧ asleep 1 e2) ∧
  receive_from 1 (broadcast (getChan (getChan newEvent).2).2) = None.
Proof.
  destruct (event_notifies_who_waits (getChan newEvent).2 1 (getChan (getChan newEvent).2).2)
    as (H1 & _ & _ & H4).
  - apply rtc_once. exists AGetChan. apply step_getChan.
  - reflexivity.
  - split; [exact H1|]. apply (H4 (getChan (getChan newEvent).2).2); [apply rtc_refl|discriminate|apply rtc_refl].
Defined.
