(* ===== verification/Server.v ===== *)
(** * The life of the peer server

    [Start], [Stop] and [acceptConnections] of [src/cluster/server.go], which run
    in different goroutines and share the fields [listener] and [isRunning].
    What happens on a connection is in [Cluster.v]. *)

From S2P Require Import Prelude.

(** ** State *)

Inductive listener := NoListener | Listening | Closed.

(** How far [Start] is: not called, listening, with the goroutine started, and
    returned; and [Stop]: not called, with the listener closed, and returned. *)
Inductive start_at := StartIdle | StartListening | StartSpawned | StartDone.
Inductive stop_at := StopIdle | StopClosed | StopDone.

(** [acceptConnections]: not started, in [Accept], with an error from it, and
    returned. *)
Inductive acceptor := NotStarted | Accepting | GotError | Returned.

Record PeerServer := mkPeerServer {
  ps_listener : listener;
  ps_isRunning : bool;
  ps_start : start_at;
  ps_stop : stop_at;
  ps_acceptor : acceptor;
  ps_connections : nat;
}.

Definition NewPeerServer : PeerServer := mkPeerServer NoListener false StartIdle StopIdle NotStarted 0.

(** ** Steps *)

(** [Stop] is called after [Start] has returned.  [Accept] succeeds at most
    while the listener is open, and may fail at any time. *)
Inductive server_step : PeerServer → PeerServer → Prop :=
  | start_listen r a c :
      server_step (mkPeerServer NoListener r StartIdle StopIdle a c) (mkPeerServer Listening r StartListening StopIdle a c)
  | start_spawn l r a c :
      server_step (mkPeerServer l r StartListening StopIdle a c) (mkPeerServer l r StartSpawned StopIdle Accepting c)
  | start_running l r a c :
      server_step (mkPeerServer l r StartSpawned StopIdle a c) (mkPeerServer l true StartDone StopIdle a c)
  | stop_close l r a c :
      server_step (mkPeerServer l r StartDone StopIdle a c) (mkPeerServer Closed r StartDone StopClosed a c)
  | stop_running l r a c :
      server_step (mkPeerServer l r StartDone StopClosed a c) (mkPeerServer l false StartDone StopDone a c)
  | accept_connection r s t c :
      server_step (mkPeerServer Listening r s t Accepting c) (mkPeerServer Listening r s t Accepting (S c))
  | accept_error l r s t c :
      server_step (mkPeerServer l r s t Accepting c) (mkPeerServer l r s t GotError c)
  | accept_check l r s t c :
      server_step (mkPeerServer l r s t GotError c)
        (mkPeerServer l r s t (if r then Accepting else Returned) c).

(** The steps that [acceptConnections] has left once the server is stopped. *)
Definition remaining (a : acceptor) : nat :=
  match a with NotStarted => 0 | Accepting => 2 | GotError => 1 | Returned => 0 end.

Lemma stopped_invariant x :
  rtc server_step NewPeerServer x →
  (ps_stop x ≠ StopIdle → ps_listener x = Closed ∧ ps_start x = StartDone) ∧
  (ps_stop x = StopDone → ps_isRunning x = false).
Proof.
  intros H. assert (∀ y z, server_step y z →
    (ps_stop y ≠ StopIdle → ps_listener y = Closed ∧ ps_start y = StartDone) ∧
      (ps_stop y = StopDone → ps_isRunning y = false) →
    (ps_stop z ≠ StopIdle → ps_listener z = Closed ∧ ps_start z = StartDone) ∧
      (ps_stop z = StopDone → ps_isRunning z = false)) as Hstep.
  { intros y z Hs [H1 H2]. destruct Hs; cbn in *; split; intros; try done; naive_solver. }
  assert ((ps_stop NewPeerServer ≠ StopIdle → ps_listener NewPeerServer = Closed ∧ ps_start NewPeerServer = StartDone) ∧
    (ps_stop NewPeerServer = StopDone → ps_isRunning NewPeerServer = false)) as H0 by done.
  revert H0. induction H as [|y z w Hyz _ IH]; [done|]. intros Hy. eapply IH, Hstep; done.
Qed.

(** A stopped server stops.  Once [Stop] has returned, no connection is
    accepted any more, however the goroutines have been interleaved before, and
    [acceptConnections] makes at most two more steps, the error and the test of
    [isRunning], and returns. *)
Theorem stopped_server_ends (x y : PeerServer)
    (Hreach : rtc server_step NewPeerServer x) (Hstopped : ps_stop x = StopDone) (Hstep : server_step x y) :
  ps_connections y = ps_connections x ∧ ps_stop y = StopDone ∧
  (remaining (ps_acceptor y) < remaining (ps_acceptor x))%nat.
Proof.
  destruct (stopped_invariant x Hreach) as [H1 H2]. rewrite Hstopped in H1. destruct H1 as [Hl Hs]; [done|].
  specialize (H2 Hstopped). destruct Hstep; cbn in *; simplify_eq; try done; cbn; split_and!; try done; lia.
Qed.

Definition example_stopped : PeerServer := mkPeerServer Closed false StartDone StopDone GotError 1.

Lemma example_stopped_reached : rtc server_step NewPeerServer example_stopped.
Proof.
  eapply rtc_l; [apply start_listen|]. eapply rtc_l; [apply start_spawn|].
  eapply rtc_l; [apply accept_connection|]. eapply rtc_l; [apply start_running|].
  eapply rtc_l; [apply stop_close|]. eapply rtc_l; [apply accept_error|].
  eapply rtc_l; [apply stop_running|]. apply rtc_refl.
Qed.

Lemma stopped_server_ends_witness :
  let y := mkPeerServer Closed false StartDone StopDone Returned 1 in
  ps_connections y = 1%nat ∧ ps_stop y = StopDone ∧ (remaining (ps_acceptor y) < remaining GotError)%nat.
Proof.
  intros y. apply (stopped_server_ends example_stopped y).
  - exact example_stopped_reached.
  - reflexivity.
  - apply accept_check.
Defined.

(** An error can end a server that runs: [Start] sets [isRunning] after it
    has started the goroutine, so an error of [Accept] in between makes
    [acceptConnections] return although nobody has called [Stop].  [Start]
    reports success, the listener stays open, and no connection is ever
    accepted. *)
Theorem early_error_ends_server :
  ∃ x, rtc server_step NewPeerServer x ∧
    ps_start x = StartDone ∧ ps_isRunning x = true ∧ ps_listener x = Listening ∧ ps_stop x = StopIdle ∧
    ∀ y, rtc server_step x y → ps_acceptor y = Returned ∧ ps_connections y = 0%nat.
Proof.
  exists (mkPeerServer Listening true StartDone StopIdle Returned 0). split_and!; try done.
  - eapply rtc_l; [apply start_listen|]. eapply rtc_l; [apply start_spawn|].
    eapply rtc_l; [apply accept_error|]. eapply rtc_l; [apply accept_check|].
    eapply rtc_l; [apply start_running|]. apply rtc_refl.
  - intros y Hy. set (x := mkPeerServer _ _ _ _ _ _) in Hy.
    assert (ps_acceptor x = Returned ∧ ps_connections x = 0%nat ∧ ps_start x = StartDone) as Hx by done.
    cut (ps_acceptor y = Returned ∧ ps_connections y = 0%nat ∧ ps_start y = StartDone); [naive_solver|].
    revert Hx. clearbody x. induction Hy as [|y z w Hyz _ IH]; [done|]. intros (H1 & H2 & H3). apply IH.
    destruct Hyz; cbn in *; simplify_eq; done.
Qed.
