(* ===== verification/Messages.v ===== *)
(** * Consensus messages

    [src/consensus/message.go] and the framing of [src/message/io.go]: the
    twelve messages replicas exchange, their encodings, and the envelope with
    the message type in which they travel. *)

From S2P Require Import Prelude Bytes Types GoTime Serializer Instruction Containers.
From S2P Require Import Instance.

(** ** The messages

    A message owns the instances it carries; a nil [Instance] is [None] where
    the encoding allows for it. *)

Record PreAcceptRequest := mkPreAcceptRequest { pareq_Instance : Instance }.

Record PreAcceptResponse := mkPreAcceptResponse {
  pa_Accepted : bool;
  pa_MaxBallot : Z;
  pa_Instance : Instance;
  pa_MissingInstances : list Instance;
}.

Record AcceptRequest := mkAcceptRequest {
  areq_Instance : Instance;
  areq_MissingInstances : list Instance;
}.

Record AcceptResponse := mkAcceptResponse { a_Accepted : bool; a_MaxBallot : Z }.

Record CommitRequest := mkCommitRequest { creq_Instance : Instance }.

Record PrepareRequest := mkPrepareRequest { preq_Ballot : Z; preq_InstanceID : InstanceID }.

Record PrepareResponse := mkPrepareResponse { p_Accepted : bool; p_Instance : option Instance }.

Record PrepareSuccessorRequest := mkPrepareSuccessorRequest { psreq_InstanceID : InstanceID }.

Record PrepareSuccessorResponse := mkPrepareSuccessorResponse { ps_Instance : option Instance }.

Record InstanceRequest := mkInstanceRequest { ireq_InstanceIDs : list InstanceID }.

Record InstanceResponse := mkInstanceResponse { ir_Instances : list Instance }.

Inductive Message :=
  | MPreAcceptRequest (m : PreAcceptRequest)
  | MPreAcceptResponse (m : PreAcceptResponse)
  | MAcceptRequest (m : AcceptRequest)
  | MAcceptResponse (m : AcceptResponse)
  | MCommitRequest (m : CommitRequest)
  | MCommitResponse
  | MPrepareRequest (m : PrepareRequest)
  | MPrepareResponse (m : PrepareResponse)
  | MPrepareSuccessorRequest (m : PrepareSuccessorRequest)
  | MPrepareSuccessorResponse (m : PrepareSuccessorResponse)
  | MInstanceRequest (m : InstanceRequest)
  | MInstanceResponse (m : InstanceResponse).

Definition GetType (m : Message) : Z :=
  match m with
  | MPreAcceptRequest _ => 1001
  | MPreAcceptResponse _ => 1002
  | MAcceptRequest _ => 1003
  | MAcceptResponse _ => 1004
  | MCommitRequest _ => 1005
  | MCommitResponse => 1006
  | MPrepareRequest _ => 1007
  | MPrepareResponse _ => 1008
  | MPrepareSuccessorRequest _ => 1009
  | MPrepareSuccessorResponse _ => 1010
  | MInstanceRequest _ => 1011
  | MInstanceResponse _ => 1012
  end.

(** [for _, inst := range insts { numBytes += inst.NumBytesLimited() }] *)
Definition num_instances (n : Z) (insts : list Instance) : Z :=
  foldl (λ n inst, n + Instance.NumBytesLimited inst) n insts.

Definition num_optional (n : Z) (inst : option Instance) : Z :=
  match inst with Some i => n + Instance.NumBytesLimited i | None => n end.

Definition write_instances (insts : list Instance) : W unit :=
  _ ← binary_Write_u32 (u32 (length insts));
  for_each Instance.SerializeLimited insts.

Definition read_instances : R (list Instance) :=
  numInst ← binary_Read_u32;
  read_n (Z.to_nat numInst) Instance.DeserializeLimited.

(** [isNil], then the instance unless it is nil *)
Definition write_optional (inst : option Instance) : W unit :=
  _ ← write_bool (bool_decide (inst = None));
  match inst with
  | Some i => Instance.SerializeLimited i
  | None => mret tt
  end.

Definition read_optional : R (option Instance) :=
  isNil ← read_bool;
  if negb isNil then Some <$> Instance.DeserializeLimited else mret None.

Module PreAcceptRequest.
Definition NumBytes (m : PreAcceptRequest) : Z := Instance.NumBytesLimited (pareq_Instance m).
Definition Serialize (m : PreAcceptRequest) : W unit := Instance.SerializeLimited (pareq_Instance m).
Definition Deserialize : R PreAcceptRequest := mkPreAcceptRequest <$> Instance.DeserializeLimited.
End PreAcceptRequest.

Module PreAcceptResponse.
Definition GetBallot (m : PreAcceptResponse) : Z := pa_MaxBallot m.
Definition NumBytes (m : PreAcceptResponse) : Z :=
  num_instances (1 + 4 + Instance.NumBytesLimited (pa_Instance m) + 4) (pa_MissingInstances m).
Definition Serialize (m : PreAcceptResponse) : W unit :=
  _ ← write_bool (pa_Accepted m);
  _ ← binary_Write_u32 (pa_MaxBallot m);
  _ ← Instance.SerializeLimited (pa_Instance m);
  write_instances (pa_MissingInstances m).
Definition Deserialize : R PreAcceptResponse :=
  accepted ← read_bool;
  ballot ← binary_Read_u32;
  inst ← Instance.DeserializeLimited;
  missing ← read_instances;
  mret (mkPreAcceptResponse accepted ballot inst missing).
End PreAcceptResponse.

Module AcceptRequest.
Definition NumBytes (m : AcceptRequest) : Z :=
  num_instances (Instance.NumBytesLimited (areq_Instance m) + 4) (areq_MissingInstances m).
Definition Serialize (m : AcceptRequest) : W unit :=
  _ ← Instance.SerializeLimited (areq_Instance m);
  write_instances (areq_MissingInstances m).
Definition Deserialize : R AcceptRequest :=
  inst ← Instance.DeserializeLimited;
  missing ← read_instances;
  mret (mkAcceptRequest inst missing).
End AcceptRequest.

Module AcceptResponse.
Definition GetBallot (m : AcceptResponse) : Z := a_MaxBallot m.
Definition NumBytes (m : AcceptResponse) : Z := 1 + 4.
Definition Serialize (m : AcceptResponse) : W unit :=
  _ ← write_bool (a_Accepted m);
  binary_Write_u32 (a_MaxBallot m).
Definition Deserialize : R AcceptResponse :=
  accepted ← read_bool;
  ballot ← binary_Read_u32;
  mret (mkAcceptResponse accepted ballot).
End AcceptResponse.

Module CommitRequest.
Definition NumBytes (m : CommitRequest) : Z := Instance.NumBytesLimited (creq_Instance m).
Definition Serialize (m : CommitRequest) : W unit := Instance.SerializeLimited (creq_Instance m).
Definition Deserialize : R CommitRequest := mkCommitRequest <$> Instance.DeserializeLimited.
End CommitRequest.

Module PrepareRequest.
Definition NumBytes (m : PrepareRequest) : Z := 4 + UUID_NUM_BYTES.
Definition Serialize (m : PrepareRequest) : W unit :=
  _ ← binary_Write_u32 (preq_Ballot m);
  UUID_WriteBuffer (preq_InstanceID m).
Definition Deserialize : R PrepareRequest :=
  ballot ← binary_Read_u32;
  iid ← UUID_ReadBuffer B16_zero;
  mret (mkPrepareRequest ballot iid).
End PrepareRequest.

Module PrepareResponse.
Definition NumBytes (m : PrepareResponse) : Z := num_optional (1 + 1) (p_Instance m).
Definition Serialize (m : PrepareResponse) : W unit :=
  _ ← write_bool (p_Accepted m);
  write_optional (p_Instance m).
Definition Deserialize : R PrepareResponse :=
  accepted ← read_bool;
  inst ← read_optional;
  mret (mkPrepareResponse accepted inst).
End PrepareResponse.

Module PrepareSuccessorRequest.
Definition NumBytes (m : PrepareSuccessorRequest) : Z := UUID_NUM_BYTES.
Definition Serialize (m : PrepareSuccessorRequest) : W unit := UUID_WriteBuffer (psreq_InstanceID m).
Definition Deserialize : R PrepareSuccessorRequest :=
  mkPrepareSuccessorRequest <$> UUID_ReadBuffer B16_zero.
End PrepareSuccessorRequest.

Module PrepareSuccessorResponse.
Definition NumBytes (m : PrepareSuccessorResponse) : Z := num_optional 1 (ps_Instance m).
Definition Serialize (m : PrepareSuccessorResponse) : W unit := write_optional (ps_Instance m).
Definition Deserialize : R PrepareSuccessorResponse := mkPrepareSuccessorResponse <$> read_optional.
End PrepareSuccessorResponse.

Module InstanceRequest.
Definition NumBytes (m : InstanceRequest) : Z := 4 + UUID_NUM_BYTES * length (ireq_InstanceIDs m).
Definition Serialize (m : InstanceRequest) : W unit :=
  _ ← binary_Write_u32 (u32 (length (ireq_InstanceIDs m)));
  for_each UUID_WriteBuffer (ireq_InstanceIDs m).
Definition Deserialize : R InstanceRequest :=
  numIds ← binary_Read_u32;
  ids ← read_n (Z.to_nat numIds) (UUID_ReadBuffer B16_zero);
  mret (mkInstanceRequest ids).
End InstanceRequest.

Module InstanceResponse.
Definition NumBytes (m : InstanceResponse) : Z := num_instances 4 (ir_Instances m).
Definition Serialize (m : InstanceResponse) : W unit := write_instances (ir_Instances m).
Definition Deserialize : R InstanceResponse := mkInstanceResponse <$> read_instances.
End InstanceResponse.

(** ** The [Message] interface *)

Definition NumBytes (m : Message) : Z :=
  match m with
  | MPreAcceptRequest m => PreAcceptRequest.NumBytes m
  | MPreAcceptResponse m => PreAcceptResponse.NumBytes m
  | MAcceptRequest m => AcceptRequest.NumBytes m
  | MAcceptResponse m => AcceptResponse.NumBytes m
  | MCommitRequest m => CommitRequest.NumBytes m
  | MCommitResponse => 0
  | MPrepareRequest m => PrepareRequest.NumBytes m
  | MPrepareResponse m => PrepareResponse.NumBytes m
  | MPrepareSuccessorRequest m => PrepareSuccessorRequest.NumBytes m
  | MPrepareSuccessorResponse m => PrepareSuccessorResponse.NumBytes m
  | MInstanceRequest m => InstanceRequest.NumBytes m
  | MInstanceResponse m => InstanceResponse.NumBytes m
  end.

Definition Serialize (m : Message) : W unit :=
  match m with
  | MPreAcceptRequest m => PreAcceptRequest.Serialize m
  | MPreAcceptResponse m => PreAcceptResponse.Serialize m
  | MAcceptRequest m => AcceptRequest.Serialize m
  | MAcceptResponse m => AcceptResponse.Serialize m
  | MCommitRequest m => CommitRequest.Serialize m
  | MCommitResponse => mret tt
  | MPrepareRequest m => PrepareRequest.Serialize m
  | MPrepareResponse m => PrepareResponse.Serialize m
  | MPrepareSuccessorRequest m => PrepareSuccessorRequest.Serialize m
  | MPrepareSuccessorResponse m => PrepareSuccessorResponse.Serialize m
  | MInstanceRequest m => InstanceRequest.Serialize m
  | MInstanceResponse m => InstanceResponse.Serialize m
  end.

(** The [constructors] the package registers for its message types, each with
    its [Deserialize]. *)
Definition constructors (mtype : Z) : option (R Message) :=
  if mtype =? 1001 then Some (MPreAcceptRequest <$> PreAcceptRequest.Deserialize)
  else if mtype =? 1002 then Some (MPreAcceptResponse <$> PreAcceptResponse.Deserialize)
  else if mtype =? 1003 then Some (MAcceptRequest <$> AcceptRequest.Deserialize)
  else if mtype =? 1004 then Some (MAcceptResponse <$> AcceptResponse.Deserialize)
  else if mtype =? 1005 then Some (MCommitRequest <$> CommitRequest.Deserialize)
  else if mtype =? 1006 then Some (mret MCommitResponse)
  else if mtype =? 1007 then Some (MPrepareRequest <$> PrepareRequest.Deserialize)
  else if mtype =? 1008 then Some (MPrepareResponse <$> PrepareResponse.Deserialize)
  else if mtype =? 1009 then Some (MPrepareSuccessorRequest <$> PrepareSuccessorRequest.Deserialize)
  else if mtype =? 1010 then Some (MPrepareSuccessorResponse <$> PrepareSuccessorResponse.Deserialize)
  else if mtype =? 1011 then Some (MInstanceRequest <$> InstanceRequest.Deserialize)
  else if mtype =? 1012 then Some (MInstanceResponse <$> InstanceResponse.Deserialize)
  else None.

(** ** Framing ([src/message/io.go]) *)

Definition WriteMessage (m : Message) : W unit :=
  _ ← binary_Write_u32 (GetType m);
  _ ← Serialize m;
  buf_Flush.

(** What is read from the [bufio.Reader] ... *)
Definition ReadMessage_buf : R Message :=
  mtype ← binary_Read_u32;
  match constructors mtype with
  | None => fail (IOErrorf "Unknown message type")
  | Some deserialize => deserialize
  end.

(** ... which is made for one message. *)
Definition ReadMessage : ST conn io_error Message := with_bufio ReadMessage_buf.

(** ** The wire format *)

Module MessageWire.

(** The instances a message carries. *)
Definition carried (m : Message) : list Instance :=
  match m with
  | MPreAcceptRequest m => [pareq_Instance m]
  | MPreAcceptResponse m => pa_Instance m :: pa_MissingInstances m
  | MAcceptRequest m => areq_Instance m :: areq_MissingInstances m
  | MCommitRequest m => [creq_Instance m]
  | MPrepareResponse m => option_list (p_Instance m)
  | MPrepareSuccessorResponse m => option_list (ps_Instance m)
  | MInstanceResponse m => ir_Instances m
  | _ => []
  end.

(** Fields fit their widths, and the instances can be encoded. *)
Definition fields_ok (m : Message) : Prop :=
  match m with
  | MPreAcceptResponse m =>
      0 ≤ pa_MaxBallot m ≤ u32_max ∧ Z.of_nat (length (pa_MissingInstances m)) ≤ u32_max
  | MAcceptRequest m => Z.of_nat (length (areq_MissingInstances m)) ≤ u32_max
  | MAcceptResponse m => 0 ≤ a_MaxBallot m ≤ u32_max
  | MPrepareRequest m => 0 ≤ preq_Ballot m ≤ u32_max ∧ B16_wf (preq_InstanceID m)
  | MPrepareSuccessorRequest m => B16_wf (psreq_InstanceID m)
  | MInstanceRequest m =>
      Forall B16_wf (ireq_InstanceIDs m) ∧ Z.of_nat (length (ireq_InstanceIDs m)) ≤ u32_max
  | MInstanceResponse m => Z.of_nat (length (ir_Instances m)) ≤ u32_max
  | _ => True
  end.
Definition ok (m : Message) : Prop := Forall InstanceWire.ok (carried m) ∧ fields_ok m.

(** What the receiver gets: the instances without their local fields. *)
Definition view (m : Message) : Message :=
  let w := InstanceWire.wire_view in
  match m with
  | MPreAcceptRequest m => MPreAcceptRequest (mkPreAcceptRequest (w (pareq_Instance m)))
  | MPreAcceptResponse m => MPreAcceptResponse (mkPreAcceptResponse (pa_Accepted m) (pa_MaxBallot m)
      (w (pa_Instance m)) (map w (pa_MissingInstances m)))
  | MAcceptRequest m =>
      MAcceptRequest (mkAcceptRequest (w (areq_Instance m)) (map w (areq_MissingInstances m)))
  | MCommitRequest m => MCommitRequest (mkCommitRequest (w (creq_Instance m)))
  | MPrepareResponse m => MPrepareResponse (mkPrepareResponse (p_Accepted m) (w <$> p_Instance m))
  | MPrepareSuccessorResponse m =>
      MPrepareSuccessorResponse (mkPrepareSuccessorResponse (w <$> ps_Instance m))
  | MInstanceResponse m => MInstanceResponse (mkInstanceResponse (map w (ir_Instances m)))
  | m => m
  end.

Definition instances_bytes (l : list Instance) : list byte :=
  le_bytes 4 (length l) ++ concat (map InstanceWire.bytes l).
Definition optional_bytes (o : option Instance) : list byte :=
  InstanceWire.bool_byte (bool_decide (o = None)) ++ concat (map InstanceWire.bytes (option_list o)).

Definition body (m : Message) : list byte :=
  match m with
  | MPreAcceptRequest m => InstanceWire.bytes (pareq_Instance m)
  | MPreAcceptResponse m =>
      InstanceWire.bool_byte (pa_Accepted m) ++ le_bytes 4 (pa_MaxBallot m) ++
      InstanceWire.bytes (pa_Instance m) ++ instances_bytes (pa_MissingInstances m)
  | MAcceptRequest m =>
      InstanceWire.bytes (areq_Instance m) ++ instances_bytes (areq_MissingInstances m)
  | MAcceptResponse m => InstanceWire.bool_byte (a_Accepted m) ++ le_bytes 4 (a_MaxBallot m)
  | MCommitRequest m => InstanceWire.bytes (creq_Instance m)
  | MCommitResponse => []
  | MPrepareRequest m => le_bytes 4 (preq_Ballot m) ++ MarshalBinary (preq_InstanceID m)
  | MPrepareResponse m => InstanceWire.bool_byte (p_Accepted m) ++ optional_bytes (p_Instance m)
  | MPrepareSuccessorRequest m => MarshalBinary (psreq_InstanceID m)
  | MPrepareSuccessorResponse m => optional_bytes (ps_Instance m)
  | MInstanceRequest m =>
      le_bytes 4 (length (ireq_InstanceIDs m)) ++ concat (map MarshalBinary (ireq_InstanceIDs m))
  | MInstanceResponse m => instances_bytes (ir_Instances m)
  end.

Definition bytes (m : Message) : list byte := le_bytes 4 (GetType m) ++ body m.

(** *** Writing *)

Lemma encodes_instances l :
  Forall InstanceWire.ok l → Z.of_nat (length l) ≤ u32_max →
  encodes (write_instances l) (instances_bytes l).
Proof.
  intros Hl Hn. unfold write_instances. rewrite u32_small by lia.
  apply encodes_bind; [apply encodes_u32|]. apply encodes_for_each.
  intros i Hi. rewrite Forall_forall in Hl. apply InstanceWire.encodes_SerializeLimited. auto.
Qed.

Lemma encodes_optional o :
  Forall InstanceWire.ok (option_list o) → encodes (write_optional o) (optional_bytes o).
Proof.
  intros Ho. apply encodes_bind; [apply encodes_write_bool|].
  destruct o as [i|]; cbn in *; [|apply encodes_ret].
  rewrite app_nil_r. apply InstanceWire.encodes_SerializeLimited. by inv Ho.
Qed.

Lemma message_encodes_Serialize m : ok m → encodes (Serialize m) (body m).
Proof.
  intros [Hi Hf]. destruct m as [[]|[]|[]|[]|[]| |[]|[]|[]|[]|[]|[]];
    cbn [carried fields_ok] in *; decompose_Forall_hyps; destruct_and?;
    cbn [Serialize body]; unfold InstanceWire.bool_byte;
    first
    [ apply encodes_ret
    | apply InstanceWire.encodes_SerializeLimited; done
    | apply encodes_uuid
    | apply encodes_instances; done
    | apply encodes_optional; done
    | idtac ].
  all: repeat first
    [ apply InstanceWire.encodes_SerializeLimited; done
    | apply encodes_instances; done | apply encodes_optional; done
    | apply encodes_for_each; intros; apply encodes_uuid
    | solve [auto with codec] | apply encodes_bind
    | cbn [ireq_InstanceIDs]; rewrite u32_small by lia; apply encodes_u32 ].
Qed.

(** *** Reading *)

Lemma decodes_instances l :
  Forall InstanceWire.ok l → Z.of_nat (length l) ≤ u32_max →
  decodes read_instances (instances_bytes l) (map InstanceWire.wire_view l).
Proof.
  intros Hl Hn. unfold read_instances, instances_bytes.
  eapply decodes_bind; [apply decodes_u32; lia|]. rewrite Nat2Z.id.
  clear Hn. induction Hl as [|i l Hi Hl IH]; cbn; [apply decodes_ret|].
  eapply decodes_bind; [by apply InstanceWire.decodes_DeserializeLimited|].
  eapply decodes_bind_nil; [exact IH|]. apply decodes_ret.
Qed.

Lemma decodes_optional o :
  Forall InstanceWire.ok (option_list o) →
  decodes read_optional (optional_bytes o) (InstanceWire.wire_view <$> o).
Proof.
  intros Ho. eapply decodes_bind; [apply decodes_read_bool|].
  destruct o as [i|]; cbn in *; [|apply decodes_ret].
  rewrite app_nil_r. eapply decodes_fmap; [|done].
  apply InstanceWire.decodes_DeserializeLimited. by inv Ho.
Qed.

(** The decoder of one field. *)
Ltac decode_field :=
  lazymatch goal with
  | |- decodes Instance.DeserializeLimited _ _ => apply InstanceWire.decodes_DeserializeLimited; done
  | |- decodes (UUID_ReadBuffer _) _ _ => apply decodes_uuid; done
  | |- decodes read_instances _ _ => apply decodes_instances; done
  | |- decodes read_optional _ _ => apply decodes_optional; done
  | |- decodes read_bool _ _ => apply decodes_read_bool
  | |- decodes binary_Read_u32 _ _ => apply decodes_u32; done
  end.
Ltac decode_last := eapply decodes_bind_nil; [decode_field|apply decodes_ret].
Ltac decode_next := eapply decodes_bind; [decode_field|].

Lemma message_decodes_Deserialize m :
  ok m → ∃ p, constructors (GetType m) = Some p ∧ decodes p (body m) (view m).
Proof.
  intros [Hi Hf]. destruct m as [[]|[]|[]|[]|[]| |[]|[]|[]|[]|[]|[]];
    cbn [carried fields_ok pareq_Instance pa_MaxBallot preq_Ballot preq_InstanceID a_MaxBallot] in *;
    decompose_Forall_hyps; destruct_and?;
    (eexists; split; [reflexivity|]);
    match goal with
    | |- decodes (_ <$> _) _ _ => eapply decodes_fmap; [|done]
    | |- decodes (mret _) _ _ => idtac
    end.
  - eapply decodes_fmap; [decode_field|done].
  - decode_next. decode_next. decode_next. decode_last.
  - decode_next. decode_last.
  - decode_next. decode_last.
  - eapply decodes_fmap; [decode_field|done].
  - apply decodes_ret.
  - decode_next. decode_last.
  - decode_next. decode_last.
  - eapply decodes_fmap; [decode_field|done].
  - eapply decodes_fmap; [decode_field|done].
  - cbn [body ireq_InstanceIDs] in *. eapply decodes_bind; [apply decodes_u32; lia|].
    rewrite Nat2Z.id. eapply decodes_bind_nil; [by apply InstanceWire.decodes_uuids|apply decodes_ret].
  - eapply decodes_fmap; [decode_field|done].
Qed.

Lemma num_instances_bytes l n :
  Forall InstanceWire.ok l →
  num_instances n l = n + Z.of_nat (length (concat (map InstanceWire.bytes l))).
Proof.
  intros Hl. unfold num_instances. revert n. induction Hl as [|i l Hi Hl IH]; intros n; cbn; [lia|].
  rewrite IH, (InstanceWire.NumBytesLimited_bytes _ Hi), length_app. lia.
Qed.

Lemma num_optional_bytes o n :
  Forall InstanceWire.ok (option_list o) →
  num_optional n o = n + Z.of_nat (length (concat (map InstanceWire.bytes (option_list o)))).
Proof.
  intros Ho. destruct o as [i|]; cbn in *; [|lia]. inv Ho.
  rewrite InstanceWire.NumBytesLimited_bytes by done. rewrite app_nil_r. done.
Qed.

Lemma NumBytes_body m : ok m → NumBytes m = length (body m).
Proof.
  intros [Hi Hf]. destruct m as [[]|[]|[]|[]|[]| |[]|[]|[]|[]|[]|[]];
    cbn [carried] in *; decompose_Forall_hyps; cbn [NumBytes body];
    unfold PreAcceptRequest.NumBytes, PreAcceptResponse.NumBytes, AcceptRequest.NumBytes,
      AcceptResponse.NumBytes, CommitRequest.NumBytes, PrepareRequest.NumBytes, PrepareResponse.NumBytes,
      PrepareSuccessorRequest.NumBytes, PrepareSuccessorResponse.NumBytes, InstanceRequest.NumBytes,
      InstanceResponse.NumBytes, instances_bytes, optional_bytes, InstanceWire.bool_byte, UUID_NUM_BYTES;
    rewrite ?num_instances_bytes, ?num_optional_bytes, ?InstanceWire.NumBytesLimited_bytes by done;
    rewrite ?length_app, ?InstanceWire.length_uuids, ?length_le_bytes, ?length_MarshalBinary;
    cbn [p_Instance ps_Instance pa_Instance pa_MissingInstances areq_Instance areq_MissingInstances
      ireq_InstanceIDs ir_Instances]; try done; lia.
Qed.

Lemma encodes_WriteMessage m w :
  ok m → w_err w = false →
  is_ok (WriteMessage m w).1 = bool_decide (fits (bytes m) w) ∧
  (WriteMessage m w).2 = written (bytes m) w.
Proof.
  intros Hm Hw. destruct (encodes_bind _ _ _ _ (encodes_u32 (GetType m)) (message_encodes_Serialize m Hm)) as [He Ho Hk].
  fold (bytes m) in *. specialize (Ho w Hw). specialize (Hk w Hw).
  assert (WriteMessage m w = ((_ ← (_ ← binary_Write_u32 (GetType m); Serialize m); buf_Flush) w)) as ->.
  { unfold WriteMessage, mbind, ST_bind. by destruct (binary_Write_u32 (GetType m) w) as [[]]. }
  assert (w_err (written (bytes m) w) = negb (bool_decide (fits (bytes m) w))) as Herr.
  { case_bool_decide as Hf; unfold written, fits in *; destruct (w_room w); try done;
      [by rewrite decide_True|by rewrite decide_False]. }
  destruct ((_ ← binary_Write_u32 (GetType m); Serialize m) w) as [r w1] eqn:Hr.
  rewrite (bind_eval _ _ _ _ _ Hr). cbn [fst snd] in *. subst w1. destruct r as [[]|e|].
  - unfold buf_Flush. rewrite Herr. by destruct (bool_decide _).
  - split; [|done]. rewrite bool_decide_false; [done|]. intros Hf. by specialize (Hk Hf).
  - split; [|done]. rewrite bool_decide_false; [done|]. intros Hf. by specialize (Hk Hf).
Qed.

(** Messages survive the wire: the reader reads back what [WriteMessage]
    wrote, for all twelve message types, in whatever chunks the bytes arrive
    and whatever follows them, with the local fields of the instances they
    carry left out; [NumBytes] is the exact length of the body. *)
Theorem message_roundtrip (m : Message) (Hok : ok m) :
  transmits (WriteMessage m) ReadMessage_buf (view m) (4 + NumBytes m).
Proof.
  exists (bytes m). split_and!.
  - unfold bytes. rewrite length_app, length_le_bytes, (NumBytes_body m Hok). lia.
  - destruct (encodes_WriteMessage m new_writer Hok eq_refl) as [Hr Hw].
    destruct (WriteMessage m new_writer) as [[[]| |] w]; cbn in *; subst; done.
  - destruct (message_decodes_Deserialize m Hok) as (p & Hp & Hd).
    eapply decodes_bind; [apply decodes_u32; by destruct m|]. by rewrite Hp.
Qed.

Definition example : Message :=
  MPreAcceptResponse (mkPreAcceptResponse true 3 InstanceWire.example [InstanceWire.example]).

Lemma message_example_ok : ok example.
Proof. split; [repeat constructor; apply InstanceWire.instance_example_ok|cbn; lia || done]. Qed.

Lemma message_roundtrip_witness : transmits (WriteMessage example) ReadMessage_buf (view example) 253.
Proof. apply (message_roundtrip example). apply message_example_ok. Defined.

(** A message is sent whole or the sender is told: on a connection that
    takes only so many bytes, [WriteMessage] returns without an error exactly
    when the whole message fits, although the instances in it may hide a
    failed write. *)
Theorem message_sent_whole_or_error (m : Message) (w : writer) (Hok : ok m) (Hw : w_err w = false) :
  (is_ok (WriteMessage m w).1 = true → w_out (WriteMessage m w).2 = w_out w ++ bytes m) ∧
  (is_ok (WriteMessage m w).1 = true ↔ fits (bytes m) w).
Proof.
  destruct (encodes_WriteMessage m w Hok Hw) as [-> ->]. rewrite bool_decide_eq_true.
  split; [|done]. unfold fits, written. destruct (w_room w); [|done]. intros. by rewrite decide_True.
Qed.

Lemma message_sent_whole_or_error_witness :
  let w := mkWriter [] (Some 60%nat) false in
  is_ok (WriteMessage example w).1 = true ↔ fits (bytes example) w.
Proof.
  apply (message_sent_whole_or_error example); [apply message_example_ok|reflexivity].
Defined.

(** A stream that announces a message type nobody registered is refused. *)
Theorem message_unknown_type (t : Z) (r : reader) (rest : list byte)
    (Ht : 0 ≤ t ≤ u32_max) (Hunknown : t < 1001 ∨ 1012 < t) (Hr : flat r = le_bytes 4 t ++ rest) :
  ∃ r', ReadMessage_buf r = (Fail (IOErrorf "Unknown message type"), r') ∧ flat r' = rest.
Proof.
  destruct (decodes_u32 t Ht r rest Hr) as (r' & Hread & Hrest). exists r'. split; [|done].
  unfold ReadMessage_buf. rewrite (bind_run _ _ _ _ _ Hread).
  assert (constructors t = None) as ->; [|done].
  unfold constructors. repeat case_match; try lia. done.
Qed.

Lemma message_unknown_type_witness :
  ∃ r', ReadMessage_buf (mkReader [] [le_bytes 4 7]) = (Fail (IOErrorf "Unknown message type"), r') ∧ flat r' = [].
Proof.
  apply (message_unknown_type 7 (mkReader [] [le_bytes 4 7]) []); [unfold u32_max; lia|lia|].
  cbn. by rewrite !app_nil_r.
Defined.

End MessageWire.
