(* ===== verification/ClusterMessages.v ===== *)
(** * Messages between the nodes of a cluster

    [src/cluster/message_connect.go], [message_query.go] and
    [message_stream.go]: connection, discovery, query and streaming messages
    with their encodings.  A process registers these and the messages of
    consensus with [src/message/io.go]; [AnyMessage] is their union. *)

From S2P Require Import Prelude Bytes Types GoTime Serializer Partitioner Topology Instruction.
From S2P Require Import Containers Instance Messages.

(** ** The messages *)

Record PeerData := mkPeerData {
  pd_NodeId : NodeId;
  pd_DCId : DatacenterID;
  pd_Addr : string;
  pd_Name : string;
  pd_Token : Token;
}.

Record ConnectionAcceptedResponse := mkConnectionAcceptedResponse {
  ca_NodeId : NodeId;
  ca_DCId : DatacenterID;
  ca_Name : string;
  ca_Token : Token;
}.

Record ReadRequest := mkReadRequest { rr_Cmd : string; rr_Key : string; rr_Args : list string }.
Record WriteRequest := mkWriteRequest { wr_ReadRequest : ReadRequest; wr_Timestamp : Time }.
Record StreamData := mkStreamData { sd_Key : string; sd_Data : list byte }.

(** [ConnectionRequest] is a struct that embeds a [PeerData]; the other
    messages have one field or none. *)
Inductive CMessage :=
  | CConnectionRequest (m : PeerData)
  | CConnectionAcceptedResponse (m : ConnectionAcceptedResponse)
  | CConnectionRefusedResponse (Reason : string)
  | CDiscoverPeersRequest (nid : NodeId)
  | CDiscoverPeerResponse (Peers : list PeerData)
  | CReadRequest (m : ReadRequest)
  | CWriteRequest (m : WriteRequest)
  | CQueryResponse (Data : list (list byte))
  | CStreamRequest
  | CStreamResponse
  | CStreamCompleteRequest
  | CStreamCompleteResponse
  | CStreamDataRequest (Data : list StreamData)
  | CStreamDataResponse.

Inductive AnyMessage :=
  | ConsensusMessage (m : Message)
  | ClusterMessage (m : CMessage).

Definition CGetType (m : CMessage) : Z :=
  match m with
  | CConnectionRequest _ => 101
  | CConnectionAcceptedResponse _ => 102
  | CConnectionRefusedResponse _ => 103
  | CDiscoverPeersRequest _ => 201
  | CDiscoverPeerResponse _ => 202
  | CReadRequest _ => 301
  | CWriteRequest _ => 302
  | CQueryResponse _ => 303
  | CStreamRequest => 401
  | CStreamResponse => 402
  | CStreamCompleteRequest => 403
  | CStreamCompleteResponse => 404
  | CStreamDataRequest _ => 405
  | CStreamDataResponse => 406
  end.

(** A slice with its length in front. *)
Definition write_slice {A} (write : A → W unit) (l : list A) : W unit :=
  _ ← binary_Write_u32 (u32 (length l));
  for_each write l.

Definition read_slice {A} (read : R A) : R (list A) :=
  size ← binary_Read_u32;
  read_n (Z.to_nat size) read.

Module PeerData.
Definition Serialize (m : PeerData) : W unit :=
  _ ← UUID_WriteBuffer (pd_NodeId m);
  _ ← WriteFieldString (pd_DCId m);
  _ ← WriteFieldString (pd_Addr m);
  _ ← WriteFieldString (pd_Name m);
  WriteFieldBytes (pd_Token m).

Definition Deserialize : R PeerData :=
  nid ← UUID_ReadBuffer B16_zero;
  dcid ← ReadFieldString;
  addr ← ReadFieldString;
  name ← ReadFieldString;
  b ← ReadFieldBytes;
  if decide (length b < 1)%nat then fail (ErrEncoding "expected at least one byte for Token")
  else mret (mkPeerData nid dcid addr name b).

Definition NumBytes (m : PeerData) : Z :=
  0 + UUID_NUM_BYTES + NumStringBytes (pd_DCId m) + NumStringBytes (pd_Addr m) +
  NumStringBytes (pd_Name m) + NumSliceBytes (pd_Token m).
End PeerData.

Module ConnectionAcceptedResponse.
Definition Serialize (m : ConnectionAcceptedResponse) : W unit :=
  _ ← UUID_WriteBuffer (ca_NodeId m);
  _ ← WriteFieldBytes (bytes_of_string (ca_DCId m));
  _ ← WriteFieldBytes (bytes_of_string (ca_Name m));
  WriteFieldBytes (ca_Token m).

(** [if err != nil { return nil }]: an error of one of the fields ends the
    decoding without an error, with the fields read so far. *)
Definition Deserialize : R ConnectionAcceptedResponse :=
  nid ← UUID_ReadBuffer B16_zero;
  b ← try ReadFieldBytes;
  match b with
  | inr _ => mret (mkConnectionAcceptedResponse nid "" "" [])
  | inl b =>
      let dcid := string_of_bytes b in
      b ← try ReadFieldBytes;
      match b with
      | inr _ => mret (mkConnectionAcceptedResponse nid dcid "" [])
      | inl b =>
          let name := string_of_bytes b in
          b ← try ReadFieldBytes;
          match b with
          | inr _ => mret (mkConnectionAcceptedResponse nid dcid name [])
          | inl b =>
              if decide (length b < 1)%nat
              then fail (ErrEncoding "expected at least 1 byte for Token")
              else mret (mkConnectionAcceptedResponse nid dcid name b)
          end
      end
  end.

Definition NumBytes (m : ConnectionAcceptedResponse) : Z :=
  0 + UUID_NUM_BYTES + NumStringBytes (ca_DCId m) + NumStringBytes (ca_Name m) +
  NumSliceBytes (ca_Token m).
End ConnectionAcceptedResponse.

Module ConnectionRefusedResponse.
Definition Serialize (Reason : string) : W unit := WriteFieldBytes (bytes_of_string Reason).
Definition Deserialize : R string := ReadFieldString.
Definition NumBytes (Reason : string) : Z := NumStringBytes Reason.
End ConnectionRefusedResponse.

Module DiscoverPeersRequest.
Definition Serialize (nid : NodeId) : W unit := UUID_WriteBuffer nid.
Definition Deserialize : R NodeId := UUID_ReadBuffer B16_zero.
Definition NumBytes (nid : NodeId) : Z := UUID_NUM_BYTES.
End DiscoverPeersRequest.

Module DiscoverPeerResponse.
Definition Serialize (Peers : list PeerData) : W unit := write_slice PeerData.Serialize Peers.
Definition Deserialize : R (list PeerData) := read_slice PeerData.Deserialize.
Definition NumBytes (Peers : list PeerData) : Z :=
  foldl (λ n peer, n + PeerData.NumBytes peer) (0 + 4) Peers.
End DiscoverPeerResponse.

Module ReadRequest.
Definition Serialize (m : ReadRequest) : W unit :=
  _ ← WriteFieldBytes (bytes_of_string (rr_Cmd m));
  _ ← WriteFieldBytes (bytes_of_string (rr_Key m));
  write_slice (λ arg, WriteFieldBytes (bytes_of_string arg)) (rr_Args m).

Definition Deserialize : R ReadRequest :=
  cmd ← ReadFieldString;
  key ← ReadFieldString;
  args ← read_slice ReadFieldString;
  mret (mkReadRequest cmd key args).

Definition NumBytes (m : ReadRequest) : Z :=
  foldl (λ n arg, n + NumStringBytes arg)
    (0 + NumStringBytes (rr_Cmd m) + NumStringBytes (rr_Key m) + 4) (rr_Args m).
End ReadRequest.

Module WriteRequest.
Definition Serialize (m : WriteRequest) : W unit :=
  _ ← ReadRequest.Serialize (wr_ReadRequest m);
  WriteTime (wr_Timestamp m).

Definition Deserialize : R WriteRequest :=
  rr ← ReadRequest.Deserialize;
  ts ← ReadTime;
  mret (mkWriteRequest rr ts).

Definition NumBytes (m : WriteRequest) : Z := ReadRequest.NumBytes (wr_ReadRequest m) + NumTimeBytes.
End WriteRequest.

Module QueryResponse.
Definition Serialize (Data : list (list byte)) : W unit := write_slice WriteFieldBytes Data.
Definition Deserialize : R (list (list byte)) := read_slice ReadFieldBytes.
Definition NumBytes (Data : list (list byte)) : Z :=
  foldl (λ n datum, n + NumSliceBytes datum) (0 + 4) Data.
End QueryResponse.

Module StreamData.
Definition Serialize (m : StreamData) : W unit :=
  _ ← WriteFieldBytes (bytes_of_string (sd_Key m));
  _ ← WriteFieldBytes (sd_Data m);
  buf_Flush.

Definition Deserialize : R StreamData :=
  key ← ReadFieldString;
  data ← ReadFieldBytes;
  mret (mkStreamData key data).

Definition NumBytes (m : StreamData) : Z := 0 + NumStringBytes (sd_Key m) + NumSliceBytes (sd_Data m).
End StreamData.

(** The error of the last [Flush] is not looked at. *)
Module StreamDataRequest.
Definition Serialize (Data : list StreamData) : W unit :=
  _ ← write_slice StreamData.Serialize Data;
  _ ← try buf_Flush;
  mret tt.
Definition Deserialize : R (list StreamData) := read_slice StreamData.Deserialize.
Definition NumBytes (Data : list StreamData) : Z :=
  foldl (λ n datum, n + StreamData.NumBytes datum) (0 + 4) Data.
End StreamDataRequest.

(** ** The interface *)

Definition CNumBytes (m : CMessage) : Z :=
  match m with
  | CConnectionRequest m => PeerData.NumBytes m
  | CConnectionAcceptedResponse m => ConnectionAcceptedResponse.NumBytes m
  | CConnectionRefusedResponse reason => ConnectionRefusedResponse.NumBytes reason
  | CDiscoverPeersRequest nid => DiscoverPeersRequest.NumBytes nid
  | CDiscoverPeerResponse peers => DiscoverPeerResponse.NumBytes peers
  | CReadRequest m => ReadRequest.NumBytes m
  | CWriteRequest m => WriteRequest.NumBytes m
  | CQueryResponse data => QueryResponse.NumBytes data
  | CStreamDataRequest data => StreamDataRequest.NumBytes data
  | _ => 0
  end.

Definition CSerialize (m : CMessage) : W unit :=
  match m with
  | CConnectionRequest m => PeerData.Serialize m
  | CConnectionAcceptedResponse m => ConnectionAcceptedResponse.Serialize m
  | CConnectionRefusedResponse reason => ConnectionRefusedResponse.Serialize reason
  | CDiscoverPeersRequest nid => DiscoverPeersRequest.Serialize nid
  | CDiscoverPeerResponse peers => DiscoverPeerResponse.Serialize peers
  | CReadRequest m => ReadRequest.Serialize m
  | CWriteRequest m => WriteRequest.Serialize m
  | CQueryResponse data => QueryResponse.Serialize data
  | CStreamDataRequest data => StreamDataRequest.Serialize data
  | _ => mret tt
  end.

(** What the [init] functions of the three files register. *)
Definition init_connect (mtype : Z) : option (R CMessage) :=
  if mtype =? 101 then Some (CConnectionRequest <$> PeerData.Deserialize)
  else if mtype =? 102 then Some (CConnectionAcceptedResponse <$> ConnectionAcceptedResponse.Deserialize)
  else if mtype =? 103 then Some (CConnectionRefusedResponse <$> ConnectionRefusedResponse.Deserialize)
  else if mtype =? 201 then Some (CDiscoverPeersRequest <$> DiscoverPeersRequest.Deserialize)
  else if mtype =? 202 then Some (CDiscoverPeerResponse <$> DiscoverPeerResponse.Deserialize)
  else None.

Definition init_query (mtype : Z) : option (R CMessage) :=
  if mtype =? 301 then Some (CReadRequest <$> ReadRequest.Deserialize)
  else if mtype =? 302 then Some (CWriteRequest <$> WriteRequest.Deserialize)
  else if mtype =? 303 then Some (CQueryResponse <$> QueryResponse.Deserialize)
  else None.

Definition init_stream (mtype : Z) : option (R CMessage) :=
  if mtype =? 401 then Some (mret CStreamRequest)
  else if mtype =? 402 then Some (mret CStreamResponse)
  else if mtype =? 403 then Some (mret CStreamCompleteRequest)
  else if mtype =? 404 then Some (mret CStreamCompleteResponse)
  else if mtype =? 405 then Some (CStreamDataRequest <$> StreamDataRequest.Deserialize)
  else if mtype =? 406 then Some (mret CStreamDataResponse)
  else None.

(** The registry of a process: the types do not overlap, so the order in which
    the packages are initialized does not matter. *)
Definition registry (mtype : Z) : option (R AnyMessage) :=
  match init_connect mtype, init_query mtype, init_stream mtype, constructors mtype with
  | Some p, _, _, _ | _, Some p, _, _ | _, _, Some p, _ => Some (ClusterMessage <$> p)
  | _, _, _, Some p => Some (ConsensusMessage <$> p)
  | _, _, _, _ => None
  end.

Definition AnyGetType (m : AnyMessage) : Z :=
  match m with ConsensusMessage m => GetType m | ClusterMessage m => CGetType m end.

Definition AnyNumBytes (m : AnyMessage) : Z :=
  match m with ConsensusMessage m => NumBytes m | ClusterMessage m => CNumBytes m end.

Definition AnySerialize (m : AnyMessage) : W unit :=
  match m with ConsensusMessage m => Serialize m | ClusterMessage m => CSerialize m end.

(** [message.WriteMessage] and [message.ReadMessage] *)
Definition SendMessage (m : AnyMessage) : W unit :=
  _ ← binary_Write_u32 (AnyGetType m);
  _ ← AnySerialize m;
  buf_Flush.

Definition ReceiveMessage_buf : R AnyMessage :=
  mtype ← binary_Read_u32;
  match registry mtype with
  | None => fail (IOErrorf "Unknown message type")
  | Some deserialize => deserialize
  end.

Definition ReceiveMessage : ST conn io_error AnyMessage := with_bufio ReceiveMessage_buf.

(** ** The wire format *)

Module CMessageWire.

(** The encoding of [a] is decoded to [a], and [num] is its length. *)
Definition codes {A} (ser : A → W unit) (des : R A) (num : A → Z) (a : A) : Prop :=
  ∃ bs, encodes (ser a) bs ∧ decodes des bs a ∧ Z.of_nat (length bs) = num a.

Lemma codes_slice {A} (ser : A → W unit) des num l :
  (∀ a, a ∈ l → codes ser des num a) → Z.of_nat (length l) ≤ u32_max →
  codes (write_slice ser) (read_slice des) (foldl (λ n a, n + num a) (0 + 4)) l.
Proof.
  intros Hl Hn.
  assert (∃ bs, encodes (for_each ser l) bs ∧ decodes (read_n (length l) des) bs l ∧
    ∀ n, foldl (λ n a, n + num a) n l = n + Z.of_nat (length bs)) as (bs & He & Hd & Hlen).
  { clear Hn. induction l as [|a l IH].
    - exists []. split_and!; [apply encodes_ret|apply decodes_ret|]. intros n. cbn. lia.
    - destruct (Hl a) as (bs1 & He1 & Hd1 & Hn1); [by left|].
      destruct IH as (bs2 & He2 & Hd2 & Hn2); [intros b Hb; apply Hl; by right|].
      exists (bs1 ++ bs2). split_and!.
      + by apply encodes_bind.
      + cbn. eapply decodes_bind; [exact Hd1|]. eapply decodes_bind_nil; [exact Hd2|]. apply decodes_ret.
      + intros n. cbn. rewrite Hn2, length_app. lia. }
  exists (le_bytes 4 (length l) ++ bs). split_and!.
  - unfold write_slice. rewrite u32_small by lia. apply encodes_bind; [apply encodes_u32|done].
  - unfold read_slice. eapply decodes_bind; [apply decodes_u32; lia|]. by rewrite Nat2Z.id.
  - rewrite Hlen, length_app, length_le_bytes. lia.
Qed.

Lemma encodes_Flush : encodes buf_Flush [].
Proof.
  split; intros w He; unfold buf_Flush; rewrite ?He; try done; cbn.
  unfold written. destruct w as [o [k|] e]; cbn in *; subst;
    [rewrite decide_True by lia; rewrite Nat.sub_0_r|]; by rewrite app_nil_r.
Qed.

Lemma encodes_try m bs : encodes m bs → encodes (_ ← try m; mret tt) bs.
Proof.
  intros [He Ho Hk]. split; intros w Hw; unfold mbind, ST_bind, try.
  - specialize (He w Hw). by destruct (m w) as [[]].
  - specialize (Ho w Hw). by destruct (m w) as [[]].
  - intros Hf. specialize (Hk w Hw Hf). destruct (m w) as [[]]; cbn in *; by simplify_eq.
Qed.

Lemma decodes_try {A} (p : R A) bs v : decodes p bs v → decodes (try p) bs (inl v).
Proof.
  intros Hp r rest Hr. destruct (Hp r rest Hr) as (r' & Hrun & Hr'). exists r'.
  unfold try. by rewrite Hrun.
Qed.

(** Strings and slices whose length fits its header. *)
Abbreviation string_ok := Instruction.string_ok.
Definition slice_ok (bs : list byte) : Prop := Z.of_nat (length bs) ≤ u32_max.

Record peer_ok (m : PeerData) : Prop := {
  peer_id : B16_wf (pd_NodeId m);
  peer_dc : string_ok (pd_DCId m);
  peer_addr : string_ok (pd_Addr m);
  peer_name : string_ok (pd_Name m);
  peer_token : slice_ok (pd_Token m);
  peer_token_nonempty : pd_Token m ≠ [];
}.

Record accepted_ok (m : ConnectionAcceptedResponse) : Prop := {
  accepted_id : B16_wf (ca_NodeId m);
  accepted_dc : string_ok (ca_DCId m);
  accepted_name : string_ok (ca_Name m);
  accepted_token : slice_ok (ca_Token m);
  accepted_token_nonempty : ca_Token m ≠ [];
}.

Record read_ok (m : ReadRequest) : Prop := {
  read_cmd : string_ok (rr_Cmd m);
  read_key : string_ok (rr_Key m);
  read_args : Forall string_ok (rr_Args m);
  read_nargs : Z.of_nat (length (rr_Args m)) ≤ u32_max;
}.

Lemma codes_string s : string_ok s → codes WriteFieldString ReadFieldString NumStringBytes s.
Proof.
  intros Hs. eexists. split_and!; [by apply encodes_string|by apply decodes_string|apply length_field].
Qed.

Lemma codes_bytes bs : slice_ok bs → codes WriteFieldBytes ReadFieldBytes NumSliceBytes bs.
Proof.
  intros Hs. eexists. split_and!; [by apply encodes_field|by apply decodes_field|apply length_field].
Qed.

Lemma nonempty_length (bs : list byte) : bs ≠ [] → ¬ (length bs < 1)%nat.
Proof. destruct bs; cbn; [done|lia]. Qed.

Lemma codes_peer m : peer_ok m → codes PeerData.Serialize PeerData.Deserialize PeerData.NumBytes m.
Proof.
  intros [H1 H2 H3 H4 H5 H6]. unfold Instruction.string_ok, slice_ok in *.
  exists (MarshalBinary (pd_NodeId m) ++ field (bytes_of_string (pd_DCId m)) ++
    field (bytes_of_string (pd_Addr m)) ++ field (bytes_of_string (pd_Name m)) ++ field (pd_Token m)).
  split_and!.
  - do 4 (apply encodes_bind; [auto with codec|]). auto with codec.
  - do 4 (eapply decodes_bind; [auto with codec|]). eapply decodes_bind_nil; [auto with codec|].
    rewrite decide_False by (by apply nonempty_length). destruct m. apply decodes_ret.
  - rewrite !length_app, !Nat2Z.inj_add, !length_field, length_MarshalBinary.
    unfold PeerData.NumBytes, NumStringBytes, NumSliceBytes, UUID_NUM_BYTES; lia.
Qed.

Lemma codes_accepted m :
  accepted_ok m →
  codes ConnectionAcceptedResponse.Serialize ConnectionAcceptedResponse.Deserialize
    ConnectionAcceptedResponse.NumBytes m.
Proof.
  intros [H1 H2 H3 H4 H5]. unfold Instruction.string_ok, slice_ok in *.
  exists (MarshalBinary (ca_NodeId m) ++ field (bytes_of_string (ca_DCId m)) ++
    field (bytes_of_string (ca_Name m)) ++ field (ca_Token m)).
  split_and!.
  - do 3 (apply encodes_bind; [auto with codec|]). auto with codec.
  - unfold ConnectionAcceptedResponse.Deserialize. eapply decodes_bind; [auto with codec|].
    do 2 (eapply decodes_bind; [apply decodes_try; by apply decodes_field|]; cbv beta iota zeta).
    eapply decodes_bind_nil; [apply decodes_try; by apply decodes_field|]. cbv beta iota zeta.
    rewrite decide_False by (by apply nonempty_length). rewrite !string_of_bytes_of_string.
    destruct m. apply decodes_ret.
  - rewrite !length_app, !Nat2Z.inj_add, !length_field, length_MarshalBinary.
    unfold ConnectionAcceptedResponse.NumBytes, NumStringBytes, NumSliceBytes, UUID_NUM_BYTES; lia.
Qed.

Lemma foldl_shift {A} (num : A → Z) l n k :
  foldl (λ n a, n + num a) (n + k) l = n + foldl (λ n a, n + num a) k l.
Proof. revert k. induction l as [|a l IH]; intros k; cbn; [done|]. by rewrite <-Z.add_assoc, IH. Qed.

Lemma codes_read m : read_ok m → codes ReadRequest.Serialize ReadRequest.Deserialize ReadRequest.NumBytes m.
Proof.
  intros [H1 H2 H3 H4].
  destruct (codes_slice WriteFieldString ReadFieldString NumStringBytes (rr_Args m)) as (bs & He & Hd & Hn).
  { intros s Hs. apply codes_string. rewrite Forall_forall in H3. by apply H3. }
  { done. }
  exists (field (bytes_of_string (rr_Cmd m)) ++ field (bytes_of_string (rr_Key m)) ++ bs). split_and!.
  - do 2 (apply encodes_bind; [by apply encodes_field|]). exact He.
  - do 2 (eapply decodes_bind; [by apply decodes_string|]).
    eapply decodes_bind_nil; [exact Hd|]. destruct m. apply decodes_ret.
  - rewrite !length_app, !Nat2Z.inj_add, !length_field, Hn.
    unfold ReadRequest.NumBytes. rewrite !foldl_shift. unfold NumStringBytes, NumSliceBytes.
    rewrite (foldl_shift _ _ 0 4). lia.
Qed.

Lemma codes_write m :
  read_ok (wr_ReadRequest m) → Time_fits (wr_Timestamp m) → is_Some (GobEncode (wr_Timestamp m)) →
  codes WriteRequest.Serialize WriteRequest.Deserialize WriteRequest.NumBytes m.
Proof.
  intros H1 H2 [tb H3]. destruct (codes_read _ H1) as (bs & He & Hd & Hn).
  exists (bs ++ field tb). split_and!.
  - apply encodes_bind; [done|]. by apply encodes_time.
  - eapply decodes_bind; [exact Hd|]. eapply decodes_bind_nil; [by apply decodes_time|].
    destruct m. apply decodes_ret.
  - rewrite length_app, Nat2Z.inj_add, length_field, Hn.
    unfold WriteRequest.NumBytes, NumSliceBytes, NumTimeBytes. by rewrite (GobEncode_length _ _ H3).
Qed.

Lemma codes_stream_data m :
  string_ok (sd_Key m) → slice_ok (sd_Data m) →
  codes StreamData.Serialize StreamData.Deserialize StreamData.NumBytes m.
Proof.
  intros H1 H2. exists (field (bytes_of_string (sd_Key m)) ++ field (sd_Data m) ++ []). split_and!.
  - do 2 (apply encodes_bind; [by apply encodes_field|]). apply encodes_Flush.
  - rewrite app_nil_r. eapply decodes_bind; [by apply decodes_string|].
    eapply decodes_bind_nil; [by apply decodes_field|]. destruct m. apply decodes_ret.
  - rewrite app_nil_r, length_app, Nat2Z.inj_add, !length_field.
    unfold StreamData.NumBytes, NumStringBytes, NumSliceBytes. lia.
Qed.

Definition c_ok (m : CMessage) : Prop :=
  match m with
  | CConnectionRequest m => peer_ok m
  | CConnectionAcceptedResponse m => accepted_ok m
  | CConnectionRefusedResponse reason => string_ok reason
  | CDiscoverPeersRequest nid => B16_wf nid
  | CDiscoverPeerResponse peers => Forall peer_ok peers ∧ Z.of_nat (length peers) ≤ u32_max
  | CReadRequest m => read_ok m
  | CWriteRequest m =>
      read_ok (wr_ReadRequest m) ∧ Time_fits (wr_Timestamp m) ∧ is_Some (GobEncode (wr_Timestamp m))
  | CQueryResponse data => Forall slice_ok data ∧ Z.of_nat (length data) ≤ u32_max
  | CStreamDataRequest data =>
      Forall (λ d, string_ok (sd_Key d) ∧ slice_ok (sd_Data d)) data ∧ Z.of_nat (length data) ≤ u32_max
  | _ => True
  end.

Definition any_ok (m : AnyMessage) : Prop :=
  match m with ConsensusMessage m => MessageWire.ok m | ClusterMessage m => c_ok m end.

(** What the receiver gets. *)
Definition any_view (m : AnyMessage) : AnyMessage :=
  match m with ConsensusMessage m => ConsensusMessage (MessageWire.view m) | m => m end.

(** A message whose fields are encoded by a codec that is registered for it. *)
Lemma registered {A} (C : A → CMessage) ser des num a p :
  codes ser des num a → CSerialize (C a) = ser a → CNumBytes (C a) = num a → p = C <$> des →
  ∃ bs, encodes (CSerialize (C a)) bs ∧ decodes p bs (C a) ∧ Z.of_nat (length bs) = CNumBytes (C a).
Proof.
  intros (bs & He & Hd & Hn) -> -> ->. exists bs. split_and!; [done| |done].
  by eapply decodes_fmap.
Qed.

Lemma registered_empty m p :
  CSerialize m = mret tt → CNumBytes m = 0 → p = mret m →
  ∃ bs, encodes (CSerialize m) bs ∧ decodes p bs m ∧ Z.of_nat (length bs) = CNumBytes m.
Proof. intros -> -> ->. exists []. split_and!; [apply encodes_ret|apply decodes_ret|done]. Qed.

Lemma codes_uuid nid : B16_wf nid →
  codes DiscoverPeersRequest.Serialize DiscoverPeersRequest.Deserialize DiscoverPeersRequest.NumBytes nid.
Proof.
  intros H. eexists. split_and!; [apply encodes_uuid|by apply decodes_uuid|].
  by rewrite length_MarshalBinary.
Qed.

Lemma codes_stream l :
  Forall (λ d, string_ok (sd_Key d) ∧ slice_ok (sd_Data d)) l → Z.of_nat (length l) ≤ u32_max →
  codes StreamDataRequest.Serialize StreamDataRequest.Deserialize StreamDataRequest.NumBytes l.
Proof.
  intros Hl Hn. destruct (codes_slice StreamData.Serialize StreamData.Deserialize StreamData.NumBytes l)
    as (bs & He & Hd & Hb); [|done|].
  { intros d Hd. rewrite Forall_forall in Hl. apply codes_stream_data; by apply Hl. }
  exists (bs ++ []). split_and!.
  - apply encodes_bind; [exact He|]. apply encodes_try, encodes_Flush.
  - by rewrite app_nil_r.
  - by rewrite app_nil_r.
Qed.

Lemma cluster_codes m :
  c_ok m → ∃ p, registry (CGetType m) = Some (ClusterMessage <$> p) ∧
    ∃ bs, encodes (CSerialize m) bs ∧ decodes p bs m ∧ Z.of_nat (length bs) = CNumBytes m.
Proof.
  intros Hm. destruct m; cbn [c_ok] in Hm; destruct_and?;
    (eexists; split; [reflexivity|]);
    first [apply registered_empty; reflexivity
          |eapply registered; [|reflexivity..]].
  - by apply codes_peer.
  - by apply codes_accepted.
  - by apply codes_string.
  - by apply codes_uuid.
  - apply codes_slice; [|done]. intros a Ha. apply codes_peer.
    by apply (proj1 (Forall_forall _ _) H).
  - by apply codes_read.
  - by apply codes_write.
  - apply codes_slice; [|done]. intros a Ha. apply codes_bytes.
    by apply (proj1 (Forall_forall _ _) H).
  - by apply codes_stream.
Qed.

Lemma consensus_codes m :
  MessageWire.ok m → ∃ p, registry (GetType m) = Some (ConsensusMessage <$> p) ∧
    encodes (Serialize m) (MessageWire.body m) ∧
    decodes p (MessageWire.body m) (MessageWire.view m) ∧
    Z.of_nat (length (MessageWire.body m)) = NumBytes m.
Proof.
  intros Hm. destruct (MessageWire.message_decodes_Deserialize m Hm) as (p & Hp & Hd).
  exists p. split_and!.
  - unfold registry. rewrite Hp. by destruct m.
  - by apply MessageWire.message_encodes_Serialize.
  - done.
  - symmetry. by apply MessageWire.NumBytes_body.
Qed.

(** What [SendMessage] writes is read back from the [bufio.Reader]. *)
Lemma transmits_any (m : AnyMessage) (Hok : any_ok m) :
  transmits (SendMessage m) ReceiveMessage_buf (any_view m) (4 + AnyNumBytes m).
Proof.
  assert (∃ p bs, registry (AnyGetType m) = Some p ∧ encodes (AnySerialize m) bs ∧
    decodes p bs (any_view m) ∧ Z.of_nat (length bs) = AnyNumBytes m) as (p & bs & Hp & He & Hd & Hn).
  { destruct m as [m|m]; cbn [any_ok] in Hok.
    - destruct (consensus_codes m Hok) as (p & Hp & He & Hd & Hn). eexists _, _.
      split_and!; [exact Hp|exact He|by eapply decodes_fmap|exact Hn].
    - destruct (cluster_codes m Hok) as (p & Hp & bs & He & Hd & Hn). eexists _, _.
      split_and!; [exact Hp|exact He|by eapply decodes_fmap|exact Hn]. }
  eapply (transmits_intro _ _ _ (le_bytes 4 (AnyGetType m) ++ bs ++ [])).
  - apply encodes_bind; [apply encodes_u32|]. apply encodes_bind; [exact He|apply encodes_Flush].
  - rewrite app_nil_r. eapply decodes_bind; [apply decodes_u32; by destruct m as [[]|[]]|]. by rewrite Hp.
  - rewrite app_nil_r, length_app, length_le_bytes, <-Hn. lia.
Qed.

Definition example_peer : PeerData :=
  mkPeerData (mkB16 1 2) "DC1" "127.0.0.1:9999" "N1" (token_of [0; 1; 2; 3]).

(** The decoder of [ConnectionAcceptedResponse] takes a truncated message for
    a complete one: if the connection ends right after the node's id, it returns
    no error and a response with an empty datacenter, name and token.  The same
    prefix of a [ConnectionRequest] is an error. *)
Theorem accepted_response_hides_truncation (nid : NodeId) (r : reader) :
  B16_wf nid → flat r = MarshalBinary nid →
  (∃ r', ConnectionAcceptedResponse.Deserialize r =
     (Ok (mkConnectionAcceptedResponse nid "" "" []), r')) ∧
  (∃ e r', PeerData.Deserialize r = (Fail e, r')).
Proof.
  intros Hnid Hr. rewrite <-(app_nil_r (MarshalBinary nid)) in Hr.
  destruct (decodes_uuid nid Hnid r [] Hr) as (r' & Hrun & Hr').
  assert (∃ e r2, ReadFieldBytes r' = (Fail e, r2)) as (e & r2 & Hfail).
  { do 2 eexists. by apply ReadFieldBytes_end. }
  split.
  - exists r2. unfold ConnectionAcceptedResponse.Deserialize. rewrite (bind_run _ _ _ _ _ Hrun).
    unfold try, mbind, ST_bind. by rewrite Hfail.
  - exists e, r2. unfold PeerData.Deserialize. rewrite (bind_run _ _ _ _ _ Hrun).
    unfold ReadFieldString, fmap, ST_fmap, mbind, ST_bind. by rewrite Hfail.
Qed.

Lemma accepted_response_hides_truncation_witness :
  ∃ r', ConnectionAcceptedResponse.Deserialize (mkReader [] [MarshalBinary (mkB16 1 2)]) =
     (Ok (mkConnectionAcceptedResponse (mkB16 1 2) "" "" []), r').
Proof.
  refine (proj1 (accepted_response_hides_truncation (mkB16 1 2) (mkReader [] [MarshalBinary (mkB16 1 2)]) _ _)).
  - vm_compute. repeat split; discriminate || reflexivity.
  - vm_compute. reflexivity.
Defined.

End CMessageWire.
