(* ===== verification/Decoding.v ===== *)
(** * What arrives is well-typed

    The decoders of [src/serializer], [src/consensus/message.go] and
    [src/cluster] on arbitrary bytes: they end, they do not panic, and what they
    return fits the types of its fields, so that it can be sent on. *)

From S2P Require Import Prelude Bytes Types GoTime Serializer Partitioner Topology Instruction.
From S2P Require Import Containers Instance Messages ClusterMessages.

(** ** How far a reader has got *)

(** [c'] is [c] without its first chunks, and possibly without the beginning of
    the next one, if this has more bytes than a reader buffers. *)
Definition takes (c c' : conn) : Prop :=
  (∃ k, c' = drop k c) ∨
  (∃ k n bs, c !! k = Some bs ∧ (defaultBufSize ≤ n < length bs)%nat ∧ c' = drop n bs :: drop (S k) c).

Definition leftover (bs : list byte) : conn := match bs with [] => [] | _ => [bs] end.

(** A reader of the connection [c]: what is in its buffer is part of one chunk, of
    which it has returned the beginning; the connection has delivered no more than
    that. *)
Record aligned (c : conn) (r : reader) : Prop := {
  al_takes : takes c (rd_conn r);
  al_length : (length (rd_buffer r) ≤ defaultBufSize)%nat;
  al_chunk : rd_buffer r ≠ [] → ∃ k pre post,
    c !! k = Some (pre ++ rd_buffer r ++ post) ∧ pre ≠ [] ∧ rd_conn r = leftover post ++ drop (S k) c ∧
    (length (pre ++ rd_buffer r ++ post) ≤ defaultBufSize → post = [])%nat;
}.

Lemma aligned_new c : aligned c (mkReader [] c).
Proof. split; cbn [rd_conn rd_buffer]; [left; by exists 0%nat|cbn; lia|done]. Qed.

Definition reads (r r' : reader) : Prop := ∀ c, aligned c r → aligned c r'.

#[export] Instance reads_preorder : PreOrder reads.
Proof. split; [by intros r c|]. intros r1 r2 r3 H1 H2 c Hc. auto. Qed.

Lemma defaultBufSize_pos : (0 < defaultBufSize)%nat.
Proof. unfold defaultBufSize. lia. Qed.

(** What one read takes: a part of a chunk, all of it unless it is too large. *)
Lemma conn_Read_takes c c1 n bs c2 :
  takes c c1 → (defaultBufSize ≤ n)%nat → conn_Read n c1 = (Ok bs, c2) →
  takes c c2 ∧ ∃ k pre post, c !! k = Some (pre ++ bs ++ post) ∧ c2 = leftover post ++ drop (S k) c ∧
    (length (pre ++ bs ++ post) ≤ defaultBufSize → post = [])%nat.
Proof.
  intros Ht Hn Hr. pose proof defaultBufSize_pos.
  assert (∃ k m full, c !! k = Some full ∧ c1 = drop m full :: drop (S k) c ∧ (m = 0 ∨ defaultBufSize ≤ m)%nat)
    as (k & m & full & Hk & -> & Hm).
  { destruct Ht as [(k & ->)|(k & m & full & Hk & Hm & ->)]; [|exists k, m, full; split_and!; [done..|lia]].
    destruct (c !! k) as [full|] eqn:Hk; [exists k, 0%nat, full; split_and!; [done|by apply drop_S|lia]|].
    apply lookup_ge_None in Hk. rewrite drop_ge in Hr by done. done. }
  unfold conn_Read in Hr. case_decide as Hl; simplify_eq.
  - split; [left; by exists (S k)|]. exists k, (take m full), []. rewrite app_nil_r, take_drop. done.
  - rewrite length_drop in Hl. rewrite drop_drop. split; [right; exists k, (m + n)%nat, full; split_and!; [done|lia..|done]|].
    exists k, (take m full), (drop (m + n) full). rewrite <- drop_drop, take_drop, take_drop. split_and!; [done| |lia].
    unfold leftover. destruct (drop n (drop m full)) eqn:Hd; [|done].
    apply (f_equal length) in Hd. rewrite !length_drop in Hd. cbn in Hd. lia.
Qed.

(** ** Decoders of arbitrary input *)

(** Reading from [r] has used up a prefix and has not panicked; a value that is
    returned satisfies [P]. *)
Definition outcome {A} (P : A → Prop) (r : reader) (x : res io_error A * reader) : Prop :=
  reads r x.2 ∧ match x.1 with Ok a => P a | Fail _ => True | Panic => False end.

Definition yields {A} (P : A → Prop) (p : R A) : Prop := ∀ r, outcome P r (p r).

Create HintDb yields discriminated.

Lemma yields_ret {A} (P : A → Prop) a : P a → yields P (mret a).
Proof. intros Ha r. split; [reflexivity|done]. Qed.

Lemma yields_fail {A} (P : A → Prop) e : yields P (fail e).
Proof. intros r. split; [reflexivity|done]. Qed.

Lemma yields_bind {A B} (P : A → Prop) (Q : B → Prop) (p : R A) (f : A → R B) :
  yields P p → (∀ a, P a → yields Q (f a)) → yields Q (p ≫= f).
Proof.
  intros Hp Hf r. destruct (Hp r) as [Hr Ho]. destruct (p r) as [x r1] eqn:Hx. cbn [fst snd] in *.
  rewrite (bind_eval _ _ _ _ _ Hx). destruct x as [a|e|]; [|done..].
  destruct (Hf a Ho r1) as [Hr' Ho']. split; [by etrans|done].
Qed.

Lemma yields_impl {A} (P P' : A → Prop) (p : R A) : yields P p → (∀ a, P a → P' a) → yields P' p.
Proof.
  intros Hp HP r. destruct (Hp r) as [Hs Ho]. split; [done|]. destruct ((p r).1); [by apply HP|done..].
Qed.

Lemma yields_fmap {A B} (P : A → Prop) (Q : B → Prop) (g : A → B) (p : R A) : yields P p → (∀ a, P a → Q (g a)) → yields Q (g <$> p).
Proof. intros Hp Hg. eapply yields_bind; [exact Hp|]. intros a Ha. apply yields_ret. by apply Hg. Qed.

Lemma yields_try {A} (P : A → Prop) (p : R A) : yields P p → yields (λ x, match x with inl a => P a | inr _ => True end) (try p).
Proof.
  intros Hp r. destruct (Hp r) as [Hs Ho]. unfold try, outcome in *. by destruct (p r) as [[]].
Qed.

Lemma yields_decide {A} (P : A → Prop) (C : Prop) `{Decision C} (p q : R A) :
  (C → yields P p) → (¬ C → yields P q) → yields P (if decide C then p else q).
Proof. intros Hp Hq. case_decide; auto. Qed.

Lemma yields_read_n {A} (P : A → Prop) (p : R A) n :
  yields P p → yields (λ l, Forall P l ∧ length l = n) (read_n n p).
Proof.
  intros Hp. induction n as [|n IH]; cbn [read_n]; [by apply yields_ret|].
  eapply yields_bind; [exact Hp|]. intros a Ha. eapply yields_bind; [exact IH|].
  intros l [Hl <-]. apply yields_ret. split; [by constructor|done].
Qed.

(** ** The loops *)

Lemma buf_Read_reads n r : reads r (buf_Read n r).2.
Proof.
  intros c Ha. unfold buf_Read. case_decide as Hn; [done|]. pose proof defaultBufSize_pos.
  destruct r as [[|b buf] cn]; cbn [rd_buffer rd_conn].
  - pose proof (al_takes _ _ Ha) as Ht. cbn [rd_conn] in Ht. case_decide as Hd.
    + destruct (conn_Read n cn) as [x c'] eqn:Hr. destruct x as [bs|e|].
      * destruct (conn_Read_takes c cn n bs c' Ht Hd Hr) as [Ht' _]. split; cbn; [done|lia|done].
      * destruct cn; [injection Hr as _ <-; exact Ha|]. unfold conn_Read in Hr. by case_decide.
      * destruct cn; [done|]. unfold conn_Read in Hr. by case_decide.
    + destruct (conn_Read defaultBufSize cn) as [x c'] eqn:Hr. destruct x as [bs|e|].
      * destruct (conn_Read_takes c cn defaultBufSize bs c' Ht ltac:(lia) Hr) as [Ht' (k & pre & post & Hk & Hc & Hp)].
        assert (length bs ≤ defaultBufSize)%nat as Hl.
        { destruct cn as [|bs' cn]; [done|]. unfold conn_Read in Hr. case_decide; simplify_eq; [done|]. rewrite length_take. lia. }
        split; cbn [rd_buffer rd_conn snd]; [done|rewrite length_drop; lia|]. intros Hne.
        assert (bs = take n bs ++ drop n bs) as Hbs by by rewrite take_drop. rewrite Hbs in Hk, Hp.
        exists k, (pre ++ take n bs), post. rewrite <- !app_assoc in *. split_and!; try done.
        destruct bs as [|b bs]; [by destruct n|]. destruct n as [|n]; [done|]. by destruct pre.
      * destruct cn; [injection Hr as _ <-; exact Ha|]. unfold conn_Read in Hr. by case_decide.
      * destruct cn; [done|]. unfold conn_Read in Hr. by case_decide.
  - destruct Ha as [Ht Hl Hc]. cbn [rd_buffer rd_conn] in *. split; cbn [rd_buffer rd_conn snd]; [done|rewrite length_drop; lia|].
    intros _. destruct (Hc ltac:(done)) as (k & pre & post & Hk & Hpre & Hcn & Hp).
    assert (b :: buf = take n (b :: buf) ++ drop n (b :: buf)) as Hb by by rewrite take_drop. rewrite Hb in Hk, Hp.
    exists k, (pre ++ take n (b :: buf)), post. rewrite <- !app_assoc in *. split_and!; try done. by destruct pre.
Qed.

Lemma buf_Read_uses n r : (0 < n)%nat → outcome (λ bs, (length bs ≤ n)%nat) r (buf_Read n r).
Proof.
  intros Hn. split; [apply buf_Read_reads|].
  by destruct (buf_Read_spec n r Hn) as [[_ ->]|(bs & r' & -> & _ & Hl & _)].
Qed.

Lemma ReadBytes_loop_outcome fuel size target r :
  (to_read r < fuel)%nat → (length target ≤ size)%nat →
  outcome (λ bs, length bs = size) r (ReadBytes_loop fuel size target r).
Proof.
  revert target r. induction fuel as [|fuel IH]; intros target r Hf Ht; [lia|]. cbn [ReadBytes_loop].
  case_decide as Hd; [|split; [reflexivity|cbn; lia]].
  pose proof (buf_Read_reads (size - length target) r) as Hr.
  destruct (buf_Read_spec (size - length target) r) as [[_ Hx]|(bs & r1 & Hx & _ & Hl & Hm)]; [lia|..];
    rewrite (bind_eval _ _ _ _ _ Hx); rewrite Hx in Hr; cbn [snd] in Hr; [done|].
  destruct (IH (target ++ bs) r1) as [Hr' Ho']; rewrite ?length_app; [lia..|]. split; [by etrans|done].
Qed.

Lemma ReadFull_loop_outcome fuel size target r :
  (to_read r < fuel)%nat → (length target ≤ size)%nat →
  outcome (λ bs, length bs = size) r (ReadFull_loop fuel size target r).
Proof.
  revert target r. induction fuel as [|fuel IH]; intros target r Hf Ht; [lia|]. cbn [ReadFull_loop].
  case_decide as Hd; [|split; [reflexivity|cbn; lia]].
  pose proof (buf_Read_reads (size - length target) r) as Hr. rewrite bind_try.
  destruct (buf_Read_spec (size - length target) r) as [[_ Hx]|(bs & r1 & Hx & _ & Hl & Hm)]; [lia|..];
    rewrite Hx in Hr |- *; cbn [snd] in Hr; [done|].
  destruct (IH (target ++ bs) r1) as [Hr' Ho']; rewrite ?length_app; [lia..|]. split; [by etrans|done].
Qed.

Lemma yields_ReadBytes n : yields (λ bs, length bs = n) (ReadBytes n).
Proof. intros r. apply ReadBytes_loop_outcome; cbn; lia. Qed.

Lemma yields_ReadFull n : yields (λ bs, length bs = n) (ReadFull n).
Proof. intros r. apply ReadFull_loop_outcome; cbn; lia. Qed.

(** ** Fields *)

Lemma yields_u32 : yields (λ z, 0 ≤ z ≤ u32_max) binary_Read_u32.
Proof.
  eapply yields_fmap; [apply yields_ReadFull|]. intros bs Hl. pose proof (le_Z_range bs) as H.
  rewrite Hl in H. unfold u32_max. change (256 ^ 4%nat) with (2 ^ 32) in H. lia.
Qed.

Lemma yields_u8 : yields (λ z, 0 ≤ z < 256) binary_Read_u8.
Proof.
  eapply yields_fmap; [apply yields_ReadFull|]. intros bs Hl. pose proof (le_Z_range bs) as H.
  by rewrite Hl in H.
Qed.

Lemma yields_bool : yields (λ _, True) read_bool.
Proof. by eapply yields_fmap; [apply yields_u8|]. Qed.

Lemma yields_field : yields CMessageWire.slice_ok ReadFieldBytes.
Proof.
  eapply yields_bind; [apply yields_u32|]. intros size Hsize.
  eapply yields_bind; [apply yields_ReadBytes|]. intros bs Hl. cbn beta in *.
  rewrite decide_False by auto. apply yields_ret. unfold CMessageWire.slice_ok. lia.
Qed.

Lemma yields_string : yields Instruction.string_ok ReadFieldString.
Proof.
  eapply yields_fmap; [apply yields_field|]. intros bs Hl. unfold Instruction.string_ok.
  by rewrite bytes_of_string_of_bytes.
Qed.

Lemma to_signed_range n z :
  (0 < n)%nat → 0 ≤ z < 256 ^ n → - 2 ^ (8 * n - 1) ≤ to_signed n z < 2 ^ (8 * n - 1).
Proof.
  intros Hn Hz. change 256 with (2 ^ 8) in Hz. rewrite <- Z.pow_mul_r in Hz by lia.
  assert (2 ^ (8 * n) = 2 * 2 ^ (8 * n - 1)) as Hp.
  { rewrite <- Z.pow_succ_r by lia. f_equal. lia. }
  unfold to_signed. case_decide; lia.
Qed.

Lemma GobDecode_typed bs t : GobDecode bs = Some t → Time_fits t ∧ is_Some (GobEncode t).
Proof.
  unfold GobDecode. destruct bs as [|v data]; [done|]. case_decide; [done|]. case_decide as Hl; [done|].
  intros [= <-]. cbn [length] in Hl.
  assert (length (take 8 data) = 8%nat) as L1 by (rewrite length_take; lia).
  assert (length (take 4 (drop 8 data)) = 4%nat) as L2 by (rewrite length_take, length_drop; lia).
  assert (length (drop 12 data) = 2%nat) as L3 by (rewrite length_drop; lia).
  pose proof (be_Z_range (take 8 data)) as H1. pose proof (be_Z_range (take 4 (drop 8 data))) as H2.
  pose proof (be_Z_range (drop 12 data)) as H3. rewrite L1 in H1. rewrite L2 in H2. rewrite L3 in H3.
  apply (to_signed_range 8) in H1; [|lia]. apply (to_signed_range 4) in H2; [|lia].
  apply (to_signed_range 2) in H3; [|lia]. split; [split; [exact H1|exact H2]|].
  unfold GobEncode, zone_offset. cbn [t_loc]. case_decide as Hz; [by eexists|].
  change (2 ^ (8 * 2%nat - 1)) with 32768 in H3. rewrite Z.rem_mul, Z.quot_mul by done.
  rewrite decide_False by auto. rewrite decide_False by lia. by eexists.
Qed.

Lemma yields_time : yields (λ t, Time_fits t ∧ is_Some (GobEncode t)) ReadTime.
Proof.
  eapply yields_bind; [apply yields_field|]. intros bs _.
  destruct (GobDecode bs) as [t|] eqn:Ht; [|apply yields_fail].
  apply yields_ret. by eapply GobDecode_typed.
Qed.

Lemma yields_uuid : yields B16_wf (UUID_ReadBuffer B16_zero).
Proof.
  eapply yields_bind; [apply yields_ReadBytes|]. intros bs _.
  destruct (UnmarshalBinary B16_zero bs) as [u|] eqn:Hu; [|apply yields_fail].
  apply yields_ret. by eapply Unmarshal_wf.
Qed.

#[export] Hint Resolve yields_u32 yields_u8 yields_bool yields_field yields_string yields_time yields_uuid : yields.

(** A slice with its length in front. *)
Lemma yields_slice {A} (P : A → Prop) (p : R A) :
  yields P p → yields (λ l, Forall P l ∧ Z.of_nat (length l) ≤ u32_max)
    (n ← binary_Read_u32; read_n (Z.to_nat n) p).
Proof.
  intros Hp. eapply yields_bind; [apply yields_u32|]. intros n Hn.
  eapply yields_impl; [by apply yields_read_n|]. intros l [Hl Hlen]. split; [done|]. cbn beta in *. lia.
Qed.

Lemma yields_slice_bind {A B} (P : A → Prop) (Q : B → Prop) (p : R A) (f : list A → R B) :
  yields P p → (∀ l, Forall P l → Z.of_nat (length l) ≤ u32_max → yields Q (f l)) →
  yields Q (n ← binary_Read_u32; l ← read_n (Z.to_nat n) p; f l).
Proof.
  intros Hp Hf. eapply yields_bind; [apply yields_u32|]. intros n Hn.
  eapply yields_bind; [by apply yields_read_n|]. intros l [Hl Hlen]. apply Hf; [done|]. cbn beta in *. lia.
Qed.

(** ** Messages of consensus *)

(** One field after the other. *)
Ltac yields_next :=
  first [apply (yields_slice_bind B16_wf); [apply yields_uuid|]
        |apply (yields_slice_bind Instruction.string_ok); [apply yields_string|]
        |eapply yields_bind; [solve [eauto with yields]|]];
  intros; cbn beta in *.

Lemma yields_instruction : yields Instruction.ok Instruction.Deserialize.
Proof. unfold Instruction.Deserialize. repeat yields_next. destruct_and?. by apply yields_ret. Qed.
#[export] Hint Resolve yields_instruction : yields.

(** What has been read has no local fields. *)
Definition instance_typed (i : Instance) : Prop := InstanceWire.ok i ∧ InstanceWire.wire_view i = i.

Lemma yields_instance : yields instance_typed Instance.DeserializeLimited.
Proof. unfold Instance.DeserializeLimited. repeat yields_next. apply yields_ret. split; [|done]. split; done. Qed.
#[export] Hint Resolve yields_instance : yields.

Lemma yields_instances : yields (λ l, Forall instance_typed l ∧ Z.of_nat (length l) ≤ u32_max) read_instances.
Proof. apply yields_slice, yields_instance. Qed.

Lemma yields_optional : yields (λ o, Forall instance_typed (option_list o)) read_optional.
Proof.
  unfold read_optional. yields_next. destruct (negb a); [|by apply yields_ret].
  eapply yields_fmap; [apply yields_instance|]. intros i Hi. by apply Forall_singleton.
Qed.
#[export] Hint Resolve yields_instances yields_optional : yields.

Definition message_typed (m : Message) : Prop := MessageWire.ok m ∧ MessageWire.view m = m.

Lemma typed_instances l :
  Forall instance_typed l → Forall InstanceWire.ok l ∧ map InstanceWire.wire_view l = l.
Proof. induction 1 as [|i l [Hi Hv] _ [IH1 IH2]]; cbn; [done|]. split; [by constructor|by rewrite Hv, IH2]. Qed.

Lemma typed_optional o :
  Forall instance_typed (option_list o) → Forall InstanceWire.ok (option_list o) ∧ InstanceWire.wire_view <$> o = o.
Proof. destruct o as [i|]; cbn; [|done]. intros [[Hi Hv] _]%Forall_cons. split; [by apply Forall_singleton|by rewrite Hv]. Qed.

Lemma typed_intro m :
  Forall InstanceWire.ok (MessageWire.carried m) → MessageWire.fields_ok m → MessageWire.view m = m → message_typed m.
Proof. by repeat split. Qed.

(** What is known of the instances that have been read. *)
Ltac typed_hyps :=
  repeat match goal with
  | H : _ ∧ _ |- _ => destruct H
  | H : instance_typed _ |- _ => destruct H
  | H : Forall instance_typed (option_list _) |- _ => apply typed_optional in H
  | H : Forall instance_typed _ |- _ => apply typed_instances in H
  end.

Ltac typed_done :=
  typed_hyps; apply typed_intro; cbn; rewrite ?Forall_cons, ?Forall_singleton;
  repeat match goal with H : _ = _ |- _ => rewrite H end; done.

Ltac typed_tac :=
  first [eapply yields_fmap; [solve [eauto with yields]|]; intros; cbn beta in *; typed_done
        |repeat yields_next; apply yields_ret; typed_done].

(** The messages of consensus, each with its decoder. *)
Lemma yields_message mtype p : constructors mtype = Some p → yields message_typed p.
Proof.
  unfold constructors. repeat (case_match; [intros [= <-]|]); [..|done].
  all: try (eapply yields_fmap; [|intros m Hm; exact Hm]);
    unfold PreAcceptRequest.Deserialize, PreAcceptResponse.Deserialize, AcceptRequest.Deserialize,
      AcceptResponse.Deserialize, CommitRequest.Deserialize, PrepareRequest.Deserialize,
      PrepareResponse.Deserialize, PrepareSuccessorRequest.Deserialize, PrepareSuccessorResponse.Deserialize,
      InstanceRequest.Deserialize, InstanceResponse.Deserialize; typed_tac.
Qed.

(** ** Messages of the cluster *)

(** As [CMessageWire.c_ok], but the token of an acceptance may be missing: its
    decoder takes the end of the stream for the end of the message. *)
Definition c_typed (m : CMessage) : Prop :=
  match m with
  | CConnectionAcceptedResponse m =>
      B16_wf (ca_NodeId m) ∧ Instruction.string_ok (ca_DCId m) ∧ Instruction.string_ok (ca_Name m) ∧
      CMessageWire.slice_ok (ca_Token m)
  | m => CMessageWire.c_ok m
  end.

Lemma yields_peer : yields CMessageWire.peer_ok PeerData.Deserialize.
Proof.
  unfold PeerData.Deserialize. repeat yields_next. apply yields_decide; intros Hd; [apply yields_fail|].
  apply yields_ret. split; try done. cbn. intros ->. cbn in Hd. lia.
Qed.

Lemma string_ok_of_bytes bs : CMessageWire.slice_ok bs → Instruction.string_ok (string_of_bytes bs).
Proof. unfold Instruction.string_ok. by rewrite bytes_of_string_of_bytes. Qed.

Lemma yields_accepted :
  yields (λ m, c_typed (CConnectionAcceptedResponse m)) ConnectionAcceptedResponse.Deserialize.
Proof.
  unfold ConnectionAcceptedResponse.Deserialize. yields_next.
  assert (Instruction.string_ok "") as He by done.
  assert (CMessageWire.slice_ok []) as Hn by done.
  eapply yields_bind; [apply yields_try, yields_field|]. intros [dc|] Hdc; [apply string_ok_of_bytes in Hdc|by apply yields_ret].
  eapply yields_bind; [apply yields_try, yields_field|]. intros [name|] Hname; [apply string_ok_of_bytes in Hname|by apply yields_ret].
  eapply yields_bind; [apply yields_try, yields_field|]. intros [token|] Htoken; [|by apply yields_ret].
  apply yields_decide; intros _; [apply yields_fail|]. by apply yields_ret.
Qed.

Lemma yields_read_request : yields CMessageWire.read_ok ReadRequest.Deserialize.
Proof.
  unfold ReadRequest.Deserialize, read_slice. do 2 yields_next.
  eapply yields_bind; [apply yields_slice, yields_string|]. intros l [Hl Hn]. by apply yields_ret.
Qed.
#[export] Hint Resolve yields_peer yields_read_request : yields.

Lemma yields_stream : yields (λ d, Instruction.string_ok (sd_Key d) ∧ CMessageWire.slice_ok (sd_Data d)) StreamData.Deserialize.
Proof. unfold StreamData.Deserialize. repeat yields_next. by apply yields_ret. Qed.

Lemma yields_connect mtype p : init_connect mtype = Some p → yields c_typed p.
Proof.
  unfold init_connect. repeat (case_match; [intros [= <-]|]); [..|done];
    (eapply yields_fmap; [|intros m Hm; exact Hm]).
  - apply yields_peer.
  - apply yields_accepted.
  - apply yields_string.
  - apply yields_uuid.
  - apply (yields_slice CMessageWire.peer_ok), yields_peer.
Qed.

Lemma yields_query mtype p : init_query mtype = Some p → yields c_typed p.
Proof.
  unfold init_query. repeat (case_match; [intros [= <-]|]); [..|done];
    (eapply yields_fmap; [|intros m Hm; exact Hm]).
  - apply yields_read_request.
  - unfold WriteRequest.Deserialize. repeat yields_next. by apply yields_ret.
  - apply (yields_slice CMessageWire.slice_ok), yields_field.
Qed.

Lemma yields_init_stream mtype p : init_stream mtype = Some p → yields c_typed p.
Proof.
  unfold init_stream. repeat (case_match; [intros [= <-]|]); [..|done]; try by apply yields_ret.
  eapply yields_fmap; [|intros m Hm; exact Hm]. eapply yields_slice, yields_stream.
Qed.

(** ** Every message *)

Definition any_typed (m : AnyMessage) : Prop :=
  match m with ConsensusMessage m => message_typed m | ClusterMessage m => c_typed m end.

Lemma yields_registry mtype p : registry mtype = Some p → yields any_typed p.
Proof.
  pose proof (yields_connect mtype) as H1. pose proof (yields_query mtype) as H2.
  pose proof (yields_init_stream mtype) as H3. pose proof (yields_message mtype) as H4. unfold registry.
  destruct (init_connect mtype), (init_query mtype), (init_stream mtype), (constructors mtype); intros [= <-];
    (eapply yields_fmap; [|intros m Hm; exact Hm]); auto.
Qed.

Lemma yields_ReceiveMessage : yields any_typed ReceiveMessage_buf.
Proof.
  eapply yields_bind; [apply yields_u32|]. intros mtype _.
  destruct (registry mtype) as [p|] eqn:Hp; [by eapply yields_registry|apply yields_fail].
Qed.

(** An acceptance that has been cut off before its token. *)
Definition cut_off (m : AnyMessage) : Prop :=
  match m with ClusterMessage (CConnectionAcceptedResponse m) => ca_Token m = [] | _ => False end.

Lemma typed_ok m : any_typed m → cut_off m ∨ CMessageWire.any_ok m ∧ CMessageWire.any_view m = m.
Proof.
  destruct m as [m|m]; cbn.
  - intros [Hm Hv]. right. by rewrite Hv.
  - destruct m; cbn; try by right. intros (H1 & H2 & H3 & H4). destruct (decide (ca_Token m = [])); [by left|].
    right. split; [by split|done].
Qed.

(** ** One reader per message *)

Lemma concat_drop_lookup {A} (c : list (list A)) k bs : c !! k = Some bs → concat (drop k c) = bs ++ concat (drop (S k) c).
Proof. intros Hk. by rewrite (drop_S c bs k Hk). Qed.

Lemma length_concat_drop {A} (c : list (list A)) k : (length (concat (drop k c)) ≤ length (concat c))%nat.
Proof. rewrite <- (take_drop k c) at 2. rewrite concat_app, length_app. lia. Qed.

Lemma length_concat_lookup {A} (c : list (list A)) k bs :
  c !! k = Some bs → (length bs + length (concat (drop (S k) c)) ≤ length (concat c))%nat.
Proof.
  intros Hk. pose proof (length_concat_drop c k) as H. rewrite (concat_drop_lookup _ _ _ Hk), length_app in H. lia.
Qed.

Lemma concat_leftover bs : concat (leftover bs) = bs.
Proof. destruct bs; [done|]. cbn. by rewrite app_nil_r. Qed.

(** The chunk in the buffer ends with the chunk of the connection it comes from. *)
Lemma aligned_chunk c r :
  aligned c r → rd_buffer r ≠ [] → ∃ k bs, c !! k = Some bs ∧ (length (rd_buffer r) < length bs)%nat ∧
    (length (flat r) < length bs + length (concat (drop (S k) c)))%nat.
Proof.
  intros Ha Hb. destruct (al_chunk _ _ Ha Hb) as (k & pre & post & Hk & Hpre & Hc & _).
  exists k, (pre ++ rd_buffer r ++ post). unfold flat. rewrite Hc, concat_app, concat_leftover, !length_app.
  destruct pre; [done|]. cbn [length]. split_and!; [done|lia|lia].
Qed.

(** Nothing is lost if the last byte that is read ends a chunk ... *)
Lemma aligned_end c rest r : aligned (c ++ rest) r → flat r = concat rest → concat (rd_conn r) = concat rest.
Proof.
  intros Ha Hf. rewrite <- Hf. unfold flat. destruct (decide (rd_buffer r = [])) as [->|Hb]; [done|]. exfalso.
  destruct (al_chunk _ _ Ha Hb) as (k & pre & post & Hk & Hpre & Hc & _).
  apply (f_equal length) in Hf. unfold flat in Hf. rewrite Hc, concat_app, concat_leftover, !length_app in Hf.
  assert (0 < length (rd_buffer r))%nat as Hpos by (destruct (rd_buffer r); [done|cbn; lia]).
  apply lookup_app_Some in Hk as [Hk|[Hlt Hk]].
  - apply lookup_lt_Some in Hk. rewrite drop_app_le, concat_app, length_app in Hf by lia. lia.
  - apply length_concat_lookup in Hk. rewrite !length_app in Hk. rewrite drop_app_ge in Hf by lia.
    replace (S k - length c)%nat with (S (k - length c)) in Hf by lia. destruct pre; [done|]. cbn [length] in Hk. lia.
Qed.

(** ... what follows it in the same chunk is, if this fits into the buffer ... *)
Lemma aligned_lost bs more rest r :
  bs ≠ [] → more ≠ [] → (length (bs ++ more) ≤ defaultBufSize)%nat →
  aligned ((bs ++ more) :: rest) r → flat r = more ++ concat rest → rd_conn r = rest.
Proof.
  intros Hbs Hmore Hl Ha Hf. apply (f_equal length) in Hf. unfold flat in Hf. rewrite !length_app in Hf.
  assert (0 < length bs ∧ 0 < length more)%nat as [Hbs' Hmore'] by (destruct bs, more; done || (cbn; lia)).
  destruct (decide (rd_buffer r = [])) as [Hb|Hb].
  - exfalso. rewrite Hb in Hf. cbn [length] in Hf. destruct (al_takes _ _ Ha) as [(k & Hc)|(k & n & c & Hk & Hn & Hc)]; rewrite Hc in Hf.
    + destruct k as [|k]; cbn [drop] in Hf; [cbn in Hf; rewrite !length_app in Hf; lia|].
      pose proof (length_concat_drop rest k). lia.
    + destruct k as [|k]; [cbn in Hk; simplify_eq; lia|]. change (rest !! k = Some c) in Hk. cbn [drop concat] in Hf.
      rewrite length_app, length_drop in Hf. apply length_concat_lookup in Hk. lia.
  - destruct (al_chunk _ _ Ha Hb) as (k & pre & post & Hk & Hpre & Hc & Hp).
    destruct k as [|k].
    + injection Hk as Hk. rewrite <- Hk in Hp. rewrite Hp in Hc by done. done.
    + exfalso. change (rest !! k = Some (pre ++ rd_buffer r ++ post)) in Hk. rewrite Hc, concat_app, concat_leftover, length_app in Hf.
      cbn [drop] in Hf. apply length_concat_lookup in Hk. rewrite !length_app in Hk. lia.
Qed.

(** [SendMessage] writes [m] as [bs]; a receiver of these bytes, in whatever
    chunks, gets [v] and finds what comes in later chunks still there. *)
Definition delivers (m : AnyMessage) (bs : list byte) (v : AnyMessage) : Prop :=
  SendMessage m new_writer = (Ok tt, mkWriter bs None false) ∧
  ∀ c rest, concat c = bs → ∃ c', ReceiveMessage (c ++ rest) = (Ok v, c') ∧ concat c' = concat rest.

(** Of what comes after [bs] in the stream the receiver may lose a buffer full. *)
Definition loses_little (bs : list byte) (v : AnyMessage) : Prop :=
  ∀ c more, concat c = bs ++ more → ∃ c' k, ReceiveMessage c = (Ok v, c') ∧ concat c' = drop k more ∧
    (k ≤ defaultBufSize)%nat.

Lemma any_delivers m :
  CMessageWire.any_ok m →
  ∃ bs, Z.of_nat (length bs) = 4 + AnyNumBytes m ∧ delivers m bs (CMessageWire.any_view m) ∧
    loses_little bs (CMessageWire.any_view m) ∧
    (∀ more rest, more ≠ [] → (length (bs ++ more) ≤ defaultBufSize)%nat →
       ReceiveMessage ((bs ++ more) :: rest) = (Ok (CMessageWire.any_view m), rest)).
Proof.
  intros Hok. destruct (CMessageWire.transmits_any m Hok) as (bs & Hn & Hw & Hd). exists bs.
  assert (∀ c more, concat c = bs ++ more → ∃ r, ReceiveMessage c = (Ok (CMessageWire.any_view m), rd_conn r) ∧
    aligned c r ∧ flat r = more) as Hrun.
  { intros c more Hc. destruct (Hd (mkReader [] c) more Hc) as (r & Hr & Hf). exists r.
    pose proof (yields_ReceiveMessage (mkReader [] c)) as [Hreads _]. rewrite Hr in Hreads.
    unfold ReceiveMessage, with_bufio. rewrite Hr. split_and!; [done|apply Hreads, aligned_new|done]. }
  split; [done|]. split_and!; [split; [done|]|..].
  - intros c rest Hc. destruct (Hrun (c ++ rest) (concat rest)) as (r & Hr & Ha & Hf); [by rewrite concat_app, Hc|].
    exists (rd_conn r). split; [done|]. by eapply aligned_end.
  - intros c more Hc. destruct (Hrun c more Hc) as (r & Hr & Ha & Hf).
    exists (rd_conn r), (length (rd_buffer r)). split_and!; [done| |apply Ha].
    rewrite <- Hf. unfold flat. by rewrite drop_app_length.
  - intros more rest Hmore Hl. destruct (Hrun ((bs ++ more) :: rest) (more ++ concat rest)) as (r & Hr & Ha & Hf).
    { cbn. by rewrite app_assoc. }
    rewrite Hr. f_equal. apply (aligned_lost bs more); try done.
    intros ->. by destruct (Hd (mkReader [] []) [] eq_refl) as (? & [=] & _).
Qed.

(** ** Theorems *)

(** C33. Every message a process can send survives the wire, those of consensus
    and those of the cluster: the type codes do not collide, and whatever
    [SendMessage] writes is read back by [ReceiveMessage] as the same message
    (without the local fields of the instances it carries), in whatever chunks it
    arrives; [NumBytes] is the exact length of its body.  Tokens must not be empty,
    and lengths must fit their 32 bit headers.  What the connection delivers after
    the message is left there if it comes in chunks of its own, as it does when
    every message is answered before the next is sent.  But the reader that
    buffers what it reads is made for one message: of what follows in the same
    chunk up to 4096 bytes, the size of the buffer, are lost, and all of it if the
    chunk has no more than that. *)
Theorem any_message_roundtrip (m : AnyMessage) (Hok : CMessageWire.any_ok m) :
  ∃ bs, Z.of_nat (length bs) = 4 + AnyNumBytes m ∧ delivers m bs (CMessageWire.any_view m) ∧
    loses_little bs (CMessageWire.any_view m) ∧
    (∀ more rest, more ≠ [] → (length (bs ++ more) ≤ defaultBufSize)%nat →
       ReceiveMessage ((bs ++ more) :: rest) = (Ok (CMessageWire.any_view m), rest)).
Proof. by apply any_delivers. Qed.

Lemma any_message_roundtrip_witness :
  let m := ClusterMessage (CDiscoverPeerResponse [CMessageWire.example_peer; CMessageWire.example_peer]) in
  ∃ bs, Z.of_nat (length bs) = 118 ∧ delivers m bs m.
Proof.
  destruct (any_message_roundtrip
    (ClusterMessage (CDiscoverPeerResponse [CMessageWire.example_peer; CMessageWire.example_peer])))
    as (bs & Hn & Hd & _).
  - split; [|vm_compute; discriminate]. repeat constructor; vm_compute; intros; discriminate.
  - exists bs. exact (conj Hn Hd).
Defined.

(** C34. What arrives is well-typed.  On every sequence of chunks of bytes
    [ReceiveMessage] returns, without a panic and without a loop running on,
    having taken the first of the chunks, or of a chunk that is larger than the
    buffer the first bytes.  If it returns a message, then all of
    its fields fit their types (ids, ballots, counts, lengths, times), so that the
    message can be sent on and the next receiver reads the very same one; the one
    exception is a [ConnectionAcceptedResponse] whose token is missing, as its
    decoder reports the end of the stream as success. *)
Theorem received_messages_well_typed (c : conn) :
  takes c (ReceiveMessage c).2 ∧
  match (ReceiveMessage c).1 with
  | Ok m => any_typed m ∧ (cut_off m ∨ ∃ bs, Z.of_nat (length bs) = 4 + AnyNumBytes m ∧ delivers m bs m)
  | Fail _ => True
  | Panic => False
  end.
Proof.
  destruct (yields_ReceiveMessage (mkReader [] c)) as [Hs Ho]. unfold ReceiveMessage, with_bufio.
  destruct (ReceiveMessage_buf (mkReader [] c)) as [x r'] eqn:Hrun. cbn [fst snd] in *.
  split; [apply (al_takes c r'), Hs, aligned_new|]. destruct x as [m|e|]; [|done..]. split; [done|].
  destruct (typed_ok m Ho) as [|[Hok Hv]]; [by left|right].
  destruct (any_delivers m Hok) as (bs & Hn & Hd & _). rewrite Hv in Hd. by exists bs.
Qed.
