(* ===== verification/Pool.v ===== *)
(** * Connections and their pool

    [src/cluster/connection.go]: a connection with its flags, and the pool of
    the connections to one host, a singly linked list with a pointer to its
    last holder.  Holders and connections are objects of a heap, so that what
    the list looks like after an update through [tail] has to be proved.  The
    sockets themselves are not modelled: whether a connection can be
    established is an argument of [Get], and what a socket answers one of
    [Read] and [Write]. *)

From S2P Require Import Prelude Bytes.

Abbreviation cptr := positive.   (** [*Connection] *)
Abbreviation hptr := positive.   (** [*connHolder] *)

(** ** [Connection] *)

Record Connection := mkConnection { c_timeout : Z; isClosed : bool; completedHandshake : bool }.

Module Connection.

(** [Read] and [Write], given what the same call on the socket returns: a size
    and, perhaps, an error. *)
Definition Read (socket : Z * option string) (c : Connection) : (Z * option string) * Connection :=
  let '(size, err) := socket in
  let c := if decide (err ≠ None) then mkConnection (c_timeout c) true (completedHandshake c) else c in
  ((size, err), c).
Definition Write (socket : Z * option string) (c : Connection) : (Z * option string) * Connection :=
  let '(size, err) := socket in
  let c := if decide (err ≠ None) then mkConnection (c_timeout c) true (completedHandshake c) else c in
  ((size, err), c).

Definition Close (c : Connection) : Connection := mkConnection (c_timeout c) true (completedHandshake c).
Definition Closed (c : Connection) : bool := isClosed c.
Definition HandshakeCompleted (c : Connection) : bool := completedHandshake c.
Definition SetHandshakeCompleted (c : Connection) : Connection :=
  mkConnection (c_timeout c) (isClosed c) true.

End Connection.

(** ** [ConnectionPool] *)

Record connHolder := mkHolder { h_conn : cptr; h_next : option hptr }.

Record ConnectionPool := mkPool {
  cp_addr : string;
  cp_size : Z;
  cp_timeout : Z;
  cp_maxConn : Z;
  cp_pool : option hptr;
  cp_tail : option hptr;
  (** the objects reachable from the pool *)
  cp_holders : gmap hptr connHolder;
  cp_conns : gmap cptr Connection;
}.

Abbreviation P := (ST ConnectionPool string).

(** [size] is a [uint], 64 bits wide. *)
Definition u64 (z : Z) : Z := z mod 2 ^ 64.

Module ConnectionPool.

Definition NewConnectionPool (a : string) (max : Z) (t : Z) : ConnectionPool :=
  let max := if decide (max = 0) then 10 else max in
  let t := if decide (t ≤ 0) then 10000 else t in
  mkPool a 0 t max None None ∅ ∅.

Definition set_conn (c : cptr) (f : Connection → Connection) (cp : ConnectionPool) : ConnectionPool :=
  mkPool (cp_addr cp) (cp_size cp) (cp_timeout cp) (cp_maxConn cp) (cp_pool cp) (cp_tail cp) (cp_holders cp)
    (alter f c (cp_conns cp)).

(** [Connect(addr, timeout)], given whether the peer answers. *)
Definition Connect (dial : bool) (t : Z) : P cptr := λ cp,
  if dial then
    let c := fresh (dom (cp_conns cp)) in
    (Ok c, mkPool (cp_addr cp) (cp_size cp) (cp_timeout cp) (cp_maxConn cp) (cp_pool cp) (cp_tail cp) (cp_holders cp)
             (<[c := mkConnection t false false]> (cp_conns cp)))
  else (Fail "dial", cp).

(** The part of [Put] that appends a holder. *)
Definition append (conn : cptr) : P unit := λ cp,
  let h := fresh (dom (cp_holders cp)) in
  let hs := <[h := mkHolder conn None]> (cp_holders cp) in
  let mk hs p t := mkPool (cp_addr cp) (u64 (cp_size cp + 1)) (cp_timeout cp) (cp_maxConn cp) p t hs (cp_conns cp) in
  match cp_pool cp with
  | None => (Ok tt, mk hs (Some h) (Some h))
  | Some _ =>
      match cp_tail cp with
      | None => (Panic, cp)
      | Some t =>
          match hs !! t with
          | None => (Panic, cp)
          | Some last => (Ok tt, mk (<[t := mkHolder (h_conn last) (Some h)]> hs) (cp_pool cp) (Some h))
          end
      end
  end.

Definition Put (conn : cptr) : P unit :=
  c ← gets (λ cp, cp_conns cp !! conn);
  c ← deref c;
  if isClosed c then mret tt
  else
    cp ← get;
    if decide (cp_size cp < cp_maxConn cp) then append conn
    else modify (set_conn conn Connection.Close).

(** The part of [Get] that holds the lock. *)
Definition Get_locked : P cptr := λ cp,
  match cp_pool cp with
  | None => (Panic, cp)
  | Some h =>
      match cp_holders cp !! h with
      | None => (Panic, cp)
      | Some x =>
          (Ok (h_conn x),
           mkPool (cp_addr cp) (u64 (cp_size cp - 1)) (cp_timeout cp) (cp_maxConn cp) (h_next x)
             (if decide (h_next x = None) then None else cp_tail cp) (cp_holders cp) (cp_conns cp))
      end
  end.

(** The test that comes before the lock is taken. *)
Definition Get_nonempty : P bool := gets (λ cp, bool_decide (cp_pool cp ≠ None)).

Definition Get (dial : bool) : P cptr :=
  nonempty ← Get_nonempty;
  if (nonempty : bool) then Get_locked else Connect dial 1.

End ConnectionPool.

(** ** The pool as a queue *)

(** The holders reached from [p], and the connections they hold. *)
Inductive linked (hs : gmap hptr connHolder) : option hptr → list hptr → list cptr → Prop :=
  | linked_nil : linked hs None [] []
  | linked_cons h c n cells q :
      hs !! h = Some (mkHolder c n) → linked hs n cells q → linked hs (Some h) (h :: cells) (c :: q).

(** [cp] is a list without sharing that holds the connections [q] in order,
    counted by [size]. *)
Record represents (cp : ConnectionPool) (q : list cptr) : Prop := {
  rep_list : ∃ cells, linked (cp_holders cp) (cp_pool cp) cells q ∧ NoDup cells ∧ cp_tail cp = last cells;
  rep_size : cp_size cp = length q;
  rep_max : cp_size cp ≤ cp_maxConn cp < 2 ^ 64;
}.

Lemma linked_dom hs p cells q h : linked hs p cells q → h ∈ cells → is_Some (hs !! h).
Proof. induction 1; [by intros ?%elem_of_nil|]. intros [->|?]%elem_of_cons; eauto. Qed.

Lemma linked_head hs p cells q : linked hs p cells q → p = head cells ∧ length cells = length q.
Proof. induction 1 as [|h c n cells q Hh Hl [IH1 IH2]]; cbn; auto. Qed.

(** An object outside of the list does not matter. *)
Lemma linked_insert hs p cells q h x : linked hs p cells q → h ∉ cells → linked (<[h := x]> hs) p cells q.
Proof.
  induction 1 as [|h' c n cells q Hh Hl IH]; intros Hn; [constructor|].
  econstructor; [|apply IH; set_solver]. rewrite lookup_insert_ne by set_solver. exact Hh.
Qed.

(** Writing the new holder into the [next] field of the last one appends it. *)
Lemma linked_append hs p cells q t last_conn next h conn :
  linked hs p cells q → NoDup cells → last cells = Some t → hs !! t = Some (mkHolder last_conn next) →
  h ∉ cells → hs !! h = Some (mkHolder conn None) →
  linked (<[t := mkHolder last_conn (Some h)]> hs) p (cells ++ [h]) (q ++ [conn]).
Proof.
  induction 1 as [|h' c n cells q Hh Hl IH]; intros Hnd Hlast Ht Hfresh Hnew; [done|].
  apply NoDup_cons in Hnd as [Hh' Hnd]. cbn [app]. destruct cells as [|h2 cells].
  - cbn in Hlast. simplify_eq. inversion Hl; subst. econstructor; [by rewrite lookup_insert_eq|].
    econstructor; [|constructor]. rewrite lookup_insert_ne by set_solver. done.
  - rewrite last_cons_cons in Hlast. assert (t ∈ h2 :: cells) as Htc by (by apply last_Some_elem_of).
    econstructor; [|apply IH; try done; set_solver].
    rewrite lookup_insert_ne by (intros ->; done). done.
Qed.

Lemma represents_new a max t : 0 ≤ max < 2 ^ 64 → represents (ConnectionPool.NewConnectionPool a max t) [].
Proof.
  intros Hmax. split; cbn; [|done|case_decide; lia].
  exists []. split_and!; [constructor|constructor|done].
Qed.

Lemma represents_set_conn cp q c f : represents cp q → represents (ConnectionPool.set_conn c f cp) q.
Proof. intros [Hl Hs Hm]. by split. Qed.

Lemma represents_append cp q conn :
  represents cp q → cp_size cp < cp_maxConn cp →
  ∃ cp', ConnectionPool.append conn cp = (Ok tt, cp') ∧ represents cp' (q ++ [conn]) ∧
    cp_conns cp' = cp_conns cp ∧ cp_maxConn cp' = cp_maxConn cp.
Proof.
  intros [(cells & Hl & Hnd & Htail) Hs Hm] Hlt. unfold ConnectionPool.append.
  destruct (linked_head _ _ _ _ Hl) as [Hhead Hlen].
  set (h := fresh (dom (cp_holders cp))).
  assert (cp_holders cp !! h = None) as Hh by apply not_elem_of_dom, is_fresh.
  assert (h ∉ cells) as Hhc.
  { intros Hin. destruct (linked_dom _ _ _ _ _ Hl Hin) as [x Hx]. congruence. }
  assert (u64 (cp_size cp + 1) = length (q ++ [conn])) as Hsize.
  { unfold u64. rewrite Z.mod_small by lia. rewrite length_app. cbn. lia. }
  pose proof (linked_insert _ _ _ _ h (mkHolder conn None) Hl Hhc) as Hl'.
  destruct (cp_pool cp) as [p|] eqn:Hp.
  - destruct cells as [|h0 cells]; [done|].
    destruct (last (h0 :: cells)) as [t|] eqn:Hlast; [|by apply last_None in Hlast].
    destruct (linked_dom _ _ _ _ t Hl') as [[lc ln] Ht]; [by apply last_Some_elem_of|].
    rewrite Htail, Ht. eexists. split; [done|]. split; [|done]. split; cbn [cp_size cp_maxConn]; [|done|].
    + exists ((h0 :: cells) ++ [h]). cbn [cp_holders cp_pool cp_tail h_conn]. split_and!.
      * eapply linked_append; try done. by rewrite lookup_insert_eq.
      * apply NoDup_app. split_and!; [done| |apply NoDup_singleton].
        intros x Hx ->%list_elem_of_singleton. done.
      * by rewrite last_snoc.
    + rewrite Hsize, length_app. cbn. lia.
  - destruct cells; [|done]. destruct q; [|done]. eexists. split; [done|]. split; [|done].
    split; cbn [cp_size cp_maxConn]; [|done|rewrite Hsize; cbn in *; lia].
    exists [h]. cbn. split_and!; [|apply NoDup_singleton|done].
    econstructor; [by rewrite lookup_insert_eq|constructor].
Qed.

Lemma represents_Get_locked cp c q :
  represents cp (c :: q) →
  ∃ cp', ConnectionPool.Get_locked cp = (Ok c, cp') ∧ represents cp' q ∧
    cp_conns cp' = cp_conns cp ∧ cp_maxConn cp' = cp_maxConn cp.
Proof.
  intros [(cells & Hl & Hnd & Htail) Hs Hm]. unfold ConnectionPool.Get_locked.
  inversion Hl as [|h c' n cells' q' Hh Hl' E1 E2 E3]; subst. rewrite Hh. cbn [h_conn h_next].
  eexists. split; [done|]. split; [|done]. apply NoDup_cons in Hnd as [_ Hnd].
  assert (u64 (cp_size cp - 1) = length q) as Hsize.
  { unfold u64. cbn in Hs. rewrite Z.mod_small by lia. lia. }
  split; cbn [cp_size cp_maxConn]; [|done|cbn in *; lia].
  exists cells'. cbn [cp_holders cp_pool cp_tail]. split_and!; [done|done|].
  destruct (linked_head _ _ _ _ Hl') as [-> _]. destruct cells' as [|h2 cells']; [done|].
  rewrite decide_False by done. by rewrite Htail, last_cons_cons.
Qed.

Lemma represents_nil_pool cp q : represents cp q → cp_pool cp = None ↔ q = [].
Proof.
  intros [(cells & Hl & _ & _) _ _]. destruct (linked_head _ _ _ _ Hl) as [-> Hlen].
  destruct cells, q; cbn in *; naive_solver.
Qed.

Lemma Put_closed cp conn c :
  cp_conns cp !! conn = Some c → isClosed c = true → ConnectionPool.Put conn cp = (Ok tt, cp).
Proof. intros Hc Hcl. unfold ConnectionPool.Put, gets, mbind, ST_bind. rewrite Hc. cbn. by rewrite Hcl. Qed.

(** ** Properties *)

(** C32. The pool is a bounded queue.  [Put] appends an open connection while
    there are fewer than [maxConn], closes it otherwise, and ignores a closed
    one, such as one of which a [Read] or a [Write] has failed; [Get] takes the
    oldest one and connects only if there is none.  None of them panics, and the
    counter [size] neither overflows nor underflows. *)
Theorem pool_refines_queue (cp : ConnectionPool) (q : list cptr) :
  represents cp q →
  (∀ conn c, cp_conns cp !! conn = Some c →
     ∃ cp', ConnectionPool.Put conn cp = (Ok tt, cp') ∧
       if isClosed c then cp' = cp
       else if decide (length q < cp_maxConn cp)
            then represents cp' (q ++ [conn]) ∧ cp_conns cp' = cp_conns cp
            else represents cp' q ∧ cp_conns cp' = <[conn := Connection.Close c]> (cp_conns cp)) ∧
  (∀ dial, match q with
           | [] => ConnectionPool.Get dial cp = ConnectionPool.Connect dial 1 cp
           | c :: q => ∃ cp', ConnectionPool.Get dial cp = (Ok c, cp') ∧ represents cp' q ∧
                         cp_conns cp' = cp_conns cp
           end) ∧
  (∀ conn n e f, is_Some (cp_conns cp !! conn) →
     f = Connection.Read (n, Some e) ∨ f = Connection.Write (n, Some e) →
     let broken := ConnectionPool.set_conn conn (λ c, (f c).2) cp in
     represents broken q ∧ ConnectionPool.Put conn broken = (Ok tt, broken)).
Proof.
  intros Hq. split_and!.
  - intros conn c Hc. unfold ConnectionPool.Put, gets, get, mbind, ST_bind. rewrite Hc. cbn.
    destruct (isClosed c); [by eexists|]. rewrite <-(rep_size cp q Hq).
    destruct (decide (cp_size cp < cp_maxConn cp)) as [Hlt|Hge].
    + destruct (represents_append cp q conn Hq Hlt) as (cp' & Hrun & Hq' & Hcs & _). eauto.
    + eexists. split; [done|]. split; [by apply represents_set_conn|]. cbn.
      apply map_eq. intros k. destruct (decide (k = conn)) as [->|];
        [by rewrite lookup_alter_eq, lookup_insert_eq, Hc|by rewrite lookup_alter_ne, lookup_insert_ne].
  - intros dial. unfold ConnectionPool.Get, ConnectionPool.Get_nonempty, gets, mbind, ST_bind. cbn.
    pose proof (represents_nil_pool cp q Hq) as Hnil. destruct q as [|c q].
    + rewrite bool_decide_eq_false_2; [done|]. intros H. by apply H, Hnil.
    + rewrite bool_decide_eq_true_2 by (intros H%Hnil; done).
      destruct (represents_Get_locked cp c q Hq) as (cp' & -> & Hq' & Hcs & _). eauto.
  - intros conn n e f [c Hc] Hf broken. split; [by apply represents_set_conn|].
    apply (Put_closed _ _ (f c).2); [cbn; by rewrite lookup_alter_eq, Hc|by destruct Hf as [-> | ->]].
Qed.

(** A pool for two connections, with one in it. *)
Definition example_pool : ConnectionPool :=
  ((c ← ConnectionPool.Connect true 1; ConnectionPool.Put c)
    (ConnectionPool.NewConnectionPool "127.0.0.1:9999" 2 0)).2.

Lemma represents_example : represents example_pool [1%positive].
Proof.
  split; [|reflexivity|vm_compute; split; [discriminate|reflexivity]].
  exists [1%positive]. split_and!; [|apply NoDup_singleton|reflexivity].
  apply (linked_cons _ _ _ None); [reflexivity|constructor].
Qed.

Lemma pool_refines_queue_witness :
  ∃ cp', ConnectionPool.Put 1 example_pool = (Ok tt, cp') ∧
    represents cp' [1%positive; 1%positive] ∧ cp_conns cp' = cp_conns example_pool.
Proof.
  apply (proj1 (pool_refines_queue example_pool [1%positive] represents_example) 1%positive (mkConnection 1 false false)).
  reflexivity.
Defined.

(** [Get] looks at the pool before it takes the lock.  Two of them that both
    look while there is one connection left are both sent to the list: one gets
    the connection and the other dereferences nil, where one after the other
    would have given the second a new connection. *)
Theorem pool_get_race (cp : ConnectionPool) (c : cptr) :
  represents cp [c] →
  let both_look := b1 ← ConnectionPool.Get_nonempty; b2 ← ConnectionPool.Get_nonempty; mret (b1, b2) in
  both_look cp = (Ok (true, true), cp) ∧
  ∃ cp', ConnectionPool.Get_locked cp = (Ok c, cp') ∧ ConnectionPool.Get_locked cp' = (Panic, cp') ∧
    is_ok (ConnectionPool.Get true cp').1 = true.
Proof.
  intros Hq. pose proof (represents_nil_pool cp [c] Hq) as Hnil. split.
  { unfold ConnectionPool.Get_nonempty, gets, mbind, ST_bind. cbn.
    by rewrite bool_decide_eq_true_2 by (intros H%Hnil; done). }
  destruct (represents_Get_locked cp c [] Hq) as (cp' & Hrun & Hq' & _). exists cp'.
  apply represents_nil_pool in Hq' as [_ Hp]. specialize (Hp eq_refl).
  unfold ConnectionPool.Get, ConnectionPool.Get_nonempty, gets, mbind, ST_bind. cbn.
  split; [done|]. unfold ConnectionPool.Get_locked. rewrite Hp. by cbn.
Qed.

Lemma pool_get_race_witness :
  ∃ cp', ConnectionPool.Get_locked example_pool = (Ok 1%positive, cp') ∧
    ConnectionPool.Get_locked cp' = (Panic, cp') ∧ is_ok (ConnectionPool.Get true cp').1 = true.
Proof. exact (proj2 (pool_get_race example_pool 1%positive represents_example)). Defined.
