(* ===== verification/Cluster.v ===== *)
(** * Nodes and the cluster

    [src/cluster/node.go], [cluster.go] (all but the queries, which are in
    [Reads]) and [server.go]: local and remote nodes, the handshake, discovery
    of peers, streaming of keys, and the server side of a connection.

    Nodes are objects of a heap, because the topology holds pointers to them
    and the handshake writes to nodes that are in it already.  What the network
    does is an input: [c_dials] says of every connection attempt whether it
    succeeds, [c_replies] what comes back for every message that is sent ([None]
    for an error while writing or reading).  A goroutine that is started is
    recorded in [c_spawned]. *)

From S2P Require Import Prelude Bytes Types GoTime Serializer Partitioner Topology Instruction.
From S2P Require Import KVStore Containers Instance Messages ClusterMessages Pool.

Inductive ClusterStatus := CLUSTER_INITIALIZING | CLUSTER_NORMAL | CLUSTER_STREAMING.

#[export] Instance ClusterStatus_eq_dec : EqDecision ClusterStatus.
Proof. solve_decision. Defined.

(** ** Nodes *)

Record baseNode := mkBaseNode {
  n_name : string;
  n_addr : string;
  n_token : Token;
  n_id : NodeId;
  n_dcId : DatacenterID;
  n_status : NodeStatus;
}.

(** [MockNode] is what the cluster sees of the mock nodes that its tests put into
    rings; their queries are in [Fixtures]. *)
Inductive Node :=
  | LocalNode (b : baseNode) (isStarted : bool)
  | RemoteNode (b : baseNode) (pool : ConnectionPool) (isStarted : bool)
  | MockNode (b : baseNode) (isStarted : bool).

Definition base (n : Node) : baseNode :=
  match n with LocalNode b _ | RemoteNode b _ _ | MockNode b _ => b end.

Definition IsStarted (n : Node) : bool :=
  match n with LocalNode _ s | RemoteNode _ _ s | MockNode _ s => s end.

Abbreviation nptr := positive.
Abbreviation node_heap := (gmap nptr Node).

(** The methods the topology calls, on the objects as they are in [h]. *)
Definition baseNode_zero : baseNode := mkBaseNode "" "" [] B16_zero "" NODE_INITIALIZING.
Definition base_at (h : node_heap) (p : nptr) : baseNode := default baseNode_zero (base <$> h !! p).
Definition heap_node (h : node_heap) : TopologyNode nptr := {|
  GetId := λ p, n_id (base_at h p);
  GetToken := λ p, n_token (base_at h p);
  GetDatacenterId := λ p, n_dcId (base_at h p);
|}.

Definition NewLocalNode (id : NodeId) (dcId : DatacenterID) (token : Token) (name : string) : Node :=
  LocalNode (mkBaseNode name "" token id dcId NODE_UP) false.

Definition NewRemoteNode (addr : string) : Node :=
  RemoteNode (mkBaseNode "" addr [] B16_zero "" NODE_INITIALIZING)
    (ConnectionPool.NewConnectionPool addr 10 10000) false.

Definition NewRemoteNodeInfo (id : NodeId) (dcId : DatacenterID) (token : Token) (name addr : string) :
    Node :=
  match NewRemoteNode addr with
  | RemoteNode b pool s => RemoteNode (mkBaseNode name (n_addr b) token id dcId (n_status b)) pool s
  | n => n
  end.

(** ** The store, as far as the cluster uses it *)

Class ClusterStore := {
  cs_state : Type;
  cs_value : Type;
  cs_GetKeys : cs_state → list string;
  cs_GetRawKey : string → cs_state → res string cs_value;
  cs_SerializeValue : cs_value → res io_error (list byte);
}.

(** [KVStore] implements it. *)
Definition KVStore_ClusterStore {Mo : MapOrder} : ClusterStore := {|
  cs_state := KVStore.KVStore;
  cs_value := Value;
  cs_GetKeys := KVStore.GetKeys;
  cs_GetRawKey := λ key s, (KVStore.GetRawKey key s).1;
  cs_SerializeValue := KVStore.SerializeValue;
|}.

(** ** The cluster *)

Section cluster.
Context {Mo : MapOrder} {CS : ClusterStore}.

Record Cluster := mkCluster {
  c_store : cs_state;
  c_seeds : list string;
  c_replicationFactor : Z;
  c_localNode : nptr;
  c_topology : Topology nptr;
  c_name : string;
  c_token : Token;
  c_nodeId : NodeId;
  c_dcId : DatacenterID;
  c_peerAddr : string;
  c_partitioner : Partitioner;
  c_status : ClusterStatus;
  c_heap : node_heap;
  c_dials : list bool;
  c_replies : list (option CMessage);
  c_sent : list (nptr * CMessage);
  c_spawned : list nptr;
}.

Abbreviation C := (ST Cluster string).

Definition with_topology (t : Topology nptr) (c : Cluster) : Cluster :=
  mkCluster (c_store c) (c_seeds c) (c_replicationFactor c) (c_localNode c) t (c_name c) (c_token c)
    (c_nodeId c) (c_dcId c) (c_peerAddr c) (c_partitioner c) (c_status c) (c_heap c) (c_dials c)
    (c_replies c) (c_sent c) (c_spawned c).
Definition with_status (s : ClusterStatus) (c : Cluster) : Cluster :=
  mkCluster (c_store c) (c_seeds c) (c_replicationFactor c) (c_localNode c) (c_topology c) (c_name c)
    (c_token c) (c_nodeId c) (c_dcId c) (c_peerAddr c) (c_partitioner c) s (c_heap c) (c_dials c)
    (c_replies c) (c_sent c) (c_spawned c).
Definition with_heap (h : node_heap) (c : Cluster) : Cluster :=
  mkCluster (c_store c) (c_seeds c) (c_replicationFactor c) (c_localNode c) (c_topology c) (c_name c)
    (c_token c) (c_nodeId c) (c_dcId c) (c_peerAddr c) (c_partitioner c) (c_status c) h (c_dials c)
    (c_replies c) (c_sent c) (c_spawned c).
Definition with_net (d : list bool) (r : list (option CMessage)) (s : list (nptr * CMessage))
    (c : Cluster) : Cluster :=
  mkCluster (c_store c) (c_seeds c) (c_replicationFactor c) (c_localNode c) (c_topology c) (c_name c)
    (c_token c) (c_nodeId c) (c_dcId c) (c_peerAddr c) (c_partitioner c) (c_status c) (c_heap c) d r s
    (c_spawned c).
Definition with_spawned (l : list nptr) (c : Cluster) : Cluster :=
  mkCluster (c_store c) (c_seeds c) (c_replicationFactor c) (c_localNode c) (c_topology c) (c_name c)
    (c_token c) (c_nodeId c) (c_dcId c) (c_peerAddr c) (c_partitioner c) (c_status c) (c_heap c)
    (c_dials c) (c_replies c) (c_sent c) l.

(** *** Memory and network *)

Definition load (p : nptr) : C Node := n ← gets (λ c, c_heap c !! p); deref n.
Definition store (p : nptr) (n : Node) : C unit := modify (λ c, with_heap (<[p := n]> (c_heap c)) c).
Definition alloc (n : Node) : C nptr := λ c,
  let p := fresh (dom (c_heap c)) in (Ok p, with_heap (<[p := n]> (c_heap c)) c).

Definition with_base (f : baseNode → baseNode) (n : Node) : Node :=
  match n with
  | LocalNode b s => LocalNode (f b) s
  | RemoteNode b pool s => RemoteNode (f b) pool s
  | MockNode b s => MockNode (f b) s
  end.

(** [n.status = s] *)
Definition set_status (p : nptr) (s : NodeStatus) : C unit :=
  n ← load p;
  store p (with_base (λ b, mkBaseNode (n_name b) (n_addr b) (n_token b) (n_id b) (n_dcId b) s) n).

Definition set_started (p : nptr) (s : bool) : C unit :=
  n ← load p;
  store p (match n with
    | LocalNode b _ => LocalNode b s
    | RemoteNode b pool _ => RemoteNode b pool s
    | MockNode b _ => MockNode b s
    end).

(** A call on the pool of a remote node. *)
Definition pool_op {A} (p : nptr) (op : P A) : C A :=
  n ← load p;
  match n with
  | LocalNode _ _ | MockNode _ _ => panic
  | RemoteNode b pool s =>
      let '(r, pool) := op pool in
      _ ← store p (RemoteNode b pool s);
      match r with Ok a => mret a | Fail e => fail e | Panic => panic end
  end.

(** The outcome of the next connection attempt. *)
Definition dial : C bool := λ c,
  (Ok (default false (head (c_dials c))), with_net (tail (c_dials c)) (c_replies c) (c_sent c) c).

(** [WriteMessage], then [ReadMessage] on the connection to node [p]. *)
Definition exchange (p : nptr) (m : CMessage) : C (option CMessage) := λ c,
  (Ok (mjoin (head (c_replies c))),
   with_net (c_dials c) (tail (c_replies c)) (c_sent c ++ [(p, m)]) c).

(** A call on the topology, whose nodes are the objects of the heap. *)
Definition topo {A} (op : TopologyNode nptr → ST (Topology nptr) string A) : C A := λ c,
  let '(r, t) := op (heap_node (c_heap c)) (c_topology c) in (r, with_topology t c).

(** *** [node.go] *)

(** The handshake of a new connection; the peer's data is taken over only while
    the node is initializing. *)
Definition handshake (p : nptr) (conn : cptr) : C unit :=
  c ← get;
  response ← exchange p (CConnectionRequest
    (mkPeerData (c_nodeId c) (c_dcId c) (c_peerAddr c) (c_name c) (c_token c)));
  match response with
  | None => _ ← set_status p NODE_DOWN; fail "io"
  | Some (CConnectionAcceptedResponse accept) =>
      n ← load p;
      _ ← (if decide (n_status (base n) = NODE_INITIALIZING) then
             store p (with_base (λ b, mkBaseNode (ca_Name accept) (n_addr b) (ca_Token accept)
                                        (ca_NodeId accept) (ca_DCId accept) (n_status b)) n)
           else mret tt);
      pool_op p (modify (ConnectionPool.set_conn conn Connection.SetHandshakeCompleted))
  | Some _ => _ ← set_status p NODE_DOWN; fail "Unexpected response type"
  end.

Definition getConnection (p : nptr) : C cptr :=
  nonempty ← pool_op p ConnectionPool.Get_nonempty;
  d ← (if (nonempty : bool) then mret false else dial);
  conn ← pool_op p (ConnectionPool.Get d);
  c ← pool_op p (gets (λ cp, cp_conns cp !! conn));
  c ← deref c;
  _ ← (if negb (Connection.HandshakeCompleted c) then handshake p conn else mret tt);
  mret conn.

(** [RemoteNode.SendMessage]; [LocalNode.SendMessage] and that of mock nodes
    panic. *)
Definition SendMessage (p : nptr) (m : CMessage) : C CMessage :=
  n ← load p;
  match n with
  | LocalNode _ _ | MockNode _ _ => panic
  | RemoteNode _ _ _ =>
      conn ← try (getConnection p);
      match conn with
      | inr e => _ ← set_status p NODE_DOWN; fail e
      | inl conn =>
          response ← exchange p m;
          match response with
          | None =>
              _ ← pool_op p (modify (ConnectionPool.set_conn conn Connection.Close));
              _ ← set_status p NODE_DOWN;
              fail "io"
          | Some response =>
              _ ← set_status p NODE_UP;
              _ ← pool_op p (ConnectionPool.Put conn);
              mret response
          end
      end
  end.

(** [LocalNode.Start], [RemoteNode.Start] and [mockNode.Start] *)
Definition Node_Start (p : nptr) : C unit :=
  n ← load p;
  match n with
  | LocalNode _ _ | MockNode _ _ => set_started p true
  | RemoteNode _ _ _ =>
      conn ← getConnection p;
      _ ← pool_op p (ConnectionPool.Put conn);
      _ ← set_status p NODE_UP;
      set_started p true
  end.

Definition Node_Stop (p : nptr) : C unit := set_started p false.

(** *** [cluster.go]: membership *)

Definition addNode (p : nptr) : C unit :=
  _ ← topo (λ TN, AddNode p);
  c ← get;
  if decide (c_status c ≠ CLUSTER_INITIALIZING) then Node_Start p else mret tt.

Definition AllNodesC (c : Cluster) : list nptr := AllNodes (c_topology c).

Definition getPeerData (c : Cluster) : list PeerData :=
  map (λ p, let b := base_at (c_heap c) p in
            mkPeerData (n_id b) (n_dcId b) (n_addr b) (n_name b) (n_token b)) (AllNodesC c).

Definition is_remote (c : Cluster) (p : nptr) : bool :=
  match c_heap c !! p with Some (RemoteNode _ _ _) => true | _ => false end.

Definition addrIsKnown (addr : string) (c : Cluster) : option nptr :=
  head (filter (λ p, is_remote c p = true ∧ n_addr (base_at (c_heap c) p) = addr) (AllNodesC c)).

Definition getRemoteNodes (c : Cluster) : list nptr :=
  filter (λ p, is_remote c p = true) (AllNodesC c).

Definition add_seed (addr : string) : C unit :=
  known ← gets (addrIsKnown addr);
  match known with
  | Some _ => mret tt
  | None =>
      n ← alloc (NewRemoteNode addr);
      x ← try (Node_Start n);
      match x with
      | inr _ => mret tt
      | inl _ => _ ← try (addNode n); mret tt
      end
  end.

Definition add_peer (peer : PeerData) : C unit :=
  n ← alloc (NewRemoteNodeInfo (pd_NodeId peer) (pd_DCId peer) (pd_Token peer) (pd_Name peer)
               (pd_Addr peer));
  addNode n.

Definition ask_peer (n : nptr) : C unit :=
  c ← get;
  if decide (n_id (base_at (c_heap c) n) = c_nodeId c) then mret tt
  else
    response ← SendMessage n (CDiscoverPeersRequest (c_nodeId c));
    match response with
    | CDiscoverPeerResponse peers => for_each add_peer peers
    | _ => fail "Unexpected message type"
    end.

Definition discoverPeers : C unit :=
  seeds ← gets c_seeds;
  _ ← for_each add_seed seeds;
  peers ← gets getRemoteNodes;
  for_each ask_peer peers.

(** *** [cluster.go]: key routing *)

Definition GetLocalNodesForKey (k : string) (c : Cluster) : option (list nptr) :=
  let token := c_partitioner c k in
  @GetLocalNodesForToken _ (heap_node (c_heap c)) token (c_topology c).

Definition GetNodesForKey (k : string) (c : Cluster) : option (gmap DatacenterID (list nptr)) :=
  let token := Topology_GetToken k (c_topology c) in
  @GetNodesForToken _ (heap_node (c_heap c)) Mo token (c_topology c).

(** *** [cluster.go]: streaming *)

(** The type assertion [cn.(\*RemoteNode)] *)
Definition assert_remote (p : nptr) : C unit :=
  n ← load p;
  match n with RemoteNode _ _ _ => mret tt | LocalNode _ _ | MockNode _ _ => panic end.

Definition streamFromNode (p : nptr) : C unit :=
  _ ← assert_remote p;
  response ← SendMessage p CStreamRequest;
  match response with
  | CStreamResponse => modify (with_status CLUSTER_STREAMING)
  | _ => fail "Expected STREAM_RESPONSE"
  end.

Definition replicates (p : nptr) (key : string) : C bool :=
  c ← get;
  nodes ← deref (GetLocalNodesForKey key c);
  mret (existsb (λ rnode, bool_decide (n_id (base_at (c_heap c) rnode) = n_id (base_at (c_heap c) p))) nodes).

Definition lift_res {E A} (msg : string) (r : res E A) : C A :=
  match r with Ok a => mret a | Fail _ => fail msg | Panic => panic end.

Definition stream_key (p : nptr) (key : string) : C unit :=
  b ← replicates p key;
  if (b : bool) then
    s ← gets c_store;
    val ← lift_res "key does not exist" (cs_GetRawKey key s);
    valBytes ← lift_res "serialize" (cs_SerializeValue val);
    response ← SendMessage p (CStreamDataRequest [mkStreamData key valBytes]);
    if decide (CGetType response ≠ 406) then fail "Expected StreamDataResponse" else mret tt
  else mret tt.

Definition streamToNode (p : nptr) : C unit :=
  _ ← assert_remote p;
  keys ← gets (cs_GetKeys ∘ c_store);
  _ ← for_each (stream_key p) keys;
  response ← SendMessage p CStreamCompleteRequest;
  if decide (CGetType response ≠ 404) then fail "Expected StreamCompleteRequest" else mret tt.

(** *** [cluster.go]: joining, starting, stopping *)

(** The first index at which the local node is, 0 if there is none. *)
Fixpoint index_of (h : node_heap) (nid : NodeId) (i : nat) (nodes : list nptr) : nat :=
  match nodes with
  | [] => 0%nat
  | n :: nodes => if decide (n_id (base_at h n) = nid) then i else index_of h nid (S i) nodes
  end.

(** Go's [%] has the sign of the dividend, and a negative index panics. *)
Definition index {A} (l : list A) (i : Z) : option A :=
  if decide (0 ≤ i) then l !! Z.to_nat i else None.

Definition JoinCluster : C unit :=
  c ← get;
  nodes ← deref (AllLocalNodes (c_topology c));
  let idx := index_of (c_heap c) (c_nodeId c) 0 nodes in
  n ← deref (nodes !! idx);
  if decide (n_id (base_at (c_heap c) n) ≠ c_nodeId c) then panic
  else
    stream_from ← deref (index nodes (Z.rem (Z.of_nat idx - 1) (length nodes)));
    _ ← try (streamFromNode stream_from);
    mret tt.

Definition start_node (n : nptr) : C unit :=
  x ← load n;
  if negb (IsStarted x) then Node_Start n else mret tt.

(** [listen]: whether the peer server can listen on its address. *)
Definition Start (listen : bool) : C unit :=
  c ← get;
  nodes ← deref (AllLocalNodes (c_topology c));
  let firstStartup := bool_decide (length nodes = 0%nat) in
  if negb listen then fail "listen"
  else
    c ← get;
    nodes ← deref (AllLocalNodes (c_topology c));
    _ ← for_each start_node nodes;
    _ ← discoverPeers;
    if firstStartup then JoinCluster else modify (with_status CLUSTER_NORMAL).

(** Stopping the server has no effect on this state. *)
Definition Stop : C unit :=
  c ← get;
  nodes ← deref (AllLocalNodes (c_topology c));
  for_each (λ n, _ ← try (Node_Stop n); mret tt) nodes.

Definition MoveNode (token : Token) : C unit := panic.
Definition RemoveNode : C unit := panic.

(** *** [server.go] *)

Definition executeRequest (node : nptr) (request : CMessage) : C CMessage :=
  match request with
  | CDiscoverPeersRequest _ => c ← get; mret (CDiscoverPeerResponse (getPeerData c))
  | CStreamRequest =>
      _ ← modify (λ c, with_spawned (c_spawned c ++ [node]) c);
      mret CStreamResponse
  | CReadRequest _ | CWriteRequest _ | CStreamDataRequest _ | CStreamCompleteRequest => panic
  | _ => fail "unexpected message type"
  end.

(** The server's end of a connection: what the peer sends ([None]: an error
    while reading, after which nothing more comes), how many messages can still be
    written, what has been written, and whether it has been closed. *)
Record conn_io := mkConn {
  k_in : list (option CMessage);
  k_room : nat;
  k_out : list CMessage;
  k_closed : bool;
}.

Definition reply (m : CMessage) (k : conn_io) : bool * conn_io :=
  match k_room k with
  | O => (false, k)
  | S r => (true, mkConn (k_in k) r (k_out k ++ [m]) (k_closed k))
  end.

Definition close (k : conn_io) : conn_io := mkConn (k_in k) (k_room k) (k_out k) true.

(** [for { ... }]: one round per message of the peer. *)
Fixpoint serve (node : nptr) (requests : list (option CMessage)) (k : conn_io) : C (string * conn_io) :=
  match requests with
  | [] | None :: _ => mret ("read", close k)
  | Some request :: requests =>
      x ← try (executeRequest node request);
      match x with
      | inr e => mret (e, close k)
      | inl response =>
          let '(ok, k) := reply response k in
          if (ok : bool) then serve node requests k else mret ("write", k)
      end
  end.

Definition acceptance (c : Cluster) : ConnectionAcceptedResponse :=
  mkConnectionAcceptedResponse (c_nodeId c) "" (c_name c) (c_token c).

Definition handleConnection (k : conn_io) : C (string * conn_io) :=
  match k_in k with
  | [] | None :: _ =>
      let '(_, k) := reply (CConnectionRefusedResponse "Error reading message") k in
      mret ("Error reading opening message", close k)
  | Some (CConnectionRequest req) :: requests =>
      c ← get;
      let '(ok, k) := reply (CConnectionAcceptedResponse (acceptance c)) k in
      if negb ok then mret ("write", k)
      else
        node ← alloc (NewRemoteNodeInfo (pd_NodeId req) (pd_DCId req) (pd_Token req) (pd_Name req)
                        (pd_Addr req));
        _ ← try (addNode node);
        serve node requests k
  | Some _ :: _ =>
      let '(_, k) := reply (CConnectionRefusedResponse "ConnectionRequest expected") k in
      mret ("ConnectionRequest expected", close k)
  end.

End cluster.
Arguments Cluster : clear implicits.
Arguments Cluster _ : assert.

(** [NewCluster].  The partitioner may be nil; what the network will do is
    given. *)
Definition NewCluster {Mo : MapOrder} {CS : ClusterStore} (store : cs_state) (addr name : string)
    (token : Token) (nodeId : NodeId) (dcId : DatacenterID) (replicationFactor : Z)
    (partitioner : option Partitioner) (seeds : option (list string))
    (dials : list bool) (replies : list (option CMessage)) : string + Cluster CS :=
  let localNode := NewLocalNode nodeId dcId token name in
  if decide (replicationFactor < 1) then inl "Invalid replication factor"
  else
    match partitioner with
    | None => inl "partitioner cannot be nil"
    | Some partitioner =>
        let seeds := match seeds with None => [] | Some seeds => seeds end in
        let heap := {[ 1%positive := localNode ]} in
        let t := NewTopology nodeId dcId partitioner replicationFactor in
        let t := (@AddNode _ (heap_node heap) Mo 1%positive t).2 in
        inr (mkCluster store seeds replicationFactor 1%positive t name token nodeId dcId addr partitioner
               CLUSTER_INITIALIZING heap dials replies [] [])
    end.

(** ** Reasoning about nodes *)

Section nodes.
Context {Mo : MapOrder} {CS : ClusterStore}.
Abbreviation C := (ST (Cluster CS) string).

(** The cluster after [p] has been written to and the network used. *)
Definition updated (p : nptr) (n : Node) (d : list bool) (r : list (option CMessage))
    (s : list (nptr * CMessage)) (c : Cluster CS) : Cluster CS :=
  with_heap (<[p := n]> (c_heap c)) (with_net d r s c).

Lemma load_run p n (c : Cluster CS) : c_heap c !! p = Some n → load p c = (Ok n, c).
Proof. intros H. unfold load. by rewrite bind_gets, H. Qed.

Lemma load_bind {A} p n (f : Node → C A) (c : Cluster CS) :
  c_heap c !! p = Some n → (load p ≫= f) c = f n c.
Proof. intros H. by apply bind_run, load_run. Qed.

Lemma pool_op_bind {A B} p b pool s (op : P A) (f : A → C B) (c : Cluster CS) a pool' :
  c_heap c !! p = Some (RemoteNode b pool s) → op pool = (Ok a, pool') →
  (pool_op p op ≫= f) c = f a (with_heap (<[p := RemoteNode b pool' s]> (c_heap c)) c).
Proof.
  intros Hp Ho. apply bind_run. unfold pool_op. rewrite (load_bind _ _ _ _ Hp), Ho. done.
Qed.

Lemma with_heap_eq h (c : Cluster CS) : h = c_heap c → with_heap h c = c.
Proof. intros ->. by destruct c. Qed.

Lemma with_heap_heap h h' (c : Cluster CS) : with_heap h (with_heap h' c) = with_heap h c.
Proof. done. Qed.

(** Reading from a pool changes nothing. *)
Lemma pool_op_gets {A B} p b pool s (g : ConnectionPool → A) (f : A → C B) (c : Cluster CS) :
  c_heap c !! p = Some (RemoteNode b pool s) →
  (pool_op p (gets g) ≫= f) c = f (g pool) c.
Proof.
  intros Hp. rewrite (pool_op_bind p b pool s (gets g) f c (g pool) pool Hp eq_refl).
  by rewrite with_heap_eq by (by rewrite insert_id).
Qed.

Lemma set_status_bind {A} p n st (f : unit → C A) (c : Cluster CS) :
  c_heap c !! p = Some n →
  (set_status p st ≫= f) c =
    f tt (with_heap (<[p := with_base (λ b, mkBaseNode (n_name b) (n_addr b) (n_token b) (n_id b)
                                             (n_dcId b) st) n]> (c_heap c)) c).
Proof. intros Hp. apply bind_run. unfold set_status. by rewrite (load_bind _ _ _ _ Hp). Qed.

(** A connection that can be used for requests. *)
Definition usable (pool : ConnectionPool) (x : cptr) : Prop :=
  ∃ k, cp_conns pool !! x = Some k ∧ isClosed k = false ∧ completedHandshake k = true.

(** A remote node with a connection in its pool. *)
Definition ready (n : Node) : Prop :=
  match n with
  | LocalNode _ _ | MockNode _ _ => False
  | RemoteNode _ pool _ => ∃ x q, represents pool (x :: q) ∧ Forall (usable pool) (x :: q)
  end.

(** With a usable connection at hand, [getConnection] takes it. *)
Lemma getConnection_ready p b pool s (c : Cluster CS) x q :
  c_heap c !! p = Some (RemoteNode b pool s) → represents pool (x :: q) → usable pool x →
  ∃ pool', getConnection p c = (Ok x, with_heap (<[p := RemoteNode b pool' s]> (c_heap c)) c) ∧
    represents pool' q ∧ cp_conns pool' = cp_conns pool ∧ cp_maxConn pool' = cp_maxConn pool.
Proof.
  intros Hp Hq (k & Hk & Hopen & Hhs).
  destruct (represents_Get_locked pool x q Hq) as (pool' & Hget & Hq' & Hcs & Hmax).
  assert (cp_pool pool ≠ None) as Hne by (by rewrite (represents_nil_pool _ _ Hq)).
  exists pool'. split_and!; [|done..]. unfold getConnection, ConnectionPool.Get_nonempty.
  rewrite (pool_op_gets p b pool s) by done. rewrite bool_decide_eq_true_2 by done. rewrite bind_ret.
  rewrite (pool_op_bind p b pool s (ConnectionPool.Get false) _ c x pool' Hp).
  2: { unfold ConnectionPool.Get, ConnectionPool.Get_nonempty. rewrite bind_gets.
       by rewrite bool_decide_eq_true_2. }
  set (c1 := with_heap _ c).
  rewrite (pool_op_gets p b pool' s _ _ c1) by (cbn; by rewrite lookup_insert_eq).
  rewrite Hcs, Hk. cbn [deref]. rewrite bind_ret. unfold Connection.HandshakeCompleted. by rewrite Hhs.
Qed.

Definition status_up (b : baseNode) : baseNode :=
  mkBaseNode (n_name b) (n_addr b) (n_token b) (n_id b) (n_dcId b) NODE_UP.

(** A request over a usable connection: the answer is returned, and the
    connection goes to the back of the pool. *)
Lemma SendMessage_ready p n m r rs (c : Cluster CS) :
  c_heap c !! p = Some n → ready n → c_replies c = Some r :: rs →
  ∃ n', SendMessage p m c =
          (Ok r, updated p n' (c_dials c) rs (c_sent c ++ [(p, m)]) c) ∧
    ready n' ∧ base n' = status_up (base n).
Proof.
  intros Hp Hr Hreply. destruct n as [|b pool s|]; [done| |done]. destruct Hr as (x & q & Hq & Hus).
  assert (usable pool x) as Hx by (by apply Forall_cons in Hus as [? _]).
  destruct (getConnection_ready p b pool s c x q Hp Hq Hx) as (pool1 & Hget & Hq1 & Hcs1 & Hmax1).
  destruct Hx as (k & Hk & Hopen & Hhs).
  assert (cp_size pool1 < cp_maxConn pool1) as Hroom.
  { rewrite (rep_size _ _ Hq1), Hmax1. pose proof (rep_max _ _ Hq). pose proof (rep_size _ _ Hq) as Hsz.
    cbn in Hsz. lia. }
  destruct (represents_append pool1 q x Hq1 Hroom) as (pool2 & Happ & Hq2 & Hcs2 & _).
  exists (RemoteNode (status_up b) pool2 s). split_and!; [| |done].
  - unfold SendMessage. rewrite (load_bind _ _ _ _ Hp). rewrite bind_try, Hget.
    unfold exchange. unfold mbind at 1, ST_bind at 1. cbn [c_replies with_heap c_dials c_sent]. rewrite Hreply.
    cbn [head mjoin option_join tail].
    rewrite (set_status_bind p (RemoteNode b pool1 s)) by (cbn; by rewrite lookup_insert_eq).
    erewrite (pool_op_bind p _ pool1 s (ConnectionPool.Put x) _ _ tt pool2);
      [|cbn; rewrite lookup_insert_eq; done|].
    + cbn. unfold updated, with_heap, with_net. cbn. by rewrite !insert_insert_eq.
    + unfold ConnectionPool.Put. rewrite bind_gets, Hcs1, Hk. cbn [deref]. rewrite bind_ret, Hopen.
      unfold mbind, ST_bind, get. by rewrite decide_True.
  - cbn. destruct q as [|y q].
    + exists x, []. split; [done|]. apply Forall_singleton. exists k. by rewrite Hcs2, Hcs1.
    + exists y, (q ++ [x]). split; [done|]. eapply Forall_impl.
      * change (y :: q ++ [x]) with ((y :: q) ++ [x]). rewrite Permutation_app_comm. exact Hus.
      * intros z (k' & Hk' & ?). exists k'. by rewrite Hcs2, Hcs1.
Qed.
End nodes.

(** ** Streaming *)

Section streaming.
Context {Mo : MapOrder} {CS : ClusterStore}.
Abbreviation C := (ST (Cluster CS) string).

(** The heap has changed in the status, pools and connections of nodes only. *)
Definition same_nodes (h h' : node_heap) : Prop :=
  ∀ x, n_id (base_at h' x) = n_id (base_at h x) ∧ n_token (base_at h' x) = n_token (base_at h x).

Lemma same_nodes_insert h p n n' :
  h !! p = Some n → base n' = status_up (base n) → same_nodes h (<[p := n']> h).
Proof.
  intros Hp Hn x. unfold base_at. destruct (decide (x = p)) as [->|Hne].
  - rewrite lookup_insert_eq, Hp. cbn. by rewrite Hn.
  - by rewrite lookup_insert_ne.
Qed.

(** Whether node [p] is among the replicas of a key. *)
Definition is_replica (c : Cluster CS) (p : nptr) (key : string) : bool :=
  match GetLocalNodesForKey key c with
  | Some nodes => existsb (λ x, bool_decide (n_id (base_at (c_heap c) x) = n_id (base_at (c_heap c) p))) nodes
  | None => false
  end.

(** The state that streaming to [p] leaves behind. *)
Definition streamed (p : nptr) (c c' : Cluster CS) : Prop :=
  same_nodes (c_heap c) (c_heap c') ∧ c_topology c' = c_topology c ∧
  c_partitioner c' = c_partitioner c ∧ c_store c' = c_store c ∧ c_dials c' = c_dials c ∧
  ∃ n, c_heap c' !! p = Some n ∧ ready n.

Lemma GetLocalNodesForKey_streamed p key c c' :
  streamed p c c' → GetLocalNodesForKey key c' = GetLocalNodesForKey key c.
Proof.
  intros (Hn & Ht & Hp & _). unfold GetLocalNodesForKey. rewrite Ht, Hp.
  apply GetLocalNodesForToken_ext. intros n. apply Hn.
Qed.

Lemma replicates_streamed p key c c' :
  streamed p c c' → is_Some (GetLocalNodesForKey key c) → replicates p key c' = (Ok (is_replica c p key), c').
Proof.
  intros Hs [nodes Hk]. unfold replicates, is_replica.
  unfold mbind at 1, ST_bind at 1, get. rewrite (GetLocalNodesForKey_streamed p key c c' Hs), Hk.
  cbn [deref]. rewrite bind_ret. unfold mret, ST_ret. destruct Hs as (Hn & _). clear Hk.
  assert (existsb (λ x, bool_decide (n_id (base_at (c_heap c') x) = n_id (base_at (c_heap c') p))) nodes =
    existsb (λ x, bool_decide (n_id (base_at (c_heap c) x) = n_id (base_at (c_heap c) p))) nodes) as ->; [|done].
  induction nodes as [|x nodes IH]; cbn [existsb]; [done|].
  by rewrite IH, (proj1 (Hn x)), (proj1 (Hn p)).
Qed.

Lemma streamed_send p m r rs c c' :
  streamed p c c' → c_replies c' = Some r :: rs →
  ∃ c2, SendMessage p m c' = (Ok r, c2) ∧ streamed p c c2 ∧ c_replies c2 = rs ∧
    c_sent c2 = c_sent c' ++ [(p, m)].
Proof.
  intros (Hn & Ht & Hp & Hst & Hd & n & Hh & Hr) Hrep.
  destruct (SendMessage_ready p n m r rs c' Hh Hr Hrep) as (n' & Hrun & Hr' & Hb).
  eexists. split; [exact Hrun|]. split; [|done]. split_and!; try done.
  - intros x. destruct (Hn x) as [<- <-]. by apply (same_nodes_insert _ _ _ _ Hh Hb).
  - exists n'. cbn. by rewrite lookup_insert_eq.
Qed.

(** One key: sent if the destination replicates it, skipped otherwise. *)
Lemma stream_key_run p key val bs rs c c' :
  streamed p c c' → is_Some (GetLocalNodesForKey key c) →
  cs_GetRawKey key (c_store c) = Ok val → cs_SerializeValue val = Ok bs →
  c_replies c' = (if is_replica c p key then [Some CStreamDataResponse] else []) ++ rs →
  ∃ c2, stream_key p key c' = (Ok tt, c2) ∧ streamed p c c2 ∧ c_replies c2 = rs ∧
    c_sent c2 = c_sent c' ++
      (if is_replica c p key then [(p, CStreamDataRequest [mkStreamData key bs])] else []).
Proof.
  intros Hs Hk Hraw Hser Hrep. unfold stream_key.
  rewrite (bind_run _ _ _ _ _ (replicates_streamed p key c c' Hs Hk)).
  destruct (is_replica c p key); cycle 1.
  { exists c'. by rewrite app_nil_r. }
  destruct (streamed_send p (CStreamDataRequest [mkStreamData key bs]) CStreamDataResponse rs c c' Hs Hrep)
    as (c2 & Hrun & Hs2 & Hr2 & Hsent). exists c2. split; [|done].
  assert (c_store c' = c_store c) as Hst by apply Hs.
  rewrite bind_gets, Hst, Hraw. cbn [lift_res]. rewrite bind_ret, Hser. cbn [lift_res].
  rewrite bind_ret, (bind_run _ _ _ _ _ Hrun). done.
Qed.

(** What is sent for the keys in [keys]. *)
Definition stream_of (p : nptr) (data : list StreamData) : list (nptr * CMessage) :=
  map (λ sd, (p, CStreamDataRequest [sd])) data.

Lemma stream_keys_run p keys rs c c' :
  streamed p c c' →
  Forall (λ key, is_Some (GetLocalNodesForKey key c) ∧
                 ∃ val bs, cs_GetRawKey key (c_store c) = Ok val ∧ cs_SerializeValue val = Ok bs) keys →
  c_replies c' = replicate (length (filter (λ k, is_replica c p k = true) keys)) (Some CStreamDataResponse) ++ rs →
  ∃ c2 data, for_each (stream_key p) keys c' = (Ok tt, c2) ∧ streamed p c c2 ∧ c_replies c2 = rs ∧
    c_sent c2 = c_sent c' ++ stream_of p data ∧
    Forall2 (λ key sd, sd_Key sd = key ∧
      ∃ val, cs_GetRawKey key (c_store c) = Ok val ∧ cs_SerializeValue val = Ok (sd_Data sd))
      (filter (λ k, is_replica c p k = true) keys) data.
Proof.
  intros Hs Hkeys. revert c' Hs. induction Hkeys as [|key keys [Hk (val & bs & Hraw & Hser)] _ IH];
    intros c' Hs Hrep.
  { exists c', []. cbn in *. rewrite app_nil_r. by split_and!. }
  rewrite filter_cons in Hrep |- *.
  destruct (stream_key_run p key val bs
    (replicate (length (filter (λ k, is_replica c p k = true) keys)) (Some CStreamDataResponse) ++ rs) c c' Hs Hk Hraw Hser)
    as (c1 & Hrun & Hs1 & Hr1 & Hsent1).
  { rewrite Hrep. destruct (is_replica c p key); [by rewrite decide_True|by rewrite decide_False]. }
  destruct (IH c1 Hs1 Hr1) as (c2 & data & Hrun2 & Hs2 & Hr2 & Hsent2 & Hdata).
  exists c2, ((if is_replica c p key then [mkStreamData key bs] else []) ++ data).
  cbn [for_each]. rewrite (bind_run _ _ _ _ _ Hrun). split_and!; [done..| |].
  - rewrite Hsent2, Hsent1, <-app_assoc. unfold stream_of. rewrite map_app. by destruct (is_replica c p key).
  - destruct (is_replica c p key); [rewrite decide_True by done|by rewrite decide_False].
    cbn. constructor; [|done]. split; [done|]. eauto.
Qed.

Lemma streamToNode_run p n rs c :
  c_heap c !! p = Some n → ready n →
  let keys := cs_GetKeys (c_store c) in
  Forall (λ key, is_Some (GetLocalNodesForKey key c) ∧
                 ∃ val bs, cs_GetRawKey key (c_store c) = Ok val ∧ cs_SerializeValue val = Ok bs) keys →
  let theirs := filter (λ k, is_replica c p k = true) keys in
  c_replies c = replicate (length theirs) (Some CStreamDataResponse) ++ Some CStreamCompleteResponse :: rs →
  ∃ c' data, streamToNode p c = (Ok tt, c') ∧
    c_sent c' = c_sent c ++ stream_of p data ++ [(p, CStreamCompleteRequest)] ∧
    Forall2 (λ key sd, sd_Key sd = key ∧
      ∃ val, cs_GetRawKey key (c_store c) = Ok val ∧ cs_SerializeValue val = Ok (sd_Data sd)) theirs data.
Proof.
  intros Hp Hr keys Hkeys theirs Hrep.
  assert (streamed p c c) as Hs by (split_and!; try done; by exists n).
  destruct (stream_keys_run p keys _ c c Hs Hkeys Hrep) as (c1 & data & Hrun & Hs1 & Hr1 & Hsent & Hdata).
  destruct (streamed_send p CStreamCompleteRequest _ _ c c1 Hs1 Hr1) as (c2 & Hrun2 & Hs2 & Hr2 & Hsent2).
  exists c2, data. split_and!; [|by rewrite Hsent2, Hsent, <-app_assoc|done].
  unfold streamToNode, assert_remote. destruct n as [|b pool s|]; [done| |done].
  assert ((n ← load p; match n with LocalNode _ _ | MockNode _ _ => panic | RemoteNode _ _ _ => mret tt end) c = (Ok tt, c))
    as Ha by (by rewrite (load_bind _ _ _ _ Hp)).
  rewrite (bind_run _ _ _ _ _ Ha), bind_gets. fold keys.
  rewrite (bind_run _ _ _ _ _ Hrun), (bind_run _ _ _ _ _ Hrun2). done.
Qed.
End streaming.

(** ** Properties *)

(** The topology is consistent with the nodes it points to. *)
Definition cluster_wf {CS : ClusterStore} (c : Cluster CS) : Prop :=
  @topology_wf _ (heap_node (c_heap c)) (c_topology c) ∧
  ∀ p dc r, rings (c_topology c) !! dc = Some r → p ∈ tokenRing r → is_Some (c_heap c !! p).

Lemma Forall2_keys (Q : string → StreamData → Prop) keys data :
  Forall2 (λ key sd, sd_Key sd = key ∧ Q key sd) keys data → sd_Key <$> data = keys.
Proof. induction 1 as [|key sd keys data [<- _] _ IH]; [done|]. cbn. by f_equal. Qed.

(** C31. A node streams to another exactly what that one replicates.  If it has a
    connection to it and every message is acknowledged, [streamToNode] sends one
    [StreamDataRequest] for each key of the store whose replicas include the
    other node, in order and with an encoding from which the receiver decodes
    the stored value, then a [StreamCompleteRequest], and nothing else. *)
Theorem stream_sends_replicated_keys {Mo : MapOrder} (c : Cluster KVStore_ClusterStore) p n rs :
  cluster_wf c → c_heap c !! p = Some n → ready n →
  map_Forall (λ _ v, KVStore.value_ok v) (KVStore.data (c_store c)) →
  let theirs := filter (λ k, is_replica c p k = true) (KVStore.GetKeys (c_store c)) in
  c_replies c = replicate (length theirs) (Some CStreamDataResponse) ++ Some CStreamCompleteResponse :: rs →
  ∃ c' data, streamToNode p c = (Ok tt, c') ∧
    c_sent c' = c_sent c ++ map (λ sd, (p, CStreamDataRequest [sd])) data ++ [(p, CStreamCompleteRequest)] ∧
    sd_Key <$> data = theirs ∧
    Forall (λ sd, ∃ v, KVStore.data (c_store c) !! sd_Key sd = Some v ∧
              KVStore.DeserializeValue (sd_Data sd) = Ok (v, KVStore.GetValueType v)) data.
Proof.
  intros [Hwf _] Hp Hr Hok theirs Hrep.
  assert (∀ key, key ∈ KVStore.GetKeys (c_store c) → ∃ v bs,
    KVStore.data (c_store c) !! key = Some v ∧ KVStore.SerializeValue v = Ok bs ∧
    KVStore.DeserializeValue bs = Ok (v, KVStore.GetValueType v)) as Hkeys.
  { intros key Hkey. unfold KVStore.GetKeys in Hkey. rewrite map_order_perm in Hkey.
    apply list_elem_of_fmap in Hkey as ([k v] & -> & Hkv).
    apply elem_of_map_to_list in Hkv. destruct (KVStore.SerializeValue_roundtrip v (Hok k v Hkv)) as (bs & ? & ?).
    by exists v, bs. }
  destruct (streamToNode_run p n rs c Hp Hr) as (c' & data & Hrun & Hsent & Hdata); [|exact Hrep|].
  { apply Forall_forall. intros key Hkey. split.
    - unfold GetLocalNodesForKey. rewrite (GetLocalNodesForToken_spec (TN:=heap_node (c_heap c))) by done. done.
    - destruct (Hkeys key Hkey) as (v & bs & Hv & Hbs & _). exists v, bs. cbn. unfold KVStore.GetRawKey.
      by rewrite Hv. }
  exists c', data. split_and!; [done|done| |].
  - exact (Forall2_keys _ _ _ Hdata).
  - apply Forall_forall. intros sd Hsd. apply list_elem_of_lookup in Hsd as [i Hi].
    destruct (Forall2_lookup_r _ _ _ _ _ Hdata Hi) as (key & Hkey & Hk & val & Hraw & Hser).
    apply list_elem_of_lookup_2, list_elem_of_filter in Hkey as [_ Hkey].
    destruct (Hkeys key Hkey) as (v & bs & Hv & Hbs & Hdes). exists v. rewrite Hk. split; [done|].
    cbn in Hraw, Hser. unfold KVStore.GetRawKey in Hraw. rewrite Hv in Hraw. cbn in Hraw. congruence.
Qed.

(** A cluster of two nodes that both replicate everything, with a connection
    from the first, which holds the data, to the second. *)
Definition example_remote : Node :=
  RemoteNode (mkBaseNode "N2" "127.0.0.1:9998" (token_of [128]) (mkB16 1 2) "DC1" NODE_UP)
    (ConnectionPool.set_conn 1 Connection.SetHandshakeCompleted example_pool) true.

Definition example_heap : node_heap :=
  {[ 1%positive := NewLocalNode (mkB16 1 1) "DC1" (token_of [0]) "N1"; 2%positive := example_remote ]}.

Definition example_cluster (dials : list bool) (replies : list (option CMessage)) :
    Cluster (KVStore_ClusterStore (Mo:=MapOrder_id)) :=
  mkCluster (CS:=KVStore_ClusterStore (Mo:=MapOrder_id))
    (KVStore.mkKVStore {[ "a" := VString "x" (mkTime 63000000000 7 None) ]}) [] 2 1%positive
    (add_all (TN:=heap_node example_heap) (Mo:=MapOrder_id) [1%positive; 2%positive]
       (NewTopology (mkB16 1 1) "DC1" MD5Partitioner 2))
    "N1" (token_of [0]) (mkB16 1 1) "DC1" "127.0.0.1:9999" MD5Partitioner CLUSTER_NORMAL example_heap
    dials replies [] [].

Lemma example_cluster_wf dials replies : cluster_wf (example_cluster dials replies).
Proof.
  split.
  - apply (add_all_wf (TN:=heap_node example_heap) (Mo:=MapOrder_id)),
      (NewTopology_wf (TN:=heap_node example_heap)).
  - assert (map_Forall (λ _ r, Forall (λ p, is_Some (example_heap !! p)) (tokenRing r))
      (rings (c_topology (example_cluster dials replies)))) as H.
    { apply (bool_decide_unpack _). vm_compute. exact I. }
    intros p dc r Hr Hp. specialize (H dc r Hr). rewrite Forall_forall in H. by apply H.
Qed.

Lemma example_remote_ready : ready example_remote.
Proof.
  exists 1%positive, []. split; [apply represents_set_conn, represents_example|].
  apply Forall_singleton. eexists. split; [reflexivity|done].
Qed.

Lemma stream_sends_replicated_keys_witness :
  let c := example_cluster [] [Some CStreamDataResponse; Some CStreamCompleteResponse] in
  ∃ c' data, streamToNode 2 c = (Ok tt, c') ∧
    c_sent c' = [] ++ map (λ sd, (2%positive, CStreamDataRequest [sd])) data ++ [(2%positive, CStreamCompleteRequest)] ∧
    sd_Key <$> data = ["a"] ∧
    Forall (λ sd, ∃ v, KVStore.data (c_store c) !! sd_Key sd = Some v ∧
              KVStore.DeserializeValue (sd_Data sd) = Ok (v, KVStore.GetValueType v)) data.
Proof.
  intros c. apply (stream_sends_replicated_keys (Mo:=MapOrder_id) c 2 example_remote []).
  - apply example_cluster_wf.
  - reflexivity.
  - apply example_remote_ready.
  - apply map_Forall_singleton. split; [vm_compute; discriminate|]. split; [split; cbn; lia|by eexists].
  - vm_compute. reflexivity.
Defined.

Lemma index_of_app h nid i pre p post :
  Forall (λ x, n_id (base_at h x) ≠ nid) pre → n_id (base_at h p) = nid →
  index_of h nid i (pre ++ p :: post) = (i + length pre)%nat.
Proof.
  intros Hpre Hp. revert i. induction Hpre as [|x pre Hx _ IH]; intros i; cbn.
  - rewrite decide_True by done. lia.
  - rewrite decide_False by done. rewrite IH. lia.
Qed.

(** A node joins by streaming from its left neighbour on the ring, and it
    cannot join if it has none: for the node with the lowest token the index
    [(idx - 1) % len(nodes)] is negative, or its own if it is alone, and
    [JoinCluster] panics. *)
Theorem join_streams_from_left_neighbour {CS : ClusterStore} (c : Cluster CS) ring pre p post b s :
  rings (c_topology c) !! localDcID (c_topology c) = Some ring →
  tokenRing ring = pre ++ p :: post →
  Forall (λ x, n_id (base_at (c_heap c) x) ≠ c_nodeId c) pre →
  c_heap c !! p = Some (LocalNode b s) → n_id b = c_nodeId c →
  JoinCluster c =
    match last pre with
    | Some neighbour => (_ ← try (streamFromNode neighbour); mret tt) c
    | None => (Panic, c)
    end.
Proof.
  intros Hring Hnodes Hpre Hp Hid.
  assert (n_id (base_at (c_heap c) p) = c_nodeId c) as Hidp by (unfold base_at; by rewrite Hp).
  unfold JoinCluster, AllLocalNodes. unfold mbind at 1, ST_bind at 1, get. rewrite Hring. cbn [mbind option_bind].
  unfold Ring_AllNodes. rewrite Hnodes. cbn [deref]. rewrite bind_ret.
  rewrite index_of_app by done. cbn [Nat.add].
  rewrite list_lookup_middle by done. cbn [deref]. rewrite bind_ret, decide_False by auto.
  destruct pre as [|x pre _] using rev_ind.
  - cbn [length last app]. unfold index. change (Z.of_nat 0 - 1) with (-1).
    destruct post as [|y post].
    + assert (streamFromNode p c = (Panic, c)) as Hs.
      { unfold streamFromNode, assert_remote. unfold mbind at 1, ST_bind at 1.
        by rewrite (load_bind _ _ _ _ Hp). }
      change (Z.rem (-1) (Z.of_nat (S (length (@nil nptr))))) with 0.
      rewrite (decide_True (P := 0 ≤ 0)) by done.
      change (deref ([p] !! Z.to_nat 0)) with (mret p : ST (Cluster CS) string nptr).
      by rewrite bind_ret, bind_try, Hs.
    + match goal with |- context [Z.rem (-1) ?n] => assert (Z.rem (-1) n = -1) as -> end; [|done].
      change (-1) with (- (1)). rewrite Z.rem_opp_l by (cbn [length]; lia).
      by rewrite Z.rem_small by (cbn [length]; lia).
  - rewrite last_snoc, length_app. cbn [length]. unfold index.
    replace (Z.of_nat (length pre + 1) - 1) with (Z.of_nat (length pre)) by lia.
    rewrite Z.rem_small by (rewrite !length_app; cbn [length]; lia).
    rewrite decide_True by lia. rewrite Nat2Z.id, <-app_assoc. cbn [app].
    rewrite list_lookup_middle by done. done.
Qed.

Lemma join_streams_from_left_neighbour_witness :
  JoinCluster (example_cluster [] []) = (Panic, example_cluster [] []).
Proof.
  assert (tokenRing <$> rings (c_topology (example_cluster [] [])) !! "DC1" = Some [1%positive; 2%positive])
    as Hring by (vm_compute; reflexivity).
  destruct (rings (c_topology (example_cluster [] [])) !! "DC1") as [ring|] eqn:E; [|discriminate].
  apply (inj Some) in Hring.
  exact (join_streams_from_left_neighbour (example_cluster [] []) ring [] 1 [2%positive]
    (mkBaseNode "N1" "" (token_of [0]) (mkB16 1 1) "DC1" NODE_UP) false E Hring (Forall_nil_2 _) eq_refl eq_refl).
Defined.

(** ** The handshake *)

Section handshake.
Context {Mo : MapOrder} {CS : ClusterStore}.
Abbreviation C := (ST (Cluster CS) string).

(** What this node says about itself. *)
Definition my_data (c : Cluster CS) : PeerData :=
  mkPeerData (c_nodeId c) (c_dcId c) (c_peerAddr c) (c_name c) (c_token c).

(** What an initializing node becomes when its peer accepts. *)
Definition taken_over (a : ConnectionAcceptedResponse) (b : baseNode) : baseNode :=
  if decide (n_status b = NODE_INITIALIZING)
  then mkBaseNode (ca_Name a) (n_addr b) (ca_Token a) (ca_NodeId a) (ca_DCId a) (n_status b) else b.

Lemma represents_conns cp q cs :
  represents cp q →
  represents (mkPool (cp_addr cp) (cp_size cp) (cp_timeout cp) (cp_maxConn cp) (cp_pool cp) (cp_tail cp)
                (cp_holders cp) cs) q.
Proof. intros [Hl Hs Hm]. by split. Qed.

Lemma handshake_run p b pool s (c : Cluster CS) conn a rs :
  c_heap c !! p = Some (RemoteNode b pool s) →
  c_replies c = Some (CConnectionAcceptedResponse a) :: rs →
  handshake p conn c =
    (Ok tt, updated p (RemoteNode (taken_over a b)
                         (ConnectionPool.set_conn conn Connection.SetHandshakeCompleted pool) s)
              (c_dials c) rs (c_sent c ++ [(p, CConnectionRequest (my_data c))]) c).
Proof.
  intros Hp Hrep. unfold handshake. unfold mbind at 1, ST_bind at 1, get.
  unfold exchange at 1. unfold mbind at 1, ST_bind at 1. rewrite Hrep. cbn [head mjoin option_join tail].
  rewrite (load_bind p (RemoteNode b pool s)) by done. cbn [base].
  unfold taken_over, pool_op. destruct (decide (n_status b = NODE_INITIALIZING)) as [Hst|Hst].
  - unfold mbind at 1, ST_bind at 1, store, modify.
    erewrite load_bind; [|cbn; rewrite lookup_insert_eq; done].
    unfold mret, ST_ret, updated, with_heap, with_net, mbind, ST_bind. cbn. by rewrite !insert_insert_eq.
  - rewrite bind_ret. rewrite (load_bind p (RemoteNode b pool s)) by done. done.
Qed.

Lemma getConnection_new p b pool s (c : Cluster CS) a ds rs :
  c_heap c !! p = Some (RemoteNode b pool s) → represents pool [] →
  c_dials c = true :: ds → c_replies c = Some (CConnectionAcceptedResponse a) :: rs →
  ∃ x pool', getConnection p c =
      (Ok x, updated p (RemoteNode (taken_over a b) pool' s) ds rs
               (c_sent c ++ [(p, CConnectionRequest (my_data c))]) c) ∧
    represents pool' [] ∧ usable pool' x ∧ cp_maxConn pool' = cp_maxConn pool.
Proof.
  intros Hp Hq Hd Hrep.
  assert (cp_pool pool = None) as Hne by (by apply (represents_nil_pool _ _ Hq)).
  set (x := fresh (dom (cp_conns pool))).
  set (pool1 := mkPool (cp_addr pool) (cp_size pool) (cp_timeout pool) (cp_maxConn pool) (cp_pool pool)
    (cp_tail pool) (cp_holders pool) (<[x := mkConnection 1 false false]> (cp_conns pool))).
  exists x, (ConnectionPool.set_conn x Connection.SetHandshakeCompleted pool1). split_and!.
  - assert (ConnectionPool.Get true pool = (Ok x, pool1)) as Hget.
    { unfold ConnectionPool.Get, ConnectionPool.Get_nonempty. rewrite bind_gets.
      by rewrite bool_decide_eq_false_2 by (intros H; by apply H). }
    unfold getConnection, ConnectionPool.Get_nonempty. rewrite (pool_op_gets p b pool s) by done.
    rewrite bool_decide_eq_false_2 by (intros H; by apply H).
    unfold dial at 1. unfold mbind at 1, ST_bind at 1. rewrite Hd. cbn [head tail default from_option id].
    set (c1 := with_net ds (c_replies c) (c_sent c) c).
    rewrite (pool_op_bind p b pool s _ _ c1 x pool1) by done.
    set (c2 := with_heap _ c1).
    assert (c_heap c2 !! p = Some (RemoteNode b pool1 s)) as Hp2 by (cbn; by rewrite lookup_insert_eq).
    rewrite (pool_op_gets p b pool1 s _ _ c2 Hp2). unfold pool1 at 1. cbn [cp_conns].
    rewrite lookup_insert_eq. cbn [deref]. rewrite bind_ret.
    cbn [Connection.HandshakeCompleted completedHandshake negb].
    rewrite (bind_run _ _ _ _ _ (handshake_run p b pool1 s c2 x a rs Hp2 Hrep)).
    unfold mret, ST_ret, updated, with_heap, with_net. cbn. by rewrite !insert_insert_eq.
  - by apply represents_set_conn, represents_conns.
  - eexists. cbn. rewrite lookup_alter_eq, lookup_insert_eq. cbn. done.
  - done.
Qed.

(** Starting a new remote node. *)
Lemma Node_Start_new p b pool s (c : Cluster CS) a ds rs :
  c_heap c !! p = Some (RemoteNode b pool s) → represents pool [] → 0 < cp_maxConn pool →
  c_dials c = true :: ds → c_replies c = Some (CConnectionAcceptedResponse a) :: rs →
  ∃ pool', Node_Start p c =
      (Ok tt, updated p (RemoteNode (status_up (taken_over a b)) pool' true) ds rs
                (c_sent c ++ [(p, CConnectionRequest (my_data c))]) c) ∧
    ready (RemoteNode (status_up (taken_over a b)) pool' true).
Proof.
  intros Hp Hq Hmax Hd Hrep.
  destruct (getConnection_new p b pool s c a ds rs Hp Hq Hd Hrep) as (x & pool1 & Hget & Hq1 & Hx & Hmax1).
  destruct (represents_append pool1 [] x Hq1) as (pool2 & Happ & Hq2 & Hcs2 & _).
  { rewrite (rep_size _ _ Hq1), Hmax1. done. }
  destruct Hx as (k & Hk & Hopen & Hhs).
  exists pool2. split; cycle 1.
  { exists x, []. split; [exact Hq2|]. apply Forall_singleton. exists k. by rewrite Hcs2. }
  unfold Node_Start. rewrite (load_bind p (RemoteNode b pool s)) by done.
  rewrite (bind_run _ _ _ _ _ Hget).
  erewrite (pool_op_bind p _ pool1 s (ConnectionPool.Put x) _ _ tt pool2);
    [|cbn; rewrite lookup_insert_eq; done|].
  - erewrite set_status_bind; [|cbn; rewrite lookup_insert_eq; done].
    unfold set_started. erewrite load_bind; [|cbn; rewrite lookup_insert_eq; done].
    unfold store, modify, updated, with_heap, with_net. cbn. by rewrite !insert_insert_eq.
  - unfold ConnectionPool.Put. rewrite bind_gets, Hk. cbn [deref]. rewrite bind_ret, Hopen.
    unfold mbind, ST_bind, get. rewrite decide_True; [done|]. by rewrite (rep_size _ _ Hq1), Hmax1.
Qed.
End handshake.

(** ** Nodes of the topology *)

Section members.
Context {Mo : MapOrder} {CS : ClusterStore}.

Lemma base_at_insert_ne h p n x : x ≠ p → base_at (<[p := n]> h) x = base_at h x.
Proof. intros Hx. unfold base_at. by rewrite lookup_insert_ne. Qed.

Lemma base_at_insert_eq h p n : base_at (<[p := n]> h) p = base n.
Proof. unfold base_at. by rewrite lookup_insert_eq. Qed.

(** A new object changes nothing for the topology. *)
Lemma cluster_wf_alloc n (c : Cluster CS) :
  cluster_wf c → let p := fresh (dom (c_heap c)) in
  c_heap c !! p = None ∧ (∀ dc r, rings (c_topology c) !! dc = Some r → p ∉ tokenRing r) ∧
  cluster_wf (with_heap (<[p := n]> (c_heap c)) c).
Proof.
  intros [Ht Hptr] p. assert (c_heap c !! p = None) as Hp by apply not_elem_of_dom, is_fresh.
  assert (∀ dc r, rings (c_topology c) !! dc = Some r → p ∉ tokenRing r) as Hnew.
  { intros dc r Hr Hin. destruct (Hptr p dc r Hr Hin) as [x Hx]. congruence. }
  split_and!; [done|done|]. split.
  - eapply topology_wf_ext; [|exact Ht]. intros dc r x Hr Hx. cbn.
    rewrite base_at_insert_ne; [done|]. intros ->. by eapply Hnew.
  - cbn. intros x dc r Hr Hx. apply lookup_insert_is_Some'. right. by eapply Hptr.
Qed.

Lemma topo_bind {A B} (op : TopologyNode nptr → ST (Topology nptr) string A) (f : A → ST (Cluster CS) string B)
    (c : Cluster CS) a t :
  op (heap_node (c_heap c)) (c_topology c) = (Ok a, t) → (topo op ≫= f) c = f a (with_topology t c).
Proof. intros H. apply bind_run. unfold topo. by rewrite H. Qed.

(** The data of a peer that is new to its datacenter. *)
Definition new_peer (peer : PeerData) (c : Cluster CS) : Prop :=
  ∀ p r, rings (c_topology c) !! pd_DCId peer = Some r → p ∈ tokenRing r →
    n_id (base_at (c_heap c) p) ≠ pd_NodeId peer.

Definition peer_node (peer : PeerData) : Node :=
  NewRemoteNodeInfo (pd_NodeId peer) (pd_DCId peer) (pd_Token peer) (pd_Name peer) (pd_Addr peer).

(** [AddNode] puts a new object with an id that is new to its datacenter into the
    ring of the datacenter. *)
Definition new_node (n : Node) (c : Cluster CS) : Prop :=
  ∀ m r, rings (c_topology c) !! n_dcId (base n) = Some r → m ∈ tokenRing r →
    n_id (base_at (c_heap c) m) ≠ n_id (base n).

Lemma AddNode_new n (c : Cluster CS) :
  cluster_wf c → new_node n c →
  let p := fresh (dom (c_heap c)) in
  let c1 := with_heap (<[p := n]> (c_heap c)) c in
  let t := c_topology c in
  ∃ t' r, @AddNode nptr (heap_node (c_heap c1)) Mo p (c_topology c1) = (Ok tt, t') ∧
    t' = mkTopology (partitioner t) (localNodeID t) (localDcID t) (replicationFactor t)
           (<[n_dcId (base n) := r]> (rings t)) (<[n_id (base n) := p]> (nodes t)) ∧
    tokenRing r ≡ₚ p :: tokenRing (ring_of (n_dcId (base n)) t) ∧ cluster_wf (with_topology t' c1).
Proof.
  intros Hwf Hnew p c1 t. destruct (cluster_wf_alloc n c Hwf) as (Hp & Hnot & Hwf1).
  fold p in Hp, Hnot, Hwf1. fold c1 in Hwf1. destruct Hwf1 as [Ht1 Hptr1].
  pose proof (@AddNode_spec nptr (heap_node (c_heap c1)) Mo p (c_topology c1) Ht1) as Hadd. cbv zeta in Hadd.
  assert (base_at (c_heap c1) p = base n) as Hb by apply base_at_insert_eq.
  change (GetDatacenterId p) with (n_dcId (base_at (c_heap c1) p)) in Hadd.
  change (GetId p) with (n_id (base_at (c_heap c1) p)) in Hadd. rewrite Hb in Hadd.
  change (c_topology c1) with t in *. destruct (nodeMap _ !! _) as [m|] eqn:Hm.
  - exfalso. pose proof (@ring_of_wf nptr (heap_node (c_heap c1)) (n_dcId (base n)) _ Ht1) as Hw.
    pose proof (@ring_ids nptr (heap_node (c_heap c1)) _ Hw _ _ Hm) as Hid.
    assert (m ∈ tokenRing (ring_of (n_dcId (base n)) t)) as Hin
      by (apply (@elem_of_ring nptr (heap_node (c_heap c1)) _ m Hw); by rewrite Hid).
    unfold ring_of in Hin.
    destruct (rings t !! n_dcId (base n)) as [r|] eqn:Hr; [|by apply elem_of_nil in Hin].
    apply (Hnew m r Hr Hin). rewrite <-Hid. cbn.
    rewrite base_at_insert_ne; [done|]. intros ->. by eapply Hnot.
  - destruct Hadd as (r & Hadd & Hr & Hperm & _). eexists _, r. split; [exact Hadd|].
    split; [done|]. split; [done|]. split.
    + pose proof (@AddNode_wf nptr (heap_node (c_heap c1)) Mo p t Ht1) as Hw.
      by rewrite Hadd in Hw.
    + cbn [with_topology c_topology rings]. intros x dc r' Hr' Hx.
      apply lookup_insert_Some in Hr' as [[<- <-]|[_ Hr']]; [|by eapply Hptr1].
      rewrite Hperm in Hx. apply elem_of_cons in Hx as [->|Hx].
      * exists n. cbn. by rewrite lookup_insert_eq.
      * unfold ring_of in Hx.
        destruct (rings t !! n_dcId (base n)) as [r0|] eqn:Hr0; [|by apply elem_of_nil in Hx].
        by eapply Hptr1.
Qed.

(** In particular that made for a new peer. *)
Lemma AddNode_peer peer (c : Cluster CS) :
  cluster_wf c → new_peer peer c →
  let p := fresh (dom (c_heap c)) in
  let c1 := with_heap (<[p := peer_node peer]> (c_heap c)) c in
  ∃ t r, @AddNode nptr (heap_node (c_heap c1)) Mo p (c_topology c1) = (Ok tt, t) ∧
    rings t = <[pd_DCId peer := r]> (rings (c_topology c)) ∧ p ∈ tokenRing r ∧
    cluster_wf (with_topology t c1).
Proof.
  intros Hwf Hnew p c1. destruct (AddNode_new (peer_node peer) c Hwf Hnew) as (t & r & Hadd & -> & Hperm & Hwf').
  eexists _, r. split; [exact Hadd|]. split_and!; [done| |done]. rewrite Hperm. by left.
Qed.
End members.

(** C37. A node that is added to a running cluster ends up in a datacenter it
    does not know of.  [addNode] puts the peer into the ring of the datacenter
    it was announced with and then connects to it; the server's acceptance
    carries no datacenter, and the handshake writes that over the node's data.
    The node stays in its ring with the empty datacenter id, and the topology is
    no longer consistent. *)
Theorem handshake_forgets_datacenter {Mo : MapOrder} {CS CS' : ClusterStore}
    (c : Cluster CS) (server : Cluster CS') peer ds rs :
  cluster_wf c → c_status c ≠ CLUSTER_INITIALIZING → new_peer peer c → pd_DCId peer ≠ "" →
  c_dials c = true :: ds →
  c_replies c = Some (CConnectionAcceptedResponse (acceptance server)) :: rs →
  ∃ p c' ring, add_peer peer c = (Ok tt, c') ∧
    rings (c_topology c') !! pd_DCId peer = Some ring ∧ p ∈ tokenRing ring ∧
    n_dcId (base_at (c_heap c') p) = "" ∧ n_id (base_at (c_heap c') p) = c_nodeId server ∧
    ¬ cluster_wf c'.
Proof.
  intros Hwf Hst Hnew Hdc Hd Hrep. set (p := fresh (dom (c_heap c))).
  destruct (AddNode_peer peer c Hwf Hnew) as (t & r & Hadd & Hrings & Hin & _). fold p in Hadd, Hin.
  set (c1 := with_heap (<[p := peer_node peer]> (c_heap c)) c) in *.
  destruct (Node_Start_new p (base (peer_node peer)) (ConnectionPool.NewConnectionPool (pd_Addr peer) 10 10000)
    false (with_topology t c1) (acceptance server) ds rs) as (pool' & Hstart & _); try done.
  { cbn. by rewrite lookup_insert_eq. }
  { by apply represents_new. }
  eexists p, _, r. split.
  { unfold add_peer, addNode. unfold mbind at 1, ST_bind at 1, alloc. fold (peer_node peer). fold p. fold c1.
    rewrite (topo_bind _ _ c1 tt t Hadd). unfold mbind, ST_bind, get. rewrite decide_True by done. exact Hstart. }
  unfold updated. cbn [c_topology c_heap with_heap with_net with_topology].
  rewrite base_at_insert_eq, Hrings, lookup_insert_eq. split_and!; [done|done|done|done|].
  intros [Hwf' _]. apply Hdc. symmetry.
  assert (@GetDatacenterId nptr (heap_node (<[p := RemoteNode (status_up (taken_over (acceptance server)
    (base (peer_node peer)))) pool' true]> (c_heap c1))) p = pd_DCId peer) as Heq.
  { eapply (@topology_dcs nptr _ _ Hwf'); [|exact Hin]. cbn [c_topology with_heap with_net with_topology].
    by rewrite Hrings, lookup_insert_eq. }
  cbn in Heq. rewrite base_at_insert_eq in Heq. done.
Qed.

Lemma handshake_forgets_datacenter_witness :
  let server := example_cluster [] [] in
  let c := example_cluster [true] [Some (CConnectionAcceptedResponse (acceptance server))] in
  let peer := mkPeerData (mkB16 1 3) "DC1" "127.0.0.1:9997" "N3" (token_of [200]) in
  ∃ p c' ring, add_peer (Mo:=MapOrder_id) peer c = (Ok tt, c') ∧
    rings (c_topology c') !! "DC1" = Some ring ∧ p ∈ tokenRing ring ∧
    n_dcId (base_at (c_heap c') p) = "" ∧ n_id (base_at (c_heap c') p) = mkB16 1 1 ∧ ¬ cluster_wf c'.
Proof.
  intros server c peer.
  apply (handshake_forgets_datacenter (Mo:=MapOrder_id) c server peer [] []).
  - apply example_cluster_wf.
  - discriminate.
  - intros p r Hr Hp.
    assert (tokenRing <$> rings (c_topology c) !! "DC1" = Some [1%positive; 2%positive]) as Hring
      by (vm_compute; reflexivity).
    change (pd_DCId peer) with "DC1" in Hr. rewrite Hr in Hring. apply (inj Some) in Hring. rewrite Hring in Hp.
    apply elem_of_cons in Hp as [->|Hp]; [vm_compute; discriminate|].
    apply list_elem_of_singleton in Hp as ->. vm_compute. discriminate.
  - discriminate.
  - reflexivity.
  - reflexivity.
Defined.

(** The server's side of a connection.  Anything but a [ConnectionRequest]
    as the first message, or no message, is refused: the connection is closed
    after at most one refusal, and the cluster is not touched.  After a
    [ConnectionRequest], every request that carries or finishes streamed data,
    and every read and write request, runs into [panic("unreachable")], which in
    a goroutine ends the process; these are the requests that [streamToNode]
    sends. *)
Theorem server_refuses_or_panics {Mo : MapOrder} {CS : ClusterStore} (c : Cluster CS) (k : conn_io) :
  match k_in k with
  | Some (CConnectionRequest _) :: _ => True
  | _ => ∃ why k' reason, handleConnection k c = (Ok (why, k'), c) ∧ k_closed k' = true ∧
           (k_out k' = k_out k ++ [CConnectionRefusedResponse reason] ∨ k_out k' = k_out k)
  end ∧
  ∀ peer read write data rest room,
    Forall (λ request,
      (handleConnection (mkConn (Some (CConnectionRequest peer) :: Some request :: rest) (S room) [] false) c).1 = Panic)
      [CReadRequest read; CWriteRequest write; CStreamDataRequest data; CStreamCompleteRequest].
Proof.
  split.
  - unfold handleConnection, reply.
    destruct (k_in k) as [|[[]|] rest], (k_room k); cbn; try exact I;
      (do 3 eexists; split; [reflexivity|]); cbn; eauto.
    Unshelve. all: exact "".
  - intros peer read write data rest room.
    assert (∀ request, (∀ n c', executeRequest n request c' = (Panic, c')) →
      (handleConnection (mkConn (Some (CConnectionRequest peer) :: Some request :: rest) (S room) [] false) c).1
        = Panic) as H; [|repeat constructor; by apply H].
    intros request Hreq. unfold handleConnection. cbn [k_in]. unfold mbind at 1, ST_bind at 1, get.
    cbn [reply k_room negb]. unfold mbind at 1, ST_bind at 1, alloc. rewrite bind_try.
    set (serve_ := serve _ _ _). assert (∀ c', (serve_ c').1 = Panic) as Hserve.
    { intros c'. unfold serve_. cbn [serve]. rewrite bind_try, Hreq. done. }
    by destruct (addNode _ _) as [[]].
Qed.
