(* ===== verification/Reads.v ===== *)
(** * Reads against the cluster

    The queries of [src/cluster/cluster.go]: how many answers a consistency
    level asks for, waiting for them, reconciling their values and repairing
    the nodes that disagree.  The answers arrive on channels; the ones that come
    before the timeout are an input, in the order in which they come, once for
    the read and once for the repair.  [ExecuteWrite] returns nothing, and so
    does [ExecuteQuery] of both kinds of nodes. *)

From S2P Require Import Prelude Bytes Types GoTime Serializer Partitioner Topology Instruction.
From S2P Require Import KVStore Containers Instance Messages ClusterMessages Pool Cluster.

(** A string in the code; other strings are not a level. *)
Inductive ConsistencyLevel :=
  | CONSISTENCY_ONE
  | CONSISTENCY_QUORUM
  | CONSISTENCY_QUORUM_LOCAL
  | CONSISTENCY_ALL
  | CONSISTENCY_ALL_LOCAL
  | CONSISTENCY_CONSENSUS
  | CONSISTENCY_CONSENSUS_LOCAL
  | CONSISTENCY_OTHER (level : string).

(** [Reconcile] of the store; a nil value is [None]. *)
Class ReadStore := {
  rs_value : Type;
  rs_Reconcile : string → list (option rs_value) → res string (option rs_value * list (list Instruction));
}.

Definition KVStore_ReadStore : ReadStore := {|
  rs_value := KVStore.vref;
  rs_Reconcile := KVStore.Reconcile;
|}.

Definition readLocalOnly (cl : ConsistencyLevel) : bool :=
  match cl with
  | CONSISTENCY_ONE => true
  | CONSISTENCY_QUORUM_LOCAL => true
  | CONSISTENCY_ALL_LOCAL => true
  | CONSISTENCY_CONSENSUS_LOCAL => true
  | _ => false
  end.

Definition numMappedNodes {Mo : MapOrder} (replicaMap : gmap DatacenterID (list nptr)) : nat :=
  foldl (λ num nodes, (num + length nodes)%nat) 0%nat (map_order (map_to_list replicaMap)).*2.

Inductive read_error :=
  | ReadErrorf (msg : string)
  | nodeTimeoutError (msg : string).

Section reads.
Context {Mo : MapOrder} {RS : ReadStore}.

Record queryResponse := mkResponse { qr_nid : NodeId; qr_val : option rs_value; qr_err : option string }.

Definition succeeded (r : queryResponse) : bool := bool_decide (qr_err r = None).

(** The variables of [ExecuteRead] that the first loop fills. *)
Record queries := mkQueries {
  numRequiredResponses : gmap DatacenterID nat;
  nodeMap : gmap NodeId nptr;
}.

(** The answers needed from a datacenter; [None] for a level that is not
    implemented or not known. *)
Definition responses_required (cl : ConsistencyLevel) (nodes : list nptr) : string + nat :=
  match cl with
  | CONSISTENCY_ONE => inr 1%nat
  | CONSISTENCY_QUORUM | CONSISTENCY_QUORUM_LOCAL => inr (length nodes `div` 2 + 1)%nat
  | CONSISTENCY_ALL | CONSISTENCY_ALL_LOCAL => inr (length nodes)
  | CONSISTENCY_CONSENSUS | CONSISTENCY_CONSENSUS_LOCAL => inl "CONSENSUS consistency not implemented yet"
  | CONSISTENCY_OTHER _ => inl "Unknown consistency level"
  end.

(** The loop over the replica map, which starts the queries. *)
Fixpoint start_queries (h : node_heap) (local : DatacenterID) (cl : ConsistencyLevel)
    (l : list (DatacenterID * list nptr)) (q : queries) : string + queries :=
  match l with
  | [] => inr q
  | (dcid, nodes) :: l =>
      if bool_decide (dcid ≠ local) && readLocalOnly cl
      then start_queries h local cl l (mkQueries (<[dcid := 0%nat]> (numRequiredResponses q)) (nodeMap q))
      else
        match responses_required cl nodes with
        | inl e => inl e
        | inr n =>
            start_queries h local cl l
              (mkQueries (<[dcid := n]> (numRequiredResponses q))
                 (foldl (λ m p, <[n_id (base_at h p) := p]> m) (nodeMap q) nodes))
        end
  end.

Definition consistencySatisfied (required received : gmap DatacenterID nat) : bool :=
  forallb (λ p, negb (default 0%nat (received !! p.1) <? p.2)%nat) (map_order (map_to_list required)).

(** [numReceivedResponses[dcid]++] *)
Definition count (dcid : DatacenterID) (received : gmap DatacenterID nat) : gmap DatacenterID nat :=
  <[dcid := S (default 0%nat (received !! dcid))]> received.

(** [for !consistencySatisfied() { select ... }]; when [arrivals] is exhausted
    the timeout comes next.  A node id that was not asked is the nil interface. *)
Fixpoint await (h : node_heap) (q : queries) (numNodes : nat) (arrivals : list queryResponse)
    (received : gmap DatacenterID nat) (total : nat) (values : list (option rs_value)) :
    res read_error (list (option rs_value)) :=
  if consistencySatisfied (numRequiredResponses q) received then Ok values
  else if (numNodes <=? total)%nat
  then Fail (ReadErrorf "Errors received from remote nodes, could not satisfy consistency")
  else
    match arrivals with
    | [] => Fail (nodeTimeoutError "Read not completed before timeout")
    | r :: arrivals =>
        if succeeded r then
          match nodeMap q !! qr_nid r with
          | None => Panic
          | Some n =>
              await h q numNodes arrivals (count (n_dcId (base_at h n)) received) (S total)
                (values ++ [qr_val r])
          end
        else await h q numNodes arrivals received (S total) values
    end.

(** The instructions for the [i]-th value go to the node it came from. *)
Fixpoint send_repairs (m : gmap NodeId nptr) (valueNids : list NodeId) (instructions : list (list Instruction)) :
    option (list (nptr * Instruction)) :=
  match instructions with
  | [] => Some []
  | instructionList :: instructions =>
      sent ← (match instructionList with
              | [] => Some []
              | _ => nid ← head valueNids; n ← m !! nid; Some (map (λ inst, (n, inst)) instructionList)
              end);
      rest ← send_repairs m (tail valueNids) instructions;
      Some (sent ++ rest)
  end.

(** [reconcileRead]: the queries it sends; a panic is [None].  After an error of
    [Reconcile] there are no instructions. *)
Definition reconcileRead (key : string) (m : gmap NodeId nptr) (arrivals : list queryResponse) :
    option (list (nptr * Instruction)) :=
  let received := filter (λ r, succeeded r = true) (take (size m) arrivals) in
  match rs_Reconcile key (map qr_val received) with
  | Ok (_, instructions) => send_repairs m (map qr_nid received) instructions
  | Fail _ => Some []
  | Panic => None
  end.

(** The result, and the repairs that are sent before or after it is returned. *)
Definition ExecuteRead {CS : ClusterStore} (key : string) (consistency : ConsistencyLevel)
    (arrivals repairArrivals : list queryResponse) (c : Cluster CS) :
    res read_error (option rs_value * list (nptr * Instruction)) :=
  match GetNodesForKey key c with
  | None => Panic
  | Some replicaMap =>
      let numNodes := numMappedNodes replicaMap in
      match start_queries (c_heap c) (c_dcId c) consistency (map_order (map_to_list replicaMap)) (mkQueries ∅ ∅) with
      | inl e => Fail (ReadErrorf e)
      | inr q =>
          match await (c_heap c) q numNodes arrivals ∅ 0 [] with
          | Ok values =>
              match rs_Reconcile key values with
              | Ok (val, _) =>
                  match reconcileRead key (nodeMap q) repairArrivals with
                  | Some repairs => Ok (val, repairs)
                  | None => Panic
                  end
              | Fail e => Fail (ReadErrorf "Error reconciling values")
              | Panic => Panic
              end
          | Fail e => Fail e
          | Panic => Panic
          end
      end
  end.
End reads.

(** ** Counting answers *)

Section counting.
Context {Mo : MapOrder} {RS : ReadStore}.

(** The datacenter an answer counts for. *)
Definition answers_for (h : node_heap) (m : gmap NodeId nptr) (dcid : DatacenterID) (r : queryResponse) : Prop :=
  succeeded r = true ∧ (λ p, n_dcId (base_at h p)) <$> m !! qr_nid r = Some dcid.

#[export] Instance answers_for_dec h m dcid r : Decision (answers_for h m dcid r).
Proof. unfold answers_for. apply _. Defined.

Lemma consistencySatisfied_spec required received :
  consistencySatisfied required received = true ↔
    ∀ dcid n, required !! dcid = Some n → (n ≤ default 0 (received !! dcid))%nat.
Proof.
  unfold consistencySatisfied. rewrite forallb_forall. setoid_rewrite <-list_elem_of_In.
  setoid_rewrite map_order_perm. split.
  - intros H dcid n Hn. specialize (H (dcid, n)). rewrite elem_of_map_to_list in H.
    specialize (H Hn). cbn in H. apply negb_true_iff, Nat.ltb_ge in H. done.
  - intros H [dcid n] Hn%elem_of_map_to_list. cbn. apply negb_true_iff, Nat.ltb_ge. by apply H.
Qed.

Lemma count_lookup dcid dcid' received :
  default 0%nat (count dcid received !! dcid') =
    ((if decide (dcid = dcid') then 1 else 0) + default 0 (received !! dcid'))%nat.
Proof.
  unfold count. destruct (decide (dcid = dcid')) as [->|Hne].
  - by rewrite lookup_insert_eq.
  - by rewrite lookup_insert_ne.
Qed.

(** When the loop ends with values, the answers it has taken satisfy every
    datacenter's requirement. *)
Lemma await_ok h q numNodes arrivals received total values vs :
  await h q numNodes arrivals received total values = Ok vs →
  ∃ pre post, arrivals = pre ++ post ∧
    vs = values ++ map qr_val (filter (λ r, succeeded r = true) pre) ∧
    ∀ dcid n, numRequiredResponses q !! dcid = Some n →
      (n ≤ length (filter (answers_for h (nodeMap q) dcid) pre) + default 0 (received !! dcid))%nat.
Proof.
  revert received total values. induction arrivals as [|r arrivals IH]; intros received total values Hrun.
  - cbn [await] in Hrun. destruct (consistencySatisfied _ received) eqn:Hs; [|by destruct (_ <=? _)%nat].
    injection Hrun as <-. exists [], []. split_and!; [done|by rewrite app_nil_r|].
    by apply consistencySatisfied_spec.
  - cbn [await] in Hrun. destruct (consistencySatisfied _ received) eqn:Hs.
    { injection Hrun as <-. exists [], (r :: arrivals). split_and!; [done|by rewrite app_nil_r|].
      by apply consistencySatisfied_spec. }
    destruct (_ <=? _)%nat; [done|]. destruct (succeeded r) eqn:Hr.
    + destruct (nodeMap q !! qr_nid r) as [p|] eqn:Hp; [|done].
      apply IH in Hrun as (pre & post & -> & -> & Hreq). exists (r :: pre), post. split_and!; [done| |].
      * rewrite filter_cons_True by done. cbn. by rewrite <-app_assoc.
      * intros dcid n Hn. specialize (Hreq dcid n Hn). rewrite count_lookup in Hreq.
        assert (answers_for h (nodeMap q) dcid r ↔ n_dcId (base_at h p) = dcid) as Hiff
          by (unfold answers_for; rewrite Hp, Hr; cbn; naive_solver).
        destruct (decide (n_dcId (base_at h p) = dcid)) as [Heq|Hne].
        -- rewrite filter_cons_True by (by apply Hiff). cbn [length]. lia.
        -- rewrite filter_cons_False by (by rewrite Hiff). lia.
    + apply IH in Hrun as (pre & post & -> & -> & Hreq). exists (r :: pre), post. split_and!; [done| |].
      * by rewrite filter_cons_False by (by rewrite Hr).
      * intros dcid n Hn. rewrite filter_cons_False; [by apply Hreq|]. intros [H _]. congruence.
Qed.

(** Answers that are all errors never satisfy a requirement. *)
Lemma await_errors h q numNodes arrivals received total values :
  consistencySatisfied (numRequiredResponses q) received = false →
  Forall (λ r, succeeded r = false) arrivals →
  await h q numNodes arrivals received total values =
    if (numNodes <=? total + length arrivals)%nat
    then Fail (ReadErrorf "Errors received from remote nodes, could not satisfy consistency")
    else Fail (nodeTimeoutError "Read not completed before timeout").
Proof.
  intros Hs Herr. revert total. induction Herr as [|r arrivals Hr _ IH]; intros total; cbn [await length]; rewrite Hs.
  - by rewrite Nat.add_0_r.
  - destruct (Nat.leb_spec numNodes total) as [Hle|Hgt].
    + by destruct (Nat.leb_spec numNodes (total + S (length arrivals))); [|lia].
    + rewrite Hr, IH. by replace (S total + length arrivals)%nat with (total + S (length arrivals))%nat by lia.
Qed.

(** What the first loop asks for. *)
Definition asked (local : DatacenterID) (cl : ConsistencyLevel) (dcid : DatacenterID) : bool :=
  negb (bool_decide (dcid ≠ local) && readLocalOnly cl).

Lemma start_queries_required h local cl l q q' :
  NoDup l.*1 → start_queries h local cl l q = inr q' →
  (∀ dcid nodes, (dcid, nodes) ∈ l → ∃ n, numRequiredResponses q' !! dcid = Some n ∧
     if asked local cl dcid then responses_required cl nodes = inr n else n = 0%nat) ∧
  (∀ dcid, dcid ∉ l.*1 → numRequiredResponses q' !! dcid = numRequiredResponses q !! dcid).
Proof.
  revert q. induction l as [|[dcid nodes] l IH]; intros q Hnd Hrun; cbn [start_queries] in Hrun.
  { injection Hrun as <-. split; [by intros ?? ?%elem_of_nil|done]. }
  cbn in Hnd. apply NoDup_cons in Hnd as [Hdc Hnd].
  assert (∃ n m, start_queries h local cl l (mkQueries (<[dcid := n]> (numRequiredResponses q)) m) = inr q' ∧
    if asked local cl dcid then responses_required cl nodes = inr n else n = 0%nat) as (n & m & Hrun' & Hn).
  { unfold asked. destruct (bool_decide (dcid ≠ local) && readLocalOnly cl); cbn [negb].
    - exists 0%nat, (nodeMap q). done.
    - destruct (responses_required cl nodes) as [|n]; [done|]. by eexists n, _. }
  destruct (IH _ Hnd Hrun') as [IH1 IH2]. split.
  - intros dcid' nodes' [[= -> ->]|Hin]%elem_of_cons; [|by apply IH1].
    exists n. split; [|done]. rewrite IH2 by done. cbn. by rewrite lookup_insert_eq.
  - intros dcid' Hnot. cbn in Hnot. rewrite IH2 by set_solver. cbn. rewrite lookup_insert_ne by set_solver. done.
Qed.

(** The nodes that are asked are replicas, under their ids. *)
Lemma start_queries_nodes h local cl l q q' :
  start_queries h local cl l q = inr q' →
  ∀ nid p, nodeMap q' !! nid = Some p → nodeMap q !! nid = Some p ∨
    (n_id (base_at h p) = nid ∧ ∃ dcid nodes, (dcid, nodes) ∈ l ∧ p ∈ nodes).
Proof.
  revert q. induction l as [|[dcid nodes] l IH]; intros q Hrun nid p Hp; cbn [start_queries] in Hrun.
  { injection Hrun as <-. by left. }
  destruct (bool_decide (dcid ≠ local) && readLocalOnly cl).
  { destruct (IH _ Hrun nid p Hp) as [?|(? & dcid' & nodes' & ? & ?)]; [by left|right].
    split; [done|]. exists dcid', nodes'. split; [by right|done]. }
  destruct (responses_required cl nodes); [done|].
  destruct (IH _ Hrun nid p Hp) as [Hm|(? & dcid' & nodes' & ? & ?)].
  2: { right. split; [done|]. exists dcid', nodes'. split; [by right|done]. }
  cbn in Hm. assert (∀ m : gmap NodeId nptr, foldl (λ m p, <[n_id (base_at h p) := p]> m) m nodes !! nid = Some p →
    m !! nid = Some p ∨ (n_id (base_at h p) = nid ∧ p ∈ nodes)) as Hfold.
  { clear. induction nodes as [|x nodes IH]; intros m Hm; cbn in Hm; [by left|].
    apply IH in Hm as [[[<- <-]|[_ Hm]]%lookup_insert_Some|[? ?]]; [|by left|].
    - right. split; [done|by left].
    - right. split; [done|by right]. }
  apply Hfold in Hm as [?|[? ?]]; [by left|right]. split; [done|]. exists dcid, nodes. split; [by left|done].
Qed.
End counting.

(** ** Properties *)

(** C29. A read returns only once its consistency level is met.  The value it
    returns is the reconciliation of the successful ones among the answers that
    came first, and among these every datacenter that has to be asked (the local
    one alone, for the local levels) has at least as many answers from its nodes
    as the level demands; for the quorum levels that is a majority of the
    datacenter's replicas. *)
Theorem read_meets_consistency {Mo : MapOrder} {RS : ReadStore} {CS : ClusterStore}
    (c : Cluster CS) key cl arrivals repairArrivals val repairs :
  ExecuteRead key cl arrivals repairArrivals c = Ok (val, repairs) →
  ∃ replicaMap m pre post instructions,
    GetNodesForKey key c = Some replicaMap ∧ arrivals = pre ++ post ∧
    rs_Reconcile key (map qr_val (filter (λ r, succeeded r = true) pre)) = Ok (val, instructions) ∧
    (∀ nid p, m !! nid = Some p → n_id (base_at (c_heap c) p) = nid ∧
       ∃ dcid nodes, replicaMap !! dcid = Some nodes ∧ p ∈ nodes) ∧
    ∀ dcid nodes, replicaMap !! dcid = Some nodes → dcid = c_dcId c ∨ readLocalOnly cl = false →
      ∃ n, responses_required cl nodes = inr n ∧
        (n ≤ length (filter (answers_for (c_heap c) m dcid) pre))%nat.
Proof.
  unfold ExecuteRead. destruct (GetNodesForKey key c) as [replicaMap|]; [|done].
  destruct (start_queries _ _ _ _ _) as [e|q] eqn:Hq; [done|].
  destruct (await _ _ _ _ _ _ _) as [values|e|] eqn:Ha; [|done..].
  destruct (rs_Reconcile key values) as [[val' instructions]|e|] eqn:Hr; [|done..].
  destruct (reconcileRead _ _ _); [|done]. intros [= <- <-].
  destruct (await_ok _ _ _ _ _ _ _ _ Ha) as (pre & post & -> & -> & Hreq).
  exists replicaMap, (nodeMap q), pre, post, instructions. split_and!; [done|done|exact Hr| |].
  - intros nid p Hp. destruct (start_queries_nodes _ _ _ _ _ _ Hq nid p Hp) as [H|(Hid & dcid & nodes & Hin & Hp')].
    { cbn [nodeMap] in H. by rewrite lookup_empty in H. }
    split; [done|]. exists dcid, nodes. rewrite map_order_perm in Hin. by apply elem_of_map_to_list in Hin.
  - intros dcid nodes Hdc Hasked.
    assert (NoDup (map_order (map_to_list replicaMap)).*1) as Hnd
      by (rewrite map_order_perm; apply NoDup_fst_map_to_list).
    destruct (proj1 (start_queries_required _ _ _ _ _ _ Hnd Hq) dcid nodes) as (n & Hn & Hif).
    { rewrite map_order_perm. by apply elem_of_map_to_list. }
    assert (asked (c_dcId c) cl dcid = true) as Has.
    { unfold asked. destruct Hasked as [->| ->]; [|by rewrite andb_false_r].
      by rewrite bool_decide_eq_false_2 by (intros H; by apply H). }
    rewrite Has in Hif. exists n. split; [done|]. specialize (Hreq dcid n Hn).
    rewrite lookup_empty in Hreq. cbn in Hreq. lia.
Qed.

(** The first node of the example cluster reads a key that both replicate. *)
Definition example_answer (nid : NodeId) (p : positive) (v : Value) : queryResponse (RS:=KVStore_ReadStore) :=
  mkResponse (RS:=KVStore_ReadStore) nid (Some (KVStore.mkRef p v)) None.

Definition example_answers : list (queryResponse (RS:=KVStore_ReadStore)) :=
  [ example_answer (mkB16 1 1) 1 (VString "old" (mkTime 5 0 None));
    example_answer (mkB16 1 2) 2 (VString "new" (mkTime 6 0 None)) ].

Lemma read_meets_consistency_witness :
  ∃ (replicaMap : gmap DatacenterID (list nptr)) m (pre : list (queryResponse (RS:=KVStore_ReadStore))),
    GetNodesForKey (Mo:=MapOrder_id) "1234" (example_cluster [] []) = Some replicaMap ∧
    pre `prefix_of` example_answers ∧
    ∀ nodes, replicaMap !! "DC1" = Some nodes →
      (length nodes `div` 2 + 1 ≤ length (filter (answers_for (RS:=KVStore_ReadStore) example_heap m "DC1") pre))%nat.
Proof.
  assert (∃ val repairs, ExecuteRead (Mo:=MapOrder_id) (RS:=KVStore_ReadStore) "1234" CONSISTENCY_QUORUM
    example_answers example_answers (example_cluster [] []) = Ok (val, repairs)) as (val & repairs & Hrun).
  { eexists _, _. vm_compute. reflexivity. }
  destruct (read_meets_consistency (Mo:=MapOrder_id) (RS:=KVStore_ReadStore) _ _ _ _ _ _ _ Hrun)
    as (replicaMap & m & pre & post & instructions & Hmap & Happ & _ & _ & Hreq).
  exists replicaMap, m, pre. split_and!; [exact Hmap|by exists post|].
  intros nodes Hn. destruct (Hreq "DC1" nodes Hn) as (n & [= <-] & Hle); [by left|exact Hle].
Defined.

(** ** Errors of local reads *)

Section local_reads.
Context {Mo : MapOrder} {RS : ReadStore}.

Lemma start_queries_ok h local cl l q :
  (∀ dcid nodes, (dcid, nodes) ∈ l → asked local cl dcid = true → ∃ n, responses_required cl nodes = inr n) →
  ∃ q', start_queries h local cl l q = inr q'.
Proof.
  revert q. induction l as [|[dcid nodes] l IH]; intros q Hall; cbn [start_queries]; [by eexists|].
  assert (∀ dcid nodes, (dcid, nodes) ∈ l → asked local cl dcid = true →
    ∃ n, responses_required cl nodes = inr n) as Hl by (intros ???; apply Hall; by right).
  specialize (Hall dcid nodes). unfold asked in Hall at 1.
  destruct (bool_decide (dcid ≠ local) && readLocalOnly cl); [by apply IH|].
  destruct Hall as [n ->]; [by left|done|]. by apply IH.
Qed.

Lemma numMappedNodes_two (m : gmap DatacenterID (list nptr)) dc dc' nodes nodes' :
  m !! dc = Some nodes → m !! dc' = Some nodes' → dc ≠ dc' →
  (length nodes + length nodes' ≤ numMappedNodes m)%nat.
Proof.
  intros H1 H2 Hne. unfold numMappedNodes. rewrite (foldl_length id), list_fmap_id, map_order_perm.
  rewrite <-(insert_delete_id m dc nodes H1). rewrite map_to_list_insert by apply lookup_delete_eq.
  assert (delete dc m !! dc' = Some nodes') as H3 by (by rewrite lookup_delete_ne).
  rewrite <-(insert_delete_id _ dc' nodes' H3). rewrite map_to_list_insert by apply lookup_delete_eq.
  cbn. rewrite !length_app. lia.
Qed.
End local_reads.

(** A local read does not notice that it has failed.  The loop gives up on
    errors when as many answers have come as there are replicas in all
    datacenters, but a local level asks the local ones only: if all of them
    answer with an error while another datacenter has a replica, the read still
    waits, and reports a timeout instead of the errors. *)
Theorem local_read_errors_time_out {Mo : MapOrder} {RS : ReadStore} {CS : ClusterStore}
    (c : Cluster CS) key cl arrivals repairArrivals replicaMap nodes n dc' p others :
  readLocalOnly cl = true → GetNodesForKey key c = Some replicaMap →
  replicaMap !! c_dcId c = Some nodes → responses_required cl nodes = inr (S n) →
  dc' ≠ c_dcId c → replicaMap !! dc' = Some (p :: others) →
  length arrivals = length nodes → Forall (λ r, succeeded r = false) arrivals →
  ExecuteRead key cl arrivals repairArrivals c =
    Fail (nodeTimeoutError "Read not completed before timeout").
Proof.
  intros Hlocal Hmap Hnodes Hn Hdc Hothers Hlen Herr. unfold ExecuteRead. rewrite Hmap.
  destruct (start_queries_ok (c_heap c) (c_dcId c) cl (map_order (map_to_list replicaMap)) (mkQueries ∅ ∅))
    as [q Hq].
  { intros dcid nodes' Hin Has. rewrite map_order_perm in Hin. apply elem_of_map_to_list in Hin.
    unfold asked in Has. rewrite Hlocal, andb_true_r in Has.
    destruct (bool_decide_reflect (dcid ≠ c_dcId c)) as [|Heq]; [done|]. apply dec_stable in Heq as ->.
    rewrite Hnodes in Hin. injection Hin as <-. eauto. }
  rewrite Hq. rewrite await_errors; [|..|done].
  - pose proof (numMappedNodes_two replicaMap _ _ _ _ Hnodes Hothers ltac:(done)) as Hnum. cbn [length] in Hnum.
    destruct (Nat.leb_spec (numMappedNodes replicaMap) (0 + length arrivals)); [lia|done].
  - apply not_true_iff_false. rewrite consistencySatisfied_spec. intros Hs.
    assert (NoDup (map_order (map_to_list replicaMap)).*1) as Hnd
      by (rewrite map_order_perm; apply NoDup_fst_map_to_list).
    destruct (proj1 (start_queries_required _ _ _ _ _ _ Hnd Hq) (c_dcId c) nodes) as (k & Hk & Hif).
    { rewrite map_order_perm. by apply elem_of_map_to_list. }
    unfold asked in Hif. rewrite bool_decide_eq_false_2 in Hif by (intros H; by apply H).
    cbn [andb negb] in Hif. rewrite Hn in Hif. injection Hif as <-.
    specialize (Hs _ _ Hk). rewrite lookup_empty in Hs. cbn in Hs. lia.
Qed.

(** A node alone in its datacenter, and one in another. *)
Definition example_far_heap : node_heap :=
  {[ 1%positive := NewLocalNode (mkB16 1 1) "DC1" (token_of [0]) "N1";
     2%positive := NewRemoteNodeInfo (mkB16 1 2) "DC2" (token_of [0]) "N2" "127.0.0.1:9998" ]}.

Definition example_far : Cluster (KVStore_ClusterStore (Mo:=MapOrder_id)) :=
  mkCluster (CS:=KVStore_ClusterStore (Mo:=MapOrder_id)) KVStore.NewKVStore [] 2 1%positive
    (add_all (TN:=heap_node example_far_heap) (Mo:=MapOrder_id) [1%positive; 2%positive]
       (NewTopology (mkB16 1 1) "DC1" MD5Partitioner 2))
    "N1" (token_of [0]) (mkB16 1 1) "DC1" "127.0.0.1:9999" MD5Partitioner CLUSTER_NORMAL example_far_heap
    [] [] [] [].

Lemma local_read_errors_time_out_witness :
  ExecuteRead (Mo:=MapOrder_id) (RS:=KVStore_ReadStore) "1234" CONSISTENCY_ONE
    [mkResponse (RS:=KVStore_ReadStore) (mkB16 1 1) None (Some "error")] [] example_far =
    Fail (nodeTimeoutError "Read not completed before timeout").
Proof.
  destruct (GetNodesForKey (Mo:=MapOrder_id) "1234" example_far) as [replicaMap|] eqn:Hmap;
    [|vm_compute in Hmap; discriminate].
  assert ((m ← GetNodesForKey (Mo:=MapOrder_id) "1234" example_far; m !! "DC1") = Some [1%positive]) as H1
    by (vm_compute; reflexivity).
  assert ((m ← GetNodesForKey (Mo:=MapOrder_id) "1234" example_far; m !! "DC2") = Some [2%positive]) as H2
    by (vm_compute; reflexivity).
  rewrite Hmap in H1, H2.
  assert ("DC2" ≠ "DC1") as Hne by discriminate.
  assert (Forall (λ r, succeeded r = false)
    [mkResponse (RS:=KVStore_ReadStore) (mkB16 1 1) None (Some "error")]) as Herr by (by apply Forall_singleton).
  exact (local_read_errors_time_out (Mo:=MapOrder_id) (RS:=KVStore_ReadStore) example_far "1234" CONSISTENCY_ONE
    [mkResponse (RS:=KVStore_ReadStore) (mkB16 1 1) None (Some "error")] [] replicaMap [1%positive] 0 "DC2" 2%positive [] eq_refl Hmap H1 eq_refl Hne H2 eq_refl Herr).
Defined.

(** ** Read repair *)

Lemma send_repairs_spec (m : gmap NodeId nptr) nids instructions :
  length nids = length instructions → NoDup nids → (∀ nid, nid ∈ nids → is_Some (m !! nid)) →
  (∀ nid nid' p, m !! nid = Some p → m !! nid' = Some p → nid = nid') →
  ∃ sent, send_repairs m nids instructions = Some sent ∧
    (∀ p inst, (p, inst) ∈ sent → ∃ nid, nid ∈ nids ∧ m !! nid = Some p) ∧
    ∀ i nid l p, nids !! i = Some nid → instructions !! i = Some l → m !! nid = Some p →
      (filter (λ x, x.1 = p) sent).*2 = l.
Proof.
  intros Hlen Hnd Hdom Hinj. revert instructions Hlen.
  induction Hnd as [|nid nids Hnid Hnd IH]; intros [|l instructions] Hlen; try done.
  { exists []. split_and!; [done|by intros ?? ?%elem_of_nil|done]. }
  destruct (IH ltac:(set_solver) instructions) as (rest & Hrest & Hfrom & Hget); [by injection Hlen|].
  destruct (Hdom nid) as [p Hp]; [by left|].
  exists (map (λ inst, (p, inst)) l ++ rest).
  assert (filter (λ x, x.1 = p) rest = []) as Hnone.
  { apply filter_none, Forall_forall. intros [p' inst] Hin Heq. cbn in Heq. subst p'.
    destruct (Hfrom p inst Hin) as (nid' & Hin' & Hp'). by rewrite (Hinj _ _ _ Hp Hp') in Hnid. }
  assert (∀ p', filter (λ x, x.1 = p') (map (λ inst : Instruction, (p, inst)) l) =
    if decide (p = p') then map (λ inst, (p, inst)) l else []) as Hown.
  { intros p'. destruct (decide (p = p')) as [->|Hne].
    - apply Forall_filter_id, Forall_forall. intros x (inst & -> & _)%list_elem_of_fmap. done.
    - apply filter_none, Forall_forall. intros x (inst & -> & _)%list_elem_of_fmap. done. }
  split_and!.
  - cbn [send_repairs tail head]. rewrite Hrest. destruct l; cbn; [done|]. by rewrite Hp.
  - intros p' inst [(x & [= -> ->] & _)%list_elem_of_fmap|Hin]%elem_of_app.
    + exists nid. split; [by left|done].
    + destruct (Hfrom _ _ Hin) as (nid' & ? & ?). exists nid'. split; [by right|done].
  - intros [|i] nid' l' p' Hi Hl Hp'; cbn in Hi, Hl; rewrite filter_app, Hown, fmap_app.
    + simplify_eq. rewrite decide_True, Hnone by done. rewrite app_nil_r, <-list_fmap_compose. apply list_fmap_id.
    + rewrite decide_False; [by eapply Hget|]. intros ->.
      rewrite (Hinj _ _ _ Hp Hp') in Hnid. apply Hnid. by eapply list_elem_of_lookup_2.
Qed.

(** C30. Read repair brings the nodes together.  Let at least two nodes of the map
    that is read answer before the timeout, each once and each with a value, none
    with nil.  If one of the values has a timestamp and none is a boolean, then the newest value wins, and the
    instructions that [reconcileRead] sends to each of them, executed on a store
    that holds the value that node has answered with, leave the winner under the
    key on all of them: every list of instructions reaches the node it was made
    for. *)
Theorem read_repair_converges (m : gmap NodeId nptr) (key : string) (answers : list (NodeId * KVStore.vref)) :
  NoDup answers.*1 → (∀ nid, nid ∈ answers.*1 → is_Some (m !! nid)) →
  (∀ nid nid' p, m !! nid = Some p → m !! nid' = Some p → nid = nid') →
  (2 ≤ length answers)%nat →
  (∃ v, v ∈ answers.*2 ∧ Time_After (KVStore.GetTimestamp (KVStore.v_val v)) Time_zero = true) →
  Forall (λ v, match KVStore.v_val v with VBoolean _ _ => False | _ => True end) answers.*2 →
  KVStore.ptr_consistent answers.*2 →
  let arrivals := map (λ a, mkResponse (RS:=KVStore_ReadStore) a.1 (Some a.2) None) answers in
  ∃ high repairs, reconcileRead (RS:=KVStore_ReadStore) key m arrivals = Some repairs ∧ high ∈ answers.*2 ∧
    (∀ u, u ∈ answers.*2 →
       Time_After (KVStore.GetTimestamp (KVStore.v_val u)) (KVStore.GetTimestamp (KVStore.v_val high)) = false) ∧
    ∀ nid v p s, (nid, v) ∈ answers → m !! nid = Some p → KVStore.data s !! key = Some (KVStore.v_val v) →
      KVStore.data (KVStore.run_all (filter (λ x, x.1 = p) repairs).*2 s) !! key = Some (KVStore.v_val high).
Proof.
  intros Hnd Hdom Hinj Hlen Hex Hnb Hpc arrivals.
  destruct (KVStore.Reconcile_converges key answers.*2) as (high & repairs & Hrec & Hin & Hmax & Hl & Hrun);
    [by rewrite length_fmap|done..|].
  destruct (send_repairs_spec m answers.*1 repairs) as (sent & Hsent & _ & Hto); [|done..|].
  { by rewrite Hl, !length_fmap. }
  exists high, sent. split_and!; [|done|done|].
  - assert (length answers ≤ size m)%nat as Hsize.
    { rewrite <-(length_fmap fst answers), <-size_dom. rewrite <-(size_list_to_set (C:=gset NodeId)) by done.
      apply subseteq_size. intros nid Hnid%elem_of_list_to_set. by apply elem_of_dom, Hdom. }
    unfold reconcileRead. rewrite take_ge by (unfold arrivals; by rewrite length_map).
    rewrite Forall_filter_id by (apply Forall_forall; by intros r (a & -> & _)%list_elem_of_fmap).
    unfold arrivals. rewrite !map_map. cbn [qr_val qr_nid].
    change (map (λ x, Some x.2) answers) with (Some ∘ snd <$> answers).
    rewrite list_fmap_compose. cbn [rs_Reconcile KVStore_ReadStore]. rewrite Hrec. exact Hsent.
  - intros nid v p s Ha Hp Hs. apply list_elem_of_lookup in Ha as [i Hi].
    assert (i < length repairs)%nat as Hi'.
    { rewrite Hl, length_fmap. by eapply lookup_lt_Some. }
    apply lookup_lt_is_Some in Hi' as [l Hil].
    rewrite (Hto i nid l p); [|by rewrite list_lookup_fmap, Hi|done..].
    eapply Hrun; [|exact Hil|exact Hs]. by rewrite list_lookup_fmap, Hi.
Qed.

Lemma read_repair_converges_witness :
  let answers := [ (mkB16 1 1, KVStore.mkRef 1 (VString "old" (mkTime 5 0 None)));
                   (mkB16 1 2, KVStore.mkRef 2 (VString "new" (mkTime 6 0 None))) ] in
  let m : gmap NodeId nptr := {[ mkB16 1 1 := 1%positive; mkB16 1 2 := 2%positive ]} in
  let arrivals := map (λ a, mkResponse (RS:=KVStore_ReadStore) a.1 (Some a.2) None) answers in
  ∃ high repairs, reconcileRead (RS:=KVStore_ReadStore) "k" m arrivals = Some repairs ∧ high ∈ answers.*2 ∧
    ∀ nid v p s, (nid, v) ∈ answers → m !! nid = Some p → KVStore.data s !! "k" = Some (KVStore.v_val v) →
      KVStore.data (KVStore.run_all (filter (λ x, x.1 = p) repairs).*2 s) !! "k" = Some (KVStore.v_val high).
Proof.
  intros answers m arrivals.
  destruct (read_repair_converges m "k" answers) as (high & repairs & Hrec & Hin & _ & Hrun).
  - apply (bool_decide_unpack _). vm_compute. exact I.
  - intros nid Hnid. cbn in Hnid. rewrite !elem_of_cons, elem_of_nil in Hnid.
    destruct Hnid as [->|[->|[]]]; vm_compute; eexists; reflexivity.
  - intros nid nid' p. unfold m. rewrite !lookup_insert_Some, !lookup_singleton_Some. naive_solver.
  - cbn. lia.
  - exists (KVStore.mkRef 2 (VString "new" (mkTime 6 0 None))). split; [right; left|reflexivity].
  - repeat constructor.
  - intros u v Hu Hv. cbn in Hu, Hv. rewrite !elem_of_cons, elem_of_nil in Hu, Hv. naive_solver.
  - exists high, repairs. exact (conj Hrec (conj Hin Hrun)).
Defined.
