(* ===== verification/Fixtures.v ===== *)
(** * What the cluster's tests are built of

    [src/cluster/testing.go], [node_mock.go] and [store_mock.go]: rings of nodes
    with known tokens, the partitioner for which a key is its own token, mock
    nodes and a mock store that replay prepared answers, and mock connections.
    The ids that the uuid package makes are inputs.  [None] is a panic of the
    fixture; a test pointer to log to is never set. *)

From Stdlib Require Import Ascii.
From S2P Require Import Prelude Bytes Strconv Types GoTime Serializer Partitioner Topology Instruction.
From S2P Require Import KVStore Containers Instance Messages ClusterMessages Decoding Pool Cluster.

(** ** The literal partitioner *)

(** A key that is not a number, or a negative one, is a panic. *)
Definition literal_GetToken (key : string) : option Token :=
  match Atoi key with
  | inl _ => None
  | inr val => if decide (val < 0) then None else Some (be_bytes 8 val)
  end.

(** As a partitioner; keys that are not numbers are not looked up with it. *)
Definition literalPartitioner : Partitioner := λ key, default [] (literal_GetToken key).

(** ** Mock nodes *)

Module MockNodes.
Section nodes.
Context {V : Type}.

Record queryCall := mkQueryCall {
  q_cmd : string;
  q_key : string;
  q_args : list string;
  q_timestamp : Time;
}.

(** A value, which may be nil, and an error, which may be nil. *)
Definition mockQueryResponse : Type := option V * option string.

Record mockNode := mkMockNode {
  k_base : baseNode;
  k_isStarted : bool;
  k_requests : list queryCall;
  k_responses : list mockQueryResponse;
}.

Definition newMockNode (id : NodeId) (dcid : DatacenterID) (token : Token) (name : string) : mockNode :=
  mkMockNode (mkBaseNode name "" token id dcid NODE_UP) false [] [].

(** What the cluster sees of it. *)
Definition as_node (n : mockNode) : Node := MockNode (k_base n) (k_isStarted n).

Definition Start (n : mockNode) : mockNode := mkMockNode (k_base n) true (k_requests n) (k_responses n).
Definition Stop (n : mockNode) : mockNode := mkMockNode (k_base n) false (k_requests n) (k_responses n).

(** Without a response in the channel the call waits for ever. *)
Definition ExecuteQuery (cmd key : string) (args : list string) (timestamp : Time) :
    ST mockNode string mockQueryResponse := λ n,
  let requests := k_requests n ++ [mkQueryCall cmd key args timestamp] in
  match k_responses n with
  | [] => (Panic, mkMockNode (k_base n) (k_isStarted n) requests [])
  | response :: responses => (Ok response, mkMockNode (k_base n) (k_isStarted n) requests responses)
  end.

(** The channel has room for a hundred; without room the call waits. *)
Definition addResponse (val : option V) (err : option string) : ST mockNode string unit := λ n,
  if decide (100 ≤ length (k_responses n))%nat then (Panic, n)
  else (Ok tt, mkMockNode (k_base n) (k_isStarted n) (k_requests n) (k_responses n ++ [(val, err)])).

End nodes.
Arguments mockNode : clear implicits.
Arguments mockQueryResponse : clear implicits.
End MockNodes.

(** ** The mock store *)

Module MockStore.
Import MockNodes.
Section store.
Context {V : Type}.

Definition reconcileCall : Type := string * list (option V).
Definition reconcileResponse : Type := option V * list (list Instruction) * option string.

Record mockStore := mkMockStore {
  requests : list queryCall;
  responses : list (mockQueryResponse V);
  reconcileCalls : list reconcileCall;
  reconcileResponses : list reconcileResponse;
  isStarted : bool;
  isRead : bool;
  isWrite : bool;
  returnsValue : bool;
}.

Definition newMockStore : mockStore := mkMockStore [] [] [] [] false true true true.

Definition addResponse (val : option V) (err : option string) (s : mockStore) : mockStore :=
  mkMockStore (requests s) (responses s ++ [(val, err)]) (reconcileCalls s) (reconcileResponses s)
    (isStarted s) (isRead s) (isWrite s) (returnsValue s).

Definition addReconcileResponse (val : option V) (instructions : list (list Instruction)) (err : option string)
    (s : mockStore) : mockStore :=
  mkMockStore (requests s) (responses s) (reconcileCalls s) (reconcileResponses s ++ [(val, instructions, err)])
    (isStarted s) (isRead s) (isWrite s) (returnsValue s).

(** The call is recorded; without a prepared response the index is out of
    range. *)
Definition ExecuteInstruction (instruction : Instruction) : ST mockStore string (mockQueryResponse V) := λ s,
  let rc := mkQueryCall (Cmd instruction) (Key instruction) (Args instruction) (Timestamp instruction) in
  let s' rs := mkMockStore (requests s ++ [rc]) rs (reconcileCalls s) (reconcileResponses s)
                 (isStarted s) (isRead s) (isWrite s) (returnsValue s) in
  match responses s with
  | [] => (Panic, s' [])
  | rr :: rs => (Ok rr, s' rs)
  end.

Definition Reconcile (key : string) (values : list (option V)) : ST mockStore string reconcileResponse := λ s,
  let s' rs := mkMockStore (requests s) (responses s) (reconcileCalls s ++ [(key, values)]) rs
                 (isStarted s) (isRead s) (isWrite s) (returnsValue s) in
  match reconcileResponses s with
  | [] => (Panic, s' [])
  | rr :: rs => (Ok rr, s' rs)
  end.

(** Whether a command reads, writes or returns a value is what the fields say. *)
Definition InterferingKeys (instruction : Instruction) : list string := [Key instruction].

(** Both set the flag.  The methods for raw keys and for the encoding of values
    return constants. *)
Definition Start (s : mockStore) : mockStore :=
  mkMockStore (requests s) (responses s) (reconcileCalls s) (reconcileResponses s) true
    (isRead s) (isWrite s) (returnsValue s).
Definition Stop (s : mockStore) : mockStore :=
  mkMockStore (requests s) (responses s) (reconcileCalls s) (reconcileResponses s) true
    (isRead s) (isWrite s) (returnsValue s).

End store.
Arguments mockStore : clear implicits.

(** *** Values *)

Record mockStringVal := newMockString { sv_value : string; sv_time : Time }.

(** The values of the cluster's tests. *)
Inductive value :=
  | VMock (v : mockStringVal)
  | VStored (v : Value).

Definition GetValueType (v : value) : string :=
  match v with VMock _ => "STRING" | VStored v => KVStore.GetValueType v end.
Definition GetTimestamp (v : value) : Time :=
  match v with VMock v => sv_time v | VStored v => KVStore.GetTimestamp v end.

Definition baseValueEqual (v0 v1 : value) : bool :=
  if decide (GetValueType v0 ≠ GetValueType v1) then false
  else if decide (GetTimestamp v0 ≠ GetTimestamp v1) then false
  else true.

(** The types that are compared are names: another value with the name ["STRING"]
    gets to the type assertion, which panics. *)
Definition Equal (v : mockStringVal) (o : value) : option bool :=
  if negb (baseValueEqual (VMock v) o) then Some false
  else match o with
       | VMock other => Some (if decide (sv_value v ≠ sv_value other) then false else true)
       | VStored _ => None
       end.

Definition Serialize (v : mockStringVal) : W unit :=
  _ ← WriteFieldBytes (bytes_of_string (sv_value v));
  _ ← WriteTime (sv_time v);
  buf_Flush.

Definition Deserialize : R mockStringVal :=
  val ← ReadFieldBytes;
  t ← ReadTime;
  mret (newMockString (string_of_bytes val) t).

End MockStore.

(** ** Clusters *)

Section clusters.
Context {Mo : MapOrder}.
Abbreviation CS := KVStore_ClusterStore.
Abbreviation C := (ST (Cluster CS) string).

(** The clusters of the tests start alone; an error of [NewCluster] is a panic. *)
Definition testCluster (token : Token) (nid : NodeId) (replicationFactor : Z) (p : Partitioner) : option (Cluster CS) :=
  match NewCluster (CS:=CS) KVStore.NewKVStore "127.0.0.1:9999" "Test Cluster" token nid "DC5000"
          replicationFactor (Some p) None [] [] with
  | inl _ => None
  | inr c => Some c
  end.

Definition setupCluster (nid : NodeId) : option (Cluster CS) :=
  testCluster (token_of [0; 1; 2; 3; 4; 5; 6; 7; 0; 1; 2; 3; 4; 5; 6; 7]) nid 3 MD5Partitioner.

(** The [i]-th mock node of a datacenter; the number becomes a byte of the
    token. *)
Definition ring_mock (dcid : DatacenterID) (i : nat) (nid : NodeId) : MockNodes.mockNode MockStore.value :=
  MockNodes.newMockNode nid dcid (token_of [0; 0; Z.of_nat i; 0]) ("N" +:+ decimal (Z.of_nat i)).

Definition mockNode_TN : TopologyNode (MockNodes.mockNode MockStore.value) := {|
  GetId := λ n, n_id (MockNodes.k_base n);
  GetToken := λ n, n_token (MockNodes.k_base n);
  GetDatacenterId := λ n, n_dcId (MockNodes.k_base n);
|}.

(** A ring with a node for each of the ids, of which the code makes ten. *)
Definition setupRing (nids : list NodeId) : Ring (MockNodes.mockNode MockStore.value) :=
  foldl (λ r n, (@Ring_AddNode _ mockNode_TN Mo n r).2) NewRing (imap (ring_mock "DC5000") nids).

(** One pass of the loops: what [addNode] returns is dropped. *)
Definition add_node (n : Node) : C unit :=
  p ← alloc n;
  _ ← try (addNode p);
  mret tt.

(** The cluster has one node more than there are ids in [nids]. *)
Definition makeRing (nid : NodeId) (nids : list NodeId) (replicationFactor : Z) : option (Cluster CS) :=
  c ← testCluster (token_of [0; 0; 0; 0]) nid replicationFactor MD5Partitioner;
  Some (for_each add_node (imap (λ i nid, MockNodes.as_node (ring_mock "DC5000" (S i) nid)) nids) c).2.

(** [n.isStarted = true] for a remote node. *)
Definition started (n : Node) : Node :=
  match n with RemoteNode b pool _ => RemoteNode b pool true | n => n end.

Definition literal_node (i : nat) (nid : NodeId) : option Node :=
  let tkey := decimal_pad 4 (Z.of_nat i * 1000) in
  token ← literal_GetToken tkey;
  Some (started (NewRemoteNodeInfo nid "DC5000" token ("N" +:+ decimal (Z.of_nat i))
                   ("127.0.0." +:+ decimal (Z.of_nat i + 2) +:+ ":9999"))).

(** The tokens are made as the loop goes. *)
Fixpoint add_literal_nodes (i : nat) (nids : list NodeId) (c : Cluster CS) : option (Cluster CS) :=
  match nids with
  | [] => Some c
  | nid :: nids => n ← literal_node i nid; add_literal_nodes (S i) nids (add_node n c).2
  end.

Definition makeLiteralRing (nid : NodeId) (nids : list NodeId) (replicationFactor : Z) : option (Cluster CS) :=
  token ← literal_GetToken "0000";
  c ← testCluster token nid replicationFactor literalPartitioner;
  add_literal_nodes 1 nids c.

(** The nodes go to the topology directly and are not started; [nids i j] is the
    id of the [j]-th node of the [i]-th datacenter. *)
Definition add_mock (n : MockNodes.mockNode MockStore.value) : C unit :=
  p ← alloc (MockNodes.as_node n);
  _ ← try (topo (λ TN, AddNode p));
  mret tt.

Definition addClusterDC (numDCs numNodes : nat) (nids : nat → nat → NodeId) : C unit :=
  for_each (λ i,
    let dcid := ("DC" +:+ decimal (Z.of_nat (i + 1)))%string in
    for_each (λ j, add_mock (ring_mock dcid j (nids i j))) (seq 0 numNodes)) (seq 0 numDCs).

End clusters.

(** ** Connections

    [Read] is called with a slice of [n] bytes and returns what it has put into
    it. *)

Module Conns.

Record fakeConn := mkFakeConn { isClosed : bool }.
Definition Close (c : fakeConn) : fakeConn := mkFakeConn true.

Inductive conn_error := timeoutError | EOF.

(** The methods of [fakeConn], which [timeoutConn] inherits. *)
Definition fake_Read (n : nat) : res conn_error (list byte) := Fail timeoutError.
Definition fake_Write (b : list byte) : res conn_error nat := Fail timeoutError.

(** [readTimeoutConn] inherits [Read]. *)
Definition readTimeout_Write (b : list byte) : res conn_error nat := Ok (length b).

(** A zero byte for every read. *)
Definition dumb_Read (n : nat) : res conn_error (list byte) :=
  if decide (n = 0)%nat then Panic else Ok [byte_of_Z 0].
Definition dumb_Write (b : list byte) : res conn_error nat := Ok (length b).

(** *** Connections with a buffer for each read and each write *)

(** [bytes.Buffer.Read] *)
Definition buffer_Read (n : nat) (buf : list byte) : res conn_error (list byte) * list byte :=
  if decide (buf = [] ∧ n ≠ 0%nat) then (Fail EOF, []) else (Ok (take n buf), drop n buf).

Record biConn := mkBiConn {
  input : list (list byte);
  output : list (list byte);
  inIdx : nat;
  outIdx : nat;
}.

Definition newBiConn (numIn numOut : nat) : biConn := mkBiConn (replicate numIn []) (replicate numOut []) 0 0.

(** More reads or writes than there are buffers are an index out of range. *)
Definition bi_Read (n : nat) : ST biConn conn_error (list byte) := λ c,
  match input c !! inIdx c with
  | None => (Panic, c)
  | Some buf =>
      let '(r, buf) := buffer_Read n buf in
      (r, mkBiConn (<[inIdx c := buf]> (input c)) (output c) (S (inIdx c)) (outIdx c))
  end.

Definition bi_Write (b : list byte) : ST biConn conn_error nat := λ c,
  match output c !! outIdx c with
  | None => (Panic, c)
  | Some buf =>
      (Ok (length b), mkBiConn (input c) (<[outIdx c := buf ++ b]> (output c)) (inIdx c) (S (outIdx c)))
  end.

(** *** Connections that carry messages *)

(** The output factories of the tests look at the messages and change nothing. *)
Record pgmConn := mkPgmConn {
  incoming : list AnyMessage;
  outgoing : list AnyMessage;
  outputFactory : option (list AnyMessage → list AnyMessage → AnyMessage);
}.

Definition newPgmConn : pgmConn := mkPgmConn [] [] None.

(** A read takes a message, and drops what of it does not fit into the slice.  An
    error of [WriteMessage] is a panic, as is a read without a message. *)
Definition next_outgoing (c : pgmConn) : option (AnyMessage * pgmConn) :=
  match outputFactory c with
  | Some f => Some (f (incoming c) (outgoing c), c)
  | None =>
      match outgoing c with
      | [] => None
      | msg :: rest => Some (msg, mkPgmConn (incoming c) rest (outputFactory c))
      end
  end.

Definition pgm_Read (n : nat) : ST pgmConn conn_error (list byte) := λ c,
  match next_outgoing c with
  | None => (Panic, c)
  | Some (msg, c) =>
      match ClusterMessages.SendMessage msg new_writer with
      | (Ok _, w) => ((buffer_Read n (w_out w)).1, c)
      | _ => (Panic, c)
      end
  end.

(** What is written must be a message. *)
Definition pgm_Write (b : list byte) : ST pgmConn conn_error nat := λ c,
  match (ReceiveMessage [b]).1 with
  | Ok msg => (Ok (length b), mkPgmConn (incoming c ++ [msg]) (outgoing c) (outputFactory c))
  | _ => (Panic, c)
  end.

Definition addOutgoingMessage (m : AnyMessage) (c : pgmConn) : pgmConn :=
  mkPgmConn (incoming c) (outgoing c ++ [m]) (outputFactory c).

End Conns.

(** ** Properties of the fixtures *)

(** [mockStringVal] survives its encoding. *)
Lemma mock_string_roundtrip (v : MockStore.mockStringVal) :
  Instruction.string_ok (MockStore.sv_value v) → Time_fits (MockStore.sv_time v) →
  is_Some (GobEncode (MockStore.sv_time v)) →
  ∃ n, transmits (MockStore.Serialize v) MockStore.Deserialize v n.
Proof.
  intros Hs Ht [tb Htb]. eexists. apply (transmits_intro _ _ _
    (field (bytes_of_string (MockStore.sv_value v)) ++ Instruction.time_bytes (MockStore.sv_time v))); [| |reflexivity].
  - apply encodes_bind; [by apply encodes_field|]. apply KVStore.encodes_flush.
    unfold Instruction.time_bytes. rewrite Htb. by apply encodes_time.
  - eapply decodes_bind; [by apply decodes_field|]. eapply decodes_bind_nil.
    + unfold Instruction.time_bytes. rewrite Htb. by apply decodes_time.
    + rewrite string_of_bytes_of_string. destruct v. apply decodes_ret.
Qed.

(** A message of at most the 4096 bytes that a [bufio.Reader] asks for, put into a
    connection of the tests, is what [ReceiveMessage] reads from it; and what
    [SendMessage] writes to the connection in one piece is recorded as the
    message. *)
Lemma pgm_conn_carries (m : AnyMessage) (inc out : list AnyMessage) :
  CMessageWire.any_ok m → 4 + AnyNumBytes m ≤ 4096 →
  ∃ bs, Conns.pgm_Read 4096 (Conns.mkPgmConn inc (m :: out) None) = (Ok bs, Conns.mkPgmConn inc out None) ∧
    (ReceiveMessage [bs]).1 = Ok (CMessageWire.any_view m) ∧
    ClusterMessages.SendMessage m new_writer = (Ok tt, mkWriter bs None false) ∧
    Conns.pgm_Write bs (Conns.mkPgmConn inc out None) =
      (Ok (length bs), Conns.mkPgmConn (inc ++ [CMessageWire.any_view m]) out None).
Proof.
  intros Hok Hsize. destruct (any_delivers m Hok) as (bs & Hn & [Hw Hd] & _).
  destruct (Hd [bs] []) as (r' & Hr & _); [cbn; by rewrite app_nil_r|]. cbn [app] in Hr.
  exists bs. unfold Conns.pgm_Read, Conns.pgm_Write. cbn [Conns.next_outgoing Conns.outputFactory Conns.outgoing].
  rewrite Hw, Hr. cbn [fst w_out]. split_and!; [|done..].
  unfold Conns.buffer_Read. rewrite decide_False by (intros [-> _]; vm_compute in Hr; discriminate Hr).
  cbn [fst]. rewrite take_ge; [done|]. lia.
Qed.

(** *** Where the keys of a literal ring are *)

Section placement.
Context {Mo : MapOrder}.
Abbreviation CS := KVStore_ClusterStore.

(** The ring of [dc] holds the objects [ps], which are the nodes [ns]. *)
Record holding (dc : DatacenterID) (ps : list nptr) (ns : list Node) (c : Cluster CS) : Prop := {
  holding_wf : cluster_wf c;
  holding_status : c_status c = CLUSTER_INITIALIZING;
  holding_ring : tokenRing (ring_of dc (c_topology c)) ≡ₚ ps;
  holding_nodes : Forall2 (λ p n, base_at (c_heap c) p = base n) ps ns;
}.

(** What the loops leave alone. *)
Definition routed_alike (c c' : Cluster CS) : Prop :=
  c_partitioner c' = c_partitioner c ∧ localDcID (c_topology c') = localDcID (c_topology c) ∧
  replicationFactor (c_topology c') = replicationFactor (c_topology c).

Lemma holding_new dc ps ns n c :
  holding dc ps ns c → n_dcId (base n) = dc → n_id (base n) ∉ (n_id ∘ base <$> ns) → new_node n c.
Proof.
  intros [_ _ Hring Hnodes] Hdc Hid m r Hr Hm E. rewrite Hdc in Hr. apply Hid.
  assert (m ∈ ps) as Hm' by (rewrite <- Hring; unfold ring_of; by rewrite Hr).
  apply list_elem_of_lookup in Hm' as [i Hi]. destruct (Forall2_lookup_l _ _ _ _ _ Hnodes Hi) as (n' & Hn' & Hb).
  apply list_elem_of_fmap. exists n'. split; [|by eapply list_elem_of_lookup_2]. cbn. congruence.
Qed.

Lemma add_node_holding dc ps ns n c :
  holding dc ps ns c → n_dcId (base n) = dc → n_id (base n) ∉ (n_id ∘ base <$> ns) →
  ∃ p c', add_node n c = (Ok tt, c') ∧ holding dc (ps ++ [p]) (ns ++ [n]) c' ∧ routed_alike c c'.
Proof.
  intros Hh Hdc Hid. pose proof (holding_new dc ps ns n c Hh Hdc Hid) as Hnew. destruct Hh as [Hwf Hst Hring Hnodes].
  destruct (AddNode_new n c Hwf Hnew) as (t' & r & Hadd & Ht' & Hperm & Hwf').
  destruct (cluster_wf_alloc n c Hwf) as (Hp & Hnot & _).
  set (p := fresh (dom (c_heap c))) in *. set (c1 := with_heap (<[p := n]> (c_heap c)) c) in *.
  exists p, (with_topology t' c1). split; [|split; [split|]].
  - unfold add_node. rewrite (bind_run _ _ c p c1 eq_refl), bind_try. unfold addNode.
    rewrite (topo_bind _ _ c1 tt t' Hadd). unfold mbind at 1, ST_bind at 1, get.
    rewrite decide_False by (intros E; apply E; exact Hst). done.
  - done.
  - exact Hst.
  - cbn. rewrite Ht'. cbn. unfold ring_of at 1. cbn. rewrite Hdc, lookup_insert_eq. cbn. rewrite Hperm, Hdc, Hring.
    by rewrite Permutation_app_comm.
  - cbn. apply Forall2_app; [|by repeat constructor; apply base_at_insert_eq].
    rewrite Forall2_same_length_lookup in Hnodes |- *. destruct Hnodes as [Hl Hn]. split; [done|].
    intros i q n' Hq Hn'. rewrite base_at_insert_ne; [by eapply Hn|]. intros ->.
    apply list_elem_of_lookup_2 in Hq. rewrite <- Hring in Hq. unfold ring_of in Hq.
    destruct (rings (c_topology c) !! dc) as [r0|] eqn:Hr0; [by eapply Hnot|by apply elem_of_nil in Hq].
  - cbn. by rewrite Ht'.
Qed.

(** A token is the number of eight bytes, and tokens are ordered as numbers. *)
Lemma literal_token width z : 0 ≤ z < 2 ^ 63 → literal_GetToken (decimal_pad width z) = Some (be_bytes 8 z).
Proof. intros Hz. unfold literal_GetToken. by rewrite Atoi_decimal_pad, decide_False by lia. Qed.

Lemma compare_tokens a b : 0 ≤ a < 2 ^ 63 → 0 ≤ b < 2 ^ 63 → bytes_compare (be_bytes 8 a) (be_bytes 8 b) = (a ?= b).
Proof.
  intros Ha Hb. rewrite bytes_compare_be by by rewrite !length_be_bytes. rewrite !be_Z_be_bytes.
  change (256 ^ Z.of_nat 8) with (2 ^ 64). by rewrite !Z.mod_small by lia.
Qed.

Lemma testCluster_holding token nid rf prtnr :
  1 ≤ rf →
  ∃ c, testCluster token nid rf prtnr = Some c ∧
    holding "DC5000" [1%positive] [NewLocalNode nid "DC5000" token "Test Cluster"] c ∧
    c_partitioner c = prtnr ∧ localDcID (c_topology c) = "DC5000" ∧ replicationFactor (c_topology c) = rf.
Proof.
  intros Hrf. unfold testCluster, NewCluster. rewrite decide_False by lia. eexists. split; [reflexivity|].
  set (h := {[1%positive := NewLocalNode nid "DC5000" token "Test Cluster"]} : node_heap).
  pose proof (@NewTopology_wf nptr (heap_node h) nid "DC5000" prtnr rf) as Ht0.
  pose proof (@AddNode_spec nptr (heap_node h) Mo 1%positive _ Ht0) as Hadd. cbv zeta in Hadd.
  pose proof (@AddNode_wf nptr (heap_node h) Mo 1%positive _ Ht0) as Ht.
  change (nodeMap _ !! _) with (None : option nptr) in Hadd. destruct Hadd as (r & Hadd & _ & Hperm & _).
  rewrite Hadd in Ht |- *. cbn [snd] in Ht |- *.
  change (@GetDatacenterId nptr (heap_node h) 1%positive) with "DC5000" in *.
  change (tokenRing (ring_of "DC5000" (NewTopology nid "DC5000" prtnr rf))) with ([] : list nptr) in Hperm.
  split; [|done]. split; [split; [exact Ht|]|done| |by repeat constructor].
  - cbn. intros q dc r' [[<- <-]|[_ Hr']]%lookup_insert_Some Hq; [|by rewrite lookup_empty in Hr'].
    rewrite Hperm in Hq. apply list_elem_of_singleton in Hq as ->. by eexists.
  - cbn. unfold ring_of. cbn. by rewrite lookup_insert_eq.
Qed.

(** What the placement depends on. *)
Definition place (b : baseNode) : NodeId * Token := (n_id b, n_token b).
Definition literal_place (i : nat) (nid : NodeId) : NodeId * Token := (nid, be_bytes 8 (Z.of_nat i * 1000)).

Lemma add_literal_holding nids i ps ns c :
  holding "DC5000" ps ns c → NoDup ((n_id ∘ base <$> ns) ++ nids) → Z.of_nat (i + length nids) * 1000 < 2 ^ 63 →
  ∃ ps' ns' c', add_literal_nodes i nids c = Some c' ∧ holding "DC5000" (ps ++ ps') (ns ++ ns') c' ∧
    routed_alike c c' ∧ place ∘ base <$> ns' = imap (λ j, literal_place (i + j)) nids.
Proof.
  revert i ps ns c. induction nids as [|nid nids IH]; intros i ps ns c Hh Hnd Hsize.
  { exists [], [], c. rewrite !app_nil_r. by split_and!. }
  cbn [length] in Hsize. cbn [add_literal_nodes]. unfold literal_node at 1. rewrite literal_token by lia. cbn [mbind option_bind].
  set (n := started _). apply NoDup_app in Hnd as Hnd'. destruct Hnd' as (_ & Hdisj & _).
  destruct (add_node_holding "DC5000" ps ns n c Hh eq_refl) as (p & c1 & -> & Hh1 & Ha1).
  { intros Hin. apply (Hdisj _ Hin). by left. }
  cbn [snd]. destruct (IH (S i) (ps ++ [p]) (ns ++ [n]) c1 Hh1) as (ps' & ns' & c' & Hrun & Hh' & Ha & Hpl).
  { rewrite fmap_app, <- app_assoc. exact Hnd. }
  { lia. }
  rewrite <- !app_assoc in Hh'. exists (p :: ps'), (n :: ns'), c'. split_and!; [done|exact Hh'| |].
  - destruct Ha as (E1 & E2 & E3), Ha1 as (F1 & F2 & F3). split_and!; congruence.
  - cbn. rewrite Hpl, Nat.add_0_r. f_equal. apply imap_ext. intros j x _. cbn. by rewrite Nat.add_succ_r.
Qed.

Lemma StronglySorted_by_index {A} (R : relation A) (l : list A) :
  (∀ i j x y, (i < j)%nat → l !! i = Some x → l !! j = Some y → R x y) → StronglySorted R l.
Proof.
  induction l as [|a l IH]; intros H; constructor.
  - apply IH. intros i j x y Hij. apply (H (S i) (S j)). lia.
  - apply Forall_lookup. intros j y. apply (H 0%nat (S j)); [lia|done].
Qed.

(** A ring with these tokens in order starts, for a token, at the first node whose
    token is not smaller. *)
Lemma from_literal_token (TN : TopologyNode nptr) ps nids k :
  (λ p, (GetId p, GetToken p)) <$> ps = imap literal_place nids →
  Z.of_nat (length nids) * 1000 < 2 ^ 63 → 0 ≤ k < 2 ^ 63 →
  StronglySorted not_after ps ∧ (∀ p q, p ∈ ps → q ∈ ps → GetToken p = GetToken q → p = q) ∧
  let j := Z.to_nat ((k + 999) `div` 1000) in
  GetId <$> from_token (be_bytes 8 k) ps = drop j nids ++ take j nids.
Proof.
  intros Hps Hsize Hk.
  assert (∀ i p, ps !! i = Some p → (i < length nids)%nat ∧ nids !! i = Some (GetId p) ∧
    GetToken p = be_bytes 8 (Z.of_nat i * 1000)) as Hat.
  { intros i p Hi. assert (((λ p, (GetId p, GetToken p)) <$> ps) !! i = Some (GetId p, GetToken p)) as E
      by by rewrite list_lookup_fmap, Hi.
    rewrite Hps, list_lookup_imap in E. destruct (nids !! i) as [nid|] eqn:Hn; [|done].
    apply (inj Some), pair_equal_spec in E as [E1 E2]. cbn in E1, E2. subst nid.
    split; [by eapply lookup_lt_Some|]. done. }
  assert (GetId <$> ps = nids) as Hids.
  { transitivity (fst <$> ((λ p, (GetId p, GetToken p)) <$> ps)); [by rewrite <- list_fmap_compose|].
    rewrite Hps, fmap_imap. apply list_eq. intros i. rewrite list_lookup_imap. by destruct (nids !! i). }
  assert (length ps = length nids) as Hlen by (rewrite <- Hids; by rewrite length_fmap).
  split_and!.
  - apply StronglySorted_by_index. intros i i' p p' Hii Hp Hp'.
    destruct (Hat i p Hp) as (? & _ & Ht), (Hat i' p' Hp') as (? & _ & Ht').
    unfold not_after, Less. apply bool_decide_eq_false. rewrite Ht, Ht', compare_tokens by lia.
    intros E. rewrite Z.compare_lt_iff in E. lia.
  - intros p q [i Hp]%list_elem_of_lookup [i' Hq]%list_elem_of_lookup E.
    destruct (Hat i p Hp) as (? & _ & Ht), (Hat i' q Hq) as (? & _ & Ht'). rewrite Ht, Ht' in E.
    apply bytes_compare_eq in E. rewrite compare_tokens, Z.compare_eq_iff in E by lia.
    assert (i = i') as -> by lia. congruence.
  - intros j. assert ((k + 999) `div` 1000 * 1000 ≤ k + 999 < ((k + 999) `div` 1000 + 1) * 1000) as Hj
      by (pose proof (Z.div_mod (k + 999) 1000 ltac:(lia)); pose proof (Z.mod_pos_bound (k + 999) 1000 ltac:(lia)); lia).
    assert (0 ≤ (k + 999) `div` 1000) as Hj0 by (apply Z.div_pos; lia).
    rewrite (split_at_token (be_bytes 8 k) ps (j `min` length ps)).
    + rewrite fmap_app, fmap_drop, fmap_take, Hids, Hlen. destruct (decide (j ≤ length nids)%nat).
      * by rewrite Nat.min_l by done.
      * rewrite Nat.min_r by lia. by rewrite !take_ge, !drop_ge by lia.
    + lia.
    + intros i p Hi Hp. destruct (Hat i p Hp) as (? & _ & ->). rewrite compare_tokens by lia.
      apply Z.compare_gt_iff. lia.
    + intros i p Hi Hp. destruct (Hat i p Hp) as (? & _ & ->). rewrite compare_tokens by lia.
      intros E. rewrite Z.compare_gt_iff in E. lia.
Qed.

Lemma places_of h ps ns :
  Forall2 (λ p n, base_at h p = base n) ps ns → (λ p, place (base_at h p)) <$> ps = place ∘ base <$> ns.
Proof.
  induction 1 as [|p n ps ns Hb _ IH]; [done|]. rewrite !fmap_cons, IH. f_equal. cbn. by rewrite Hb.
Qed.

(** C35. In the literal rings of the tests a key is where its number says.  The
    cluster that [makeLiteralRing] builds puts its [i]-th node at token
    [1000 * i]; for a key that is a number [GetLocalNodesForKey] returns the
    node with the next token that is not smaller and those after it, around the
    ring, as many as the replication factor says or as there are.  The pieces
    that this goes through are the decimal encoding of keys, the order of byte
    strings against that of numbers, the sorted ring and its binary search. *)
Theorem literal_ring_places_keys (nid : NodeId) (nids : list NodeId) (rf k : Z)
    (Hids : NoDup (nid :: nids)) (Hsize : Z.of_nat (S (length nids)) * 1000 < 2 ^ 63)
    (Hrf : 1 ≤ rf ≤ u32_max) (Hk : 0 ≤ k < 2 ^ 63) :
  let ids := nid :: nids in
  let first := Z.to_nat ((k + 999) `div` 1000) in
  ∃ c ps, makeLiteralRing nid nids rf = Some c ∧ GetLocalNodesForKey (decimal k) c = Some ps ∧
    (λ p, n_id (base_at (c_heap c) p)) <$> ps = take (Z.to_nat rf) (drop first ids ++ take first ids).
Proof.
  intros ids first. unfold makeLiteralRing. change "0000" with (decimal_pad 4 0). rewrite literal_token by lia.
  cbn [mbind option_bind]. destruct (testCluster_holding (be_bytes 8 0) nid rf literalPartitioner)
    as (c0 & -> & Hh0 & Hp0 & Hdc0 & Hrf0); [lia|]. cbn [mbind option_bind].
  destruct (add_literal_holding nids 1 _ _ c0 Hh0) as (ps' & ns' & c & Hrun & Hh & (Hp & Hdc & Hrfc) & Hpl); [done|lia|].
  rewrite Hrun. set (ps := [1%positive] ++ ps') in *. destruct Hh as [[Ht _] _ Hring Hnodes].
  set (TN := heap_node (c_heap c)) in *.
  assert ((λ p, (GetId p, GetToken p)) <$> ps = imap literal_place ids) as Hplaces.
  { transitivity (place ∘ base <$> (NewLocalNode nid "DC5000" (be_bytes 8 0) "Test Cluster" :: ns')).
    - exact (places_of _ _ _ Hnodes).
    - rewrite fmap_cons, Hpl. reflexivity. }
  destruct (from_literal_token TN ps ids k Hplaces Hsize Hk) as (Hsorted & Hinj & Hfrom).
  pose proof (@ring_of_wf _ TN "DC5000" _ Ht) as Hw.
  assert (tokenRing (ring_of "DC5000" (c_topology c)) = ps) as Hring'.
  { eapply (StronglySorted_unique_strong (@not_after _ TN)); [|apply Hw|exact Hsorted|exact Hring].
    intros x y Hx Hy H1 H2. rewrite Hring in Hx. apply Hinj; [done..|]. by apply (@not_after_antisym _ TN). }
  exists c, (@replicas_of _ TN (be_bytes 8 k) rf ps). split; [done|]. split.
  - unfold GetLocalNodesForKey. rewrite (@GetLocalNodesForToken_spec _ TN) by done.
    rewrite Hdc, Hdc0, Hrfc, Hrf0, Hring', u32_small by lia. do 2 f_equal. rewrite Hp, Hp0.
    unfold literalPartitioner. change (decimal k) with (decimal_pad 0 k). by rewrite literal_token.
  - unfold replicas_of. rewrite fmap_take. f_equal. exact Hfrom.
Qed.

End placement.

(** Five nodes with three replicas: the key 2500 is on the last two and the first. *)
Lemma literal_ring_places_keys_witness :
  let nids := mkB16 1 <$> [2; 3; 4; 5] in
  ∃ c ps, makeLiteralRing (Mo:=MapOrder_id) (mkB16 1 1) nids 3 = Some c ∧
    GetLocalNodesForKey (decimal 2500) c = Some ps ∧
    (λ p, n_id (base_at (c_heap c) p)) <$> ps = mkB16 1 <$> [4; 5; 1].
Proof.
  intros nids. apply (literal_ring_places_keys (Mo:=MapOrder_id) (mkB16 1 1) nids 3 2500).
  - apply (bool_decide_unpack _). vm_compute. exact I.
  - vm_compute. reflexivity.
  - vm_compute. split; discriminate.
  - vm_compute. split; [discriminate|reflexivity].
Defined.
