(* ===== verification/Manager.v ===== *)
(** * The replica's manager: state and the three phases

    [src/consensus/manager.go], [manager_preaccept.go], [manager_accept.go],
    [manager_commit.go] and the [InstanceMap] of [instance_containers.go].

    Instances are shared objects: the map of a replica, a phase in progress
    and a request being handled may hold the same pointer, and whether
    [preaccept], [accept] and [commit] copy from their argument depends on it.
    So instances live in a heap and are passed as pointers.

    An operation runs without interruption except where the code blocks.  What
    happens there is an argument of the operation, a [Wait]: what the other
    goroutines do to the state in the meantime, and what arrives before the
    timeout, in the order of its arrival.  [Persist], the statistics and the
    log have no effect on the state. *)

From S2P Require Import Prelude Bytes Types GoTime Serializer Instruction Containers.
From S2P Require Import Instance Dependencies Messages.

(** What the manager asks of the topology: its own id, and the nodes of the
    local datacenter that replicate a key. *)
Class Placement := {
  local_id : NodeId;
  local_nodes : string → list NodeId;
  local_nodes_NoDup : ∀ key, NoDup (local_nodes key);
}.

Abbreviation ptr := positive.

(** ** [InstanceMap] *)

Abbreviation InstanceMap := (gmap InstanceID ptr).

Module InstanceMap.

Definition NewInstanceMap : InstanceMap := ∅.
Definition Add (iid : InstanceID) (p : ptr) (m : InstanceMap) : InstanceMap := <[iid := p]> m.
Definition Get (iid : InstanceID) (m : InstanceMap) : option ptr := m !! iid.
Definition Len (m : InstanceMap) : nat := size m.
Definition Remove (instance : Instance) (m : InstanceMap) : InstanceMap := delete (i_InstanceID instance) m.
Definition RemoveID (iid : InstanceID) (m : InstanceMap) : InstanceMap := delete iid m.
Definition ContainsID (iid : InstanceID) (m : InstanceMap) : bool := bool_decide (is_Some (m !! iid)).
Definition Contains (instance : Instance) (m : InstanceMap) : bool := ContainsID (i_InstanceID instance) m.
Definition InstanceIDs `{MapOrder} (m : InstanceMap) : list InstanceID := map_order (map_to_list m).*1.
Definition Instances `{MapOrder} (m : InstanceMap) : list ptr := map_order (map_to_list m).*2.

(** Unknown ids are mapped to nil. *)
Definition GetMap (imap : gmap InstanceID (option ptr)) (iids : list InstanceID) (m : InstanceMap) :
    gmap InstanceID (option ptr) :=
  foldl (λ imap iid, <[iid := m !! iid]> imap) imap iids.

End InstanceMap.

Section manager.
Context {St : Store} {Mo : MapOrder} {Pl : Placement}.

Record InstanceResult := mkResult { r_val : option store_value; r_err : option error }.

(** [m_now] is what [time.Now] returns, [m_results] what has been sent to the
    clients' channels, and [m_outbox] what has been sent to other replicas. *)
Record Manager := mkManager {
  m_heap : gmap ptr Instance;
  m_instances : InstanceMap;
  m_executed : list InstanceID;
  m_depsMngr : dependencyMap;
  m_store : store_state;
  m_now : Time;
  m_results : list (InstanceResultChan * InstanceResult);
  m_outbox : list (NodeId * Message);
}.

Definition NewManager (s : store_state) (now : Time) : Manager :=
  mkManager ∅ InstanceMap.NewInstanceMap [] ∅ s now [] [].

Definition with_heap (v : gmap ptr Instance) (m : Manager) : Manager :=
  mkManager v (m_instances m) (m_executed m) (m_depsMngr m) (m_store m) (m_now m) (m_results m) (m_outbox m).
Definition with_instances (v : InstanceMap) (m : Manager) : Manager :=
  mkManager (m_heap m) v (m_executed m) (m_depsMngr m) (m_store m) (m_now m) (m_results m) (m_outbox m).
Definition with_executed (v : list InstanceID) (m : Manager) : Manager :=
  mkManager (m_heap m) (m_instances m) v (m_depsMngr m) (m_store m) (m_now m) (m_results m) (m_outbox m).
Definition with_depsMngr (v : dependencyMap) (m : Manager) : Manager :=
  mkManager (m_heap m) (m_instances m) (m_executed m) v (m_store m) (m_now m) (m_results m) (m_outbox m).
Definition with_store (v : store_state) (m : Manager) : Manager :=
  mkManager (m_heap m) (m_instances m) (m_executed m) (m_depsMngr m) v (m_now m) (m_results m) (m_outbox m).
Definition with_now (v : Time) (m : Manager) : Manager :=
  mkManager (m_heap m) (m_instances m) (m_executed m) (m_depsMngr m) (m_store m) v (m_results m) (m_outbox m).
Definition with_results (v : list (InstanceResultChan * InstanceResult)) (m : Manager) : Manager :=
  mkManager (m_heap m) (m_instances m) (m_executed m) (m_depsMngr m) (m_store m) (m_now m) v (m_outbox m).
Definition with_outbox (v : list (NodeId * Message)) (m : Manager) : Manager :=
  mkManager (m_heap m) (m_instances m) (m_executed m) (m_depsMngr m) (m_store m) (m_now m) (m_results m) v.

Abbreviation M := (ST Manager error).

(** ** Blocking *)

(** What the other goroutines make of the state while one is blocked; [None]
    when the wait has not ended by the time the run is looked at.  The operation
    then goes no further, as after a panic, and the state is that of the wait. *)
Abbreviation Pause := (Manager → option Manager).

Record Wait (A : Type) := mkWait { w_meanwhile : Pause; w_arrivals : list A }.

Arguments mkWait {A} _ _.
Arguments w_meanwhile {A} _.
Arguments w_arrivals {A} _.

Definition wait (meanwhile : Pause) : M unit := λ m,
  match meanwhile m with Some m' => (Ok tt, m') | None => (Panic, m) end.

(** ** Memory *)

Definition load (p : ptr) : M Instance := i ← gets (λ m, m_heap m !! p); deref i.
Definition store (p : ptr) (i : Instance) : M unit :=
  modify (λ m, with_heap (<[p := i]> (m_heap m)) m).
Definition update (p : ptr) (f : Instance → Instance) : M unit := i ← load p; store p (f i).

(** A new object, as [&Instance{}] and a decoded message make them. *)
Definition alloc (i : Instance) : M ptr := λ m,
  let p := fresh (dom (m_heap m)) in (Ok p, with_heap (<[p := i]> (m_heap m)) m).

Fixpoint alloc_all (l : list Instance) : M (list ptr) :=
  match l with
  | [] => mret []
  | i :: l => p ← alloc i; ps ← alloc_all l; mret (p :: ps)
  end.

(** A call on the dependency manager. *)
Definition deps {A} (op : ST dependencyMap error A) : M A := λ m,
  let '(r, dm) := op (m_depsMngr m) in (r, with_depsMngr dm m).

Definition instances_Get (iid : InstanceID) : M (option ptr) :=
  gets (λ m, InstanceMap.Get iid (m_instances m)).

Definition send (msg : Message) (replicas : list NodeId) : M unit :=
  modify (λ m, with_outbox (m_outbox m ++ map (λ n, (n, msg)) replicas) m).

(** ** [manager.go] *)

Definition getInstanceReplicas (instance : Instance) : list NodeId :=
  filter (λ n, n ≠ local_id) (local_nodes (Key (i_Command instance))).

Definition checkLocalKeyEligibility (key : string) : bool :=
  bool_decide (local_id ∈ local_nodes key).

(** [InstanceMap.GetOrSet] *)
Definition GetOrSet (inst : ptr) (initialize : Instance → Instance) : M (ptr * bool) :=
  i ← load inst;
  found ← instances_Get (i_InstanceID i);
  match found with
  | Some instance => mret (instance, true)
  | None =>
      _ ← store inst (initialize i);
      _ ← modify (λ m, with_instances (<[i_InstanceID i := inst]> (m_instances m)) m);
      mret (inst, false)
  end.

Definition initialize (i : Instance) : Instance :=
  if decide (i_Status i > INSTANCE_COMMITTED) then with_Status INSTANCE_COMMITTED i else i.

(** The error of [AddDependency] is not looked at. *)
Definition getOrSetInstance (inst : ptr) : M (ptr * bool) :=
  x ← GetOrSet inst initialize;
  let '(instance, existed) := x in
  i ← load instance;
  _ ← (if decide (existed = false ∧ i_Status i > INSTANCE_PREACCEPTED)
       then _ ← try (deps (DepsMngr.AddDependency i)); mret tt
       else mret tt);
  mret (instance, existed).

Definition addMissingInstance (inst : ptr) : M unit :=
  x ← getOrSetInstance inst;
  let '(instance, existed) := x in
  if existed : bool then mret tt else
  i ← load instance;
  _ ← (if decide (i_Status i = INSTANCE_PREACCEPTED ∨ i_Status i = INSTANCE_ACCEPTED) then mret tt
       else if decide (i_Status i = INSTANCE_COMMITTED ∨ i_Status i = INSTANCE_EXECUTED)
            then store instance (with_Status INSTANCE_COMMITTED i)
            else panic);
  i ← load instance;
  deps (DepsMngr.AddDependency i).

Definition addMissingInstancesUnsafe (instances : list ptr) : M unit :=
  for_each addMissingInstance instances.

Definition max_ballot (ballots : list Z) : Z :=
  foldl (λ maxBallot ballot, if decide (ballot > maxBallot) then ballot else maxBallot) 0 ballots.

Definition updateInstanceBallotFromResponses (instance : ptr) (ballots : list Z) : M unit :=
  update instance (λ i, (Instance.updateBallot (max_ballot ballots) i).1).

(** [for numReceived < quorumSize { select ... }]: the responses received and
    those still in the channel, or [None] when the timeout comes first. *)
Fixpoint receive {A} (numReceived quorumSize : nat) (responses arrivals : list A) :
    option (list A * list A) :=
  if (numReceived <? quorumSize)%nat then
    match arrivals with
    | [] => None
    | r :: arrivals => receive (S numReceived) quorumSize (responses ++ [r]) arrivals
    end
  else Some (responses, arrivals).

Definition quorumSize (replicas : list NodeId) : nat := (length replicas `div` 2 + 1)%nat.

(** Runs a method of [*Instance] whose argument may be the receiver itself. *)
Definition argument (instance inst : ptr) : M (option Instance) :=
  if decide (inst = instance) then mret None else Some <$> load inst.

Definition lift {A} (r : res error A) : M A := λ m, (r, m).

(** ** [manager_preaccept.go] *)

Definition preaccept (instance inst : ptr) (incrementBallot : bool) : M unit :=
  i ← load instance;
  o ← argument instance inst;
  i ← lift (Instance.preaccept_enter o i);
  _ ← store instance i;
  ids ← deps (DepsMngr.GetAndSetDeps i);
  now ← gets m_now;
  store instance (Instance.preaccept_leave ids now incrementBallot i).

Definition preAcceptInstance (inst : ptr) (incrementBallot : bool) : M unit :=
  x ← getOrSetInstance inst;
  preaccept x.1 inst incrementBallot.

Definition sendPreAccept (instance : ptr) (replicas : list NodeId) (w : Wait PreAcceptResponse) :
    M (list PreAcceptResponse) :=
  i ← load instance;
  _ ← send (MPreAcceptRequest (mkPreAcceptRequest (Instance.Copy i))) replicas;
  _ ← wait (w_meanwhile w);
  match receive 1 (quorumSize replicas) [] (w_arrivals w) with
  | None => fail (TimeoutError "Timeout while awaiting pre accept responses")
  | Some (responses, _) =>
      if forallb pa_Accepted responses then mret responses
      else
        _ ← updateInstanceBallotFromResponses instance (map PreAcceptResponse.GetBallot responses);
        fail (BallotError "Ballot number rejected")
  end.

(** The bool is returned next to the error. *)
Fixpoint mergePreAcceptAttributes (instance : ptr) (responses : list PreAcceptResponse)
    (changes : bool) : M (bool * option error) :=
  match responses with
  | [] => mret (changes, None)
  | response :: responses =>
      i ← load instance;
      match Instance.mergeAttributes (i_Dependencies (pa_Instance response)) i with
      | Ok (i, mergeChanges) =>
          _ ← store instance i;
          mergePreAcceptAttributes instance responses (changes || mergeChanges)
      | Fail e => mret (changes, Some e)
      | Panic => panic
      end
  end.

Definition addMissing (missing : list Instance) : M unit :=
  ps ← alloc_all missing; addMissingInstancesUnsafe ps.

Definition managerPreAcceptPhase (inst : ptr) (w : Wait PreAcceptResponse) :
    M (bool * option error) :=
  i ← load inst;
  let replicas := getInstanceReplicas i in
  x ← try (preAcceptInstance inst true);
  match x with
  | inr e => if is_InvalidStatusUpdateError e then mret None else mret (Some e)
  | inl _ => mret None
  end ≫= λ stop,
  match stop with Some e => mret (false, Some e) | None =>
  found ← instances_Get (i_InstanceID i);
  instance ← deref found;
  x ← try (sendPreAccept instance replicas w);
  match x with inr e => mret (false, Some e) | inl paResponses =>
  x ← try (for_each (λ r, addMissing (pa_MissingInstances r)) paResponses);
  match x with inr e => mret (false, Some e) | inl _ =>
  mergePreAcceptAttributes instance paResponses false
  end end end.

(** Copies of the instances of [iids] that this replica knows. *)
Fixpoint copies (iids : list InstanceID) : M (list Instance) :=
  match iids with
  | [] => mret []
  | iid :: iids =>
      found ← instances_Get iid;
      match found with
      | None => copies iids
      | Some p => i ← load p; l ← copies iids; mret (Instance.Copy i :: l)
      end
  end.

(** Sending to the caller: only errors other than [InvalidStatusUpdateError]
    stop a handler or a phase. *)
Definition ignore_invalid_status (m : M unit) : M unit :=
  x ← try m;
  match x with
  | inl _ => mret tt
  | inr e => if is_InvalidStatusUpdateError e then mret tt else fail e
  end.

(** The second half of the handler: compare the dependencies and reply. *)
Definition replyPreAccept (iid : InstanceID) (extDeps : InstanceIDSet) : M PreAcceptResponse :=
  found ← instances_Get iid;
  instance ← deref found;
  i ← load instance;
  let newDeps := InstanceIDSet.NewInstanceIDSet (i_Dependencies i) in
  let i := with_DependencyMatch (InstanceIDSet.Equal extDeps newDeps) i in
  _ ← store instance i;
  missing ← copies (InstanceIDSet.List (InstanceIDSet.Difference newDeps extDeps));
  mret (mkPreAcceptResponse true (i_MaxBallot i) (Instance.Copy i) missing).

(** The stored instance when its ballot is not below the request's. *)
Definition outdated (iid : InstanceID) (ballot : Z) : M (option Instance) :=
  found ← instances_Get iid;
  match found with
  | None => mret None
  | Some p => i ← load p; if decide (i_MaxBallot i >= ballot) then mret (Some i) else mret None
  end.

Definition HandlePreAccept (request : PreAcceptRequest) : M PreAcceptResponse :=
  let r := pareq_Instance request in
  let extDeps := InstanceIDSet.NewInstanceIDSet (i_Dependencies r) in
  rejected ← outdated (i_InstanceID r) (i_MaxBallot r);
  match rejected with
  | Some i => mret (mkPreAcceptResponse false (i_MaxBallot i) (Instance.Copy i) [])
  | None =>
      inst ← alloc r;
      _ ← ignore_invalid_status (preAcceptInstance inst false);
      replyPreAccept (i_InstanceID r) extDeps
  end.

(** ** [manager_accept.go] *)

Definition accept (instance inst : ptr) (incrementBallot : bool) : M unit :=
  i ← load instance;
  o ← argument instance inst;
  now ← gets m_now;
  i ← lift (Instance.accept o now incrementBallot i);
  store instance i.

Definition acceptInstance (inst : ptr) (incrementBallot : bool) : M unit :=
  x ← getOrSetInstance inst;
  _ ← accept x.1 inst incrementBallot;
  i ← load x.1;
  deps (DepsMngr.ReportAcknowledged i).

Definition sendAccept (instance : ptr) (replicas : list NodeId) (w : Wait AcceptResponse) : M unit :=
  i ← load instance;
  _ ← send (MAcceptRequest (mkAcceptRequest (Instance.Copy i) [])) replicas;
  _ ← wait (w_meanwhile w);
  match receive 1 (quorumSize replicas) [] (w_arrivals w) with
  | None => fail (TimeoutError "Timeout while awaiting accept responses")
  | Some (responses, _) =>
      if forallb a_Accepted responses then mret tt
      else
        _ ← updateInstanceBallotFromResponses instance (map AcceptResponse.GetBallot responses);
        fail (BallotError "Ballot number rejected")
  end.

Definition managerAcceptPhase (inst : ptr) (w : Wait AcceptResponse) : M unit :=
  i ← load inst;
  let replicas := getInstanceReplicas i in
  _ ← ignore_invalid_status (acceptInstance inst true);
  found ← instances_Get (i_InstanceID i);
  instance ← deref found;
  sendAccept instance replicas w.

Definition HandleAccept (request : AcceptRequest) : M AcceptResponse :=
  let r := areq_Instance request in
  _ ← (if decide (areq_MissingInstances request = []) then mret tt
       else _ ← try (addMissing (areq_MissingInstances request)); mret tt);
  rejected ← outdated (i_InstanceID r) (i_MaxBallot r);
  match rejected with
  | Some i => mret (mkAcceptResponse false (i_MaxBallot i))
  | None =>
      inst ← alloc r;
      _ ← ignore_invalid_status (acceptInstance inst false);
      mret (mkAcceptResponse true 0)
  end.

(** ** [manager_commit.go] *)

Definition commit (instance inst : ptr) (incrementBallot : bool) : M unit :=
  i ← load instance;
  o ← argument instance inst;
  i ← lift (Instance.commit o incrementBallot i);
  store instance i.

(** The broadcast of the commit event reaches the goroutines that wait; what
    they then do is an operation of its own. *)
Definition commitInstance (inst : ptr) (incrementBallot : bool) : M unit :=
  x ← getOrSetInstance inst;
  _ ← commit x.1 inst incrementBallot;
  i ← load x.1;
  deps (DepsMngr.ReportAcknowledged i).

Definition sendCommit (instance : ptr) (replicas : list NodeId) : M unit :=
  i ← load instance;
  send (MCommitRequest (mkCommitRequest (Instance.Copy i))) replicas.

Definition managerCommitPhase (inst : ptr) : M unit :=
  i ← load inst;
  let replicas := getInstanceReplicas i in
  _ ← ignore_invalid_status (commitInstance inst true);
  found ← instances_Get (i_InstanceID i);
  instance ← deref found;
  sendCommit instance replicas.

Definition HandleCommit (request : CommitRequest) : M unit :=
  inst ← alloc (creq_Instance request);
  ignore_invalid_status (commitInstance inst false).

End manager.

Arguments mkWait {St A} _ _.
Arguments w_meanwhile {St A} _.
Arguments w_arrivals {St A} _.
