(* ===== verification/Invariant.v ===== *)
(** * The invariant of a replica

    What holds between the parts of the [Manager]'s state, and how an instance
    may change over time; shown for the operations of [Manager.v], in the form
    [preserves (grows B)], by which the proofs about composed operations are
    put together. *)

From S2P Require Import Prelude Bytes Types GoTime Serializer Instruction Containers.
From S2P Require Import Instance Dependencies Messages Manager.

(** Any ballot: used where the ballots do not matter. *)
Definition any_ballot (b b' : Z) : Prop := True.
#[export] Instance any_ballot_preorder : PreOrder any_ballot.
Proof. by split. Qed.

Section invariant.
Context {St : Store} {Mo : MapOrder} {Pl : Placement}.
Abbreviation M := (ST Manager error).

(** [iid] is stored, at [p], as [i]. *)
Definition stored (m : Manager) (iid : InstanceID) (p : ptr) (i : Instance) : Prop :=
  m_instances m !! iid = Some p ∧ m_heap m !! p = Some i.

(** The map is indexed by the instances' own ids and never dangles; no status
    is above [INSTANCE_EXECUTED]; the list of executed ids has no duplicates
    and names exactly the stored instances that are executed; the dependency
    manager marks no other id as executed. *)
Record wf (m : Manager) : Prop := {
  wf_ptr : ∀ iid p, m_instances m !! iid = Some p →
    ∃ i, m_heap m !! p = Some i ∧ i_InstanceID i = iid ∧ i_Status i ≤ INSTANCE_EXECUTED;
  wf_NoDup : NoDup (m_executed m);
  wf_executed : ∀ iid, iid ∈ m_executed m ↔
    ∃ p i, stored m iid p i ∧ i_Status i = INSTANCE_EXECUTED;
  wf_view : ∀ keys iid, iid ∈ s_executed (view (m_depsMngr m) keys) → iid ∈ m_executed m;
}.

(** How an instance may change: its identity and its command do not, its
    status does not go down, its ballot changes by [B], and once it is executed
    its dependencies and its noop flag are final. *)
Record evolves (B : Z → Z → Prop) (i i' : Instance) : Prop := {
  ev_id : i_InstanceID i' = i_InstanceID i;
  ev_leader : i_LeaderID i' = i_LeaderID i;
  ev_successors : i_Successors i' = i_Successors i;
  ev_command : i_Command i' = i_Command i;
  ev_readonly : i_ReadOnly i' = i_ReadOnly i;
  ev_status : i_Status i ≤ i_Status i';
  ev_bound : i_Status i ≤ INSTANCE_EXECUTED → i_Status i' ≤ INSTANCE_EXECUTED;
  ev_ballot : B (i_MaxBallot i) (i_MaxBallot i');
  ev_frozen : i_Status i = INSTANCE_EXECUTED →
    i_Dependencies i' = i_Dependencies i ∧ i_Noop i' = i_Noop i;
}.

#[export] Instance evolves_preorder B `{!PreOrder B} : PreOrder (evolves B).
Proof.
  split; [intros i; by split|].
  intros i j k [] []. split; try congruence; try lia; auto.
  - by etrans.
  - intros Hi. assert (i_Status j = INSTANCE_EXECUTED) by (rewrite Hi in *; unfold INSTANCE_EXECUTED in *; lia).
    naive_solver congruence.
Qed.

(** Nothing that is stored is lost, the executed ids are only added to, and a
    command that the dependency manager has recorded stays recorded until it is
    executed. *)
Record evolution (B : Z → Z → Prop) (m m' : Manager) : Prop := {
  evo_stored : ∀ iid p i, stored m iid p i → ∃ i', stored m' iid p i' ∧ evolves B i i';
  evo_executed : m_executed m `prefix_of` m_executed m';
  evo_pending : ∀ i, i_InstanceID i ∉ m_executed m' →
    pending i (view (m_depsMngr m)) → pending i (view (m_depsMngr m'));
}.

#[export] Instance evolution_preorder B `{!PreOrder B} : PreOrder (evolution B).
Proof.
  split.
  - intros m. split; [|done..]. intros iid p i Hs. exists i. split; [done|reflexivity].
  - intros m1 m2 m3 [S1 X1 P1] [S2 X2 P2]. split; [|by etrans|].
    + intros iid p i Hs. destruct (S1 _ _ _ Hs) as (i1 & H1 & E1).
      destruct (S2 _ _ _ H1) as (i2 & H2 & E2). exists i2. split; [done|by etrans].
    + intros i Hi Hp. apply P2; [done|]. apply P1; [|done].
      destruct X2 as [l Hl]. rewrite Hl in Hi. set_solver.
Qed.

(** The relation that operations are shown to preserve. *)
Definition grows (B : Z → Z → Prop) (m m' : Manager) : Prop := wf m → wf m' ∧ evolution B m m'.

#[export] Instance grows_preorder B `{!PreOrder B} : PreOrder (grows B).
Proof.
  split.
  - intros m Hm. split; [done|reflexivity].
  - intros m1 m2 m3 H12 H23 H1. destruct (H12 H1) as [H2 E12]. destruct (H23 H2) as [H3 E23].
    split; [done|by etrans].
Qed.

Lemma wf_NewManager s now : wf (NewManager s now).
Proof.
  split.
  - intros iid p. cbn. unfold InstanceMap.NewInstanceMap. rewrite lookup_empty. done.
  - constructor.
  - intros iid. cbn. split; [by intros ?%not_elem_of_nil|]. intros (p & i & [H1 _] & _). done.
  - intros [|k keys] iid; cbn; [|rewrite lookup_empty]; intros ?%not_elem_of_empty; done.
Qed.

Lemma stored_inj m iid iid' p i i' :
  wf m → stored m iid p i → stored m iid' p i' → iid = iid' ∧ i = i'.
Proof.
  intros Hm [H1 H2] [H3 H4]. simplify_eq. split; [|done].
  apply (wf_ptr m Hm) in H1 as (? & ? & ? & _). apply (wf_ptr m Hm) in H3 as (? & ? & ? & _). by simplify_eq.
Qed.

(** *** Changes that keep the heap's stored part *)

(** A state that differs only where the invariant does not look. *)
Lemma grows_frame B `{!PreOrder B} m m' :
  m_heap m' = m_heap m → m_instances m' = m_instances m → m_executed m' = m_executed m →
  (∀ i, i_InstanceID i ∉ m_executed m → pending i (view (m_depsMngr m)) →
    pending i (view (m_depsMngr m'))) →
  (∀ keys iid, iid ∈ s_executed (view (m_depsMngr m') keys) →
    iid ∈ s_executed (view (m_depsMngr m) keys) ∨ iid ∈ m_executed m) →
  grows B m m'.
Proof.
  intros Hh Hi He Hp Hx [W1 W2 W3 W4]. unfold stored in *. split.
  - split; unfold stored; rewrite ?Hh, ?Hi, ?He; auto. intros keys iid [?|?]%Hx; eauto.
  - split; rewrite ?He; [|done..]. intros iid p i Hs. exists i. unfold stored in *.
    rewrite Hh, Hi. split; [done|reflexivity].
Qed.

(** One object is assigned, in a way that keeps it executed or not. *)
Lemma grows_store B `{!PreOrder B} m p i i' :
  m_heap m !! p = Some i → evolves B i i' →
  (i_Status i' = INSTANCE_EXECUTED → i_Status i = INSTANCE_EXECUTED) →
  grows B m (with_heap (<[p := i']> (m_heap m)) m).
Proof.
  intros Hp Hev Hex Hwf. destruct Hwf as [W1 W2 W3 W4].
  assert (∀ iid q j, stored m iid q j → stored (with_heap (<[p := i']> (m_heap m)) m) iid q (if decide (q = p) then i' else j)) as Hfwd.
  { intros iid q j [H1 H2]. split; [done|]. cbn. case_decide; subst;
      [by rewrite lookup_insert_eq|by rewrite lookup_insert_ne]. }
  assert (∀ iid q j, stored m iid q j → evolves B j (if decide (q = p) then i' else j)) as Hevo.
  { intros iid q j [H1 H2]. case_decide; subst; [by simplify_eq|reflexivity]. }
  split; split; cbn.
  - intros iid q Hq. destruct (W1 _ _ Hq) as (j & H1 & H2 & H3).
    destruct (Hfwd iid q j (conj Hq H1)) as [_ Hl]. pose proof (Hevo iid q j (conj Hq H1)) as [].
    eexists. split; [exact Hl|]. split; [congruence|auto].
  - done.
  - intros iid. rewrite W3. split.
    + intros (q & j & Hs & Hst). eexists q, _. split; [by apply Hfwd|].
      destruct (Hevo _ _ _ Hs) as [? ? ? ? ? Hle Hb]. rewrite Hst in *.
      specialize (Hb (Z.le_refl _)). lia.
    + intros (q & j & [H1 H2] & Hst). cbn in H1, H2.
      destruct (decide (q = p)) as [->|Hne]; [rewrite lookup_insert_eq in H2|rewrite lookup_insert_ne in H2 by done].
      * simplify_eq. exists p, i. split; [done|auto].
      * exists q, j. done.
  - done.
  - intros iid q j Hs. eexists. split; [by apply Hfwd|]. by eapply Hevo.
  - done.
  - done.
Qed.

Lemma grows_alloc B `{!PreOrder B} i m : grows B m (alloc i m).2.
Proof.
  intros [W1 W2 W3 W4]. unfold alloc. cbn. set (p := fresh (dom (m_heap m))).
  assert (m_heap m !! p = None) as Hp by apply not_elem_of_dom, is_fresh.
  assert (∀ iid q j, m_instances m !! iid = Some q →
    <[p := i]> (m_heap m) !! q = Some j ↔ m_heap m !! q = Some j) as Hq.
  { intros iid q j Hq. destruct (W1 _ _ Hq) as (j' & Hj & _).
    rewrite lookup_insert_ne by congruence. done. }
  split; split; unfold stored; cbn.
  - intros iid q Hm. destruct (W1 _ _ Hm) as (j & Hj & ?). exists j. by rewrite Hq.
  - done.
  - intros iid. rewrite W3. unfold stored.
    split; intros (q & j & [H1 H2] & H3); exists q, j; (split; [split; [done|]|done]); by eapply Hq.
  - done.
  - intros iid q j [H1 H2]. exists j. split; [split; [done|]; by eapply Hq|reflexivity].
  - done.
  - done.
Qed.
(** ** The operations of the manager *)

Context (B : Z → Z → Prop) `{!PreOrder B} (B_le : ∀ b b', b ≤ b' → B b b').

Lemma preserves_frame {A} (op : M A) :
  (∀ m, m_heap (op m).2 = m_heap m ∧ m_instances (op m).2 = m_instances m ∧
        m_executed (op m).2 = m_executed m ∧ m_depsMngr (op m).2 = m_depsMngr m) →
  preserves (grows B) op.
Proof. intros H m. destruct (H m) as (? & ? & ? & E). apply grows_frame; rewrite ?E; auto. Qed.

Lemma preserves_load p : preserves (grows B) (load p).
Proof. apply preserves_bind; [apply _|apply preserves_gets, _|intros; apply preserves_deref, _]. Qed.

Lemma preserves_alloc i : preserves (grows B) (alloc i).
Proof. intros m. by apply grows_alloc. Qed.

(** A call on the dependency manager, when the executions it reports have been
    listed as executed. *)
Lemma grows_run_op o m :
  (∀ j, o = OpExecuted j → i_InstanceID j ∈ m_executed m) →
  grows B m (with_depsMngr (run_op o (m_depsMngr m)) m).
Proof.
  intros Ho. apply grows_frame; [done..| |].
  - intros i Hi. apply pending_run_op. destruct o as [| |j|]; try done.
    cbn. intros Heq. apply Hi. rewrite <-Heq. by apply Ho.
  - intros keys iid [?|(j & -> & ->)]%executed_run_op; [by left|right; by apply Ho].
Qed.

Lemma preserves_GetAndSetDeps j : preserves (grows B) (deps (DepsMngr.GetAndSetDeps j)).
Proof.
  intros m. pose proof (grows_run_op (OpRecord j) m) as H. cbn [run_op] in H.
  unfold deps. destruct (DepsMngr.GetAndSetDeps j (m_depsMngr m)). by apply H.
Qed.

Lemma preserves_ReportAcknowledged j : preserves (grows B) (deps (DepsMngr.ReportAcknowledged j)).
Proof.
  intros m. pose proof (grows_run_op (OpAcknowledge j) m) as H. cbn [run_op] in H.
  unfold deps. destruct (DepsMngr.ReportAcknowledged j (m_depsMngr m)). by apply H.
Qed.

Lemma preserves_AddDependency j : preserves (grows B) (deps (DepsMngr.AddDependency j)).
Proof.
  intros m. pose proof (grows_run_op (OpAdd j) m) as H. cbn [run_op] in H.
  unfold deps. destruct (DepsMngr.AddDependency j (m_depsMngr m)). by apply H.
Qed.

(** Execution is reported after the id has been listed as executed. *)
Lemma grows_ReportExecuted j m :
  i_InstanceID j ∈ m_executed m → grows B m (deps (DepsMngr.ReportExecuted j) m).2.
Proof.
  intros Hj. pose proof (grows_run_op (OpExecuted j) m) as H. cbn [run_op] in H.
  unfold deps. destruct (DepsMngr.ReportExecuted j (m_depsMngr m)). apply H. by intros ? [= ->].
Qed.

Lemma preserves_send msg l : preserves (grows B) (send msg l).
Proof. by apply preserves_frame. Qed.

Lemma preserves_lift {A} (r : res error A) : preserves (grows B) (lift r).
Proof. by apply preserves_frame. Qed.

Lemma preserves_instances_Get iid : preserves (grows B) (instances_Get iid).
Proof. by apply preserves_frame. Qed.

Lemma preserves_argument p q : preserves (grows B) (argument p q).
Proof.
  unfold argument. case_decide; [apply preserves_ret, _|].
  apply preserves_bind; [apply _|apply preserves_load|intros; apply preserves_ret, _].
Qed.

Lemma preserves_alloc_all l : preserves (grows B) (alloc_all l).
Proof.
  induction l as [|i l IH]; cbn; [apply preserves_ret, _|].
  apply preserves_bind; [apply _|apply preserves_alloc|intros].
  apply preserves_bind; [apply _|done|intros; apply preserves_ret, _].
Qed.

(** What a load and a store are on a given heap. *)
Lemma load_eq p m :
  load p m = (match m_heap m !! p with Some i => Ok i | None => Panic end, m).
Proof. unfold load, mbind, ST_bind, gets, deref. by destruct (m_heap m !! p). Qed.

Lemma preserves_update p f :
  (∀ i, evolves B i (f i)) → (∀ i, i_Status (f i) = i_Status i) → preserves (grows B) (update p f).
Proof.
  intros Hf Hs m. unfold update. rewrite (bind_eval _ _ _ _ _ (load_eq p m)).
  destruct (m_heap m !! p) as [i|] eqn:Hp; [|reflexivity].
  eapply grows_store; [apply _|exact Hp|apply Hf|by rewrite Hs].
Qed.

Lemma initialize_status i : i_Status (initialize i) ≤ INSTANCE_COMMITTED.
Proof. unfold initialize, INSTANCE_COMMITTED. case_decide; cbn; lia. Qed.

Lemma initialize_id i : i_InstanceID (initialize i) = i_InstanceID i.
Proof. unfold initialize. by case_decide. Qed.

Lemma grows_insert m inst i :
  m_heap m !! inst = Some i → m_instances m !! i_InstanceID i = None →
  grows B m (with_instances (<[i_InstanceID i := inst]> (m_instances m))
    (with_heap (<[inst := initialize i]> (m_heap m)) m)).
Proof.
  intros Hi Hnone Hwf. pose proof Hwf as [W1 W2 W3 W4].
  assert (∀ iid q, m_instances m !! iid = Some q → q ≠ inst ∧ iid ≠ i_InstanceID i) as Hne.
  { intros iid q Hq. split; [|congruence]. intros ->. destruct (W1 _ _ Hq) as (j & Hj & Hid & _).
    simplify_eq. }
  set (m' := with_instances _ _).
  assert (∀ iid q j, stored m iid q j → stored m' iid q j) as Hfwd.
  { intros iid q j [H1 H2]. destruct (Hne _ _ H1). split; cbn; by rewrite lookup_insert_ne. }
  assert (∀ iid q j, stored m' iid q j →
    stored m iid q j ∨ (iid = i_InstanceID i ∧ q = inst ∧ j = initialize i)) as Hbwd.
  { intros iid q j [H1 H2]. cbn in H1, H2. apply lookup_insert_Some in H1 as [[<- <-]|[H0 H1]].
    - rewrite lookup_insert_eq in H2. simplify_eq. auto.
    - destruct (Hne _ _ H1). rewrite lookup_insert_ne in H2 by done. by left. }
  split; split.
  - intros iid q Hq. cbn in Hq. apply lookup_insert_Some in Hq as [[<- <-]|[H0 Hq]].
    + exists (initialize i). cbn. rewrite lookup_insert_eq. split_and!; [done|apply initialize_id|].
      pose proof (initialize_status i). unfold INSTANCE_COMMITTED, INSTANCE_EXECUTED in *. lia.
    + destruct (W1 _ _ Hq) as (j & Hj & Hrest). destruct (Hfwd iid q j (conj Hq Hj)) as [_ Hl].
      exists j. done.
  - done.
  - intros iid. cbn [m_executed with_instances with_heap m']. rewrite W3. split.
    + intros (q & j & Hs & Hx). exists q, j. auto.
    + intros (q & j & [Hs|(-> & -> & ->)]%Hbwd & Hx); [by exists q, j|].
      pose proof (initialize_status i). rewrite Hx in *. done.
  - done.
  - intros iid q j Hs. exists j. split; [by apply Hfwd|reflexivity].
  - done.
  - done.
Qed.

Lemma bind_instances_Get {A} iid (f : option ptr → M A) m :
  (instances_Get iid ≫= f) m = f (m_instances m !! iid) m.
Proof. done. Qed.

Lemma preserves_GetOrSet inst : preserves (grows B) (GetOrSet inst initialize).
Proof.
  intros m. unfold GetOrSet. rewrite (bind_eval _ _ _ _ _ (load_eq inst m)).
  destruct (m_heap m !! inst) as [i|] eqn:Hi; [|reflexivity].
  rewrite bind_instances_Get.
  destruct (m_instances m !! i_InstanceID i) as [p|] eqn:Hp; [reflexivity|].
  exact (grows_insert m inst i Hi Hp).
Qed.

Hint Resolve preserves_load preserves_alloc preserves_GetAndSetDeps preserves_ReportAcknowledged
  preserves_AddDependency preserves_send preserves_lift
  preserves_instances_Get preserves_argument preserves_alloc_all preserves_GetOrSet : preserves.

Lemma preserves_getOrSetInstance inst : preserves (grows B) (getOrSetInstance inst).
Proof. unfold getOrSetInstance. preserves_tac. Qed.

Hint Resolve preserves_getOrSetInstance : preserves.

(** *** Status changes *)

Lemma bind_load {A} p (k : Instance → M A) m :
  (load p ≫= k) m = match m_heap m !! p with Some i => k i m | None => (Panic, m) end.
Proof. rewrite (bind_eval _ _ _ _ _ (load_eq p m)). by destruct (m_heap m !! p). Qed.

Lemma bind_argument {A} p q (k : option Instance → M A) m :
  (argument p q ≫= k) m =
    if decide (q = p) then k None m
    else match m_heap m !! q with Some o => k (Some o) m | None => (Panic, m) end.
Proof.
  unfold argument. case_decide; [done|]. unfold fmap, ST_fmap.
  rewrite (bind_eval _ _ _ (match m_heap m !! q with Some o => Ok (Some o) | None => Panic end) m).
  - by destruct (m_heap m !! q).
  - rewrite bind_load. by destruct (m_heap m !! q).
Qed.

Lemma bind_lift {A C} (r : res error A) (k : A → M C) m :
  (lift r ≫= k) m = match r with Ok a => k a m | Fail e => (Fail e, m) | Panic => (Panic, m) end.
Proof. by destruct r. Qed.

(** A change that leaves the executed instances alone. *)
Definition advances (i i' : Instance) : Prop :=
  evolves B i i' ∧ (i_Status i' = INSTANCE_EXECUTED → i_Status i = INSTANCE_EXECUTED).

Context (incr : bool) (B_incr : incr = true → ∀ b, B b (u32_incr b)).

Lemma ballot_step o b i :
  B (i_MaxBallot i) b → B (i_MaxBallot i) (i_MaxBallot (Instance.take_ballot o (with_MaxBallot b i))).
Proof.
  intros Hb. unfold Instance.take_ballot. cbn. case_decide; cbn; [|done].
  etrans; [exact Hb|]. apply B_le. lia.
Qed.

Ltac statuses :=
  unfold INSTANCE_PREACCEPTED, INSTANCE_ACCEPTED, INSTANCE_COMMITTED, INSTANCE_EXECUTED in *.
Ltac evolve_tac :=
  repeat (unfold Instance.take_ballot, Instance.bump, Instance.setDeps in *; cbn in *; case_match; simplify_eq);
  (split; [split|]); cbn in *; statuses; try done; try lia; auto; try (intros; exfalso; lia).

Lemma preaccept_advances o i i1 ids now :
  Instance.preaccept_enter o i = Ok i1 →
  advances i i1 ∧ advances i1 (Instance.preaccept_leave ids now incr i1).
Proof.
  unfold Instance.preaccept_enter, Instance.preaccept_leave. intros H. split.
  - destruct o; evolve_tac; try (apply B_le; lia); try reflexivity.
  - assert (i_Status i1 = INSTANCE_PREACCEPTED) by (case_decide; simplify_eq; done).
    clear H. evolve_tac; reflexivity.
Qed.

Lemma accept_advances o now i i' : Instance.accept o now incr i = Ok i' → advances i i'.
Proof.
  unfold Instance.accept. intros H. destruct o; evolve_tac;
    try (etrans; [|by apply B_incr]); try (apply B_le; lia); try reflexivity.
Qed.

Lemma commit_advances o i i' : Instance.commit o incr i = Ok i' → advances i i'.
Proof.
  unfold Instance.commit. intros H. destruct o; evolve_tac;
    try (etrans; [|by apply B_incr]); try (apply B_le; lia); try reflexivity.
Qed.

Lemma grows_advances m p i i' :
  m_heap m !! p = Some i → advances i i' → grows B m (with_heap (<[p := i']> (m_heap m)) m).
Proof. intros Hp [He Hx]. by eapply grows_store. Qed.

Lemma preserves_accept p q : preserves (grows B) (accept p q incr).
Proof.
  intros m. unfold accept. rewrite bind_load. destruct (m_heap m !! p) as [i|] eqn:Hp; [|reflexivity].
  rewrite bind_argument. repeat case_match; try reflexivity;
    rewrite bind_gets, bind_lift; case_match eqn:Ha; try reflexivity;
    (eapply grows_advances; [exact Hp|by eapply accept_advances]).
Qed.

Lemma preserves_commit p q : preserves (grows B) (commit p q incr).
Proof.
  intros m. unfold commit. rewrite bind_load. destruct (m_heap m !! p) as [i|] eqn:Hp; [|reflexivity].
  rewrite bind_argument. repeat case_match; try reflexivity;
    rewrite bind_lift; case_match eqn:Ha; try reflexivity;
    (eapply grows_advances; [exact Hp|by eapply commit_advances]).
Qed.

(** [preaccept] after the status has been set. *)
Lemma grows_preaccept_tail m p i o i1 :
  m_heap m !! p = Some i → Instance.preaccept_enter o i = Ok i1 →
  grows B m ((_ ← store p i1; ids ← deps (DepsMngr.GetAndSetDeps i1); now ← gets m_now;
              store p (Instance.preaccept_leave ids now incr i1)) m).2.
Proof.
  intros Hp He. set (m1 := with_heap (<[p := i1]> (m_heap m)) m).
  assert (grows B m m1) as H1.
  { eapply grows_advances; [exact Hp|]. by eapply (preaccept_advances o i i1 [] Time_zero). }
  rewrite (bind_run _ _ m tt m1 eq_refl). etrans; [exact H1|].
  apply preserves_bind_dep; [apply _|apply preserves_GetAndSetDeps|]. intros ids m2 Hdeps.
  rewrite bind_gets. apply (grows_advances m2 p i1).
  - unfold deps in Hdeps. destruct (DepsMngr.GetAndSetDeps i1 _). simplify_eq. apply lookup_insert_eq.
  - by eapply preaccept_advances.
Qed.

Lemma preserves_preaccept p q : preserves (grows B) (preaccept p q incr).
Proof.
  intros m. unfold preaccept. rewrite bind_load. destruct (m_heap m !! p) as [i|] eqn:Hp; [|reflexivity].
  rewrite bind_argument. repeat case_match; try reflexivity;
    rewrite bind_lift; case_match eqn:Ha; try reflexivity; by eapply grows_preaccept_tail.
Qed.

Hint Resolve preserves_accept preserves_commit preserves_preaccept : preserves.

Lemma preserves_preAcceptInstance p : preserves (grows B) (preAcceptInstance p incr).
Proof. unfold preAcceptInstance. preserves_tac. Qed.

Lemma preserves_acceptInstance p : preserves (grows B) (acceptInstance p incr).
Proof. unfold acceptInstance. preserves_tac. Qed.

Lemma preserves_commitInstance p : preserves (grows B) (commitInstance p incr).
Proof. unfold commitInstance. preserves_tac. Qed.

Lemma preserves_ignore (op : M unit) :
  preserves (grows B) op → preserves (grows B) (ignore_invalid_status op).
Proof. intros H. unfold ignore_invalid_status. preserves_tac. Qed.

End invariant.

#[export] Hint Resolve preserves_load preserves_alloc preserves_GetAndSetDeps preserves_ReportAcknowledged
  preserves_AddDependency preserves_send preserves_lift
  preserves_instances_Get preserves_argument preserves_alloc_all preserves_getOrSetInstance
  preserves_preAcceptInstance preserves_acceptInstance preserves_commitInstance
  preserves_ignore : preserves.
#[export] Hint Extern 0 (PreOrder _) => typeclasses eauto : preserves.
#[export] Hint Extern 1 => lazymatch goal with |- false = true → _ => discriminate end : preserves.

(** ** What [getOrSetInstance] returns *)

Section get_or_set.
Context {St : Store} {Mo : MapOrder} {Pl : Placement}.
Abbreviation M := (ST Manager error).

(** The dependency manager does not panic. *)
Lemma AddDependency_total i dm : ∃ dm', DepsMngr.AddDependency i dm = (Ok tt, dm') ∨
  DepsMngr.AddDependency i dm = (Fail DepsMngr.no_keys, dm').
Proof.
  destruct (decide (keys_of i = [])) as [Hk|Hk].
  - destruct (mngr_no_keys i dm Hk) as (_ & _ & _ & ->). eauto.
  - destruct (mngr_AddDependency i dm Hk) as (dm' & -> & _). eauto.
Qed.

(** The state after the object at [inst], which is [i], has been put in the map. *)
Definition inserted (inst : ptr) (i : Instance) (m : Manager) : Manager :=
  with_depsMngr
    (if decide (i_Status (initialize i) > INSTANCE_PREACCEPTED)
     then (DepsMngr.AddDependency (initialize i) (m_depsMngr m)).2 else m_depsMngr m)
    (with_instances (<[i_InstanceID i := inst]> (m_instances m))
      (with_heap (<[inst := initialize i]> (m_heap m)) m)).

Lemma getOrSetInstance_found inst i p j m :
  m_heap m !! inst = Some i → m_instances m !! i_InstanceID i = Some p → m_heap m !! p = Some j →
  getOrSetInstance inst m = (Ok (p, true), m).
Proof.
  intros Hi Hp Hj. unfold getOrSetInstance.
  rewrite (bind_run _ _ m (p, true) m).
  2: { unfold GetOrSet. rewrite bind_load, Hi, bind_instances_Get, Hp. done. }
  rewrite bind_load, Hj. rewrite decide_False by naive_solver. done.
Qed.

Lemma getOrSetInstance_new inst i m :
  m_heap m !! inst = Some i → m_instances m !! i_InstanceID i = None →
  getOrSetInstance inst m = (Ok (inst, false), inserted inst i m).
Proof.
  intros Hi Hp. unfold getOrSetInstance.
  set (m1 := with_instances (<[i_InstanceID i := inst]> (m_instances m))
               (with_heap (<[inst := initialize i]> (m_heap m)) m)).
  rewrite (bind_run _ _ m (inst, false) m1).
  2: { unfold GetOrSet. rewrite bind_load, Hi, bind_instances_Get, Hp. done. }
  rewrite bind_load. cbn. rewrite lookup_insert_eq. unfold inserted.
  destruct (decide (i_Status (initialize i) > INSTANCE_PREACCEPTED)) as [Hs|Hs].
  - rewrite decide_True by done.
    destruct (AddDependency_total (initialize i) (m_depsMngr m)) as (dm' & [Ha|Ha]); rewrite Ha;
      unfold mbind, ST_bind, try, deps; cbn; rewrite Ha; done.
  - rewrite decide_False by naive_solver. by destruct m.
Qed.

(** It always answers for a valid pointer in a well-formed state. *)
Lemma getOrSetInstance_ok inst i m :
  wf m → m_heap m !! inst = Some i →
  ∃ p b m' j, getOrSetInstance inst m = (Ok (p, b), m') ∧ stored m' (i_InstanceID i) p j ∧
    if b : bool then m' = m else p = inst ∧ j = initialize i ∧ m' = inserted inst i m.
Proof.
  intros Hm Hi. destruct (m_instances m !! i_InstanceID i) as [p|] eqn:Hp.
  - destruct (wf_ptr m Hm _ _ Hp) as (j & Hj & _).
    exists p, true, m, j. rewrite (getOrSetInstance_found _ _ _ _ _ Hi Hp Hj). done.
  - exists inst, false, (inserted inst i m), (initialize i).
    rewrite (getOrSetInstance_new _ _ _ Hi Hp). split_and!; [done| |done..].
    split; cbn; apply lookup_insert_eq.
Qed.

(** A panic means that the pointer was nil or dangling. *)
Lemma getOrSetInstance_new_inv inst m p m' :
  getOrSetInstance inst m = (Ok (p, false), m') →
  ∃ i, m_heap m' !! p = Some i ∧ i_Status i ≤ INSTANCE_COMMITTED.
Proof.
  intros H. destruct (m_heap m !! inst) as [i|] eqn:Hi.
  2: { unfold getOrSetInstance, GetOrSet in H. st_inv. rewrite load_eq, Hi in *. simplify_eq. }
  destruct (m_instances m !! i_InstanceID i) as [q|] eqn:Hq.
  - unfold getOrSetInstance in H. apply bind_ok in H as ([p' b] & m1 & HG & H).
    unfold GetOrSet in HG. rewrite bind_load, Hi, bind_instances_Get, Hq in HG.
    unfold mret, ST_ret in HG. simplify_eq. rewrite bind_load in H. case_match; [|done]. by st_inv.
  - rewrite (getOrSetInstance_new _ _ _ Hi Hq) in H. simplify_eq. exists (initialize i).
    split; [apply lookup_insert_eq|apply initialize_status].
Qed.
End get_or_set.

(** ** Composed operations *)

Section operations.
Context {St : Store} {Mo : MapOrder} {Pl : Placement}.
Context (B : Z → Z → Prop) `{!PreOrder B} (B_le : ∀ b b', b ≤ b' → B b b').
Abbreviation M := (ST Manager error).

Lemma preserves_addMissingInstance p : preserves (grows B) (addMissingInstance p).
Proof.
  intros m. unfold addMissingInstance. apply preserves_bind_dep; [apply _|by apply preserves_getOrSetInstance|].
  intros [q []] m1 Hg; [reflexivity|]. apply getOrSetInstance_new_inv in Hg as (i & Hi & Hs).
  rewrite bind_load, Hi. apply preserves_bind_dep; [apply _| |].
  - repeat case_decide; try reflexivity. eapply grows_advances; [done|exact Hi|].
    unfold INSTANCE_COMMITTED, INSTANCE_EXECUTED in *.
    split; [split|]; cbn; try done; try lia; unfold INSTANCE_EXECUTED; lia.
  - intros [] m2 _. apply preserves_bind; [apply _|by apply preserves_load|]. intros. by apply preserves_AddDependency.
Qed.
Hint Resolve preserves_addMissingInstance : preserves.

Lemma preserves_addMissing l : preserves (grows B) (addMissing l).
Proof. unfold addMissing, addMissingInstancesUnsafe. preserves_tac. Qed.

Lemma updateBallot_evolves b i : evolves B i (Instance.updateBallot b i).1.
Proof.
  unfold Instance.updateBallot. case_decide; cbn; [|reflexivity].
  split; cbn; try done. apply B_le. lia.
Qed.

Lemma preserves_updateBallot p b : preserves (grows B) (update p (λ i, (Instance.updateBallot b i).1)).
Proof.
  apply preserves_update; [done|intros; apply updateBallot_evolves|].
  intros i. unfold Instance.updateBallot. by case_decide.
Qed.
Hint Resolve preserves_addMissing preserves_updateBallot : preserves.

Lemma preserves_copies l : preserves (grows B) (copies l).
Proof. induction l; cbn; preserves_tac. Qed.

Lemma preserves_outdated iid b : preserves (grows B) (outdated iid b).
Proof. unfold outdated. preserves_tac. Qed.

(** Loading an object and assigning a change of it. *)
Lemma preserves_load_store {A} p (f : Instance → Instance) (k : Instance → M A) :
  (∀ i, evolves B i (f i)) → (∀ i, i_Status (f i) = i_Status i) → (∀ i, preserves (grows B) (k i)) →
  preserves (grows B) (i ← load p; _ ← store p (f i); k i).
Proof.
  intros Hf Hs Hk m. rewrite bind_load. destruct (m_heap m !! p) as [i|] eqn:Hp; [|reflexivity].
  apply preserves_bind_dep; [apply _| |intros; apply Hk].
  eapply grows_store; [done|exact Hp|apply Hf|by rewrite Hs].
Qed.

Lemma preserves_replyPreAccept iid ext : preserves (grows B) (replyPreAccept iid ext).
Proof.
  unfold replyPreAccept. apply preserves_bind; [apply _|by apply preserves_instances_Get|intros found].
  apply preserves_bind; [apply _|apply preserves_deref, _|intros p].
  set (f := λ i, with_DependencyMatch (InstanceIDSet.Equal ext
    (InstanceIDSet.NewInstanceIDSet (i_Dependencies i))) i).
  apply (preserves_load_store p f).
  - intros i. by split.
  - done.
  - intros i. apply preserves_bind; [apply _|apply preserves_copies|]. intros. apply preserves_ret, _.
Qed.
Hint Resolve preserves_copies preserves_outdated preserves_replyPreAccept : preserves.

Lemma preserves_HandlePreAccept r : preserves (grows B) (HandlePreAccept r).
Proof. unfold HandlePreAccept. preserves_tac. Qed.

Lemma preserves_HandleAccept r : preserves (grows B) (HandleAccept r).
Proof. unfold HandleAccept. preserves_tac. Qed.

Lemma preserves_HandleCommit r : preserves (grows B) (HandleCommit r).
Proof. unfold HandleCommit. preserves_tac. Qed.

(** *** The leader's phases, which also increment ballots *)

Context (B_incr : true = true → ∀ b, B b (u32_incr b)).

(** What happens during a wait respects the invariant. *)
Definition calm (f : Manager → option Manager) : Prop := ∀ m m', f m = Some m' → grows B m m'.

Lemma preserves_wait f : calm f → preserves (grows B) (wait f).
Proof. intros Hf m. unfold wait. destruct (f m) as [m'|] eqn:Hm; [by apply Hf|reflexivity]. Qed.
Hint Resolve preserves_wait : preserves.

Lemma preserves_sendPreAccept p l w :
  calm (w_meanwhile w) → preserves (grows B) (sendPreAccept p l w).
Proof. intros Hw. unfold sendPreAccept, updateInstanceBallotFromResponses. preserves_tac. Qed.

Lemma preserves_sendAccept p l w :
  calm (w_meanwhile w) → preserves (grows B) (sendAccept p l w).
Proof. intros Hw. unfold sendAccept, updateInstanceBallotFromResponses. preserves_tac. Qed.

Lemma preserves_sendCommit p l : preserves (grows B) (sendCommit p l).
Proof. unfold sendCommit. preserves_tac. Qed.

Lemma mergeAttributes_advances ds i i' b :
  Instance.mergeAttributes ds i = Ok (i', b) → advances B i i'.
Proof.
  unfold Instance.mergeAttributes, Instance.setDeps. repeat case_match; intros; simplify_eq; cbn;
    (split; [split|]); cbn in *; try done; try reflexivity;
    unfold INSTANCE_PREACCEPTED, INSTANCE_EXECUTED in *; intros; exfalso; lia.
Qed.

Lemma preserves_mergePreAcceptAttributes p rs c : preserves (grows B) (mergePreAcceptAttributes p rs c).
Proof.
  revert c; induction rs as [|r rs IH]; intros c; cbn [mergePreAcceptAttributes]; [apply preserves_ret, _|].
  intros m. rewrite bind_load. destruct (m_heap m !! p) as [i|] eqn:Hp; [|reflexivity].
  destruct (Instance.mergeAttributes _ i) as [[i' b]|e|] eqn:Hm; try reflexivity.
  apply preserves_bind_dep; [apply _| |intros; apply IH].
  eapply grows_advances; [done|exact Hp|by eapply mergeAttributes_advances].
Qed.
Hint Resolve preserves_sendPreAccept preserves_sendAccept preserves_sendCommit
  preserves_mergePreAcceptAttributes : preserves.

Lemma preserves_managerPreAcceptPhase p w :
  calm (w_meanwhile w) → preserves (grows B) (managerPreAcceptPhase p w).
Proof. intros Hw. unfold managerPreAcceptPhase. preserves_tac. Qed.

Lemma preserves_managerAcceptPhase p w :
  calm (w_meanwhile w) → preserves (grows B) (managerAcceptPhase p w).
Proof. intros Hw. unfold managerAcceptPhase. preserves_tac. Qed.

Lemma preserves_managerCommitPhase p : preserves (grows B) (managerCommitPhase p).
Proof. unfold managerCommitPhase. preserves_tac. Qed.

End operations.

#[export] Hint Resolve preserves_wait preserves_addMissing preserves_updateBallot preserves_managerPreAcceptPhase
  preserves_managerAcceptPhase preserves_managerCommitPhase preserves_HandlePreAccept
  preserves_HandleAccept preserves_HandleCommit : preserves.
