(* ===== verification/Prepare.v ===== *)
(** * Explicit prepare

    [src/consensus/manager_prepare.go]: how a replica takes over an instance
    whose leader is suspected to have failed. *)

From S2P Require Import Prelude Bytes Types GoTime Serializer Instruction Containers.
From S2P Require Import Instance Dependencies Messages Manager Invariant.

Section prepare.
Context {St : Store} {Mo : MapOrder} {Pl : Placement}.
Abbreviation M := (ST Manager error).

(** ** Reading the responses *)

(** The instances in the responses that have one. *)
Definition known (responses : list PrepareResponse) : list Instance := omap p_Instance responses.

Definition highest_ballot (responses : list PrepareResponse) : Z :=
  foldl (λ maxBallot i, if decide (i_MaxBallot i > maxBallot) then i_MaxBallot i else maxBallot)
    0 (known responses).

(** The second loop: among the instances at the highest ballot, the first of
    the highest status. *)
Fixpoint highest_status (maxBallot maxStatus : Z) (instance : option Instance) (l : list Instance) :
    option Instance :=
  match l with
  | [] => instance
  | i :: l =>
      if decide (i_MaxBallot i < maxBallot) then highest_status maxBallot maxStatus instance l
      else if decide (i_Status i > maxStatus) then highest_status maxBallot (i_Status i) (Some i) l
      else highest_status maxBallot maxStatus instance l
  end.

Definition analyzePrepareResponses (responses : list PrepareResponse) : option Instance :=
  match known responses with
  | [] => None
  | l => highest_status (highest_ballot responses) 0 None l
  end.

(** Nothing calls this unfinished function; it only ever returns a noop for an
    instance no other replica has seen. *)
Definition applyPrepareResponses (responses : list PrepareResponse) (localInstance : Instance) :
    res error (option Instance) :=
  let otherInstances := bool_decide (known responses ≠ []) in
  let referenceInstance := Instance.Copy localInstance in
  if negb otherInstances then
    if decide (i_Status referenceInstance ≠ INSTANCE_PREACCEPTED)
    then Fail (Errorf "Instance is unknown by other nodes")
    else Ok (Some (with_Noop true referenceInstance))
  else Ok None.

(** ** Sending *)

(** [drained] further responses are in the channel when the quorum is there. *)
Definition managerSendPrepare (instance : ptr) (w : Wait PrepareResponse) (drained : nat) :
    M (list PrepareResponse) :=
  i ← load instance;
  let replicas := getInstanceReplicas i in
  let '(i, ballot) := Instance.incrementBallot i in
  _ ← store instance i;
  _ ← send (MPrepareRequest (mkPrepareRequest ballot (i_InstanceID i))) replicas;
  _ ← wait (w_meanwhile w);
  match receive 1 (quorumSize replicas) [] (w_arrivals w) with
  | None => fail (TimeoutError "Timeout while awaiting pre accept responses")
  | Some (responses, rest) => mret (responses ++ take drained rest)
  end.

(** ** Checking *)

Definition max_status (responses : list PrepareResponse) : Z :=
  foldl (λ maxStatus i, if decide (i_Status i > maxStatus) then i_Status i else maxStatus)
    0 (known responses).

(** The last instance with both the highest ballot and the highest status. *)
Definition max_instance (responses : list PrepareResponse) : option Instance :=
  foldl (λ o i, if decide (i_MaxBallot i = highest_ballot responses ∧ i_Status i = max_status responses)
                then Some i else o) None (known responses).

Definition managerPrepareCheckResponses (instance : ptr) (responses : list PrepareResponse) : M unit :=
  _ ← update instance (λ i, (Instance.updateBallot (highest_ballot responses) i).1);
  if forallb p_Accepted responses then mret tt else
  i ← load instance;
  _ ← match max_instance responses with
      | None => mret tt
      | Some r =>
          if decide (i_Status r > i_Status i) then
            maxInstance ← alloc r;
            if decide (i_Status r = INSTANCE_ACCEPTED) then acceptInstance maxInstance false
            else if decide (i_Status r = INSTANCE_COMMITTED ∨ i_Status r = INSTANCE_EXECUTED)
              then commitInstance maxInstance false
              else mret tt
          else mret tt
      end;
  fail (BallotError "Prepare request(s) rejected").

(** ** Applying *)

(** The answers the phases of one attempt get. *)
Record PhaseRun := mkPhaseRun {
  ph_prepare : Wait PrepareResponse;
  ph_drained : nat;
  ph_preaccept : Wait PreAcceptResponse;
  ph_accept : Wait AcceptResponse;
}.

(** The instance the phases start from, and the status that says with which. *)
Definition choosePrepareInstance (instance : ptr) (responses : list PrepareResponse) : M (ptr * Z) :=
  i ← load instance;
  match analyzePrepareResponses responses with
  | Some remote =>
      if decide (i_Status i > i_Status remote) then mret (instance, i_Status i)
      else p ← alloc remote; mret (p, i_Status remote)
  | None =>
      if decide (i_Status i <= INSTANCE_PREACCEPTED) then
        _ ← store instance (Instance.setNoop i);
        mret (instance, INSTANCE_PREACCEPTED)
      else mret (instance, INSTANCE_PREACCEPTED)
  end.

(** The accept phase and what it falls through to. *)
Definition accept_and_commit (prepareInstance instance : ptr) (w : Wait AcceptResponse) : M unit :=
  _ ← managerAcceptPhase prepareInstance w;
  managerCommitPhase instance.

Definition managerPrepareApply (instance : ptr) (responses : list PrepareResponse) (run : PhaseRun) :
    M unit :=
  _ ← managerPrepareCheckResponses instance responses;
  x ← choosePrepareInstance instance responses;
  let '(prepareInstance, status) := x in
  if decide (status = INSTANCE_PREACCEPTED) then
    y ← managerPreAcceptPhase prepareInstance (ph_preaccept run);
    match y with
    | (_, Some e) => fail e
    | (acceptRequired, None) =>
        if acceptRequired : bool then accept_and_commit instance instance (ph_accept run)
        else managerCommitPhase instance
    end
  else if decide (status = INSTANCE_ACCEPTED) then
    accept_and_commit prepareInstance instance (ph_accept run)
  else if decide (status = INSTANCE_COMMITTED ∨ status = INSTANCE_EXECUTED) then
    managerCommitPhase prepareInstance
  else fail (Errorf "Unknown instance status").

Definition managerPreparePhase (instance : ptr) (run : PhaseRun) : M unit :=
  i ← load instance;
  if decide (i_Status i >= INSTANCE_COMMITTED) then mret tt else
  responses ← managerSendPrepare instance (ph_prepare run) (ph_drained run);
  managerPrepareApply instance responses run.

(** ** Deferring to successors *)

(** How the wait for a successor ends. *)
Inductive successor_event :=
  | SResponse (r : PrepareSuccessorResponse)
  | SError
  | SCommitEvent
  | STimeout.

Record SuccessorWait := mkSuccessorWait {
  sw_meanwhile : Manager → option Manager;
  sw_event : successor_event;
}.

(** The response of a successor that knows the instance. *)
Definition handleSuccessorResponse (instance : ptr) (r : Instance) : M (bool * option error) :=
  i ← load instance;
  if decide (i_Status r > i_Status i) then
    if decide (i_Status r = INSTANCE_ACCEPTED) then
      x ← try (acceptInstance instance false);
      match x with inl _ => mret (false, None) | inr e => mret (false, Some e) end
    else if decide (i_Status r = INSTANCE_COMMITTED ∨ i_Status r = INSTANCE_EXECUTED) then
      x ← try (commitInstance instance false);
      match x with inl _ => mret (true, None) | inr e => mret (false, Some e) end
    else mret (false, None)
  else mret (false, None).

(** Waits beyond the given ones end in a timeout in which nothing happens. *)
Fixpoint deferToSuccessors (instance : ptr) (iid : InstanceID) (replicas : list NodeId)
    (successors : list NodeId) (waits : list SuccessorWait) : M (bool * option error) :=
  match successors with
  | [] => mret (true, None)
  | nid :: successors =>
      if decide (nid = local_id) then mret (true, None)
      else if decide (nid ∈ replicas) then
        let w := default (mkSuccessorWait Some STimeout) (head waits) in
        _ ← send (MPrepareSuccessorRequest (mkPrepareSuccessorRequest iid)) [nid];
        _ ← wait (sw_meanwhile w);
        match sw_event w with
        | SResponse r =>
            match ps_Instance r with
            | None => deferToSuccessors instance iid replicas successors (tail waits)
            | Some r => handleSuccessorResponse instance r
            end
        | SCommitEvent => mret (true, None)
        | SError | STimeout => deferToSuccessors instance iid replicas successors (tail waits)
        end
      else deferToSuccessors instance iid replicas successors waits
  end.

Definition managerDeferToSuccessor (instance : ptr) (waits : list SuccessorWait) :
    M (bool * option error) :=
  i ← load instance;
  deferToSuccessors instance (i_InstanceID i) (getInstanceReplicas i) (i_Successors i) waits.

(** ** Whether to proceed *)

(** The wait for the commit event or for the commit timeout. *)
Record ProceedWait := mkProceedWait {
  pw_meanwhile : Manager → option Manager;
  pw_commitEvent : bool;
}.

Definition prepareShouldProceed (instance : ptr) (w : ProceedWait) : M bool :=
  i ← load instance;
  if decide (i_Status i >= INSTANCE_COMMITTED) then mret false else
  now ← gets m_now;
  if Time_After now (i_commitTimeout i) then mret true else
  _ ← wait (pw_meanwhile w);
  if pw_commitEvent w then mret false else
  i ← load instance;
  mret (negb (bool_decide (i_Status i >= INSTANCE_COMMITTED))).

(** ** The whole prepare *)

(** One pass of the loop: the interval that passes, and the next round of
    successors. *)
Record DeferRound := mkDeferRound {
  dr_interval : Manager → option Manager;
  dr_waits : list SuccessorWait;
}.

Record PrepareRun := mkPrepareRun {
  pr_proceed : ProceedWait;
  pr_defer : list SuccessorWait;
  pr_rounds : list DeferRound;
  pr_commitEvent : Manager → option Manager;
  pr_proceed_again : ProceedWait;
  pr_phase : PhaseRun;
}.

(** [true] when the loop ends and the prepare goes on; after the last round
    the commit event arrives, and [false] is returned. *)
Fixpoint deferLoop (inst instance : ptr) (deferred : bool) (err : option error)
    (rounds : list DeferRound) (commitEvent : Manager → option Manager) : M bool :=
  i ← load inst;
  if decide ((deferred = false ∨ err ≠ None) ∧ i_Status i < INSTANCE_COMMITTED) then
    match err with
    | Some e => fail e
    | None =>
        match rounds with
        | [] => _ ← wait commitEvent; mret false
        | r :: rounds =>
            _ ← wait (dr_interval r);
            x ← managerDeferToSuccessor instance (dr_waits r);
            deferLoop inst instance x.1 x.2 rounds commitEvent
        end
    end
  else mret true.

Definition managerPrepareInstance (inst : ptr) (run : PrepareRun) : M unit :=
  x ← getOrSetInstance inst;
  let instance := x.1 in
  proceed ← prepareShouldProceed instance (pr_proceed run);
  if negb proceed then mret tt else
  x ← managerDeferToSuccessor instance (pr_defer run);
  continue ← deferLoop inst instance x.1 x.2 (pr_rounds run) (pr_commitEvent run);
  if negb continue then mret tt else
  proceed ← prepareShouldProceed instance (pr_proceed_again run);
  if negb proceed then mret tt else
  managerPreparePhase instance (pr_phase run).

(** ** Handlers *)

Definition HandlePrepare (request : PrepareRequest) : M PrepareResponse :=
  found ← instances_Get (preq_InstanceID request);
  match found with
  | None => mret (mkPrepareResponse true None)
  | Some instance =>
      i ← load instance;
      let accepted := bool_decide (preq_Ballot request > i_MaxBallot i) in
      _ ← (if accepted then update instance (λ i, (Instance.updateBallot (preq_Ballot request) i).1)
           else mret tt);
      i ← load instance;
      mret (mkPrepareResponse accepted (Some (Instance.Copy i)))
  end.

(** The reply; the goroutine that is started is [prepareSuccessorTask]. *)
Definition HandlePrepareSuccessor (request : PrepareSuccessorRequest) : M PrepareSuccessorResponse :=
  found ← instances_Get (psreq_InstanceID request);
  match found with
  | None => mret (mkPrepareSuccessorResponse None)
  | Some instance => i ← load instance; mret (mkPrepareSuccessorResponse (Some (Instance.Copy i)))
  end.

(** One attempt: a prepare, and after a [BallotError] a wait that the commit
    event ends ([at_commitEvent]) or the timeout. *)
Record Attempt := mkAttempt {
  at_run : PrepareRun;
  at_meanwhile : Manager → option Manager;
  at_commitEvent : bool;
}.

Definition BALLOT_FAILURE_RETRIES : nat := 4.

(** The loop [for i := 0; i < BALLOT_FAILURE_RETRIES; i++], with what happens in
    the attempt numbered [i].  Errors that are not a [BallotError] are logged,
    and the loop goes on. *)
Fixpoint prepareAttempts (tries i : nat) (iid : InstanceID) (attempts : nat → Attempt) : M unit :=
  match tries with
  | O => mret tt
  | S tries =>
      found ← instances_Get iid;
      instance ← deref found;
      x ← try (managerPrepareInstance instance (at_run (attempts i)));
      match x with
      | inl _ => mret tt
      | inr e =>
          if is_BallotError e then
            _ ← wait (at_meanwhile (attempts i));
            if at_commitEvent (attempts i) then mret tt else prepareAttempts tries (S i) iid attempts
          else prepareAttempts tries (S i) iid attempts
      end
  end.

Definition prepareSuccessorTask (instance : ptr) (attempts : nat → Attempt) : M unit :=
  i ← load instance;
  if decide (i_Status i < INSTANCE_COMMITTED)
  then prepareAttempts BALLOT_FAILURE_RETRIES 0 (i_InstanceID i) attempts
  else mret tt.

End prepare.

(** ** The invariant *)

Section prepare_invariant.
Context {St : Store} {Mo : MapOrder} {Pl : Placement}.
Context (B : Z → Z → Prop) `{!PreOrder B} (B_le : ∀ b b', b ≤ b' → B b b').
Abbreviation M := (ST Manager error).

Lemma preserves_HandlePrepare r : preserves (grows B) (HandlePrepare r).
Proof. unfold HandlePrepare. preserves_tac. Qed.

Lemma preserves_HandlePrepareSuccessor r : preserves (grows B) (HandlePrepareSuccessor r).
Proof. unfold HandlePrepareSuccessor. preserves_tac. Qed.

Context (B_incr : true = true → ∀ b, B b (u32_incr b)).

(** What happens during the waits of a run respects the invariant. *)
Definition calm_phase (r : PhaseRun) : Prop :=
  calm B (w_meanwhile (ph_prepare r)) ∧ calm B (w_meanwhile (ph_preaccept r)) ∧
  calm B (w_meanwhile (ph_accept r)).
Definition calm_waits (l : list SuccessorWait) : Prop := Forall (λ w, calm B (sw_meanwhile w)) l.
Definition calm_run (r : PrepareRun) : Prop :=
  calm B (pw_meanwhile (pr_proceed r)) ∧ calm_waits (pr_defer r) ∧
  Forall (λ d, calm B (dr_interval d) ∧ calm_waits (dr_waits d)) (pr_rounds r) ∧
  calm B (pr_commitEvent r) ∧ calm B (pw_meanwhile (pr_proceed_again r)) ∧ calm_phase (pr_phase r).
Definition calm_attempt (a : Attempt) : Prop := calm_run (at_run a) ∧ calm B (at_meanwhile a).

Lemma preserves_managerSendPrepare p w n :
  calm B (w_meanwhile w) → preserves (grows B) (managerSendPrepare p w n).
Proof.
  intros Hw. unfold managerSendPrepare.
  apply (preserves_load_store B p (λ i, (Instance.incrementBallot i).1) _).
  - intros i. split; cbn; try done. by apply B_incr.
  - done.
  - intros i. cbn. preserves_tac.
Qed.

Lemma preserves_managerPrepareCheckResponses p rs :
  preserves (grows B) (managerPrepareCheckResponses p rs).
Proof. unfold managerPrepareCheckResponses. preserves_tac. Qed.

Lemma preserves_choosePrepareInstance p rs : preserves (grows B) (choosePrepareInstance p rs).
Proof.
  intros m. unfold choosePrepareInstance. rewrite bind_load.
  destruct (m_heap m !! p) as [i|] eqn:Hp; [|reflexivity]. case_match.
  - case_decide; [reflexivity|]. revert m Hp. intros m _.
    apply preserves_bind; [apply _|by apply preserves_alloc|intros; apply preserves_ret, _].
  - case_decide as Hs; [|reflexivity]. apply preserves_bind_dep; [apply _| |reflexivity].
    eapply grows_advances; [done|exact Hp|].
    split; [split|]; cbn; try done; unfold INSTANCE_PREACCEPTED, INSTANCE_EXECUTED in *; lia.
Qed.
Hint Resolve preserves_managerSendPrepare preserves_managerPrepareCheckResponses
  preserves_choosePrepareInstance : preserves.

Lemma preserves_managerPreparePhase p r :
  calm_phase r → preserves (grows B) (managerPreparePhase p r).
Proof.
  intros (H1 & H2 & H3). unfold managerPreparePhase, managerPrepareApply, accept_and_commit.
  preserves_tac.
Qed.

Lemma preserves_prepareShouldProceed p w :
  calm B (pw_meanwhile w) → preserves (grows B) (prepareShouldProceed p w).
Proof. intros Hw. unfold prepareShouldProceed. preserves_tac. Qed.

Lemma preserves_deferToSuccessors p iid l ss ws :
  calm_waits ws → preserves (grows B) (deferToSuccessors p iid l ss ws).
Proof.
  revert ws; induction ss as [|s ss IH]; intros ws Hws; cbn [deferToSuccessors]; [preserves_tac|].
  assert (calm_waits (tail ws)) as Ht by (destruct Hws; [constructor|done]).
  assert (calm B (sw_meanwhile (default (mkSuccessorWait Some STimeout) (head ws)))) as Hh.
  { destruct Hws; [|done]. by intros m m' [= <-]. }
  unfold handleSuccessorResponse. preserves_tac.
Qed.

Lemma preserves_managerDeferToSuccessor p ws :
  calm_waits ws → preserves (grows B) (managerDeferToSuccessor p ws).
Proof.
  intros Hw. unfold managerDeferToSuccessor. pose proof preserves_deferToSuccessors. preserves_tac.
Qed.
Hint Resolve preserves_managerPreparePhase preserves_prepareShouldProceed
  preserves_managerDeferToSuccessor : preserves.

Lemma preserves_deferLoop p q b e rs c :
  Forall (λ d, calm B (dr_interval d) ∧ calm_waits (dr_waits d)) rs → calm B c →
  preserves (grows B) (deferLoop p q b e rs c).
Proof.
  intros Hrs Hc. revert b e. induction Hrs as [|r rs [Hr1 Hr2] Hrs IH]; intros b e;
    cbn [deferLoop]; preserves_tac.
Qed.
Hint Resolve preserves_deferLoop : preserves.

Lemma preserves_managerPrepareInstance p r :
  calm_run r → preserves (grows B) (managerPrepareInstance p r).
Proof.
  intros (H1 & H2 & H3 & H4 & H5 & H6). unfold managerPrepareInstance. preserves_tac.
Qed.
Hint Resolve preserves_managerPrepareInstance : preserves.

Lemma preserves_prepareSuccessorTask p l :
  (∀ i, calm_attempt (l i)) → preserves (grows B) (prepareSuccessorTask p l).
Proof.
  intros Hl. unfold prepareSuccessorTask. preserves_step; [preserves_tac|].
  preserves_step; [|preserves_tac]. generalize (i_InstanceID a), 0%nat. intros iid.
  induction BALLOT_FAILURE_RETRIES as [|tries IH]; intros i; cbn [prepareAttempts]; [preserves_tac|].
  destruct (Hl i). preserves_tac.
Qed.

End prepare_invariant.

#[export] Hint Resolve preserves_HandlePrepare preserves_HandlePrepareSuccessor
  preserves_managerPrepareInstance preserves_prepareSuccessorTask : preserves.
