(* ===== verification/Handlers.v ===== *)
(** * What the message handlers do

    The functional behaviour of [HandlePreAccept], [HandleAccept],
    [HandleCommit] and [HandlePrepare] ([src/consensus/manager_preaccept.go],
    [manager_accept.go], [manager_commit.go], [manager_prepare.go]) on a
    well-formed replica, branch by branch. *)

From S2P Require Import Prelude Bytes Types GoTime Serializer Instruction Containers.
From S2P Require Import Instance Dependencies Messages Manager Invariant Prepare.

Section handlers.
Context {St : Store} {Mo : MapOrder} {Pl : Placement}.
Abbreviation M := (ST Manager error).

(** The instance a replica holds under an id. *)
Definition lookup (m : Manager) (iid : InstanceID) : option Instance :=
  m_instances m !! iid ≫= λ p, m_heap m !! p.

Lemma lookup_stored m iid i : lookup m iid = Some i ↔ ∃ p, stored m iid p i.
Proof. unfold lookup, stored. rewrite bind_Some. done. Qed.

Lemma lookup_None m iid : wf m → lookup m iid = None ↔ m_instances m !! iid = None.
Proof.
  intros Hm. unfold lookup. destruct (m_instances m !! iid) as [p|] eqn:Hp; cbn; [|done].
  destruct (wf_ptr m Hm _ _ Hp) as (i & -> & _). done.
Qed.

Lemma lookup_id m iid i : wf m → lookup m iid = Some i → i_InstanceID i = iid.
Proof.
  intros Hm (p & Hp & Hi)%lookup_stored. destruct (wf_ptr m Hm _ _ Hp) as (? & ? & ? & _). by simplify_eq.
Qed.

(** ** Parts of the handlers *)

Lemma outdated_eq m iid b :
  wf m →
  outdated iid b m =
    (Ok (i ← lookup m iid; if decide (i_MaxBallot i >= b) then Some i else None), m).
Proof.
  intros Hm. unfold outdated, lookup. rewrite bind_instances_Get.
  destruct (m_instances m !! iid) as [p|] eqn:Hp; [|done].
  destruct (wf_ptr m Hm _ _ Hp) as (i & Hi & _). rewrite bind_load. cbn. rewrite Hi. cbn.
  by case_decide.
Qed.

Lemma copies_eq m iids :
  wf m → copies iids m = (Ok (Instance.Copy <$> omap (lookup m) iids), m).
Proof.
  intros Hm. induction iids as [|iid iids IH]; [done|]. cbn [copies omap list_omap].
  unfold lookup at 1. rewrite bind_instances_Get. destruct (m_instances m !! iid) as [p|] eqn:Hp; cbn.
  - destruct (wf_ptr m Hm _ _ Hp) as (i & Hi & _). rewrite bind_load, Hi.
    by rewrite (bind_run _ _ _ _ _ IH).
  - done.
Qed.

(** A message instance is given its place in memory. *)
Lemma alloc_eq i m :
  ∃ p, alloc i m = (Ok p, with_heap (<[p := i]> (m_heap m)) m) ∧ m_heap m !! p = None.
Proof. eexists. split; [done|]. apply not_elem_of_dom, is_fresh. Qed.

Lemma wf_alloc m p i : wf m → m_heap m !! p = None → wf (with_heap (<[p := i]> (m_heap m)) m).
Proof.
  intros [W1 W2 W3 W4] Hp.
  assert (∀ iid q, m_instances m !! iid = Some q → q ≠ p) as Hne.
  { intros iid q Hq ->. destruct (W1 _ _ Hq) as (? & ? & _). congruence. }
  split; unfold stored; cbn; [|done| |done].
  - intros iid q Hq. rewrite lookup_insert_ne by (apply not_eq_sym; eauto). auto.
  - intros iid. rewrite W3. unfold stored.
    split; intros (q & j & [H1 H2] & H3); exists q, j;
      (rewrite lookup_insert_ne in *; [done|apply not_eq_sym; eauto]).
Qed.

(** The value the argument of [preaccept], [accept] and [commit] has. *)
Definition arg_value (m : Manager) (p q : ptr) (o : option Instance) : Prop :=
  if decide (q = p) then o = None else ∃ j, m_heap m !! q = Some j ∧ o = Some j.

Lemma bind_arg {A} m p q o (k : option Instance → M A) :
  arg_value m p q o → (argument p q ≫= k) m = k o m.
Proof.
  unfold arg_value. rewrite bind_argument. case_decide; [by intros ->|].
  by intros (j & -> & ->).
Qed.

Lemma preaccept_ok m p q i o i1 incr :
  m_heap m !! p = Some i → arg_value m p q o → Instance.preaccept_enter o i = Ok i1 →
  keys_of i1 ≠ [] →
  ∃ ids dm', DepsMngr.GetAndSetDeps i1 (m_depsMngr m) = (Ok ids, dm') ∧
    preaccept p q incr m =
      (Ok tt, with_depsMngr dm'
        (with_heap (<[p := Instance.preaccept_leave ids (m_now m) incr i1]> (m_heap m)) m)).
Proof.
  intros Hi Ho He Hk. destruct (mngr_GetAndSetDeps i1 (m_depsMngr m) Hk) as (ids & dm' & Hg & _).
  exists ids, dm'. split; [done|]. unfold preaccept.
  rewrite bind_load, Hi, (bind_arg _ _ _ _ _ Ho), bind_lift, He.
  rewrite (bind_run _ _ m tt (with_heap (<[p := i1]> (m_heap m)) m) eq_refl).
  rewrite (bind_run _ _ _ ids (with_depsMngr dm' (with_heap (<[p := i1]> (m_heap m)) m))).
  2: { unfold deps. cbn. by rewrite Hg. }
  rewrite bind_gets. unfold store, modify. cbn. by rewrite insert_insert_eq.
Qed.

(** ** Where a request lands *)

(** The instance a request for [r] works on, what it takes over from [r], and
    the dependency manager it meets. *)
Definition incoming (m : Manager) (r : Instance) : Instance :=
  default (initialize r) (lookup m (i_InstanceID r)).
Definition incoming_arg (m : Manager) (r : Instance) : option Instance :=
  match lookup m (i_InstanceID r) with Some _ => Some r | None => None end.
Definition incoming_deps (m : Manager) (r : Instance) : dependencyMap :=
  match lookup m (i_InstanceID r) with
  | Some _ => m_depsMngr m
  | None =>
      if decide (i_Status (initialize r) > INSTANCE_PREACCEPTED)
      then (DepsMngr.AddDependency (initialize r) (m_depsMngr m)).2 else m_depsMngr m
  end.

(** [m'] differs from [m] at most in what it holds under [iid] and in the
    dependency manager. *)
Record only_at (iid : InstanceID) (m m' : Manager) : Prop := {
  oa_lookup : ∀ iid', iid' ≠ iid → lookup m' iid' = lookup m iid';
  oa_executed : m_executed m' = m_executed m;
  oa_store : m_store m' = m_store m;
  oa_now : m_now m' = m_now m;
  oa_results : m_results m' = m_results m;
  oa_outbox : m_outbox m' = m_outbox m;
}.

#[export] Instance only_at_preorder iid : PreOrder (only_at iid).
Proof.
  split; [by split|]. intros m1 m2 m3 [L1] [L2]. split; try congruence.
  intros iid' Hne. by rewrite L2, L1.
Qed.

Lemma only_at_store m iid p i i' dm :
  wf m → stored m iid p i →
  only_at iid m (with_depsMngr dm (with_heap (<[p := i']> (m_heap m)) m)) ∧
  lookup (with_depsMngr dm (with_heap (<[p := i']> (m_heap m)) m)) iid = Some i'.
Proof.
  intros Hm [Hp Hi]. split.
  - split; try done. intros iid' Hne. unfold lookup. cbn.
    destruct (m_instances m !! iid') as [q|] eqn:Hq; [|done]. cbn.
    apply lookup_insert_ne. intros <-. destruct (stored_inj m iid iid' p i i Hm); by try split.
  - unfold lookup. cbn. rewrite Hp. cbn. apply lookup_insert_eq.
Qed.

Lemma land m r :
  wf m →
  ∃ p m0 q b m1,
    alloc r m = (Ok p, m0) ∧ getOrSetInstance p m0 = (Ok (q, b), m1) ∧ wf m1 ∧
    stored m1 (i_InstanceID r) q (incoming m r) ∧ arg_value m1 q p (incoming_arg m r) ∧
    only_at (i_InstanceID r) m m1 ∧ m_depsMngr m1 = incoming_deps m r.
Proof.
  intros Hm. destruct (alloc_eq r m) as (p & Ha & Hp).
  set (m0 := with_heap (<[p := r]> (m_heap m)) m) in *.
  pose proof (wf_alloc m p r Hm Hp) as Hm0. fold m0 in Hm0.
  assert (m_heap m0 !! p = Some r) as Hp0 by apply lookup_insert_eq.
  assert (∀ iid q, m_instances m !! iid = Some q → q ≠ p) as Hfresh.
  { intros iid q Hq ->. destruct (wf_ptr m Hm _ _ Hq) as (? & ? & _). congruence. }
  exists p, m0. unfold incoming, incoming_arg, incoming_deps.
  destruct (m_instances m !! i_InstanceID r) as [q|] eqn:Hq.
  - destruct (wf_ptr m Hm _ _ Hq) as (i & Hi & _). pose proof (Hfresh _ _ Hq) as Hne.
    assert (m_heap m0 !! q = Some i) as Hi0 by (cbn; by rewrite lookup_insert_ne).
    exists q, true, m0. rewrite (getOrSetInstance_found p r q i m0 Hp0 Hq Hi0).
    assert (lookup m (i_InstanceID r) = Some i) as -> by (unfold lookup; by rewrite Hq).
    split_and!; [done..| | |]; unfold arg_value.
    + rewrite decide_False by done. eauto.
    + split; try done. intros iid' Hne'. unfold lookup. cbn.
      destruct (m_instances m !! iid') as [q'|] eqn:Hq'; [|done]. cbn.
      apply lookup_insert_ne. apply not_eq_sym. eauto.
    + done.
  - exists p, false, (inserted p r m0). rewrite (getOrSetInstance_new p r m0 Hp0 Hq).
    assert (lookup m (i_InstanceID r) = None) as -> by (unfold lookup; by rewrite Hq).
    split_and!; [done..| | | | |].
    + pose proof (preserves_getOrSetInstance Z.le p m0) as Hg.
      rewrite (getOrSetInstance_new p r m0 Hp0 Hq) in Hg. by apply Hg.
    + split; apply lookup_insert_eq.
    + unfold arg_value. by rewrite decide_True.
    + split; try done. intros iid' Hne'. unfold lookup. cbn. rewrite lookup_insert_ne by done.
      destruct (m_instances m !! iid') as [q'|] eqn:Hq'; [|done]. cbn.
      rewrite !lookup_insert_ne; [done|apply not_eq_sym; eauto..].
    + done.
Qed.

(** ** [HandlePreAccept] *)

(** The fields of an instance that the phases do not write. *)
Definition same_command (i i' : Instance) : Prop :=
  i_InstanceID i' = i_InstanceID i ∧ i_LeaderID i' = i_LeaderID i ∧
  i_Successors i' = i_Successors i ∧ i_Command i' = i_Command i ∧ i_ReadOnly i' = i_ReadOnly i.

(** The stored instance, if any, has a lower ballot than the request. *)
Definition newer (m : Manager) (r : Instance) : Prop :=
  ∀ i, lookup m (i_InstanceID r) = Some i → i_MaxBallot i < i_MaxBallot r.

Lemma outdated_newer m r :
  wf m → newer m r → outdated (i_InstanceID r) (i_MaxBallot r) m = (Ok None, m).
Proof.
  intros Hm Hn. rewrite outdated_eq by done. destruct (lookup m (i_InstanceID r)) as [i|] eqn:Hi; [|done].
  cbn. specialize (Hn i Hi). rewrite decide_False by lia. done.
Qed.

Lemma enter_incoming m r :
  newer m r → i_Status (incoming m r) ≤ INSTANCE_PREACCEPTED →
  ∃ i1, Instance.preaccept_enter (incoming_arg m r) (incoming m r) = Ok i1 ∧
    same_command (incoming m r) i1 ∧ i_Status i1 = INSTANCE_PREACCEPTED ∧
    i_MaxBallot i1 = i_MaxBallot r ∧ i_Noop i1 = i_Noop r.
Proof.
  unfold newer, incoming, incoming_arg, Instance.preaccept_enter. intros Hn Hs.
  destruct (lookup m (i_InstanceID r)) as [i|] eqn:Hi; cbn in *; rewrite decide_False by lia.
  - specialize (Hn i eq_refl). unfold Instance.take_ballot. cbn. rewrite decide_True by lia.
    eexists. split; [reflexivity|]. by split_and!.
  - unfold initialize in *. case_decide; (eexists; split; [reflexivity|]; by split_and!).
Qed.

Lemma incoming_id m r : wf m → i_InstanceID (incoming m r) = i_InstanceID r.
Proof.
  intros Hm. unfold incoming. destruct (lookup m (i_InstanceID r)) as [i|] eqn:Hi; cbn.
  - by eapply lookup_id.
  - apply initialize_id.
Qed.

Lemma incoming_deps_low m r :
  i_Status (incoming m r) ≤ INSTANCE_PREACCEPTED → incoming_deps m r = m_depsMngr m.
Proof.
  unfold incoming, incoming_deps. destruct (lookup m (i_InstanceID r)); [done|]. cbn.
  intros. by rewrite decide_False by lia.
Qed.

(** The state in which the reply is computed. *)
Lemma preAccept_request m r :
  wf m → newer m r → i_Status (incoming m r) ≤ INSTANCE_PREACCEPTED → keys_of (incoming m r) ≠ [] →
  ∃ p m0 m1 i1, alloc r m = (Ok p, m0) ∧
    ignore_invalid_status (preAcceptInstance p false) m0 = (Ok tt, m1) ∧
    wf m1 ∧ only_at (i_InstanceID r) m m1 ∧ lookup m1 (i_InstanceID r) = Some i1 ∧
    same_command (incoming m r) i1 ∧ i_Status i1 = INSTANCE_PREACCEPTED ∧
    i_MaxBallot i1 = i_MaxBallot r ∧ i_Noop i1 = i_Noop r ∧
    (∀ id, id ∈ i_Dependencies i1 ↔
      id ≠ i_InstanceID r ∧ interfering (incoming m r) (view (m_depsMngr m)) id) ∧
    ∀ k, view (m_depsMngr m1) k =
      at_path (keys_of (incoming m r)) (spec_record (incoming m r)) (view (m_depsMngr m)) k.
Proof.
  intros Hm Hn Hs Hk. destruct (land m r Hm) as (p & m0 & q & b & m1 & Ha & Hg & Hm1 & Hst & Harg & Hoa & Hd).
  destruct (enter_incoming m r Hn Hs) as (i1 & He & (S1 & S2 & S3 & S4 & S5) & T1 & T2 & T3).
  assert (keys_of i1 = keys_of (incoming m r)) as Hkeys by (unfold keys_of; by rewrite S4).
  rewrite (incoming_deps_low m r Hs) in Hd.
  destruct (preaccept_ok m1 q p (incoming m r) (incoming_arg m r) i1 false) as (ids & dm' & Hgd & Hrun);
    [apply Hst|done|done|by rewrite Hkeys|].
  rewrite Hd in Hgd. rewrite <-Hkeys in Hk.
  destruct (mngr_GetAndSetDeps i1 (m_depsMngr m) Hk) as (ids' & dm'' & Hgd' & _ & Hids & Hview).
  rewrite Hgd in Hgd'. simplify_eq.
  set (i2 := Instance.preaccept_leave ids' (m_now m1) false i1) in *.
  destruct (only_at_store m1 (i_InstanceID r) q (incoming m r) i2 dm'' Hm1 Hst) as [Hoa2 Hl2].
  assert (preAcceptInstance p false m0 = (Ok tt, with_depsMngr dm'' (with_heap (<[q := i2]> (m_heap m1)) m1))) as Hpre.
  { unfold preAcceptInstance. by rewrite (bind_run _ _ _ _ _ Hg). }
  eexists p, m0, _, i2. split; [done|]. split.
  { unfold ignore_invalid_status. by rewrite bind_try, Hpre. }
  assert (i_InstanceID i1 = i_InstanceID r) as Hid by (by rewrite S1, incoming_id).
  split_and!; try done.
  - pose proof (preserves_preAcceptInstance Z.le ltac:(done) false ltac:(done) p m0) as Hgr.
    rewrite Hpre in Hgr. apply Hgr. unfold alloc in Ha. simplify_eq. apply wf_alloc; [done|].
    apply not_elem_of_dom, is_fresh.
  - by etrans.
  - intros id. change (i_Dependencies i2) with ids'. rewrite Hids, Hid.
    unfold interfering. by rewrite Hkeys, S5.
  - intros k. cbn. rewrite Hview. unfold at_path, spec_record. by rewrite Hkeys, S5, S1.
Qed.

(** Replying changes nothing but the flag that records the comparison. *)
Lemma replyPreAccept_ok m iid ext p i :
  wf m → stored m iid p i →
  let i' := with_DependencyMatch (InstanceIDSet.Equal ext (InstanceIDSet.NewInstanceIDSet (i_Dependencies i))) i in
  ∃ m' l, replyPreAccept iid ext m = (Ok (mkPreAcceptResponse true (i_MaxBallot i) (Instance.Copy i') l), m') ∧
    only_at iid m m' ∧ lookup m' iid = Some i' ∧ m_depsMngr m' = m_depsMngr m ∧ wf m' ∧
    l = Instance.Copy <$> omap (lookup m') (InstanceIDSet.List
      (InstanceIDSet.Difference (InstanceIDSet.NewInstanceIDSet (i_Dependencies i)) ext)).
Proof.
  intros Hm Hst i'. set (m' := with_depsMngr (m_depsMngr m) (with_heap (<[p := i']> (m_heap m)) m)).
  destruct (only_at_store m iid p i i' (m_depsMngr m) Hm Hst) as [Hoa Hl]. fold m' in Hoa, Hl.
  assert (m' = with_heap (<[p := i']> (m_heap m)) m) as Hm'eq by done.
  assert (wf m') as Hm'.
  { rewrite Hm'eq. destruct Hst as [_ Hi].
    assert (grows Z.le m (with_heap (<[p := i']> (m_heap m)) m)) as Hg; [|by apply Hg].
    eapply grows_store; [apply _|exact Hi|by split|done]. }
  exists m'. eexists. split; [|by split_and!].
  unfold replyPreAccept. rewrite bind_instances_Get. destruct Hst as [Hp Hi]. rewrite Hp.
  unfold deref. rewrite bind_ret, bind_load, Hi. cbv zeta.
  rewrite (bind_run _ _ m tt m') by (by rewrite Hm'eq).
  rewrite (bind_run _ _ _ _ _ (copies_eq m' _ Hm')). done.
Qed.

(** ** Missing instances *)

(** What is stored stays as it is. *)
Definition keeps_stored (m m' : Manager) : Prop :=
  wf m → wf m' ∧ ∀ iid p i, stored m iid p i → stored m' iid p i.

#[export] Instance keeps_stored_preorder : PreOrder keeps_stored.
Proof.
  split; [by intros m Hm|]. intros m1 m2 m3 H12 H23 Hm. destruct (H12 Hm) as [Hm2 H2]. destruct (H23 Hm2). eauto.
Qed.

Lemma keeps_grows m m' :
  grows any_ballot m m' → (wf m → ∀ iid p i, stored m iid p i → stored m' iid p i) → keeps_stored m m'.
Proof. intros Hg Hk Hm. split; [by apply Hg|auto]. Qed.

Lemma keeps_alloc i : preserves keeps_stored (alloc i).
Proof.
  intros m. apply keeps_grows; [by apply preserves_alloc|]. intros Hm iid p j [Hp Hj].
  split; [done|]. cbn. rewrite lookup_insert_ne; [done|]. intros <-.
  apply (is_fresh (dom (m_heap m))), elem_of_dom. by exists j.
Qed.

(** At most the object [q] changes. *)
Definition only_ptr (q : ptr) (m m' : Manager) : Prop :=
  m_instances m' = m_instances m ∧ ∀ p, p ≠ q → m_heap m' !! p = m_heap m !! p.

#[local] Instance only_ptr_preorder q : PreOrder (only_ptr q).
Proof. split; [by intros m|]. intros m1 m2 m3 [E1 H1] [E2 H2]. split; [congruence|]. intros p Hp. by rewrite H2, H1. Qed.

Lemma only_ptr_store q i : preserves (only_ptr q) (store q i).
Proof. intros m. split; [done|]. intros p Hp. by apply lookup_insert_ne. Qed.
Lemma only_ptr_load q p : preserves (only_ptr q) (load p).
Proof. intros m. by rewrite load_eq. Qed.
Lemma only_ptr_deps {A} q (op : ST dependencyMap error A) : preserves (only_ptr q) (deps op).
Proof. intros m. unfold deps. by destruct (op _). Qed.
#[local] Hint Resolve only_ptr_store only_ptr_load only_ptr_deps : preserves.

(** A missing instance that is already known is left alone. *)
Lemma keeps_addMissingInstance q : preserves keeps_stored (addMissingInstance q).
Proof.
  intros m. apply keeps_grows; [by apply preserves_addMissingInstance|]. intros Hm iid p j [Hp Hj].
  destruct (m_heap m !! q) as [i|] eqn:Hq.
  2: { unfold addMissingInstance, getOrSetInstance, GetOrSet, mbind, ST_bind. by rewrite load_eq, Hq. }
  destruct (m_instances m !! i_InstanceID i) as [q'|] eqn:Hi.
  { destruct (wf_ptr m Hm _ _ Hi) as (i' & Hi' & _). unfold addMissingInstance.
    by rewrite (bind_run _ _ _ _ _ (getOrSetInstance_found _ _ _ _ _ Hq Hi Hi')). }
  assert (p ≠ q) as Hpq.
  { intros ->. destruct (wf_ptr m Hm _ _ Hp) as (? & ? & <- & _). by simplify_eq. }
  assert (iid ≠ i_InstanceID i) as Hne by (intros ->; congruence).
  unfold addMissingInstance. rewrite (bind_run _ _ _ _ _ (getOrSetInstance_new _ _ _ Hq Hi)). set (k := mbind _ _).
  assert (preserves (only_ptr q) k) as Hk by (unfold k; preserves_tac). destruct (Hk (inserted q i m)) as [E1 E2].
  split; [rewrite E1; cbn; by rewrite lookup_insert_ne|rewrite E2 by done; cbn; by rewrite lookup_insert_ne].
Qed.

Lemma keeps_addMissing l : preserves keeps_stored (addMissing l).
Proof.
  pose proof keeps_addMissingInstance. assert (preserves keeps_stored (alloc_all l)).
  { pose proof keeps_alloc. induction l; cbn; preserves_tac. }
  unfold addMissing, addMissingInstancesUnsafe. preserves_tac.
Qed.


(** What a replica may be sent: a preaccepted, accepted, committed or executed
    instance of a command with keys. *)
Definition carriable (c : Instance) : Prop :=
  INSTANCE_PREACCEPTED ≤ i_Status c ≤ INSTANCE_EXECUTED ∧ keys_of c ≠ [].

Lemma carriable_initialize c :
  carriable c → keys_of (initialize c) ≠ [] ∧ INSTANCE_PREACCEPTED ≤ i_Status (initialize c) ≤ INSTANCE_COMMITTED.
Proof.
  intros [Hs Hk]. unfold initialize, INSTANCE_PREACCEPTED, INSTANCE_COMMITTED, INSTANCE_EXECUTED in *.
  case_decide; (split; [done|cbn in *; lia]).
Qed.

Lemma addMissingInstance_ok m q c :
  wf m → m_heap m !! q = Some c → carriable c →
  ∃ m', addMissingInstance q m = (Ok tt, m') ∧ (∀ p, p ≠ q → m_heap m' !! p = m_heap m !! p) ∧
    is_Some (lookup m' (i_InstanceID c)) ∧
    ∀ id, lookup m' id = lookup m id ∨ (id = i_InstanceID c ∧ lookup m id = None ∧ lookup m' id = Some (initialize c)).
Proof.
  intros Hm Hq Hc. destruct (m_instances m !! i_InstanceID c) as [p|] eqn:Hp.
  { destruct (wf_ptr m Hm _ _ Hp) as (i & Hi & _). exists m. split_and!; [|done| |by left].
    - unfold addMissingInstance. by rewrite (bind_run _ _ _ _ _ (getOrSetInstance_found _ _ _ _ _ Hq Hp Hi)).
    - exists i. apply lookup_stored. by exists p. }
  destruct (carriable_initialize c Hc) as [Hk Hs]. set (m1 := inserted q c m).
  assert (m_heap m1 !! q = Some (initialize c)) as Hq1 by (cbn; apply lookup_insert_eq).
  destruct (mngr_AddDependency (initialize c) (m_depsMngr m1) Hk) as (dm & Hdm & _).
  exists (with_depsMngr dm m1). split_and!.
  - unfold addMissingInstance. rewrite (bind_run _ _ _ _ _ (getOrSetInstance_new _ _ _ Hq Hp)). fold m1.
    rewrite bind_load, Hq1. rewrite (bind_run _ _ m1 tt m1).
    + rewrite bind_load, Hq1. unfold deps. by rewrite Hdm.
    + unfold INSTANCE_PREACCEPTED, INSTANCE_ACCEPTED, INSTANCE_COMMITTED, INSTANCE_EXECUTED in *.
      case_decide; [done|]. rewrite decide_True by lia. unfold store, modify.
      assert (with_Status 3 (initialize c) = initialize c) as ->.
      { assert (i_Status (initialize c) = 3) as E by lia. rewrite <- E. by destruct (initialize c). }
      f_equal. unfold m1, inserted. cbn. by rewrite insert_insert_eq.
  - intros p Hne. cbn. by rewrite lookup_insert_ne.
  - exists (initialize c). unfold lookup. cbn. rewrite lookup_insert_eq. cbn. apply lookup_insert_eq.
  - intros id. unfold lookup. cbn. destruct (decide (id = i_InstanceID c)) as [->|Hne].
    + right. rewrite Hp, lookup_insert_eq. cbn. by rewrite lookup_insert_eq.
    + left. rewrite lookup_insert_ne by done. destruct (m_instances m !! id) as [p|] eqn:Hid; [|done]. cbn.
      apply lookup_insert_ne. intros <-. destruct (wf_ptr m Hm _ _ Hid) as (? & ? & ? & _). by simplify_eq.
Qed.

(** What a replica knows after missing instances have been added to it. *)
Record adds_missing (missing : list Instance) (m m' : Manager) : Prop := {
  am_wf : wf m';
  am_kept : ∀ id i, lookup m id = Some i → lookup m' id = Some i;
  am_known : ∀ c, c ∈ missing → is_Some (lookup m' (i_InstanceID c));
  am_new : ∀ id i, lookup m' id = Some i → lookup m id = Some i ∨ ∃ c, c ∈ missing ∧ id = i_InstanceID c ∧ i = initialize c;
}.

Lemma adds_missing_loop ps l m :
  wf m → Forall2 (λ p c, m_heap m !! p = Some c) ps l → NoDup ps → Forall carriable l →
  ∃ m', for_each addMissingInstance ps m = (Ok tt, m') ∧ adds_missing l m m'.
Proof.
  revert l m. induction ps as [|q ps IH]; intros l m Hm Hps Hnd Hl.
  { inversion Hps; subst. exists m. split; [done|]. split; auto. by intros c ?%elem_of_nil. }
  inversion Hps as [|? c ? l' Hq Hps' E1 E2]; subst. apply NoDup_cons in Hnd as [Hnq Hnd]. apply Forall_cons in Hl as [Hc Hl].
  destruct (addMissingInstance_ok m q c Hm Hq Hc) as (m1 & Hrun & Hother & Hk & Hlk).
  assert (wf m1) as Hm1.
  { pose proof (keeps_addMissingInstance q m Hm) as [H _]. by rewrite Hrun in H. }
  assert (Forall2 (λ p c, m_heap m1 !! p = Some c) ps l') as Hps1.
  { clear -Hps' Hnq Hother. induction Hps' as [|p d ps l Hp _ IH]; constructor; [rewrite Hother; [done|set_solver]|].
    apply IH. set_solver. }
  destruct (IH l' m1 Hm1 Hps1 Hnd Hl) as (m' & Hrun' & [W K N O]). exists m'. split.
  { cbn [for_each]. by rewrite (bind_run _ _ _ _ _ Hrun). }
  split; [done| | |].
  - intros id i Hi. apply K. destruct (Hlk id) as [->|(_ & ? & _)]; [done|congruence].
  - intros d [->|Hd]%elem_of_cons; [|auto]. destruct Hk as [i Hi]. exists i. by apply K.
  - intros id i [Hi|(d & Hd & -> & ->)]%O; [|right; exists d; split; [by right|done]].
    destruct (Hlk id) as [E|(-> & _ & E)]; rewrite E in Hi; [by left|]. right. exists c. simplify_eq. split; [left|done].
Qed.

Lemma alloc_all_ok l m :
  wf m → ∃ ps m', alloc_all l m = (Ok ps, m') ∧ Forall2 (λ p c, m_heap m' !! p = Some c) ps l ∧ NoDup ps ∧
    (∀ p, p ∈ ps → m_heap m !! p = None) ∧ m_heap m ⊆ m_heap m' ∧ m_instances m' = m_instances m ∧ wf m'.
Proof.
  revert m. induction l as [|c l IH]; intros m Hm; cbn [alloc_all].
  { exists [], m. split_and!; [done|constructor|constructor|by intros ? ?%elem_of_nil|done..]. }
  destruct (alloc_eq c m) as (p & Ha & Hp). rewrite (bind_run _ _ _ _ _ Ha). set (m1 := with_heap _ m).
  destruct (IH m1) as (ps & m' & Hrun & Hps & Hnd & Hnew & Hsub & Hin & Hwf'); [by apply wf_alloc|].
  assert (m_heap m ⊆ m_heap m1) as Hsub1 by by apply insert_subseteq.
  assert (m_heap m1 !! p = Some c) as Hp1 by apply lookup_insert_eq.
  exists (p :: ps), m'. rewrite (bind_run _ _ _ _ _ Hrun). split_and!; [done| | | |by etrans|done|done].
  - constructor; [by eapply lookup_weaken|done].
  - constructor; [|done]. intros Hin'%Hnew. congruence.
  - intros q [->|Hq]%elem_of_cons; [done|]. apply Hnew in Hq. by eapply lookup_weaken_None.
Qed.

Lemma addMissing_ok l m :
  wf m → Forall carriable l → ∃ m', addMissing l m = (Ok tt, m') ∧ adds_missing l m m'.
Proof.
  intros Hm Hl. destruct (alloc_all_ok l m Hm) as (ps & m1 & Ha & Hps & Hnd & _ & Hsub & Hin & Hm1).
  destruct (adds_missing_loop ps l m1 Hm1 Hps Hnd Hl) as (m' & Hrun & [W K N O]).
  assert (∀ id, lookup m1 id = lookup m id) as Hlk.
  { intros id. unfold lookup. rewrite Hin. destruct (m_instances m !! id) as [p|] eqn:Hp; [|done]. cbn.
    destruct (wf_ptr m Hm _ _ Hp) as (i & Hi & _). rewrite Hi. by eapply lookup_weaken. }
  exists m'. split; [unfold addMissing; by rewrite (bind_run _ _ _ _ _ Ha)|].
  split; [done| |done|]; intros id i; rewrite <- Hlk; [apply K|apply O].
Qed.

(** ** [HandleAccept] and [HandleCommit] *)

Lemma ReportAcknowledged_ok i m :
  keys_of i ≠ [] →
  ∃ dm', deps (DepsMngr.ReportAcknowledged i) m = (Ok tt, with_depsMngr dm' m) ∧
    ∀ k, view dm' k = at_path (keys_of i) (spec_acknowledge i) (view (m_depsMngr m)) k.
Proof.
  intros Hk. destruct (mngr_ReportAcknowledged i (m_depsMngr m) Hk) as (dm' & Hr & Hv).
  exists dm'. unfold deps. by rewrite Hr.
Qed.

(** Both handlers end in the same way: the stored instance becomes [i'], and
    its dependencies are reported as acknowledged. *)
Lemma report_stored m1 iid q i i' :
  wf m1 → stored m1 iid q i → keys_of i' ≠ [] →
  let m2 := with_heap (<[q := i']> (m_heap m1)) m1 in
  ∃ m', (j ← load q; deps (DepsMngr.ReportAcknowledged j)) m2 = (Ok tt, m') ∧
    only_at iid m1 m' ∧ lookup m' iid = Some i' ∧
    ∀ k, view (m_depsMngr m') k = at_path (keys_of i') (spec_acknowledge i') (view (m_depsMngr m1)) k.
Proof.
  intros Hm1 Hst Hk m2. destruct (ReportAcknowledged_ok i' m2 Hk) as (dm' & Hr & Hv).
  exists (with_depsMngr dm' m2). rewrite bind_load. cbn. rewrite lookup_insert_eq.
  destruct (only_at_store m1 iid q i i' dm' Hm1 Hst). done.
Qed.

Lemma accept_incoming m r now :
  newer m r → i_Status (incoming m r) ≤ INSTANCE_ACCEPTED →
  ∃ i', Instance.accept (incoming_arg m r) now false (incoming m r) = Ok i' ∧
    same_command (incoming m r) i' ∧ i_Status i' = INSTANCE_ACCEPTED ∧
    i_MaxBallot i' = i_MaxBallot r ∧ i_Noop i' = i_Noop r ∧ i_Dependencies i' = i_Dependencies r.
Proof.
  unfold newer, incoming, incoming_arg, Instance.accept. intros Hn Hs.
  destruct (lookup m (i_InstanceID r)) as [i|] eqn:Hi; cbn in *; rewrite decide_False by lia.
  - specialize (Hn i eq_refl). unfold Instance.take_ballot. cbn. rewrite decide_True by lia.
    eexists. split; [reflexivity|]. by split_and!.
  - unfold initialize in *. case_decide; (eexists; split; [reflexivity|]; by split_and!).
Qed.

Lemma commit_incoming m r :
  i_Status (incoming m r) ≤ INSTANCE_COMMITTED →
  ∃ i', Instance.commit (incoming_arg m r) false (incoming m r) = Ok i' ∧
    same_command (incoming m r) i' ∧ i_Status i' = INSTANCE_COMMITTED ∧
    i_MaxBallot i' = Z.max (i_MaxBallot (incoming m r)) (i_MaxBallot r) ∧
    i_Noop i' = i_Noop r ∧ i_Dependencies i' = i_Dependencies r.
Proof.
  unfold incoming, incoming_arg, Instance.commit. intros Hs.
  destruct (lookup m (i_InstanceID r)) as [i|] eqn:Hi; cbn in *; rewrite decide_False by lia.
  - unfold Instance.take_ballot. cbn. case_decide;
      (eexists; split; [reflexivity|]; split_and!; try done; cbn; lia).
  - unfold initialize in *. case_decide;
      (eexists; split; [reflexivity|]; split_and!; try done; cbn; lia).
Qed.

(** The missing instances that come with an accept are added first. *)
Lemma HandleAccept_missing m r missing m0 :
  addMissing missing m = (Ok tt, m0) →
  HandleAccept (mkAcceptRequest r missing) m = HandleAccept (mkAcceptRequest r []) m0.
Proof.
  intros Hadd. unfold HandleAccept. cbn [areq_MissingInstances areq_Instance]. rewrite (decide_True (P := [] = [])), bind_ret by done.
  case_decide as Hl.
  - subst. rewrite bind_ret. assert ((Ok tt, m) = (Ok tt, m0)) as [= ->] by exact Hadd. done.
  - rewrite (bind_run _ _ m tt m0); [done|]. by rewrite bind_try, Hadd.
Qed.

Lemma HandleAccept_ok m r :
  wf m → newer m r → i_Status (incoming m r) ≤ INSTANCE_ACCEPTED → keys_of (incoming m r) ≠ [] →
  ∃ m' i', HandleAccept (mkAcceptRequest r []) m = (Ok (mkAcceptResponse true 0), m') ∧
    only_at (i_InstanceID r) m m' ∧ lookup m' (i_InstanceID r) = Some i' ∧
    same_command (incoming m r) i' ∧ i_Status i' = INSTANCE_ACCEPTED ∧
    i_MaxBallot i' = i_MaxBallot r ∧ i_Noop i' = i_Noop r ∧ i_Dependencies i' = i_Dependencies r ∧
    ∀ k, view (m_depsMngr m') k =
      at_path (keys_of i') (spec_acknowledge i') (view (incoming_deps m r)) k.
Proof.
  intros Hm Hn Hs Hk.
  destruct (land m r Hm) as (p & m0 & q & b & m1 & Ha & Hg & Hm1 & Hst & Harg & Hoa & Hd).
  destruct (accept_incoming m r (m_now m1) Hn Hs) as (i' & He & Hsame & T1 & T2 & T3 & T4).
  assert (keys_of i' ≠ []) as Hk' by (destruct Hsame as (_ & _ & _ & E & _); unfold keys_of in *; by rewrite E).
  destruct (report_stored m1 _ q _ i' Hm1 Hst Hk') as (m' & Hrep & Hoa' & Hl & Hv).
  exists m', i'. rewrite Hd in Hv. split; [|split_and!; try done; by etrans].
  unfold HandleAccept. cbn [areq_MissingInstances areq_Instance]. rewrite decide_True, bind_ret by done.
  rewrite (bind_run _ _ _ _ _ (outdated_newer m r Hm Hn)), (bind_run _ _ _ _ _ Ha).
  rewrite (bind_run _ _ m0 tt m'); [done|].
  unfold ignore_invalid_status. rewrite bind_try.
  assert (acceptInstance p false m0 = (Ok tt, m')) as ->; [|done].
  unfold acceptInstance. rewrite (bind_run _ _ _ _ _ Hg). cbn [fst].
  rewrite (bind_run _ _ m1 tt (with_heap (<[q := i']> (m_heap m1)) m1)); [done|].
  unfold accept. destruct Hst as [_ Hi]. rewrite bind_load, Hi, (bind_arg _ _ _ _ _ Harg), bind_gets, bind_lift, He.
  done.
Qed.

Lemma HandleCommit_ok m r :
  wf m → i_Status (incoming m r) ≤ INSTANCE_COMMITTED → keys_of (incoming m r) ≠ [] →
  ∃ m' i', HandleCommit (mkCommitRequest r) m = (Ok tt, m') ∧
    only_at (i_InstanceID r) m m' ∧ lookup m' (i_InstanceID r) = Some i' ∧
    same_command (incoming m r) i' ∧ i_Status i' = INSTANCE_COMMITTED ∧
    i_MaxBallot i' = Z.max (i_MaxBallot (incoming m r)) (i_MaxBallot r) ∧
    i_Noop i' = i_Noop r ∧ i_Dependencies i' = i_Dependencies r ∧
    ∀ k, view (m_depsMngr m') k =
      at_path (keys_of i') (spec_acknowledge i') (view (incoming_deps m r)) k.
Proof.
  intros Hm Hs Hk.
  destruct (land m r Hm) as (p & m0 & q & b & m1 & Ha & Hg & Hm1 & Hst & Harg & Hoa & Hd).
  destruct (commit_incoming m r Hs) as (i' & He & Hsame & T1 & T2 & T3 & T4).
  assert (keys_of i' ≠ []) as Hk' by (destruct Hsame as (_ & _ & _ & E & _); unfold keys_of in *; by rewrite E).
  destruct (report_stored m1 _ q _ i' Hm1 Hst Hk') as (m' & Hrep & Hoa' & Hl & Hv).
  exists m', i'. rewrite Hd in Hv. split; [|split_and!; try done; by etrans].
  unfold HandleCommit. cbn [creq_Instance]. rewrite (bind_run _ _ _ _ _ Ha).
  unfold ignore_invalid_status. rewrite bind_try.
  assert (commitInstance p false m0 = (Ok tt, m')) as ->; [|done].
  unfold commitInstance. rewrite (bind_run _ _ _ _ _ Hg). cbn [fst].
  rewrite (bind_run _ _ m1 tt (with_heap (<[q := i']> (m_heap m1)) m1)); [done|].
  unfold commit. destruct Hst as [_ Hi]. rewrite bind_load, Hi, (bind_arg _ _ _ _ _ Harg), bind_lift, He.
  done.
Qed.

(** A commit of an executed instance is answered and otherwise ignored. *)
Lemma HandleCommit_executed m r i :
  wf m → lookup m (i_InstanceID r) = Some i → i_Status i = INSTANCE_EXECUTED →
  ∃ m', HandleCommit (mkCommitRequest r) m = (Ok tt, m') ∧
    only_at (i_InstanceID r) m m' ∧ lookup m' (i_InstanceID r) = Some i ∧ m_depsMngr m' = m_depsMngr m.
Proof.
  intros Hm Hi Hx.
  destruct (land m r Hm) as (p & m0 & q & b & m1 & Ha & Hg & Hm1 & Hst & Harg & Hoa & Hd).
  assert (incoming m r = i) as Hin by (unfold incoming; by rewrite Hi).
  assert (incoming_deps m r = m_depsMngr m) as Hdeps by (unfold incoming_deps; by rewrite Hi).
  exists m1. split_and!; [|done| |congruence].
  - unfold HandleCommit. cbn [creq_Instance]. rewrite (bind_run _ _ _ _ _ Ha).
    unfold ignore_invalid_status. rewrite bind_try.
    assert (commitInstance p false m0 =
      (Fail (InvalidStatusUpdateError (i_InstanceID i) (i_Status i) INSTANCE_COMMITTED), m1)) as ->; [|done].
    unfold commitInstance. rewrite (bind_run _ _ _ _ _ Hg). cbn [fst].
    assert (commit q p false m1 =
      (Fail (InvalidStatusUpdateError (i_InstanceID i) (i_Status i) INSTANCE_COMMITTED), m1)) as Hc.
    { unfold commit. destruct Hst as [_ Hq].
      rewrite bind_load, Hq, (bind_arg _ _ _ _ _ Harg), bind_lift, Hin.
      unfold Instance.commit. rewrite decide_True; [done|]. by rewrite Hx. }
    by rewrite (bind_eval _ _ _ _ _ Hc).
  - apply lookup_stored. exists q. by rewrite <-Hin.
Qed.

(** ** The whole handlers *)

Lemma stale_rejected (m : Manager) (r i : Instance)
    (Hwf : wf m) (Hstored : lookup m (i_InstanceID r) = Some i)
    (Hstale : i_MaxBallot r ≤ i_MaxBallot i) :
  HandlePreAccept (mkPreAcceptRequest r) m =
    (Ok (mkPreAcceptResponse false (i_MaxBallot i) (Instance.Copy i) []), m) ∧
  HandleAccept (mkAcceptRequest r []) m = (Ok (mkAcceptResponse false (i_MaxBallot i)), m).
Proof.
  assert (outdated (i_InstanceID r) (i_MaxBallot r) m = (Ok (Some i), m)) as Ho.
  { rewrite outdated_eq, Hstored by done. cbn. by rewrite decide_True by lia. }
  split.
  - unfold HandlePreAccept. cbn [pareq_Instance]. cbv zeta. by rewrite (bind_run _ _ _ _ _ Ho).
  - unfold HandleAccept. cbn [areq_Instance areq_MissingInstances]. cbv zeta.
    rewrite decide_True, bind_ret by done. by rewrite (bind_run _ _ _ _ _ Ho).
Qed.

(** An accept with an old ballot is never accepted, whatever missing instances it
    brings, and these change nothing that is known. *)
Lemma stale_accept_rejected (m : Manager) (r i : Instance) (missing : list Instance) :
  wf m → lookup m (i_InstanceID r) = Some i → i_MaxBallot r ≤ i_MaxBallot i →
  (∀ ra m', HandleAccept (mkAcceptRequest r missing) m = (Ok ra, m') →
     a_Accepted ra = false ∧ ∀ id j, lookup m id = Some j → lookup m' id = Some j) ∧
  (Forall carriable missing → ∃ m',
     HandleAccept (mkAcceptRequest r missing) m = (Ok (mkAcceptResponse false (i_MaxBallot i)), m') ∧
     adds_missing missing m m').
Proof.
  intros Hwf Hl Hb. split.
  - intros ra m' Hrun. destruct (decide (missing = [])) as [->|Hne].
    { destruct (stale_rejected m r i Hwf Hl Hb) as [_ E]. rewrite E in Hrun. by simplify_eq. }
    destruct (keeps_addMissing missing m Hwf) as [Hwf0 Hk].
    unfold HandleAccept in Hrun. cbn [areq_MissingInstances areq_Instance] in Hrun. rewrite decide_False in Hrun by done.
    assert (∀ m0, wf m0 → (∀ iid p j, stored m iid p j → stored m0 iid p j) →
      (rejected ← outdated (i_InstanceID r) (i_MaxBallot r);
       match rejected with
       | Some i => mret (mkAcceptResponse false (i_MaxBallot i))
       | None => inst ← alloc r; _ ← ignore_invalid_status (acceptInstance inst false); mret (mkAcceptResponse true 0)
       end) m0 = (Ok ra, m') → a_Accepted ra = false ∧ ∀ id j, lookup m id = Some j → lookup m' id = Some j) as Hgo.
    { clear Hrun Hwf0 Hk. intros m0 Hwf0 Hk. rewrite (bind_run _ _ _ _ _ (outdated_eq m0 _ _ Hwf0)).
      assert (∀ id j, lookup m id = Some j → lookup m0 id = Some j) as Hk'.
      { intros id j (p & Hp)%lookup_stored. apply lookup_stored. exists p. by apply Hk. }
      rewrite (Hk' _ _ Hl). cbn. rewrite decide_True by lia. intros [= <- <-]. done. }
    unfold mbind at 1, ST_bind at 1 in Hrun. rewrite bind_try in Hrun.
    destruct (addMissing missing m) as [[[]|e|] m0]; cbn [fst snd] in Hwf0, Hk; [by apply (Hgo m0)|by apply (Hgo m0)|done].
  - intros Hc. destruct (addMissing_ok missing m Hwf Hc) as (m0 & Hadd & Ham). exists m0. split; [|done].
    rewrite (HandleAccept_missing m r missing m0 Hadd). destruct (stale_rejected m0 r i) as [_ E];
      [apply Ham|by apply (am_kept _ _ _ Ham)|done|done].
Qed.

Lemma HandlePreAccept_ok (m : Manager) (r : Instance)
    (Hwf : wf m) (Hnewer : newer m r) (Hstatus : i_Status (incoming m r) ≤ INSTANCE_PREACCEPTED)
    (Hkeys : keys_of (incoming m r) ≠ []) :
  ∃ m' i' missing,
    HandlePreAccept (mkPreAcceptRequest r) m =
      (Ok (mkPreAcceptResponse true (i_MaxBallot r) (Instance.Copy i') missing), m') ∧
    only_at (i_InstanceID r) m m' ∧ lookup m' (i_InstanceID r) = Some i' ∧
    same_command (incoming m r) i' ∧ i_Status i' = INSTANCE_PREACCEPTED ∧
    i_MaxBallot i' = i_MaxBallot r ∧ i_Noop i' = i_Noop r ∧
    (∀ id, id ∈ i_Dependencies i' ↔
      id ≠ i_InstanceID r ∧ interfering (incoming m r) (view (m_depsMngr m)) id) ∧
    (i_DependencyMatch i' = true ↔ (∀ id, id ∈ i_Dependencies i' ↔ id ∈ i_Dependencies r)) ∧
    (∀ c, c ∈ missing ↔ (∃ id j, id ∈ i_Dependencies i' ∧ ¬ (id ∈ i_Dependencies r) ∧
      lookup m' id = Some j ∧ c = Instance.Copy j)) ∧
    ∀ k, view (m_depsMngr m') k =
      at_path (keys_of (incoming m r)) (spec_record (incoming m r)) (view (m_depsMngr m)) k.
Proof.
  destruct (preAccept_request m r Hwf Hnewer Hstatus Hkeys)
    as (p & m0 & m1 & i1 & Ha & Hrun & Hm1 & Hoa & Hl & Hsame & T1 & T2 & T3 & Hids & Hv).
  apply lookup_stored in Hl as (q & Hst).
  destruct (replyPreAccept_ok m1 _ (InstanceIDSet.NewInstanceIDSet (i_Dependencies r)) q i1 Hm1 Hst)
    as (m' & l & Hrep & Hoa' & Hl' & Hd' & Hm' & Hmiss).
  set (i' := with_DependencyMatch _ i1) in *.
  exists m', i', l. split_and!; try done.
  - unfold HandlePreAccept. cbn [pareq_Instance]. cbv zeta.
    rewrite (bind_run _ _ _ _ _ (outdated_newer m r Hwf Hnewer)), (bind_run _ _ _ _ _ Ha),
      (bind_run _ _ _ _ _ Hrun), Hrep. by rewrite T2.
  - by etrans.
  - cbn. rewrite InstanceIDSet.idset_Equal_spec by apply InstanceIDSet.wf_New.
    rewrite bool_decide_eq_true, !InstanceIDSet.dom_New, set_eq.
    setoid_rewrite elem_of_list_to_set. split; intros H id; by rewrite H.
  - intros c. rewrite Hmiss, list_elem_of_fmap. setoid_rewrite list_elem_of_omap.
    setoid_rewrite InstanceIDSet.elem_of_List. rewrite InstanceIDSet.dom_Difference, !InstanceIDSet.dom_New.
    setoid_rewrite elem_of_difference. setoid_rewrite elem_of_list_to_set. cbn.
    split; [intros (j & -> & id & [? ?] & ?)|intros (id & j & ? & ? & ? & ->)]; eauto 10.
  - intros k. by rewrite Hd', Hv.
Qed.

(** ** Properties *)

(** Requests with an old ballot have no effect: when a replica holds an
    instance whose ballot is at least that of the request, [HandlePreAccept]
    and [HandleAccept] (of a request that brings no missing instances) reject
    it, report the ballot they hold, and leave the whole state as it was. *)
Theorem stale_requests_rejected (m : Manager) (r i : Instance)
    (Hwf : wf m) (Hstored : lookup m (i_InstanceID r) = Some i)
    (Hstale : i_MaxBallot r ≤ i_MaxBallot i) :
  HandlePreAccept (mkPreAcceptRequest r) m =
    (Ok (mkPreAcceptResponse false (i_MaxBallot i) (Instance.Copy i) []), m) ∧
  HandleAccept (mkAcceptRequest r []) m = (Ok (mkAcceptResponse false (i_MaxBallot i)), m).
Proof. by apply stale_rejected. Qed.

(** C18. [HandlePreAccept] of a request that is newer than what the replica
    holds, for an instance that has not got beyond preaccepted, accepts it: the
    instance is stored as preaccepted with the request's ballot and noop flag,
    depends on exactly the conflicting commands the replica has recorded on
    interfering keys, and remembers whether these are the leader's dependencies.
    At the path of its keys it is recorded for later commands, and what is marked
    there as both executed and acknowledged is dropped.  The reply carries a copy
    of the instance and copies of the dependencies the leader does not know, as far
    as the replica has them.  No other instance and no other path changes, nor
    does anything else of the replica. *)
Theorem preaccept_request_accepted (m : Manager) (r : Instance)
    (Hwf : wf m) (Hnewer : newer m r) (Hstatus : i_Status (incoming m r) ≤ INSTANCE_PREACCEPTED)
    (Hkeys : keys_of (incoming m r) ≠ []) :
  ∃ m' i' missing,
    HandlePreAccept (mkPreAcceptRequest r) m =
      (Ok (mkPreAcceptResponse true (i_MaxBallot r) (Instance.Copy i') missing), m') ∧
    only_at (i_InstanceID r) m m' ∧ lookup m' (i_InstanceID r) = Some i' ∧
    same_command (incoming m r) i' ∧ i_Status i' = INSTANCE_PREACCEPTED ∧
    i_MaxBallot i' = i_MaxBallot r ∧ i_Noop i' = i_Noop r ∧
    (∀ id, id ∈ i_Dependencies i' ↔
      id ≠ i_InstanceID r ∧ interfering (incoming m r) (view (m_depsMngr m)) id) ∧
    (i_DependencyMatch i' = true ↔ (∀ id, id ∈ i_Dependencies i' ↔ id ∈ i_Dependencies r)) ∧
    (∀ c, c ∈ missing ↔ (∃ id j, id ∈ i_Dependencies i' ∧ ¬ (id ∈ i_Dependencies r) ∧
      lookup m' id = Some j ∧ c = Instance.Copy j)) ∧
    ∀ k, view (m_depsMngr m') k =
      at_path (keys_of (incoming m r)) (spec_record (incoming m r)) (view (m_depsMngr m)) k.
Proof. by apply HandlePreAccept_ok. Qed.

(** C20. [HandleAccept] of a request that is newer than what the replica holds,
    for an instance that is not committed yet.  The missing instances that it
    brings are added first: those that are unknown are stored, as committed if
    the sender has executed them, and nothing that is known changes.  Then the
    instance becomes accepted with the request's dependencies, ballot and noop flag,
    and these dependencies are reported as acknowledged on the instance's keys;
    an instance that was unknown and comes with a status above preaccepted is
    recorded there as a dependency before.  No other instance changes. *)
Theorem accept_request_accepted (m m0 : Manager) (r : Instance) (missing : list Instance)
    (Hwf : wf m) (Hmissing : Forall carriable missing) (Hadded : m0 = (addMissing missing m).2)
    (Hnewer : newer m0 r) (Hstatus : i_Status (incoming m0 r) ≤ INSTANCE_ACCEPTED)
    (Hkeys : keys_of (incoming m0 r) ≠ []) :
  adds_missing missing m m0 ∧ (missing = [] → m0 = m) ∧
  ∃ m' i', HandleAccept (mkAcceptRequest r missing) m = (Ok (mkAcceptResponse true 0), m') ∧
    only_at (i_InstanceID r) m0 m' ∧ lookup m' (i_InstanceID r) = Some i' ∧
    same_command (incoming m0 r) i' ∧ i_Status i' = INSTANCE_ACCEPTED ∧
    i_MaxBallot i' = i_MaxBallot r ∧ i_Noop i' = i_Noop r ∧ i_Dependencies i' = i_Dependencies r ∧
    ∀ k, view (m_depsMngr m') k =
      at_path (keys_of i') (spec_acknowledge i') (view (incoming_deps m0 r)) k.
Proof.
  destruct (addMissing_ok missing m Hwf Hmissing) as (m1 & Hadd & Ham).
  assert (m0 = m1) as -> by by rewrite Hadded, Hadd. split_and!; [done| |].
  - intros ->. assert ((Ok tt, m) = (Ok tt, m1)) as [= ->] by exact Hadd. done.
  - rewrite (HandleAccept_missing m r missing m1 Hadd). apply HandleAccept_ok; [apply Ham|done..].
Qed.

(** C21. [HandleCommit] makes any instance that is not executed committed with
    the request's dependencies and noop flag, whatever the ballots are (the
    higher one is kept), and leaves an executed one as it is; it never fails
    for a command with keys. *)
Theorem commit_request_committed (m : Manager) (r : Instance)
    (Hwf : wf m) (Hkeys : keys_of (incoming m r) ≠ []) :
  ∃ m' i', HandleCommit (mkCommitRequest r) m = (Ok tt, m') ∧
    only_at (i_InstanceID r) m m' ∧ lookup m' (i_InstanceID r) = Some i' ∧
    (if decide (i_Status (incoming m r) = INSTANCE_EXECUTED)
    then i' = incoming m r ∧ m_depsMngr m' = m_depsMngr m
    else same_command (incoming m r) i' ∧ i_Status i' = INSTANCE_COMMITTED ∧
      i_MaxBallot i' = Z.max (i_MaxBallot (incoming m r)) (i_MaxBallot r) ∧
      i_Noop i' = i_Noop r ∧ i_Dependencies i' = i_Dependencies r ∧
      ∀ k, view (m_depsMngr m') k =
        at_path (keys_of i') (spec_acknowledge i') (view (incoming_deps m r)) k).
Proof.
  case_decide as Hx.
  - unfold incoming in *. destruct (lookup m (i_InstanceID r)) as [i|] eqn:Hi; cbn in *.
    + destruct (HandleCommit_executed m r i Hwf Hi Hx) as (m' & ? & ? & ? & ?). by exists m', i.
    + pose proof (initialize_status r). rewrite Hx in *. done.
  - destruct (HandleCommit_ok m r Hwf) as (m' & i' & H); [|done|by exists m', i'; destruct_and! H].
    assert (i_Status (incoming m r) ≤ INSTANCE_EXECUTED).
    { unfold incoming. destruct (lookup m (i_InstanceID r)) as [i|] eqn:Hi; cbn.
      - apply lookup_stored in Hi as (p & Hp & Hi). destruct (wf_ptr m Hwf _ _ Hp) as (? & ? & _ & ?). by simplify_eq.
      - pose proof (initialize_status r). unfold INSTANCE_COMMITTED, INSTANCE_EXECUTED in *. lia. }
    unfold INSTANCE_COMMITTED, INSTANCE_EXECUTED in *. lia.
Qed.

End handlers.

(** ** Examples *)

Lemma example_nodes_NoDup : NoDup [mkB16 1 1; mkB16 1 2; mkB16 1 3].
Proof. apply (bool_decide_eq_true_1 _). vm_compute. reflexivity. Qed.

(** Three replicas of every key. *)
Definition example_placement : Placement := {|
  local_id := mkB16 1 1;
  local_nodes := λ _, [mkB16 1 1; mkB16 1 2; mkB16 1 3];
  local_nodes_NoDup := λ _, example_nodes_NoDup;
|}.

(** A request for an instance of [LogStore]. *)
Definition example_request (n ballot status : Z) (deps : list InstanceID) : Instance :=
  with_Dependencies deps (with_Status status (with_MaxBallot ballot
    (example_instance n "a" [] false))).

Section examples.
#[local] Existing Instances LogStore MapOrder_id example_placement.

Definition example_empty : Manager := NewManager ([] : @store_state LogStore) Time_zero.

(** A replica that has answered one preaccept. *)
Definition example_manager : Manager :=
  (HandlePreAccept (mkPreAcceptRequest (example_request 1 5 1 [])) example_empty).2.

Lemma example_manager_wf : wf example_manager.
Proof.
  apply (preserves_HandlePreAccept Z.le); [done|]. apply wf_NewManager.
Qed.

Definition example_stored : Instance := default Instance_zero (lookup example_manager (mkB16 0 1)).

Lemma stale_requests_rejected_witness :
  HandleAccept (mkAcceptRequest (example_request 1 5 2 []) []) example_manager =
    (Ok (mkAcceptResponse false (i_MaxBallot example_stored)), example_manager).
Proof.
  apply (stale_requests_rejected example_manager (example_request 1 5 2 []) example_stored).
  - apply example_manager_wf.
  - vm_compute. reflexivity.
  - vm_compute. discriminate.
Defined.

Lemma preaccept_request_accepted_witness :
  ∃ m' i' missing,
    HandlePreAccept (mkPreAcceptRequest (example_request 2 3 1 [])) example_manager =
      (Ok (mkPreAcceptResponse true 3 (Instance.Copy i') missing), m') ∧
    i_Status i' = INSTANCE_PREACCEPTED.
Proof.
  destruct (preaccept_request_accepted example_manager (example_request 2 3 1 []))
    as (m' & i' & missing & H & _ & _ & _ & Hs & _).
  - apply example_manager_wf.
  - intros i. vm_compute. discriminate.
  - vm_compute. discriminate.
  - vm_compute. discriminate.
  - exists m', i', missing. split; [exact H|exact Hs].
Defined.

Lemma accept_request_accepted_witness :
  ∃ m' i', HandleAccept (mkAcceptRequest (example_request 1 6 2 [mkB16 0 9]) [example_request 9 1 4 []]) example_manager =
      (Ok (mkAcceptResponse true 0), m') ∧
    lookup m' (mkB16 0 1) = Some i' ∧ i_Dependencies i' = [mkB16 0 9].
Proof.
  destruct (accept_request_accepted example_manager (addMissing [example_request 9 1 4 []] example_manager).2
    (example_request 1 6 2 [mkB16 0 9]) [example_request 9 1 4 []])
    as (_ & _ & m' & i' & H & _ & Hl & _ & _ & _ & _ & Hd & _).
  - apply example_manager_wf.
  - repeat constructor; vm_compute; discriminate.
  - reflexivity.
  - intros i. vm_compute. intros [= <-]. reflexivity.
  - vm_compute. discriminate.
  - vm_compute. discriminate.
  - exists m', i'. split; [exact H|]. split; [exact Hl|exact Hd].
Defined.

Lemma commit_request_committed_witness :
  ∃ m' i', HandleCommit (mkCommitRequest (example_request 1 2 3 [mkB16 0 9])) example_manager =
      (Ok tt, m') ∧ lookup m' (mkB16 0 1) = Some i'.
Proof.
  destruct (commit_request_committed example_manager (example_request 1 2 3 [mkB16 0 9]))
    as (m' & i' & H & _ & Hl & _).
  - apply example_manager_wf.
  - vm_compute. discriminate.
  - exists m', i'. split; [exact H|exact Hl].
Defined.

End examples.
