(* ===== verification/Tarjan.v ===== *)
(** * Strongly connected components

    [tarjanConnect] of [src/consensus/algorithms.go].  The [vertex] structs are
    kept in a map from their ids; Go's stack grows at its end, here its top is
    the head of the list.  The recursion is on a bound of its depth: every
    nested call visits a vertex, so one more than the number of vertices is
    enough.  [tarjanConnect_correct] shows the output to be the strongly connected
    components in reverse topological order. *)

From S2P Require Import Prelude Bytes Types.

Record vertex := mkVertex {
  v_out : list InstanceID;
  v_index : nat;
  v_lowlink : nat;
  v_stacked : bool;
  v_visited : bool;
}.

Abbreviation graph := (gmap InstanceID (list InstanceID)).

Record tarjan := mkTarjan {
  t_vertices : gmap InstanceID vertex;
  t_index : nat;
  t_stack : list InstanceID;
  t_output : list (list InstanceID);
}.

Definition set_vertex (id : InstanceID) (v : vertex) (s : tarjan) : tarjan :=
  mkTarjan (<[id := v]> (t_vertices s)) (t_index s) (t_stack s) (t_output s).

Definition with_lowlink (l : nat) (v : vertex) : vertex :=
  mkVertex (v_out v) (v_index v) l (v_stacked v) (v_visited v).

(** [if l < v.lowlink { v.lowlink = l }] *)
Definition lower (id : InstanceID) (l : nat) (s : tarjan) : option tarjan :=
  v ← t_vertices s !! id;
  Some (if (l <? v_lowlink v)%nat then set_vertex id (with_lowlink l v) s else s).

(** The first statements of [strongConnect]: number the vertex and push it. *)
Definition enter (id : InstanceID) (v : vertex) (s : tarjan) : tarjan :=
  let index := S (t_index s) in
  mkTarjan (<[id := mkVertex (v_out v) index index true true]> (t_vertices s))
    index (id :: t_stack s) (t_output s).

(** [for v != w { ... }]; [None] is an index out of range. *)
Fixpoint pop (id : InstanceID) (stack : list InstanceID) (vs : gmap InstanceID vertex)
    (component : list InstanceID) : option (list InstanceID * gmap InstanceID vertex * list InstanceID) :=
  match stack with
  | [] => None
  | w :: stack =>
      v ← vs !! w;
      let vs := <[w := mkVertex (v_out v) (v_index v) (v_lowlink v) false (v_visited v)]> vs in
      let component := component ++ [w] in
      if decide (w = id) then Some (component, vs, stack) else pop id stack vs component
  end.

(** The last statements: a root takes its component off the stack. *)
Definition leave (id : InstanceID) (s : tarjan) : option tarjan :=
  v ← t_vertices s !! id;
  if decide (v_index v = v_lowlink v) then
    x ← pop id (t_stack s) (t_vertices s) [];
    let '(component, vs, stack) := x in
    Some (mkTarjan vs (t_index s) stack (t_output s ++ [component]))
  else Some s.

(** The body of the loop over [v.out]; [rec] is the recursive call. *)
Definition look_at (rec : InstanceID → tarjan → option tarjan) (id w : InstanceID) (s : tarjan) :
    option tarjan :=
  match t_vertices s !! w with
  | None => Some s
  | Some v =>
      if negb (v_visited v) then
        s ← rec w s;
        v ← t_vertices s !! w;
        lower id (v_lowlink v) s
      else if v_stacked v then lower id (v_index v) s
      else Some s
  end.

Fixpoint look_out (rec : InstanceID → tarjan → option tarjan) (id : InstanceID)
    (out : list InstanceID) (s : tarjan) : option tarjan :=
  match out with
  | [] => Some s
  | w :: out => s ← look_at rec id w s; look_out rec id out s
  end.

Fixpoint strongConnect (fuel : nat) (id : InstanceID) (s : tarjan) : option tarjan :=
  match fuel with
  | O => None
  | S fuel =>
      v ← t_vertices s !! id;
      s ← look_out (strongConnect fuel) id (v_out v) (enter id v s);
      leave id s
  end.

(** [for _, v := range vertices] *)
Fixpoint connect_all (fuel : nat) (vertices : list InstanceID) (s : tarjan) : option tarjan :=
  match vertices with
  | [] => Some s
  | id :: vertices =>
      v ← t_vertices s !! id;
      s ← (if negb (v_visited v) then strongConnect fuel id s else Some s);
      connect_all fuel vertices s
  end.

Definition tarjan_init (g : graph) : tarjan :=
  mkTarjan ((λ out, mkVertex out 0 0 false false) <$> g) 0 [] [].

(** The vertices are visited in the order in which the map was ranged over. *)
Definition tarjanConnect `{MapOrder} (g : graph) : option (list (list InstanceID)) :=
  t_output <$> connect_all (S (size g)) (map_order (map_to_list g).*1) (tarjan_init g).

(** ** Correctness

    The invariant is stated for the vertices in [gray], whose calls have not
    returned. *)

Section tarjan_correct.
Context (g : graph).

Definition edge (x y : InstanceID) : Prop :=
  ∃ out, g !! x = Some out ∧ y ∈ out ∧ is_Some (g !! y).

Abbreviation reach := (rtc edge).

(** The vertices of a strongly connected component. *)
Definition is_scc (c : list InstanceID) : Prop :=
  c ≠ [] ∧ ∀ x, x ∈ c → ∀ y, y ∈ c ↔ reach x y ∧ reach y x.

(** No edge leaves [l]. *)
Definition closed (l : list InstanceID) : Prop := ∀ x y, x ∈ l → edge x y → y ∈ l.

(** The visited vertices. *)
Definition seen (s : tarjan) : list InstanceID := t_stack s ++ concat (t_output s).

Definition index (s : tarjan) (x : InstanceID) : nat :=
  from_option v_index 0%nat (t_vertices s !! x).

Definition represents (s : tarjan) (x : InstanceID) (out : list InstanceID) (v : vertex) : Prop :=
  v_out v = out ∧ v_visited v = bool_decide (x ∈ seen s) ∧ v_stacked v = bool_decide (x ∈ t_stack s).

Record inv (gray : list InstanceID) (s : tarjan) : Prop := {
  inv_vertex : ∀ x, option_Forall2 (represents s x) (g !! x) (t_vertices s !! x);
  inv_NoDup : NoDup (seen s);
  inv_dom : ∀ x, x ∈ seen s → is_Some (g !! x);
  inv_sorted : StronglySorted (λ x y, index s y < index s x)%nat (t_stack s);
  inv_bound : ∀ x, x ∈ t_stack s → (index s x ≤ t_index s)%nat;
  inv_gray : ∀ x, x ∈ gray → x ∈ t_stack s;
  inv_black : ∀ x y, x ∈ seen s → x ∉ gray → edge x y → y ∈ seen s;
  inv_down : ∀ y, y ∈ t_stack s → ∃ x, x ∈ gray ∧ (index s x ≤ index s y)%nat ∧ reach y x;
  inv_up : ∀ x y, x ∈ gray → y ∈ t_stack s → (index s x ≤ index s y)%nat → reach x y;
  inv_closed : ∀ pre, pre `prefix_of` t_output s → closed (concat pre);
  inv_scc : Forall is_scc (t_output s);
}.

Lemma index_eq s x v : t_vertices s !! x = Some v → index s x = v_index v.
Proof. unfold index. by intros ->. Qed.

Lemma index_same s s' x : t_vertices s' !! x = t_vertices s !! x → index s' x = index s x.
Proof. unfold index. by intros ->. Qed.

Lemma inv_lookup gray s x :
  inv gray s → is_Some (g !! x) →
  ∃ out v, g !! x = Some out ∧ t_vertices s !! x = Some v ∧ represents s x out v.
Proof.
  intros Hi [out Hx]. pose proof (inv_vertex _ _ Hi x) as H. rewrite Hx in H.
  inversion H; subst. by exists out, y.
Qed.

Lemma seen_stack s x : x ∈ t_stack s → x ∈ seen s.
Proof. unfold seen. set_solver. Qed.

Lemma closed_reach l x y : closed l → x ∈ l → reach x y → y ∈ l.
Proof. intros Hc Hx H. induction H; [done|]. eauto. Qed.

(** ** Lowering a lowlink *)

Lemma lower_eq id l s v :
  t_vertices s !! id = Some v →
  lower id l s = Some (set_vertex id (with_lowlink (l `min` v_lowlink v) v) s).
Proof.
  intros Hv. unfold lower. rewrite Hv. cbn [mbind option_bind]. f_equal. case (Nat.ltb_spec l (v_lowlink v)); intros Hl.
  - by rewrite Nat.min_l by lia.
  - rewrite Nat.min_r by lia. replace (with_lowlink (v_lowlink v) v) with v by by destruct v.
    unfold set_vertex. rewrite insert_id by done. by destruct s.
Qed.

Lemma index_lowlink id l v s x :
  t_vertices s !! id = Some v → index (set_vertex id (with_lowlink l v) s) x = index s x.
Proof.
  intros Hv. unfold index. cbn. destruct (decide (x = id)) as [->|].
  - by rewrite lookup_insert_eq, Hv.
  - by rewrite lookup_insert_ne.
Qed.

Lemma inv_lowlink gray s id v l :
  inv gray s → t_vertices s !! id = Some v → inv gray (set_vertex id (with_lowlink l v) s).
Proof.
  intros [H1 H2 H3 H4 H5 H6 H7 H8 H9 H10 H11] Hv.
  pose proof (λ x, index_lowlink id l v s x Hv) as Hix.
  split; try done; cbn.
  - intros x. specialize (H1 x). destruct (decide (x = id)) as [->|].
    + rewrite lookup_insert_eq. rewrite Hv in H1. inversion H1; subst. by constructor.
    + by rewrite lookup_insert_ne.
  - eapply StronglySorted_impl_in; [|exact H4]. intros x y _ _. by rewrite !Hix.
  - intros x. rewrite Hix. apply H5.
  - intros y Hy. setoid_rewrite Hix. auto.
  - intros x y. rewrite !Hix. auto.
Qed.

(** ** Entering a vertex *)

Lemma seen_enter id v s : seen (enter id v s) = id :: seen s.
Proof. done. Qed.

Lemma index_enter_ne id v s x : x ≠ id → index (enter id v s) x = index s x.
Proof. intros Hx. apply index_same. cbn. by rewrite lookup_insert_ne. Qed.

Lemma index_enter id v s : index (enter id v s) id = S (t_index s).
Proof. unfold index. cbn. by rewrite lookup_insert_eq. Qed.

Lemma inv_enter gray s id out v :
  inv gray s → g !! id = Some out → t_vertices s !! id = Some v → id ∉ seen s →
  (∀ x, x ∈ gray → reach x id) → inv (id :: gray) (enter id v s).
Proof.
  intros Hi Hg Hv Hns Hr. pose proof Hi as [H1 H2 H3 H4 H5 H6 H7 H8 H9 H10 H11].
  assert (∀ x, x ∈ t_stack s → x ≠ id) as Hne by (intros x Hx ->; by apply Hns, seen_stack).
  assert (∀ x, x ∈ t_stack s → index (enter id v s) x = index s x) as Hix
    by (intros; apply index_enter_ne; auto).
  pose proof (index_enter id v s) as Hid.
  split; try done; rewrite ?seen_enter.
  - intros x. specialize (H1 x). cbn. destruct (decide (x = id)) as [->|Hx].
    + rewrite lookup_insert_eq, Hg. rewrite Hg, Hv in H1. inversion_clear H1 as [? ? Hrep|].
      constructor. destruct Hrep as (-> & _ & _). unfold represents. rewrite seen_enter. split_and!; cbn; [done|..].
      all: symmetry; apply bool_decide_eq_true; set_solver.
    + rewrite lookup_insert_ne by done. destruct H1 as [out' v' (Ho & Hvi & Hst)|]; constructor.
      unfold represents. rewrite Ho, Hvi, Hst, seen_enter. cbn. split_and!; [done|..].
      all: apply bool_decide_ext; rewrite elem_of_cons; naive_solver.
  - by constructor.
  - intros x [->|Hx]%elem_of_cons; eauto.
  - cbn. constructor.
    + eapply StronglySorted_impl_in; [|exact H4]. intros x y Hx Hy. by rewrite !Hix.
    + apply Forall_forall. intros x Hx. rewrite Hid, Hix by done. specialize (H5 _ Hx). lia.
  - intros x [->|Hx]%elem_of_cons; cbn; [lia|]. rewrite Hix by done. specialize (H5 _ Hx). lia.
  - intros x [->|Hx]%elem_of_cons; cbn; [left|right; auto].
  - intros x y. set_solver.
  - intros y [->|Hy]%elem_of_cons.
    + exists id. split_and!; [left|done|reflexivity].
    + destruct (H8 y Hy) as (x & Hx & Hle & Hxy). exists x. rewrite !Hix by auto. set_solver.
  - intros x y [->|Hx]%elem_of_cons [->|Hy]%elem_of_cons; [reflexivity| |auto|].
    + rewrite Hid, Hix by done. specialize (H5 _ Hy). lia.
    + rewrite !Hix by auto. auto.
Qed.

(** ** The loop over the edges *)

Record looking (gray : list InstanceID) (id : InstanceID) (s0 s : tarjan)
    (new : list InstanceID) (v : vertex) : Prop := {
  look_inv : inv (id :: gray) s;
  look_stack : t_stack s = new ++ id :: t_stack s0;
  look_same : ∀ x, x ∈ seen s0 → t_vertices s !! x = t_vertices s0 !! x;
  look_seen : seen s0 ⊆ seen s;
  look_vertex : t_vertices s !! id = Some v;
  look_index : v_index v = S (t_index s0);
  look_low : (v_lowlink v ≤ v_index v)%nat;
  look_sound : ∃ y, y ∈ t_stack s ∧ reach id y ∧ index s y = v_lowlink v;
  look_bound : ∀ y z, y ∈ new → z ∈ t_stack s0 → edge y z → (v_lowlink v ≤ index s0 z)%nat;
}.

(** What a call leaves behind for its caller. *)
Record connected (gray : list InstanceID) (id : InstanceID) (s0 s : tarjan)
    (new : list InstanceID) (v : vertex) : Prop := {
  conn_inv : inv gray s;
  conn_stack : t_stack s = new ++ t_stack s0;
  conn_same : ∀ x, x ∈ seen s0 → t_vertices s !! x = t_vertices s0 !! x;
  conn_seen : id :: seen s0 ⊆ seen s;
  conn_vertex : t_vertices s !! id = Some v;
  conn_index : v_index v = S (t_index s0);
  conn_sound : v_lowlink v = v_index v ∨ ∃ y, y ∈ t_stack s ∧ reach id y ∧ index s y = v_lowlink v;
  conn_bound : ∀ y z, y ∈ new → z ∈ t_stack s0 → edge y z → (v_lowlink v ≤ index s0 z)%nat;
}.

Lemma looking_start gray s id out v :
  inv gray s → g !! id = Some out → t_vertices s !! id = Some v → id ∉ seen s →
  (∀ x, x ∈ gray → reach x id) →
  looking gray id s (enter id v s) [] (mkVertex (v_out v) (S (t_index s)) (S (t_index s)) true true).
Proof.
  intros Hi Hg Hv Hns Hr. split; try done; cbn.
  - by eapply inv_enter.
  - intros x Hx. rewrite lookup_insert_ne; [done|]. by intros ->.
  - set_solver.
  - by rewrite lookup_insert_eq.
  - exists id. split_and!; [left|reflexivity|apply index_enter].
  - by intros y z ?%elem_of_nil.
Qed.

Lemma looking_lower gray id s0 s new v l :
  looking gray id s0 s new v → id ∉ seen s0 →
  (l < v_lowlink v → ∃ y, y ∈ t_stack s ∧ reach id y ∧ index s y = l)%nat →
  looking gray id s0 (set_vertex id (with_lowlink (l `min` v_lowlink v) v) s) new
    (with_lowlink (l `min` v_lowlink v) v).
Proof.
  intros [Hi Hst Hsame Hseen Hv Hix Hlow Hsnd Hbnd] Hns Hl. split; try done; cbn.
  - by apply inv_lowlink.
  - intros x Hx. rewrite lookup_insert_ne; [auto|]. by intros ->.
  - by rewrite lookup_insert_eq.
  - lia.
  - setoid_rewrite (index_lowlink id _ v s); [|done].
    destruct (Nat.lt_ge_cases l (v_lowlink v)).
    + rewrite Nat.min_l by lia. auto.
    + by rewrite Nat.min_r by lia.
  - intros y z Hy Hz He. specialize (Hbnd y z Hy Hz He). lia.
Qed.

(** After the recursive call for a successor [w]. *)
Lemma looking_rec gray id s0 s s' new new' v w u :
  looking gray id s0 s new v → id ∉ seen s0 → edge id w →
  connected (id :: gray) w s s' new' u →
  looking gray id s0
    (set_vertex id (with_lowlink (v_lowlink u `min` v_lowlink v) v) s') (new' ++ new)
    (with_lowlink (v_lowlink u `min` v_lowlink v) v).
Proof.
  intros [Hi Hst Hsame Hseen Hv Hix Hlow Hsnd Hbnd] Hns He [Ci Cst Csame Cseen Cv Cix Csnd Cbnd].
  assert (id ∈ t_stack s) as Hid by (rewrite Hst; set_solver).
  assert (t_vertices s' !! id = Some v) as Hv' by (rewrite Csame; [done|by apply seen_stack]).
  split; try done; cbn.
  - by apply inv_lowlink.
  - rewrite Cst, Hst. by rewrite app_assoc.
  - intros x Hx. rewrite lookup_insert_ne; [|by intros ->]. rewrite Csame by auto. auto.
  - change (seen s0 ⊆ seen s'). set_solver.
  - by rewrite lookup_insert_eq.
  - lia.
  - setoid_rewrite (index_lowlink id _ v s'); [|done].
    destruct (Nat.lt_ge_cases (v_lowlink u) (v_lowlink v)).
    + rewrite Nat.min_l by lia. destruct Csnd as [Heq|(y & Hy & Hr & Hix')].
      * pose proof (inv_bound _ _ Hi id Hid) as Hb. rewrite (index_eq _ _ _ Hv) in Hb. lia.
      * exists y. split_and!; [done| |done]. by eapply rtc_l.
    + rewrite Nat.min_r by lia. destruct Hsnd as (y & Hy & Hr & Hix').
      exists y. split_and!; [rewrite Cst; set_solver|done|].
      rewrite <- Hix'. apply index_same, Csame. by apply seen_stack.
  - intros y z [Hy|Hy]%elem_of_app Hz Hyz.
    + specialize (Cbnd y z Hy). rewrite <- (index_same s0 s z); [|apply Hsame; by apply seen_stack].
      assert (z ∈ t_stack s) as Hz' by (rewrite Hst; set_solver).
      specialize (Cbnd Hz' Hyz). lia.
    + specialize (Hbnd y z Hy Hz Hyz). lia.
Qed.

Definition connects (rec : InstanceID → tarjan → option tarjan) (fuel : nat) : Prop :=
  ∀ gray id s, (size g < fuel + length (seen s))%nat → inv gray s → is_Some (g !! id) →
    id ∉ seen s → (∀ x, x ∈ gray → reach x id) →
    ∃ s' new v, rec id s = Some s' ∧ connected gray id s s' new v.

(** A vertex that has been looked at is visited, and accounted for if it is on
    the stack below [id]. *)
Definition accounted (s0 s : tarjan) (v : vertex) (w : InstanceID) : Prop :=
  w ∈ seen s ∧ (w ∈ t_stack s0 → (v_lowlink v ≤ index s0 w)%nat).

Lemma look_at_spec rec fuel gray id s0 s new v w :
  connects rec fuel → id ∉ seen s0 → (is_Some (g !! w) → edge id w) →
  (size g < fuel + length (seen s))%nat → (∀ x, x ∈ gray → reach x id) →
  looking gray id s0 s new v →
  ∃ s' new' v', look_at rec id w s = Some s' ∧ looking gray id s0 s' new' v' ∧
    seen s ⊆ seen s' ∧ (v_lowlink v' ≤ v_lowlink v)%nat ∧
    (is_Some (g !! w) → accounted s0 s' v' w).
Proof.
  intros Hrec Hns Hout Hfuel Hgray HL. pose proof HL as [Hi Hst Hsame Hseen Hv Hix Hlow Hsnd Hbnd].
  unfold look_at. pose proof (inv_vertex _ _ Hi w) as Hw.
  destruct (g !! w) as [o|] eqn:Hgw, (t_vertices s !! w) as [u|] eqn:Hu; inversion_clear Hw as [? ? Hrep|].
  2: { exists s, new, v. by split_and!. }
  destruct Hrep as (Ho & Hvis & Hstk). rewrite Hvis, Hstk. clear Hvis Hstk.
  destruct (bool_decide_reflect (w ∈ seen s)) as [Hws|Hws]; cbn [negb].
  - case_bool_decide as Hwst.
    + rewrite (lower_eq _ _ _ _ Hv). do 3 eexists. split; [done|]. split; [|split_and!].
      * apply looking_lower; [done..|]. intros _. exists w.
        split_and!; [done|by apply rtc_once, Hout|by apply index_eq].
      * done.
      * cbn. lia.
      * intros _. split; [done|]. intros Hw0. cbn. 
        rewrite <- (index_same s0 s w), (index_eq _ _ _ Hu); [lia|]. by apply Hsame, seen_stack.
    + exists s, new, v. split_and!; try done. intros _. split; [done|].
      intros Hw0. destruct Hwst. rewrite Hst. set_solver.
  - destruct (Hrec (id :: gray) w s) as (s' & new' & u' & Hrun & HC); try done.
    { intros x [->|Hx]%elem_of_cons; [by apply rtc_once, Hout|].
      etrans; [by apply Hgray|by apply rtc_once, Hout]. }
    rewrite Hrun. cbn [mbind option_bind]. rewrite (conn_vertex _ _ _ _ _ _ HC). cbn [mbind option_bind].
    assert (t_vertices s' !! id = Some v) as Hv'.
    { rewrite (conn_same _ _ _ _ _ _ HC); [done|]. apply seen_stack. rewrite Hst. set_solver. }
    rewrite (lower_eq _ _ _ _ Hv'). do 3 eexists. split; [done|]. split; [|split_and!].
    + eapply looking_rec; try done. by apply Hout.
    + pose proof (conn_seen _ _ _ _ _ _ HC). change (seen s ⊆ seen s'). set_solver.
    + cbn. lia.
    + intros _. pose proof (conn_seen _ _ _ _ _ _ HC) as Hin. split; [change (w ∈ seen s'); set_solver|].
      intros Hw0. destruct Hws. by apply Hseen, seen_stack.
Qed.

Lemma look_out_spec rec fuel gray id s0 out :
  connects rec fuel → id ∉ seen s0 → (∀ w, w ∈ out → is_Some (g !! w) → edge id w) →
  (∀ x, x ∈ gray → reach x id) →
  ∀ s new v, (size g < fuel + length (seen s))%nat → looking gray id s0 s new v →
  ∃ s' new' v', look_out rec id out s = Some s' ∧ looking gray id s0 s' new' v' ∧
    seen s ⊆ seen s' ∧ (v_lowlink v' ≤ v_lowlink v)%nat ∧
    ∀ w, w ∈ out → is_Some (g !! w) → accounted s0 s' v' w.
Proof.
  intros Hrec Hns Hout Hgray. induction out as [|w out IH]; intros s new v Hfuel HL.
  { exists s, new, v. split_and!; try done. by intros ? ?%elem_of_nil. }
  destruct (look_at_spec rec fuel gray id s0 s new v w) as (s1 & new1 & v1 & Hs1 & HL1 & Hm1 & Hl1 & Ha1);
    try done; [apply Hout; left|].
  destruct (IH (λ x Hx, Hout x (list_elem_of_further _ _ _ Hx)) s1 new1 v1) as (s2 & new2 & v2 & Hs2 & HL2 & Hm2 & Hl2 & Ha2); [|done|].
  { pose proof (submseteq_length _ _ (NoDup_submseteq _ _ (inv_NoDup _ _ (look_inv _ _ _ _ _ _ HL)) Hm1)). lia. }
  exists s2, new2, v2. cbn [look_out]. rewrite Hs1. split_and!; try done; [by etrans|lia|].
  intros x [->|Hx]%elem_of_cons Hg; [|auto]. destruct (Ha1 Hg) as [H1 H2].
  split; [auto|]. intros Hx0. specialize (H2 Hx0). lia.
Qed.

(** ** Leaving a vertex *)

Definition unstack (v : vertex) : vertex :=
  mkVertex (v_out v) (v_index v) (v_lowlink v) false (v_visited v).

Lemma pop_spec id new rest vs component :
  id ∉ new → (∀ x, x ∈ new ++ [id] → is_Some (vs !! x)) →
  ∃ vs', pop id (new ++ id :: rest) vs component = Some (component ++ new ++ [id], vs', rest) ∧
    ∀ x, vs' !! x = if decide (x ∈ new ++ [id]) then unstack <$> vs !! x else vs !! x.
Proof.
  revert vs component. induction new as [|w new IH]; intros vs component Hid Hvs; cbn [pop app].
  - destruct (Hvs id) as [v Hv]; [left|]. rewrite Hv. cbn [mbind option_bind]. rewrite decide_True by done.
    eexists. split; [done|]. intros x. destruct (decide (x = id)) as [->|Hx].
    + rewrite lookup_insert_eq, decide_True, Hv by left. done.
    + rewrite lookup_insert_ne, decide_False by set_solver. done.
  - destruct (Hvs w) as [v Hv]; [left|]. rewrite Hv. cbn [mbind option_bind].
    rewrite decide_False by set_solver. edestruct IH as (vs' & Hpop & Hvs').
    { set_solver. }
    { intros x Hx. destruct (decide (x = w)) as [->|].
      - by rewrite lookup_insert_eq.
      - rewrite lookup_insert_ne by done. apply Hvs. by right. }
    exists vs'. rewrite Hpop, <- app_assoc. split; [done|]. intros x. rewrite Hvs'.
    destruct (decide (x = w)) as [->|Hx].
    + rewrite lookup_insert_eq, (decide_True (P:=w ∈ w :: new ++ [id])), Hv by left. by case_decide.
    + rewrite lookup_insert_ne by done. repeat case_decide; set_solver.
Qed.

Section leave.
Context (gray : list InstanceID) (id : InstanceID) (s0 s : tarjan) (new : list InstanceID) (v : vertex).
Context (Hi0 : inv gray s0) (Hns : id ∉ seen s0) (HL : looking gray id s0 s new v).
Context (Hout : ∀ w, edge id w → accounted s0 s v w).

Let Hi : inv (id :: gray) s := look_inv _ _ _ _ _ _ HL.

Lemma leave_split : NoDup (new ++ id :: t_stack s0) ∧ NoDup (seen s).
Proof.
  pose proof (inv_NoDup _ _ Hi) as H. split; [|done]. unfold seen in H.
  rewrite (look_stack _ _ _ _ _ _ HL) in H. by apply NoDup_app in H as [? _].
Qed.

Lemma leave_component y : y ∈ new ++ [id] → y ∈ t_stack s ∧ (y ∉ t_stack s0) ∧ (y ∉ concat (t_output s)).
Proof.
  destruct leave_split as [H1 H2]. unfold seen in H2. rewrite (look_stack _ _ _ _ _ _ HL) in *.
  apply NoDup_app in H1 as (_ & H1 & H3). apply NoDup_app in H2 as (_ & H2 & _).
  apply NoDup_cons in H3 as [H3 _]. intros Hy. specialize (H1 y). specialize (H2 y).
  apply elem_of_app in Hy as [Hy| ->%list_elem_of_singleton]; set_solver.
Qed.

Lemma leave_edges y z : y ∈ new ++ [id] → edge y z → accounted s0 s v z.
Proof.
  intros Hy Hyz. destruct (leave_component y Hy) as (Hst & Hst0 & _).
  apply elem_of_app in Hy as [Hy| ->%list_elem_of_singleton]; [|auto].
  split; [|intros Hz; by apply (look_bound _ _ _ _ _ _ HL y z)].
  apply (inv_black _ _ Hi y z); [by apply seen_stack| |done].
  rewrite not_elem_of_cons. split; [|intros Hg; by apply Hst0, (inv_gray _ _ Hi0)].
  intros ->. destruct leave_split as [[_ [H _]]%NoDup_app _]. apply (H id Hy). left.
Qed.

Lemma leave_index y : y ∈ new ++ [id] → (index s id ≤ index s y)%nat.
Proof.
  intros [Hy| ->%list_elem_of_singleton]%elem_of_app; [|done].
  pose proof (inv_sorted _ _ Hi) as H. rewrite (look_stack _ _ _ _ _ _ HL) in H.
  apply Nat.lt_le_incl. apply (StronglySorted_app_1_elem_of _ _ _ y id H Hy). left.
Qed.

Lemma leave_below y : y ∈ t_stack s0 → (index s y < index s id)%nat.
Proof.
  intros Hy. rewrite (index_eq _ _ _ (look_vertex _ _ _ _ _ _ HL)), (look_index _ _ _ _ _ _ HL).
  pose proof (inv_bound _ _ Hi0 y Hy). rewrite (index_same s0 s); [lia|].
  by apply (look_same _ _ _ _ _ _ HL), seen_stack.
Qed.

(** The vertex is not the root of its component: it stays on the stack. *)
Lemma inv_leave_stacked : (v_lowlink v < v_index v)%nat → inv gray s.
Proof.
  intros Hlt. pose proof Hi as [H1 H2 H3 H4 H5 H6 H7 H8 H9 H10 H11]. split; try done.
  - intros x Hx. apply H6. by right.
  - intros x y Hx Hg Hxy. destruct (decide (x = id)) as [->|Hne]; [by apply Hout|].
    apply (H7 x y Hx); [|done]. by rewrite not_elem_of_cons.
  - intros y Hy. destruct (H8 y Hy) as (x & [->|Hx]%elem_of_cons & Hle & Hr); [|by exists x].
    destruct (look_sound _ _ _ _ _ _ HL) as (z & Hz & Hrz & Hiz).
    rewrite (index_eq _ _ _ (look_vertex _ _ _ _ _ _ HL)) in Hle.
    destruct (H8 z Hz) as (x & [->|Hx]%elem_of_cons & Hle' & Hr').
    { rewrite (index_eq _ _ _ (look_vertex _ _ _ _ _ _ HL)) in Hle'. lia. }
    exists x. split_and!; [done|lia|]. etrans; [done|]. by etrans.
  - intros x y Hx. apply H9. by right.
Qed.

Context (Hroot : v_lowlink v = v_index v).

Lemma leave_closed : closed (concat (t_output s) ++ new ++ [id]).
Proof.
  intros x y [Hx|Hx]%elem_of_app Hxy.
  { apply elem_of_app. left. by apply (inv_closed _ _ Hi (t_output s) ltac:(done) x y). }
  destruct (leave_edges x y Hx Hxy) as [Hy Hle]. unfold seen in Hy.
  rewrite (look_stack _ _ _ _ _ _ HL) in Hy.
  destruct (decide (y ∈ t_stack s0)) as [Hy0|Hy0]; [|set_solver].
  specialize (Hle Hy0). pose proof (inv_bound _ _ Hi0 y Hy0).
  rewrite Hroot, (look_index _ _ _ _ _ _ HL) in Hle. lia.
Qed.

Lemma leave_mutual y : y ∈ new ++ [id] → reach id y ∧ reach y id.
Proof.
  intros Hy. destruct (leave_component y Hy) as (Hst & _ & _). split.
  { apply (inv_up _ _ Hi id y); [left|done|by apply leave_index]. }
  destruct (inv_down _ _ Hi y Hst) as (x & [->|Hx]%elem_of_cons & _ & Hr); [done|].
  exfalso. apply (inv_gray _ _ Hi0) in Hx.
  assert (x ∈ concat (t_output s) ++ new ++ [id]) as Hin.
  { eapply closed_reach; [exact leave_closed| |exact Hr]. set_solver. }
  apply elem_of_app in Hin as [Hin|Hin].
  - destruct leave_split as [_ [_ [H _]]%NoDup_app]. apply (H x); [|done].
    rewrite (look_stack _ _ _ _ _ _ HL). set_solver.
  - by destruct (leave_component x Hin) as (_ & ? & _).
Qed.

Lemma leave_scc : is_scc (new ++ [id]).
Proof.
  split; [by destruct new|]. intros x Hx y. destruct (leave_mutual x Hx) as [Hix Hxi]. split.
  - intros [Hiy Hyi]%leave_mutual. split; by etrans.
  - intros [Hxy Hyx].
    assert (y ∈ concat (t_output s) ++ new ++ [id]) as [Hy|Hy]%elem_of_app; [|exfalso|done].
    { eapply closed_reach; [exact leave_closed| |exact Hxy]. set_solver. }
    destruct (leave_component x Hx) as (_ & _ & []).
    eapply closed_reach; [|exact Hy|exact Hyx]. by apply (inv_closed _ _ Hi).
Qed.

(** The vertex is a root: its component is complete. *)
Lemma inv_leave_popped vs :
  (∀ x, vs !! x = if decide (x ∈ new ++ [id]) then unstack <$> t_vertices s !! x else t_vertices s !! x) →
  inv gray (mkTarjan vs (t_index s) (t_stack s0) (t_output s ++ [new ++ [id]])).
Proof.
  intros Hvs. set (s' := mkTarjan _ _ _ _).
  pose proof Hi as [H1 H2 H3 H4 H5 H6 H7 H8 H9 H10 H11].
  pose proof (look_stack _ _ _ _ _ _ HL) as Hst.
  assert (seen s' ≡ₚ seen s) as Hp.
  { unfold seen, s'; cbn. rewrite Hst, concat_app. cbn. rewrite app_nil_r. solve_Permutation. }
  assert (∀ x, index s' x = index s x) as Hix.
  { intros x. unfold index, s'; cbn. rewrite Hvs. case_decide; [|done]. by destruct (t_vertices s !! x). }
  assert (∀ x, x ∈ t_stack s0 → x ∈ t_stack s) as Hsub by (intros; rewrite Hst; set_solver).
  split; setoid_rewrite Hp || cbn; try done.
  - intros x. change (t_vertices s') with vs. rewrite Hvs. specialize (H1 x).
    destruct H1 as [out u (Ho & Hvi & Hk)|]; [|by case_decide; constructor].
    destruct (decide (x ∈ new ++ [id])) as [Hx|Hx]; constructor.
    + split_and!; cbn [unstack v_out v_visited v_stacked]; [done|..]; rewrite ?Hvi.
      * apply bool_decide_ext. by rewrite Hp.
      * symmetry. apply bool_decide_eq_false. by destruct (leave_component x Hx) as (_ & ? & _).
    + split_and!; [done|..]; rewrite ?Hvi, ?Hk; apply bool_decide_ext.
      * by rewrite Hp.
      * rewrite Hst. set_solver.
  - rewrite Hst in H4. apply StronglySorted_app_1_r, StronglySorted_inv in H4 as [H4 _].
    eapply StronglySorted_impl_in; [|exact H4]. intros x y _ _. by rewrite !Hix.
  - intros x Hx. rewrite Hix. auto.
  - by apply (inv_gray _ _ Hi0).
  - intros x y Hx Hg Hxy. destruct (decide (x = id)) as [->|Hne]; [by apply Hout|].
    apply (H7 x y Hx); [|done]. by rewrite not_elem_of_cons.
  - intros y Hy. setoid_rewrite Hix. destruct (H8 y) as (x & [->|Hx]%elem_of_cons & Hle & Hr); [auto|..].
    + apply leave_below in Hy. lia.
    + by exists x.
  - intros x y Hx Hy. rewrite !Hix. apply H9; [by right|auto].
  - intros pre [Hpre| ->]%prefix_snoc_inv; [auto|].
    rewrite concat_app. cbn. rewrite app_nil_r. apply leave_closed.
  - apply Forall_app. split; [done|]. apply Forall_singleton, leave_scc.
Qed.

End leave.

Lemma looking_stacked gray id s0 s new v x :
  inv gray s0 → looking gray id s0 s new v → x ∈ seen s0 → x ∈ t_stack s → x ∈ t_stack s0.
Proof.
  intros Hi0 HL Hx Hst. pose proof (inv_dom _ _ Hi0 x Hx) as Hg.
  destruct (inv_lookup _ _ x Hi0 Hg) as (? & u0 & _ & Hu0 & _ & _ & Hk0).
  destruct (inv_lookup _ _ x (look_inv _ _ _ _ _ _ HL) Hg) as (? & u & _ & Hu & _ & _ & Hk).
  rewrite (look_same _ _ _ _ _ _ HL x Hx), Hu0 in Hu. simplify_eq.
  rewrite Hk0 in Hk. rewrite <- bool_decide_eq_true, Hk, bool_decide_eq_true. done.
Qed.

Lemma leave_spec gray id s0 s new v :
  inv gray s0 → id ∉ seen s0 → looking gray id s0 s new v →
  (∀ w, edge id w → accounted s0 s v w) →
  ∃ s' new' v', leave id s = Some s' ∧ connected gray id s0 s' new' v'.
Proof.
  intros Hi0 Hns HL Hout. pose proof HL as [Hi Hst Hsame Hseen Hv Hix Hlow Hsnd Hbnd].
  unfold leave. rewrite Hv. cbn [mbind option_bind]. case_decide as Hroot.
  - assert (id ∉ new) as Hid.
    { destruct (leave_split _ _ _ _ _ _ HL) as [(_ & H & _)%NoDup_app _]. intros Hid.
      apply (H id Hid). left. }
    destruct (pop_spec id new (t_stack s0) (t_vertices s) []) as (vs & Hpop & Hvs); [done| |].
    { intros x Hx. apply (leave_component _ _ _ _ _ _ Hi0 Hns HL Hout) in Hx as (Hx & _ & _).
      destruct (inv_lookup _ s x Hi) as (? & u & _ & ? & _); [|by exists u].
      by apply (inv_dom _ _ Hi), seen_stack. }
    rewrite Hst, Hpop. cbn. exists (mkTarjan vs (t_index s) (t_stack s0) (t_output s ++ [new ++ [id]])).
    exists [], (unstack v). split; [done|]. split; cbn; try done.
    + by eapply inv_leave_popped.
    + intros x Hx. rewrite Hvs. rewrite decide_False; [auto|]. intros Hin.
      apply (leave_component _ _ _ _ _ _ Hi0 Hns HL Hout) in Hin as (H1 & H2 & _). apply H2.
      by apply (looking_stacked _ _ _ _ _ _ x Hi0 HL).
    + rewrite concat_app. cbn. unfold seen in Hseen at 2. rewrite Hst in Hseen. set_solver.
    + rewrite Hvs, decide_True, Hv by set_solver. done.
    + by left.
    + by intros y z ?%elem_of_nil.
  - exists s, (new ++ [id]), v. split; [done|]. split; try done.
    + eapply inv_leave_stacked; try done. lia.
    + by rewrite <- app_assoc.
    + intros x [->|Hx]%elem_of_cons; [|auto]. apply seen_stack. rewrite Hst. set_solver.
    + by right.
    + intros y z Hy Hz Hyz. by apply (leave_edges _ _ _ _ _ _ Hi0 Hns HL Hout y z Hy Hyz).
Qed.

(** ** The whole search *)

Lemma strongConnect_spec fuel : connects (strongConnect fuel) fuel.
Proof.
  induction fuel as [|fuel IH]; intros gray id s Hfuel Hi Hid Hns Hgray.
  { exfalso. cbn in Hfuel. enough (length (seen s) ≤ size g)%nat by lia.
    rewrite <- size_dom, <- (size_list_to_set (C:=gset InstanceID) (seen s)) by apply (inv_NoDup _ _ Hi).
    apply subseteq_size. intros x Hx%elem_of_list_to_set. apply elem_of_dom. by apply (inv_dom _ _ Hi). }
  destruct (inv_lookup _ _ id Hi Hid) as (out & v & Hg & Hv & <- & _). cbn [strongConnect].
  rewrite Hv. cbn [mbind option_bind].
  pose proof (looking_start gray s id _ v Hi Hg Hv Hns Hgray) as H0.
  edestruct (λ H1 H2 H3, look_out_spec (strongConnect fuel) fuel gray id s (v_out v) IH Hns H1 H2 _ _ _ H3 H0)
    as (s1 & new & v1 & Hrun & HL & _ & _ & Hacc).
  - intros w Hw Hgw. by exists (v_out v).
  - done.
  - rewrite seen_enter. cbn [length]. lia.
  - rewrite Hrun. cbn [mbind option_bind]. eapply leave_spec; try done.
    intros w (out' & ? & ? & ?). simplify_eq. auto.
Qed.

Lemma connect_all_spec fuel ids s :
  (size g < fuel)%nat → inv [] s → (∀ x, x ∈ ids → is_Some (g !! x)) →
  ∃ s', connect_all fuel ids s = Some s' ∧ inv [] s' ∧ seen s ⊆ seen s' ∧ ids ⊆ seen s'.
Proof.
  intros Hfuel. revert s. induction ids as [|id ids IH]; intros s Hi Hids.
  { exists s. split_and!; [done..|set_solver]. }
  destruct (inv_lookup _ _ id Hi) as (out & v & Hg & Hv & Ho & Hvis & _); [apply Hids; left|].
  cbn [connect_all]. rewrite Hv. cbn [mbind option_bind]. rewrite Hvis.
  assert (∃ s1, (if negb (bool_decide (id ∈ seen s)) then strongConnect fuel id s else Some s) = Some s1 ∧
    inv [] s1 ∧ id :: seen s ⊆ seen s1) as (s1 & Hs1 & Hi1 & Hm1).
  { case_bool_decide as Hin; cbn [negb]; [exists s; split_and!; [done..|set_solver]|].
    destruct (strongConnect_spec fuel [] id s) as (s1 & new & u & Hrun & HC); try done; [lia| |].
    { by intros x ?%elem_of_nil. }
    exists s1. split_and!; [done|apply HC|apply HC]. }
  rewrite Hs1. cbn [mbind option_bind].
  destruct (IH s1 Hi1) as (s2 & Hs2 & Hi2 & Hm2 & Hin2); [intros; apply Hids; by right|].
  exists s2. split_and!; [done..|set_solver|set_solver].
Qed.

Lemma inv_init : inv [] (tarjan_init g).
Proof.
  split; cbn; try done; try by intros ? ?%elem_of_nil.
  - intros x. rewrite lookup_fmap. destruct (g !! x); constructor. done.
  - constructor.
  - constructor.
  - by intros x y ?%elem_of_nil.
  - intros pre ->%prefix_nil_inv. by intros x y ?%elem_of_nil.
Qed.

End tarjan_correct.

(** The position of a component never precedes that of one it depends on. *)
Definition reverse_topological (g : graph) (output : list (list InstanceID)) : Prop :=
  ∀ i j c d x y, output !! i = Some c → output !! j = Some d → x ∈ c → y ∈ d →
    rtc (edge g) x y → (j ≤ i)%nat.

Lemma closed_prefixes_topological g output :
  NoDup (concat output) → (∀ pre, pre `prefix_of` output → closed g (concat pre)) →
  reverse_topological g output.
Proof.
  intros Hnd Hcl i j c d x y Hi Hj Hx Hy Hr.
  destruct (Nat.le_gt_cases j i) as [|Hlt]; [done|exfalso].
  rewrite <- (take_drop (S i) output) in Hnd. rewrite concat_app in Hnd.
  apply NoDup_app in Hnd as (_ & Hnd & _). apply (Hnd y).
  - eapply closed_reach; [apply Hcl, prefix_take| |exact Hr].
    apply elem_of_concat. exists c. split; [|done].
    apply (list_elem_of_lookup_2 _ i). rewrite lookup_take_lt by lia. done.
  - apply elem_of_concat. exists d. split; [|done].
    apply (list_elem_of_lookup_2 _ (j - S i)). rewrite lookup_drop.
    by replace (S i + (j - S i))%nat with j by lia.
Qed.

Lemma tarjanConnect_correct `{MapOrder} g :
  ∃ output, tarjanConnect g = Some output ∧ concat output ≡ₚ (map_to_list g).*1 ∧
    Forall (is_scc g) output ∧ reverse_topological g output.
Proof.
  assert (∀ x, x ∈ (map_to_list g).*1 ↔ is_Some (g !! x)) as Hdom.
  { intros x. rewrite list_elem_of_fmap. setoid_rewrite elem_of_map_to_list'.
    split; [intros ([] & -> & ?); by eexists|intros [o ?]; by exists (x, o)]. }
  destruct (connect_all_spec g (S (size g)) (map_order (map_to_list g).*1) (tarjan_init g))
    as (s & Hs & Hi & _ & Hin); [lia|apply inv_init| |].
  { intros x. rewrite map_order_perm. apply Hdom. }
  assert (t_stack s = []) as Hst.
  { destruct (t_stack s) as [|x l] eqn:Hst; [done|]. destruct (inv_down _ _ _ Hi x) as (? & ?%elem_of_nil & _); [|done].
    rewrite Hst. left. }
  assert (seen s = concat (t_output s)) as Hseen by (unfold seen; by rewrite Hst).
  pose proof (inv_NoDup _ _ _ Hi) as Hnd. rewrite Hseen in Hnd.
  exists (t_output s). unfold tarjanConnect. rewrite Hs. split_and!; [done|..].
  - apply NoDup_Permutation; [done|apply NoDup_fst_map_to_list|]. intros x. rewrite <- Hseen, Hdom. split.
    + apply (inv_dom _ _ _ Hi).
    + intros Hx%Hdom. apply Hin. by rewrite map_order_perm.
  - apply (inv_scc _ _ _ Hi).
  - apply closed_prefixes_topological; [done|apply (inv_closed _ _ _ Hi)].
Qed.

(** C15. For every graph, and whatever the order in which the map of vertices is
    ranged over, [tarjanConnect] returns: its recursion ends within the bound,
    no index is out of range and no vertex is missing.  What it returns is a
    partition of the vertices into the strongly connected components of the
    graph, none of which precedes one that it has an edge, or a path, to.
    Edges to ids that are not vertices are ignored. *)
Theorem tarjan_components_in_reverse_topological_order `{MapOrder} (g : graph) :
  ∃ output, tarjanConnect g = Some output ∧
    concat output ≡ₚ (map_to_list g).*1 ∧
    (∀ c, c ∈ output → c ≠ [] ∧
       ∀ x, x ∈ c → ∀ y, y ∈ c ↔ rtc (edge g) x y ∧ rtc (edge g) y x) ∧
    (∀ i j c d x y, output !! i = Some c → output !! j = Some d → x ∈ c → y ∈ d →
       rtc (edge g) x y → (j ≤ i)%nat).
Proof.
  destruct (tarjanConnect_correct g) as (output & H1 & H2 & H3 & H4).
  rewrite Forall_forall in H3. by exists output.
Qed.
