(* ===== verification/Execute.v ===== *)
(** * Execution

    [src/consensus/manager_execute.go] and the entry points of [manager.go]:
    the order in which committed instances are executed, their execution
    against the store, and the life of a client's query. *)

From S2P Require Import Prelude Bytes Types GoTime Serializer Instruction Containers.
From S2P Require Import Instance Dependencies Messages Manager Invariant Prepare.
From S2P Require Import Tarjan.

Section execute.
Context {St : Store} {Mo : MapOrder} {Pl : Placement} {Uu : UUIDLib}.
Abbreviation M := (ST Manager error).

(** ** The execution order *)

(** The order of [iidSorter]: by embedded time, then by bytes. *)
Definition Less (i0 i1 : Instance) : bool :=
  let t0 := UUID_Time (i_InstanceID i0) in
  let t1 := UUID_Time (i_InstanceID i1) in
  if decide (t0 ≠ t1) then t0 <? t1
  else bool_decide (bytes_compare (UUID_Bytes (i_InstanceID i0)) (UUID_Bytes (i_InstanceID i1)) = Lt).

(** [sort.Sort], for which any sorting algorithm will do. *)
Fixpoint insert_sorted (x : InstanceID * Instance) (l : list (InstanceID * Instance)) :
    list (InstanceID * Instance) :=
  match l with
  | [] => [x]
  | y :: l => if Less y.2 x.2 then y :: insert_sorted x l else x :: y :: l
  end.
Definition sort_iids (l : list (InstanceID * Instance)) : list InstanceID :=
  (foldr insert_sorted [] l).*1.

(** The instances [Less] looks up; a nil pointer panics. *)
Fixpoint sorter (depMap : gmap InstanceID (option ptr)) (iids : list InstanceID) :
    M (list (InstanceID * Instance)) :=
  match iids with
  | [] => mret []
  | iid :: iids =>
      p ← deref (mjoin (depMap !! iid));
      i ← load p;
      l ← sorter depMap iids;
      mret ((iid, i) :: l)
  end.

(** [sort.Sort] compares every element with another, if there is one. *)
Definition sort_component (depMap : gmap InstanceID (option ptr)) (scc : list InstanceID) :
    M (list InstanceID) :=
  if (1 <? length scc)%nat then l ← sorter depMap scc; mret (sort_iids l) else mret scc.

(** The variables [addInstance] closes over. *)
Record ordering := mkOrdering {
  o_depMap : gmap InstanceID (option ptr);
  o_depGraph : graph;
  o_uncommitted : InstanceIDSet;
  o_required : InstanceIDSet;
}.

(** The status of [depMap[dep]]; a nil pointer panics. *)
Definition dep_status (depMap : gmap InstanceID (option ptr)) (dep : InstanceID) : M Z :=
  p ← deref (mjoin (depMap !! dep));
  i ← load p;
  mret (i_Status i).

(** The loop that decides whether an executed instance still matters. *)
Fixpoint is_connected (targetDepSet : InstanceIDSet) (o : ordering) (iid : InstanceID)
    (deps : list InstanceID) (connected : bool) : M bool :=
  match deps with
  | [] => mret connected
  | dep :: deps =>
      let exists_ := bool_decide (is_Some (o_depGraph o !! dep)) in
      status ← dep_status (o_depMap o) dep;
      let notExecuted := bool_decide (status < INSTANCE_EXECUTED) in
      let targetDep := InstanceIDSet.Contains targetDepSet dep in
      let required := InstanceIDSet.Contains (o_required o) iid in
      is_connected targetDepSet o iid deps (connected || exists_ || notExecuted || targetDep || required)
  end.

(** The loop over the dependencies of an instance that has been added. *)
Fixpoint add_deps (rec : ptr → ordering → M ordering) (deps : list InstanceID) (o : ordering) :
    M ordering :=
  match deps with
  | [] => mret o
  | iid :: deps =>
      if decide (is_Some (o_depGraph o !! iid)) then add_deps rec deps o
      else
        match mjoin (o_depMap o !! iid) with
        | None => fail (Errorf "getExecutionOrder: Unknown instance id")
        | Some inst => o ← rec inst o; add_deps rec deps o
        end
  end.

(** Every nested call has one more instance in the graph, so the number of
    instances bounds the depth. *)
Fixpoint addInstance (fuel : nat) (targetDepSet : InstanceIDSet) (inst : ptr) (o : ordering) :
    M ordering :=
  match fuel with
  | O => panic
  | S fuel =>
      i ← load inst;
      let deps := i_Dependencies i in
      let status := i_Status i in
      imap ← gets (λ m, InstanceMap.GetMap (o_depMap o) deps (m_instances m));
      let o := mkOrdering imap (o_depGraph o) (o_uncommitted o) (o_required o) in
      connected ← (if decide (status = INSTANCE_EXECUTED) then
                     if negb (InstanceIDSet.Contains targetDepSet (i_InstanceID i))
                     then is_connected targetDepSet o (i_InstanceID i) deps false
                     else mret true
                   else mret true);
      if negb connected then mret o else
      let uncommitted := if decide (status < INSTANCE_COMMITTED)
                         then InstanceIDSet.Add (o_uncommitted o) [i_InstanceID i] else o_uncommitted o in
      let required := InstanceIDSet.Combine (o_required o) [i_StronglyConnected i] in
      add_deps (addInstance fuel targetDepSet) deps
        (mkOrdering (o_depMap o) (<[i_InstanceID i := deps]> (o_depGraph o)) uncommitted required)
  end.

Definition recordSCC (depMap : gmap InstanceID (option ptr)) (scc : list InstanceID) : M unit :=
  for_each (λ iid, p ← deref (mjoin (depMap !! iid));
                   update p (Instance.setStronglyConnectedIds scc)) scc.

(** The loop over the components. *)
Fixpoint order_components (depMap : gmap InstanceID (option ptr)) (hasUncommitted : bool)
    (tSorted : list (list InstanceID)) (exOrder : list InstanceID) : M (list InstanceID) :=
  match tSorted with
  | [] => mret exOrder
  | scc :: tSorted =>
      scc ← sort_component depMap scc;
      _ ← (if (1 <? length scc)%nat && negb hasUncommitted then recordSCC depMap scc else mret tt);
      order_components depMap hasUncommitted tSorted (exOrder ++ scc)
  end.

(** [if depMap[iid] == nil { if m.instances.Get(iid) == nil { ... } }] *)
Fixpoint check_known (depMap : gmap InstanceID (option ptr)) (exOrder : list InstanceID) : M unit :=
  match exOrder with
  | [] => mret tt
  | iid :: exOrder =>
      found ← instances_Get iid;
      if decide (mjoin (depMap !! iid) = None ∧ found = None)
      then fail (Errorf "getExecutionOrder: Unknown instance id")
      else check_known depMap exOrder
  end.

Definition getExecutionOrder (instance : ptr) : M (list InstanceID * list InstanceID) :=
  i ← load instance;
  let targetDeps := i_Dependencies i in
  let targetDepSet := InstanceIDSet.NewInstanceIDSet targetDeps in
  instances ← gets m_instances;
  let depMap := InstanceMap.GetMap ∅ targetDeps instances in
  o ← addInstance (S (S (size instances))) targetDepSet instance (mkOrdering depMap ∅ ∅ ∅);
  tSorted ← deref (tarjanConnect (o_depGraph o));
  let hasUncommitted := bool_decide (InstanceIDSet.Size (o_uncommitted o) > 0) in
  exOrder ← order_components (o_depMap o) hasUncommitted tSorted [];
  _ ← check_known (o_depMap o) exOrder;
  mret (exOrder, InstanceIDSet.List (o_uncommitted o)).

(** ** Execution against the store *)

Definition ExecuteInstruction (command : Instruction) : M (option store_value) := λ m,
  match store_ExecuteInstruction command (m_store m) with
  | (Ok val, s) => (Ok val, with_store s m)
  | (Fail e, s) => (Fail (Errorf e), with_store s m)
  | (Panic, s) => (Panic, with_store s m)
  end.

Definition notify (listeners : list InstanceResultChan) (r : InstanceResult) : M unit :=
  modify (λ m, with_results (m_results m ++ map (λ l, (l, r)) listeners) m).

Definition applyInstance (instance : ptr) : M (option store_value) :=
  i ← load instance;
  if decide (i_Status i = INSTANCE_EXECUTED) then mret None
  else if decide (i_Status i ≠ INSTANCE_COMMITTED) then fail (Errorf "instance not committed")
  else
    val ← (if negb (i_Noop i) then ExecuteInstruction (i_Command i) else mret None);
    _ ← store instance (with_Status INSTANCE_EXECUTED i);
    _ ← modify (λ m, with_executed (m_executed m ++ [i_InstanceID i]) m);
    _ ← deps (DepsMngr.ReportExecuted (with_Status INSTANCE_EXECUTED i));
    _ ← notify (i_ResultListeners i) (mkResult val None);
    mret val.

(** The [continue] of an executed instance also skips the test for the target. *)
Fixpoint execute_chain (imap : gmap InstanceID (option ptr)) (iids : list InstanceID)
    (target : InstanceID) : M unit :=
  match iids with
  | [] => mret tt
  | iid :: iids =>
      instance ← deref (mjoin (imap !! iid));
      i ← load instance;
      if decide (i_Status i = INSTANCE_COMMITTED) then
        _ ← applyInstance instance;
        if decide (i_InstanceID i = target) then mret tt else execute_chain imap iids target
      else if decide (i_Status i = INSTANCE_EXECUTED) then execute_chain imap iids target
      else fail (Errorf "Uncommitted dependencies should be handled before calling executeDependencyChain")
  end.

Definition executeDependencyChain (iids : list InstanceID) (target : ptr) : M unit :=
  imap ← gets (λ m, InstanceMap.GetMap ∅ iids (m_instances m));
  t ← load target;
  execute_chain imap iids (i_InstanceID t).

(** ** The execute phase *)

(** The goroutine that prepares one uncommitted instance: the error it reports,
    if any.  [ballotErr] is the flag that the last attempt has set. *)
Fixpoint prepare_uncommitted (tries i : nat) (inst : ptr) (attempts : nat → Attempt)
    (ballotErr : bool) : M (option error) :=
  match tries with
  | O => mret (if ballotErr then Some (Errorf "Prepare failed to commit instance") else None)
  | S tries =>
      x ← try (managerPrepareInstance inst (at_run (attempts i)));
      match x with
      | inl _ => mret None
      | inr e =>
          if is_BallotError e then
            this ← load inst;
            found ← instances_Get (i_InstanceID this);
            inst ← deref found;
            _ ← wait (at_meanwhile (attempts i));
            if at_commitEvent (attempts i) then mret None
            else prepare_uncommitted tries (S i) inst attempts true
          else mret (Some e)
      end
  end.

(** The goroutines of one round, in the order in which they finish. *)
Fixpoint prepare_all (umap : gmap InstanceID (option ptr)) (uncommitted : list InstanceID)
    (attempts : InstanceID → nat → Attempt) : M (list error) :=
  match uncommitted with
  | [] => mret []
  | iid :: uncommitted =>
      inst ← deref (mjoin (umap !! iid));
      e ← prepare_uncommitted BALLOT_FAILURE_RETRIES 0 inst (attempts iid) false;
      es ← prepare_all umap uncommitted attempts;
      mret (option_list e ++ es)
  end.

(** What happens in one pass of the loop. *)
Definition Round : Type := InstanceID → nat → Attempt.

(** [for len(uncommitted) > 0]: one entry of [rounds] per pass; [None] when the
    loop has not ended after the last of them. *)
Fixpoint execute_loop (instance : ptr) (exOrder uncommitted : list InstanceID)
    (rounds : list Round) : M (option (list InstanceID)) :=
  match uncommitted with
  | [] => mret (Some exOrder)
  | _ =>
      match rounds with
      | [] => mret None
      | attempts :: rounds =>
          umap ← gets (λ m, InstanceMap.GetMap ∅ uncommitted (m_instances m));
          errors ← prepare_all umap uncommitted attempts;
          match errors with
          | e :: _ => fail e
          | [] =>
              x ← getExecutionOrder instance;
              execute_loop instance x.1 x.2 rounds
          end
      end
  end.

(** [true] when it has returned, [false] when it is still preparing. *)
Definition managerExecuteInstance (instance : ptr) (rounds : list Round) : M bool :=
  x ← getExecutionOrder instance;
  done ← execute_loop instance x.1 x.2 rounds;
  match done with
  | None => mret false
  | Some exOrder => _ ← executeDependencyChain exOrder instance; mret true
  end.

(** ** Queries *)

Record QueryRun := mkQueryRun {
  q_preaccept : Wait PreAcceptResponse;
  q_accept : Wait AcceptResponse;
  q_rounds : list Round;
}.

(** Errors of the phases are logged and otherwise ignored. *)
Definition ExecutePaxos (instance : ptr) (run : QueryRun) : M bool :=
  x ← managerPreAcceptPhase instance (q_preaccept run);
  let '(acceptRequired, _) := x in
  _ ← (if acceptRequired : bool then _ ← try (managerAcceptPhase instance (q_accept run)); mret tt else mret tt);
  _ ← try (managerCommitPhase instance);
  x ← try (managerExecuteInstance instance (q_rounds run));
  match x with inl done => mret done | inr _ => mret true end.

(** A new instance with the id the uuid package has made and the successors
    that [rand.Perm] has chosen, given as indices. *)
Definition makeInstance (instruction : Instruction) (iid : InstanceID) (perm : list nat) : Instance :=
  let bare := mkInstance iid local_id [] instruction [] 0 0 false false false [] [] ∅ Time_zero in
  let replicas := getInstanceReplicas bare in
  mkInstance iid local_id (omap (λ j, replicas !! j) perm) instruction [] 0 0 false false false
    [] [] ∅ Time_zero.

(** The part of [ExecuteQuery] before it waits on its [listener]: it panics for
    a key this node does not replicate. *)
Definition ExecuteQuery (instruction : Instruction) (iid : InstanceID) (perm : list nat)
    (listener : InstanceResultChan) (run : QueryRun) : M bool :=
  if negb (checkLocalKeyEligibility (Key instruction)) then panic else
  instance ← alloc (Instance.addListener listener (makeInstance instruction iid perm));
  ExecutePaxos instance run.

End execute.

(** ** The invariant *)

Section execute_invariant.
Context {St : Store} {Mo : MapOrder} {Pl : Placement} {Uu : UUIDLib}.
Context (B : Z → Z → Prop) `{!PreOrder B} (B_le : ∀ b b', b ≤ b' → B b b').
Abbreviation M := (ST Manager error).

Lemma preserves_recordSCC dm scc : preserves (grows B) (recordSCC dm scc).
Proof.
  unfold recordSCC. preserves_tac. apply preserves_update; [done| |done].
  intros i. by split.
Qed.
Hint Resolve preserves_recordSCC : preserves.

Lemma preserves_is_connected t o iid ds b : preserves (grows B) (is_connected t o iid ds b).
Proof. revert b; induction ds; intros; cbn; unfold dep_status; preserves_tac. Qed.

Lemma preserves_add_deps rec ds o :
  (∀ p o, preserves (grows B) (rec p o)) → preserves (grows B) (add_deps rec ds o).
Proof. intros Hr. revert o; induction ds; intros; cbn; preserves_tac. Qed.
Hint Resolve preserves_is_connected preserves_add_deps : preserves.

Lemma preserves_addInstance fuel t p o : preserves (grows B) (addInstance fuel t p o).
Proof. revert p o; induction fuel; intros; cbn [addInstance]; preserves_tac. Qed.

Lemma preserves_sort_component dm scc : preserves (grows B) (sort_component dm scc).
Proof.
  unfold sort_component. assert (preserves (grows B) (sorter dm scc)) as Hs; [|preserves_tac].
  induction scc; cbn [sorter]; preserves_tac.
Qed.
Hint Resolve preserves_sort_component : preserves.

Lemma preserves_order_components dm b l ex : preserves (grows B) (order_components dm b l ex).
Proof. revert ex; induction l; intros; cbn [order_components]; preserves_tac. Qed.

Lemma preserves_check_known dm l : preserves (grows B) (check_known dm l).
Proof. induction l; cbn [check_known]; preserves_tac. Qed.
Hint Resolve preserves_addInstance preserves_order_components preserves_check_known : preserves.

Lemma preserves_getExecutionOrder p : preserves (grows B) (getExecutionOrder p).
Proof. unfold getExecutionOrder. preserves_tac. Qed.
Hint Resolve preserves_getExecutionOrder : preserves.

(** A committed instance becomes executed. *)
Lemma grows_execute m iid p i :
  stored m iid p i → i_Status i = INSTANCE_COMMITTED →
  grows B m (with_executed (m_executed m ++ [i_InstanceID i])
    (with_heap (<[p := with_Status INSTANCE_EXECUTED i]> (m_heap m)) m)).
Proof.
  intros Hs Hc Hwf. pose proof Hwf as [W1 W2 W3 W4]. destruct Hs as [Hm Hh].
  destruct (W1 _ _ Hm) as (i0 & ? & Hid & _). simplify_eq.
  assert (i_InstanceID i ∉ m_executed m) as Hnew.
  { rewrite W3. intros (q & j & [H1 H2] & H3). simplify_eq. rewrite Hc in H3. done. }
  assert (∀ iid q, m_instances m !! iid = Some q → q = p → iid = i_InstanceID i) as Hinj.
  { intros iid q Hq ->. destruct (W1 _ _ Hq) as (? & ? & ? & _). by simplify_eq. }
  set (i' := with_Status INSTANCE_EXECUTED i). split; split; cbn.
  - intros iid q Hq. destruct (decide (q = p)) as [->|Hne].
    + rewrite lookup_insert_eq. exists i'. rewrite (Hinj _ _ Hq eq_refl). done.
    + rewrite lookup_insert_ne by done. by apply W1.
  - apply NoDup_app. split_and!; [done| |apply NoDup_singleton]. set_solver.
  - intros iid. unfold stored. cbn. rewrite elem_of_app, W3, list_elem_of_singleton. split.
    + intros [(q & j & [H1 H2] & H3)| ->].
      * exists q, j. rewrite lookup_insert_ne; [done|]. intros <-. simplify_eq. rewrite Hc in H3. done.
      * exists p, i'. by rewrite lookup_insert_eq.
    + intros (q & j & [H1 H2] & H3). destruct (decide (q = p)) as [->|Hne].
      * right. by eapply Hinj.
      * left. rewrite lookup_insert_ne in H2 by done. by exists q, j.
  - intros keys iid ?%W4. set_solver.
  - intros iid q j [H1 H2]. destruct (decide (q = p)) as [->|Hne]; simplify_eq.
    + exists i'. split; [by split; cbn; [|rewrite lookup_insert_eq]|].
      split; cbn; try done; unfold INSTANCE_COMMITTED, INSTANCE_EXECUTED in *; lia.
    + exists j. split; [by split; cbn; [|rewrite lookup_insert_ne by done]|reflexivity].
  - by eexists.
  - done.
Qed.

Lemma preserves_ExecuteInstruction c : preserves (grows B) (ExecuteInstruction c).
Proof.
  apply preserves_frame; [done|]. intros m. unfold ExecuteInstruction.
  by destruct (store_ExecuteInstruction c (m_store m)) as [[]].
Qed.

Lemma ExecuteInstruction_frame c m r m1 :
  ExecuteInstruction c m = (r, m1) → m_heap m1 = m_heap m ∧ m_instances m1 = m_instances m.
Proof.
  unfold ExecuteInstruction. destruct (store_ExecuteInstruction c (m_store m)) as [[]];
    intros; by simplify_eq.
Qed.

Lemma preserves_notify l r : preserves (grows B) (notify l r).
Proof. by apply preserves_frame. Qed.
Hint Resolve preserves_ExecuteInstruction preserves_notify : preserves.

Lemma grows_applyInstance m iid p :
  m_instances m !! iid = Some p → grows B m (applyInstance p m).2.
Proof.
  intros Hp. unfold applyInstance. rewrite bind_load.
  destruct (m_heap m !! p) as [i|] eqn:Hi; [|reflexivity].
  case_decide; [reflexivity|]. case_decide as Hc; [reflexivity|].
  apply preserves_bind_dep; [apply _| |].
  { destruct (negb (i_Noop i)); [apply preserves_ExecuteInstruction|reflexivity]. }
  intros val m1 Hv.
  assert (stored m1 iid p i) as Hs.
  { destruct (negb (i_Noop i)).
    - apply ExecuteInstruction_frame in Hv as [Hh Hm]. split; congruence.
    - unfold mret, ST_ret in Hv. simplify_eq. done. }
  pose proof (grows_execute m1 iid p i Hs Hc) as Hg.
  set (m2 := with_executed _ _) in Hg.
  assert (∀ (k : M (option store_value)), (_ ← store p (with_Status INSTANCE_EXECUTED i);
     _ ← modify (λ m, with_executed (m_executed m ++ [i_InstanceID i]) m); k) m1 = k m2) as Hk by done.
  rewrite Hk. etrans; [exact Hg|].
  apply preserves_bind_dep; [apply _| |].
  - apply grows_ReportExecuted; [done|]. cbn. set_solver.
  - intros _ m3 _. apply preserves_bind; [apply _|apply preserves_notify|]. intros. apply preserves_ret, _.
Qed.

(** The pointers of [imap] are those of the replica's own map. *)
Definition local_map (imap : gmap InstanceID (option ptr)) (m : Manager) : Prop :=
  ∀ iid p, mjoin (imap !! iid) = Some p → m_instances m !! iid = Some p.

Lemma local_map_GetMap iids m :
  local_map (InstanceMap.GetMap ∅ iids (m_instances m)) m.
Proof.
  unfold local_map, InstanceMap.GetMap.
  assert (∀ (imap : gmap InstanceID (option ptr)), (∀ iid p, mjoin (imap !! iid) = Some p → m_instances m !! iid = Some p) →
    ∀ iid p, mjoin (foldl (λ imap iid, <[iid := m_instances m !! iid]> imap) imap iids !! iid) = Some p →
      m_instances m !! iid = Some p) as Hgen.
  { induction iids as [|x iids IH]; intros imap Him iid p; [apply Him|]. cbn. apply IH.
    intros iid' p'. destruct (decide (iid' = x)) as [->|Hne].
    - rewrite lookup_insert_eq. by destruct (m_instances m !! x).
    - rewrite lookup_insert_ne by done. apply Him. }
  apply Hgen. intros iid p. rewrite lookup_empty. done.
Qed.

Lemma local_map_grows imap m m' : wf m → grows B m m' → local_map imap m → local_map imap m'.
Proof.
  intros Hwf Hg Hl iid p Hp. destruct (Hg Hwf) as [_ [Hs _]].
  apply Hl in Hp. destruct (wf_ptr m Hwf _ _ Hp) as (i & Hi & _).
  by destruct (Hs iid p i (conj Hp Hi)) as (? & [? _] & _).
Qed.

Lemma grows_execute_chain imap iids t m :
  local_map imap m → grows B m (execute_chain imap iids t m).2.
Proof.
  revert m; induction iids as [|iid iids IH]; intros m Hl; cbn [execute_chain]; [reflexivity|].
  unfold deref at 1. destruct (mjoin (imap !! iid)) as [p|] eqn:Hp; [|reflexivity].
  rewrite bind_ret, bind_load. destruct (m_heap m !! p) as [i|] eqn:Hi; [|reflexivity].
  case_decide as Hc; [|case_decide; [by apply IH|reflexivity]].
  pose proof (grows_applyInstance m iid p (Hl _ _ Hp)) as Ha. intros Hwf.
  destruct (applyInstance p m) as [r m1] eqn:Hrun. rewrite (bind_eval _ _ _ _ _ Hrun).
  destruct r as [v| |]; [|by apply Ha..]. case_decide; [by apply Ha|].
  assert (grows B m (execute_chain imap iids t m1).2) as Hg; [|by apply Hg].
  etrans; [exact Ha|]. apply IH. by eapply local_map_grows.
Qed.

Lemma preserves_executeDependencyChain iids p : preserves (grows B) (executeDependencyChain iids p).
Proof.
  intros m. unfold executeDependencyChain. rewrite bind_gets, bind_load.
  destruct (m_heap m !! p); [|reflexivity]. apply grows_execute_chain, local_map_GetMap.
Qed.
Hint Resolve preserves_executeDependencyChain : preserves.

Context (B_incr : true = true → ∀ b, B b (u32_incr b)).

Definition calm_round (r : Round) : Prop := ∀ iid i, calm_attempt B (r iid i).
Definition calm_query (r : QueryRun) : Prop :=
  calm B (w_meanwhile (q_preaccept r)) ∧ calm B (w_meanwhile (q_accept r)) ∧
  Forall calm_round (q_rounds r).

Lemma preserves_prepare_uncommitted tries i p a b :
  (∀ i, calm_attempt B (a i)) → preserves (grows B) (prepare_uncommitted tries i p a b).
Proof.
  intros Ha. revert i p b. induction tries as [|tries IH]; intros i p b; cbn [prepare_uncommitted];
    [preserves_tac|]. destruct (Ha i). preserves_tac.
Qed.
Hint Resolve preserves_prepare_uncommitted : preserves.

Lemma preserves_prepare_all umap l r : calm_round r → preserves (grows B) (prepare_all umap l r).
Proof. intros Hr. unfold calm_round in Hr. induction l; cbn [prepare_all]; preserves_tac. Qed.
Hint Resolve preserves_prepare_all : preserves.

Lemma preserves_execute_loop p ex un rs :
  Forall calm_round rs → preserves (grows B) (execute_loop p ex un rs).
Proof.
  intros Hrs. revert ex un. induction Hrs as [|r rs Hr Hrs IH]; intros ex un; destruct un;
    cbn [execute_loop]; preserves_tac.
Qed.
Hint Resolve preserves_execute_loop : preserves.

Lemma preserves_managerExecuteInstance p rs :
  Forall calm_round rs → preserves (grows B) (managerExecuteInstance p rs).
Proof. intros Hrs. unfold managerExecuteInstance. preserves_tac. Qed.
Hint Resolve preserves_managerExecuteInstance : preserves.

Lemma preserves_ExecutePaxos p r : calm_query r → preserves (grows B) (ExecutePaxos p r).
Proof. intros (H1 & H2 & H3). unfold ExecutePaxos. preserves_tac. Qed.

Lemma preserves_ExecuteQuery c iid perm l r :
  calm_query r → preserves (grows B) (ExecuteQuery c iid perm l r).
Proof. intros Hr. unfold ExecuteQuery. pose proof preserves_ExecutePaxos. preserves_tac. Qed.

End execute_invariant.

#[export] Hint Resolve preserves_managerExecuteInstance preserves_ExecuteQuery : preserves.
