(* ===== verification/Order.v ===== *)
(** * The execution order is correct

    [getExecutionOrder] of [src/consensus/manager_execute.go]: building the
    graph ends and reads nothing but known instances; the order that comes out
    has every dependency of an instance that is not itself waiting on that
    instance before it, and orders the ones that wait on each other by their
    ids. *)

From S2P Require Import Prelude Bytes Types GoTime Serializer Instruction Containers.
From S2P Require Import Instance Dependencies Messages Manager Invariant Prepare Handlers.
From S2P Require Import Tarjan Execute.

(** ** Lists *)

(** [x] has a position before one of [y]. *)
Definition precedes {A} (l : list A) (x y : A) : Prop :=
  ∃ i j, l !! i = Some x ∧ l !! j = Some y ∧ (i < j)%nat.

Lemma precedes_app {A} (l1 l2 : list A) x y : x ∈ l1 → y ∈ l2 → precedes (l1 ++ l2) x y.
Proof.
  intros [i Hi]%list_elem_of_lookup [j Hj]%list_elem_of_lookup. exists i, (length l1 + j)%nat.
  split_and!.
  - by apply lookup_app_l_Some.
  - rewrite lookup_app_r by lia. by replace (length l1 + j - length l1)%nat with j by lia.
  - apply lookup_lt_Some in Hi. lia.
Qed.

Lemma precedes_cons {A} (a : A) l x y : precedes (a :: l) x y ↔ (x = a ∧ y ∈ l) ∨ precedes l x y.
Proof.
  split.
  - intros (i & j & Hi & Hj & Hij). destruct j as [|j]; [lia|]. cbn in Hj. destruct i as [|i]; cbn in Hi.
    + left. simplify_eq. split; [done|]. by eapply list_elem_of_lookup_2.
    + right. exists i, j. split_and!; [done..|lia].
  - intros [[-> [j Hj]%list_elem_of_lookup]|(i & j & Hi & Hj & Hij)].
    + exists 0%nat, (S j). split_and!; [done..|lia].
    + exists (S i), (S j). split_and!; [done..|lia].
Qed.

Lemma precedes_total {A} `{EqDecision A} (l : list A) x y :
  x ∈ l → y ∈ l → x ≠ y → precedes l x y ∨ precedes l y x.
Proof.
  intros [i Hi]%list_elem_of_lookup [j Hj]%list_elem_of_lookup Hne.
  destruct (Nat.lt_trichotomy i j) as [?|[->|?]]; [left; by exists i, j|congruence|right; by exists j, i].
Qed.

Lemma precedes_asym {A} (l : list A) x y : NoDup l → precedes l x y → ¬ precedes l y x.
Proof.
  intros Hl (i & j & Hi & Hj & Hij) (j' & i' & Hj' & Hi' & Hji).
  pose proof (NoDup_lookup _ _ _ _ Hl Hi Hi'). pose proof (NoDup_lookup _ _ _ _ Hl Hj Hj'). lia.
Qed.

Lemma precedes_app_r {A} (l1 l2 : list A) x y : precedes l2 x y → precedes (l1 ++ l2) x y.
Proof.
  intros (i & j & Hi & Hj & Hij). exists (length l1 + i)%nat, (length l1 + j)%nat.
  rewrite !lookup_app_r by lia.
  replace (length l1 + i - length l1)%nat with i by lia.
  replace (length l1 + j - length l1)%nat with j by lia. split_and!; [done..|lia].
Qed.

Lemma precedes_app_l {A} (l1 l2 : list A) x y : precedes l1 x y → precedes (l1 ++ l2) x y.
Proof.
  intros (i & j & Hi & Hj & Hij). exists i, j.
  split_and!; [by apply lookup_app_l_Some..|done].
Qed.

Lemma StronglySorted_precedes {A} (R : relation A) (l : list A) x y :
  StronglySorted R l → precedes l x y → R x y.
Proof.
  intros Hl (i & j & Hi & Hj & Hij). revert i j Hi Hj Hij.
  induction Hl as [|a l Hl IH Ha]; intros i j Hi Hj Hij; [done|].
  destruct j as [|j]; [lia|]. destruct i as [|i]; cbn in *.
  - simplify_eq. rewrite Forall_forall in Ha. apply Ha. by eapply list_elem_of_lookup_2.
  - eapply IH; [done..|lia].
Qed.

(** Removing another element does not matter. *)
Lemma precedes_app_iff {A} (l1 l2 : list A) x y :
  precedes (l1 ++ l2) x y ↔ precedes l1 x y ∨ precedes l2 x y ∨ (x ∈ l1 ∧ y ∈ l2).
Proof.
  split.
  - induction l1 as [|a l1 IH]; cbn; [auto|]. rewrite !precedes_cons, elem_of_app. set_solver.
  - intros [H|[H|[Hx Hy]]]; [by apply precedes_app_l|by apply precedes_app_r|by apply precedes_app].
Qed.

Lemma precedes_remove {A} (l1 l2 : list A) a x y :
  x ≠ a → y ≠ a → precedes (l1 ++ a :: l2) x y ↔ precedes (l1 ++ l2) x y.
Proof. intros Hx Hy. rewrite !precedes_app_iff, precedes_cons, elem_of_cons. naive_solver. Qed.

(** In a concatenation: two members of different parts. *)
Lemma precedes_concat {A} (ls : list (list A)) i j c d x y :
  ls !! i = Some c → ls !! j = Some d → (i < j)%nat → x ∈ c → y ∈ d → precedes (concat ls) x y.
Proof.
  revert i j. induction ls as [|l ls IH]; intros i j Hi Hj Hij Hx Hy; [done|].
  destruct j as [|j]; [lia|]. destruct i as [|i]; cbn in *.
  - simplify_eq. apply precedes_app; [done|]. apply elem_of_concat. exists d.
    split; [by eapply list_elem_of_lookup_2|done].
  - apply precedes_app_r. eapply IH; [done..|lia|done|done].
Qed.

(** ** Sorting a component *)

Section sorting.
Context {St : Store} {Mo : MapOrder} {Pl : Placement} {Uu : UUIDLib}.
Abbreviation M := (ST Manager error).

(** [Less] on the ids of two instances. *)
Definition earlier (x y : InstanceID) : Prop :=
  UUID_Time x < UUID_Time y ∨
  (UUID_Time x = UUID_Time y ∧ bytes_compare (MarshalBinary x) (MarshalBinary y) = Lt).

Lemma Less_earlier i j : Less i j = true ↔ earlier (i_InstanceID i) (i_InstanceID j).
Proof.
  unfold Less, earlier, UUID_Bytes. case_decide as Ht.
  - rewrite Z.ltb_lt. naive_solver.
  - rewrite bool_decide_eq_true. assert (UUID_Time (i_InstanceID i) = UUID_Time (i_InstanceID j)) by lia.
    split; [by right|]. intros [?|[_ ?]]; [lia|done].
Qed.

Lemma earlier_be x y :
  earlier x y ↔ UUID_Time x < UUID_Time y ∨
    (UUID_Time x = UUID_Time y ∧ be_Z (MarshalBinary x) < be_Z (MarshalBinary y)).
Proof.
  unfold earlier. rewrite bytes_compare_be by (by rewrite !length_MarshalBinary).
  by rewrite Z.compare_lt_iff.
Qed.

Lemma not_earlier_trans x y z : ¬ earlier y x → ¬ earlier z y → ¬ earlier z x.
Proof. rewrite !earlier_be. lia. Qed.

Lemma earlier_asym x y : earlier x y → ¬ earlier y x.
Proof. rewrite !earlier_be. lia. Qed.

(** Of two different ids one is earlier. *)
Lemma earlier_total x y : B16_wf x → B16_wf y → x ≠ y → earlier x y ∨ earlier y x.
Proof.
  intros Hx Hy Hne. destruct (bytes_compare (MarshalBinary x) (MarshalBinary y)) eqn:Hc.
  - apply bytes_compare_eq in Hc. destruct Hne. by apply MarshalBinary_inj.
  - unfold earlier. pose proof (Z.lt_trichotomy (UUID_Time x) (UUID_Time y)). naive_solver lia.
  - pose proof (bytes_compare_antisym (MarshalBinary x) (MarshalBinary y)) as Ha. rewrite Hc in Ha.
    unfold earlier. pose proof (Z.lt_trichotomy (UUID_Time x) (UUID_Time y)). naive_solver lia.
Qed.

(** The order in which [sort.Sort] leaves the elements. *)
Definition in_order (x y : InstanceID * Instance) : Prop :=
  ¬ earlier (i_InstanceID y.2) (i_InstanceID x.2).

Lemma insert_sorted_perm x l : insert_sorted x l ≡ₚ x :: l.
Proof.
  induction l as [|y l IH]; cbn; [done|]. destruct (Less y.2 x.2); [|done].
  rewrite IH. by constructor.
Qed.

Lemma insert_sorted_sorted x l :
  StronglySorted in_order l → StronglySorted in_order (insert_sorted x l).
Proof.
  induction 1 as [|y l Hl IH Hy]; cbn; [by repeat constructor|].
  destruct (Less y.2 x.2) eqn:Hlt.
  - constructor; [done|]. rewrite insert_sorted_perm. constructor; [|done].
    by apply earlier_asym, Less_earlier.
  - assert (in_order x y) as Hxy by (intros H%Less_earlier; congruence).
    constructor; [by constructor|]. constructor; [done|].
    eapply Forall_impl; [exact Hy|]. intros z. by apply not_earlier_trans.
Qed.

Lemma sort_perm l : foldr insert_sorted [] l ≡ₚ l.
Proof. induction l as [|x l IH]; cbn; [done|]. by rewrite insert_sorted_perm, IH. Qed.

Lemma sort_sorted l : StronglySorted in_order (foldr insert_sorted [] l).
Proof. induction l; cbn; [constructor|]. by apply insert_sorted_sorted. Qed.

(** Ids of the same component are not in the wrong order. *)
Abbreviation ids_sorted := (StronglySorted (λ x y, ¬ earlier y x)).

Lemma sort_iids_spec l :
  (∀ x, x ∈ l → i_InstanceID x.2 = x.1) → sort_iids l ≡ₚ l.*1 ∧ ids_sorted (sort_iids l).
Proof.
  intros Hl. unfold sort_iids. split; [by rewrite sort_perm|].
  assert (∀ x, x ∈ foldr insert_sorted [] l → i_InstanceID x.2 = x.1) as Hl'
    by (intros x; rewrite sort_perm; auto).
  pose proof (sort_sorted l) as Hs. induction Hs as [|x k Hk IH Hx]; [constructor|].
  cbn. constructor; [apply IH; intros; apply Hl'; by right|].
  rewrite Forall_fmap. rewrite Forall_forall in Hx |- *. intros y Hy. cbn.
  rewrite <- (Hl' x), <- (Hl' y) by set_solver. by apply Hx.
Qed.

End sorting.

(** ** Building the graph *)

Section building.
Context {St : Store} {Mo : MapOrder} {Pl : Placement} {Uu : UUIDLib}.
Abbreviation M := (ST Manager error).

(** [x] is stored with [y] as a dependency. *)
Definition dependency (m : Manager) (x y : InstanceID) : Prop :=
  ∃ p i, stored m x p i ∧ y ∈ i_Dependencies i.

(** Every instance that [root] depends on, directly or not, is stored. *)
Definition deps_known (m : Manager) (root : InstanceID) : Prop :=
  ∀ x y, rtc (dependency m) root x → dependency m x y → is_Some (m_instances m !! y).

Lemma lookup_GetMap imap iids instances x :
  InstanceMap.GetMap imap iids instances !! x =
    if decide (x ∈ iids) then Some (instances !! x) else imap !! x.
Proof.
  unfold InstanceMap.GetMap. revert imap. induction iids as [|y iids IH]; intros imap; cbn; [done|].
  rewrite IH. destruct (decide (x = y)) as [->|Hne].
  - rewrite lookup_insert_eq, (decide_True (P:=y ∈ y :: iids)) by left. by case_decide.
  - rewrite lookup_insert_ne by done. do 2 case_decide; set_solver.
Qed.

Context (m : Manager) (root : InstanceID) (Hwf : wf m) (Hknown : deps_known m root).

(** What [addInstance] keeps true of the variables it closes over; [gray] are
    the instances whose dependencies are still being added. *)
Record built (gray : list InstanceID) (o : ordering) : Prop := {
  built_graph : ∀ x ds, o_depGraph o !! x = Some ds → ∃ p i, stored m x p i ∧ ds = i_Dependencies i;
  built_reach : ∀ x, is_Some (o_depGraph o !! x) → rtc (dependency m) root x;
  built_map : ∀ x q, o_depMap o !! x = Some q → q = m_instances m !! x;
  built_mapped : ∀ x ds d, o_depGraph o !! x = Some ds → d ∈ ds → is_Some (o_depMap o !! d);
  built_deps : ∀ x ds d, o_depGraph o !! x = Some ds → x ∉ gray → d ∈ ds →
    is_Some (o_depGraph o !! d) ∨ d ∈ m_executed m;
  built_uncommitted : ∀ x, x ∈ dom (o_uncommitted o) ↔
    is_Some (o_depGraph o !! x) ∧ ∃ p i, stored m x p i ∧ i_Status i < INSTANCE_COMMITTED;
}.

(** The graph and the map are only added to. *)
Record extends (o o' : ordering) : Prop := {
  extends_graph : o_depGraph o ⊆ o_depGraph o';
  extends_map : ∀ d, is_Some (o_depMap o !! d) → is_Some (o_depMap o' !! d);
}.

#[export] Instance extends_preorder : PreOrder extends.
Proof. split; [by split|]. intros o1 o2 o3 [] []. split; [by etrans|auto]. Qed.

Lemma extends_size o o' : extends o o' → (size (o_depGraph o) ≤ size (o_depGraph o'))%nat.
Proof. intros [Hg _]. rewrite <- !size_dom. by apply subseteq_size, subseteq_dom. Qed.

Lemma extends_in o o' x : extends o o' → is_Some (o_depGraph o !! x) → is_Some (o_depGraph o' !! x).
Proof. intros [Hg _] [ds Hx]. exists ds. by eapply lookup_weaken. Qed.

(** A stored dependency that has been looked up. *)
Lemma built_lookup gray o x ds d :
  built gray o → o_depGraph o !! x = Some ds → d ∈ ds →
  ∃ p i, stored m d p i ∧ o_depMap o !! d = Some (Some p).
Proof.
  intros Hb Hx Hd. destruct (built_graph _ _ Hb _ _ Hx) as (p & i & Hs & ->).
  destruct (Hknown x d) as [q Hq]; [by eapply built_reach|by exists p, i|]. destruct (built_mapped _ _ Hb _ _ d Hx Hd) as [r Hr].
  pose proof (built_map _ _ Hb _ _ Hr) as ->. destruct (wf_ptr m Hwf _ _ Hq) as (j & Hj & _).
  exists q, j. by rewrite Hr, Hq.
Qed.

(** Reading the dependencies of an instance into the map. *)
Definition map_deps (deps : list InstanceID) (o : ordering) : ordering :=
  mkOrdering (InstanceMap.GetMap (o_depMap o) deps (m_instances m)) (o_depGraph o) (o_uncommitted o)
    (o_required o).

Lemma built_map_deps gray o deps : built gray o → built gray (map_deps deps o).
Proof.
  intros [H1 Hr H2 H3 H4 H5]. split; try done; cbn.
  - intros x q. rewrite lookup_GetMap. case_decide; [by intros [= <-]|auto].
  - intros x ds d Hx Hd. rewrite lookup_GetMap. case_decide; eauto.
Qed.

Lemma extends_map_deps o deps : extends o (map_deps deps o).
Proof. split; [done|]. intros d Hd. cbn. rewrite lookup_GetMap. by case_decide. Qed.

Lemma is_connected_ok t o iid ds b :
  (∀ d, d ∈ ds → ∃ p i, stored m d p i ∧ o_depMap o !! d = Some (Some p)) →
  ∃ b', is_connected t o iid ds b m = (Ok b', m).
Proof.
  revert b. induction ds as [|d ds IH]; intros b Hds; cbn [is_connected]; [by exists b|].
  destruct (Hds d) as (p & i & [_ Hi] & Hd); [left|]. unfold dep_status. rewrite Hd.
  unfold mbind at 1, ST_bind at 1. cbn [mjoin option_join deref].
  rewrite bind_ret, bind_load, Hi. apply IH. intros d' Hd'. apply Hds. by right.
Qed.

(** Adding an instance to the graph. *)
Definition add_vertex (i : Instance) (o : ordering) : ordering :=
  mkOrdering (o_depMap o) (<[i_InstanceID i := i_Dependencies i]> (o_depGraph o))
    (if decide (i_Status i < INSTANCE_COMMITTED)
     then InstanceIDSet.Add (o_uncommitted o) [i_InstanceID i] else o_uncommitted o)
    (InstanceIDSet.Combine (o_required o) [i_StronglyConnected i]).

Lemma built_add_vertex gray o id p i :
  built gray o → stored m id p i → rtc (dependency m) root id → o_depGraph o !! id = None →
  (∀ d, d ∈ i_Dependencies i → is_Some (o_depMap o !! d)) →
  built (id :: gray) (add_vertex i o) ∧ extends o (add_vertex i o).
Proof.
  clear Hknown. intros [H1 Hr H2 H3 H4 H5] Hs Hrt Hid Hd. destruct (wf_ptr m Hwf _ _ (proj1 Hs)) as (j & Hj & Hiid & _).
  destruct Hs as [Hm Hp]. simplify_eq. split; [|split; cbn; [by apply insert_subseteq|done]].
  split; cbn [add_vertex o_depMap o_depGraph o_uncommitted].
  - intros x ds [[<- <-]|[Hne Hx]]%lookup_insert_Some; [by exists p, i|auto].
  - intros x [ds [[<- _]|[_ Hx]]%lookup_insert_Some]; [done|eauto].
  - done.
  - intros x ds d [[<- <-]|[Hne Hx]]%lookup_insert_Some; eauto.
  - intros x ds d [[<- <-]|[Hne Hx]]%lookup_insert_Some Hg Hxd; [set_solver|].
    destruct (H4 x ds d Hx) as [Hin|Hin]; [set_solver|done|left|by right].
    rewrite lookup_insert. by case_decide.
  - intros x. destruct (decide (x = i_InstanceID i)) as [->|Hne].
    + rewrite lookup_insert_eq. case_decide as Hst.
      * rewrite InstanceIDSet.dom_Add. split; [intros _|set_solver]. split; [done|]. by exists p, i.
      * rewrite H5, Hid. split; [by intros [[? ?] _]|]. intros (_ & q & j & [Hq Hj'] & Hlt).
        by simplify_eq.
    + rewrite lookup_insert_ne by done. rewrite <- H5. case_decide; [|done].
      rewrite InstanceIDSet.dom_Add. set_solver.
Qed.

(** An instance is in the graph, or need not be. *)
Definition settled (o : ordering) (x : InstanceID) : Prop :=
  is_Some (o_depGraph o !! x) ∨ x ∈ m_executed m.

Definition adds (rec : ptr → ordering → M ordering) (fuel : nat) : Prop :=
  ∀ gray p id i o, stored m id p i → rtc (dependency m) root id → o_depGraph o !! id = None → built gray o →
    (size (m_instances m) < fuel + size (o_depGraph o))%nat →
    ∃ o', rec p o m = (Ok o', m) ∧ built gray o' ∧ extends o o' ∧ settled o' id ∧
      (i_Status i ≠ INSTANCE_EXECUTED → is_Some (o_depGraph o' !! id)).

Lemma settled_extends o o' x : extends o o' → settled o x → settled o' x.
Proof. intros He [H|H]; [left; by eapply extends_in|by right]. Qed.

Lemma add_deps_spec rec fuel gray id ds0 ds o :
  adds rec fuel → built gray o → o_depGraph o !! id = Some ds0 → ds ⊆ ds0 →
  (size (m_instances m) < fuel + size (o_depGraph o))%nat →
  ∃ o', add_deps rec ds o m = (Ok o', m) ∧ built gray o' ∧ extends o o' ∧
    ∀ d, d ∈ ds → settled o' d.
Proof.
  intros Hrec. revert o. induction ds as [|d ds IH]; intros o Hb Hid Hds Hfuel; cbn [add_deps].
  { exists o. split_and!; [done..|by intros ? ?%elem_of_nil]. }
  assert (ds ⊆ ds0) as Hds' by set_solver. case_decide as Hin.
  - destruct (IH o Hb Hid Hds' Hfuel) as (o' & Hrun & Hb' & He & Hst). exists o'. split_and!; [done..|].
    intros x [->|Hx]%elem_of_cons; [|auto]. left. by eapply extends_in.
  - destruct (built_lookup _ _ _ _ d Hb Hid) as (p & i & Hs & Hd); [set_solver|]. rewrite Hd. cbn [mjoin option_join].
    destruct (Hrec gray p d i o Hs) as (o1 & Hrun1 & Hb1 & He1 & Hst1 & _); [| |done..|].
    { eapply rtc_r; [by eapply built_reach; [|rewrite Hid]|].
      destruct (built_graph _ _ Hb _ _ Hid) as (q & j & ? & ->). exists q, j. set_solver. }
    { by apply eq_None_not_Some. }
    rewrite (bind_run _ _ _ _ _ Hrun1).
    destruct (IH o1 Hb1) as (o2 & Hrun2 & Hb2 & He2 & Hst2); [|done| |].
    { by eapply lookup_weaken, extends_graph. }
    { pose proof (extends_size _ _ He1). lia. }
    exists o2. split_and!; [done|done|by etrans|]. intros x [->|Hx]%elem_of_cons; [|auto].
    by eapply settled_extends.
Qed.

(** The instance that has been added is no longer being added. *)
Lemma built_finish gray o id ds :
  built (id :: gray) o → o_depGraph o !! id = Some ds → (∀ d, d ∈ ds → settled o d) → built gray o.
Proof.
  clear Hwf Hknown. intros [H1 Hr H2 H3 H4 H5] Hid Hds. split; try done. intros x ds' d Hx Hg Hd.
  destruct (decide (x = id)) as [->|Hne]; [simplify_eq; by apply Hds|].
  apply (H4 x ds' d); [done|set_solver|done].
Qed.

Lemma graph_size gray o id :
  built gray o → is_Some (m_instances m !! id) → o_depGraph o !! id = None →
  (size (o_depGraph o) < size (m_instances m))%nat.
Proof.
  intros Hb Hid Hn. rewrite <- !size_dom. apply subset_size. split.
  - intros x [ds Hx]%elem_of_dom. destruct (built_graph _ _ Hb _ _ Hx) as (p & i & [Hp _] & _).
    by apply elem_of_dom.
  - intros Hsub. apply (not_elem_of_dom (o_depGraph o) id); [done|]. apply Hsub. by apply elem_of_dom.
Qed.

Lemma addInstance_spec fuel t : adds (addInstance fuel t) fuel.
Proof.
  induction fuel as [|fuel IH]; intros gray p id i o Hs Hrt Hid Hb Hfuel.
  { pose proof (graph_size gray o id Hb (mk_is_Some _ _ (proj1 Hs)) Hid). lia. }
  assert (i_InstanceID i = id) as <-.
  { destruct (wf_ptr m Hwf _ _ (proj1 Hs)) as (j & Hj & Hiid & _). destruct Hs. by simplify_eq. }
  cbn [addInstance]. rewrite bind_load, (proj2 Hs), bind_gets.
  set (o1 := map_deps (i_Dependencies i) o).
  assert (built gray o1) as Hb1 by by apply built_map_deps.
  assert (∀ d, d ∈ i_Dependencies i → ∃ p j, stored m d p j ∧ o_depMap o1 !! d = Some (Some p)) as Hdeps.
  { intros d Hd. destruct (Hknown (i_InstanceID i) d Hrt) as [q Hq]; [by exists p, i|]. destruct (wf_ptr m Hwf _ _ Hq) as (j & Hj & _).
    exists q, j. split; [done|]. cbn. by rewrite lookup_GetMap, decide_True, Hq. }
  assert (∃ b, (if decide (i_Status i = INSTANCE_EXECUTED) then
                  if negb (InstanceIDSet.Contains t (i_InstanceID i))
                  then is_connected t o1 (i_InstanceID i) (i_Dependencies i) false else mret true
                else mret true) m = (Ok b, m) ∧ (b = false → i_Status i = INSTANCE_EXECUTED))
    as (b & Hrun & Hskip).
  { case_decide; [|by exists true]. destruct (negb _); [|by exists true].
    destruct (is_connected_ok t o1 (i_InstanceID i) (i_Dependencies i) false Hdeps) as [b ?].
    by exists b. }
  rewrite (bind_run _ _ _ _ _ Hrun). destruct b; cbn [negb].
  - destruct (built_add_vertex gray o1 _ p i Hb1 Hs Hrt Hid) as [Hb2 He2].
    { intros d Hd. destruct (Hdeps d Hd) as (? & ? & _ & ->). done. }
    destruct (add_deps_spec (addInstance fuel t) fuel _ _ _ (i_Dependencies i) (add_vertex i o1) IH Hb2
      (lookup_insert_eq _ _ _)) as (o3 & Hrun3 & Hb3 & He3 & Hst3); [done| |].
    { cbn. rewrite map_size_insert_None by done. lia. }
    assert (o_depGraph o3 !! i_InstanceID i = Some (i_Dependencies i)) as Hin.
    { eapply lookup_weaken; [|by apply extends_graph]. cbn. by rewrite lookup_insert_eq. }
    exists o3. split_and!; [exact Hrun3| | | |].
    + by eapply built_finish.
    + etrans; [apply extends_map_deps|]. by etrans.
    + left. by rewrite Hin.
    + by rewrite Hin.
  - exists o1. split_and!; [done|done|apply extends_map_deps| |].
    + right. apply (wf_executed m Hwf). exists p, i. auto.
    + intros Hne. by destruct Hne, Hskip.
Qed.

End building.

(** ** Ordering the components *)

Section ordering.
Context {St : Store} {Mo : MapOrder} {Pl : Placement} {Uu : UUIDLib}.
Abbreviation M := (ST Manager error).

(** Only the recorded components of instances differ. *)
Definition annotated (i i' : Instance) : Prop :=
  i' = with_StronglyConnected (i_StronglyConnected i') i.
Definition annotates (m m' : Manager) : Prop :=
  m' = with_heap (m_heap m') m ∧ ∀ p, option_Forall2 annotated (m_heap m !! p) (m_heap m' !! p).

#[export] Instance annotates_preorder : PreOrder annotates.
Proof.
  split.
  - intros m. split; [by destruct m|]. intros p. destruct (m_heap m !! p) as [[]|]; by constructor.
  - intros m1 m2 m3 [E12 H12] [E23 H23]. split; [rewrite E23, E12; done|]. intros p.
    specialize (H12 p). specialize (H23 p).
    destruct H12 as [i j Hij|]; inversion H23 as [? k Hjk|]; constructor.
    unfold annotated in *. rewrite Hjk, Hij. done.
Qed.

Lemma annotates_stored m m' x p i :
  annotates m m' → stored m x p i → ∃ i', stored m' x p i' ∧ annotated i i'.
Proof.
  intros [E H] [Hx Hp]. specialize (H p). rewrite Hp in H. inversion H as [? i' Hi|]. exists i'.
  split; [|done]. split; [|done]. by rewrite E.
Qed.

Lemma annotates_stored_inv m m' x p i' :
  annotates m m' → stored m' x p i' → ∃ i, stored m x p i ∧ annotated i i'.
Proof.
  intros [E H] [Hx Hp]. specialize (H p). rewrite Hp in H. inversion H as [i ? Hi Heq|]. exists i.
  split; [|done]. split; [|done]. rewrite E in Hx. done.
Qed.

Lemma annotates_wf m m' : wf m → annotates m m' → wf m'.
Proof.
  intros [W1 W2 W3 W4] Ha. pose proof Ha as [E _]. split.
  - intros x p Hx. rewrite E in Hx. destruct (W1 x p Hx) as (i & Hi & Hid & Hst).
    destruct (annotates_stored m m' x p i Ha (conj Hx Hi)) as (i' & [_ Hi'] & Hann).
    exists i'. split; [done|]. by rewrite Hann.
  - by rewrite E.
  - intros x. assert (m_executed m' = m_executed m) as -> by (by rewrite E). rewrite W3. split.
    + intros (p & i & Hs & Hst). destruct (annotates_stored _ _ _ _ _ Ha Hs) as (i' & Hs' & Hann).
      exists p, i'. split; [done|]. by rewrite Hann.
    + intros (p & i' & Hs & Hst). destruct (annotates_stored_inv _ _ _ _ _ Ha Hs) as (i & Hs' & Hann).
      exists p, i. split; [done|]. rewrite Hann in Hst. done.
  - intros keys x. rewrite E. apply W4.
Qed.

Lemma recordSCC_annotates (dm : gmap InstanceID (option ptr)) scc m :
  (∀ x, x ∈ scc → ∃ p i, stored m x p i ∧ dm !! x = Some (Some p)) →
  ∀ l, l ⊆ scc → ∃ m', for_each (λ iid, p ← deref (mjoin (dm !! iid));
         update p (Instance.setStronglyConnectedIds scc)) l m = (Ok tt, m') ∧ annotates m m'.
Proof.
  intros Hscc l. revert m Hscc. induction l as [|x l IH]; intros m Hscc Hl; cbn [for_each].
  { exists m. split; [done|reflexivity]. }
  destruct (Hscc x) as (p & i & [Hx Hp] & Hd); [set_solver|]. rewrite Hd.
  unfold mbind at 1, ST_bind at 1. cbn [mjoin option_join deref]. rewrite bind_ret.
  unfold update. rewrite bind_load, Hp. unfold store, modify.
  set (m1 := with_heap _ m).
  assert (annotates m m1) as Ha.
  { split; [done|]. intros q. cbn. rewrite lookup_insert. case_decide as Hq.
    - subst. rewrite Hp. constructor. done.
    - destruct (m_heap m !! q) as [[]|]; by constructor. }
  destruct (IH m1) as (m' & Hrun & Ha'); [|set_solver|exists m'; split; [done|by etrans]].
  intros y Hy. destruct (Hscc y Hy) as (q & j & Hs & Hq).
  destruct (annotates_stored _ _ _ _ _ Ha Hs) as (j' & ? & _). by exists q, j'.
Qed.

Lemma sorter_spec (dm : gmap InstanceID (option ptr)) scc m :
  wf m → (∀ x, x ∈ scc → ∃ p i, stored m x p i ∧ dm !! x = Some (Some p)) →
  ∃ l, sorter dm scc m = (Ok l, m) ∧ l.*1 = scc ∧ ∀ x, x ∈ l → i_InstanceID x.2 = x.1.
Proof.
  intros Hwf. induction scc as [|x scc IH]; intros Hscc; cbn [sorter].
  { exists []. split_and!; [done..|by intros ? ?%elem_of_nil]. }
  destruct (Hscc x) as (p & i & [Hx Hp] & Hd); [left|]. rewrite Hd. cbn [mjoin option_join deref].
  rewrite bind_ret, bind_load, Hp. destruct IH as (l & Hrun & Hl & Hid); [intros; apply Hscc; by right|].
  rewrite (bind_run _ _ _ _ _ Hrun). exists ((x, i) :: l). cbn. rewrite Hl. split_and!; [done..|].
  intros y [->|Hy]%elem_of_cons; [|auto]. cbn. destruct (wf_ptr m Hwf _ _ Hx) as (? & ? & ? & _). congruence.
Qed.

(** The components whose members can be looked up, sorted. *)
Abbreviation ids_sorted := (StronglySorted (λ x y, ¬ earlier y x)).
Definition arranged (scc scc' : list InstanceID) : Prop := scc' ≡ₚ scc ∧ ids_sorted scc'.

Lemma sort_component_spec (dm : gmap InstanceID (option ptr)) scc m :
  wf m → ((1 < length scc)%nat → ∀ x, x ∈ scc → ∃ p i, stored m x p i ∧ dm !! x = Some (Some p)) →
  ∃ scc', sort_component dm scc m = (Ok scc', m) ∧ arranged scc scc'.
Proof.
  intros Hwf Hscc. unfold sort_component. case (Nat.ltb_spec 1 (length scc)); intros Hl.
  - destruct (sorter_spec dm scc m Hwf (Hscc Hl)) as (l & Hrun & <- & Hid).
    rewrite (bind_run _ _ _ _ _ Hrun). exists (sort_iids l). split; [done|]. by apply sort_iids_spec.
  - exists scc. split; [done|]. split; [done|]. destruct scc as [|x [|y scc]]; cbn in Hl; [..|lia].
    + constructor.
    + repeat constructor.
Qed.

Lemma order_components_spec (dm : gmap InstanceID (option ptr)) b tSorted ex m :
  wf m →
  (∀ scc, scc ∈ tSorted → (1 < length scc)%nat → ∀ x, x ∈ scc → ∃ p i, stored m x p i ∧ dm !! x = Some (Some p)) →
  ∃ sccs m', order_components dm b tSorted ex m = (Ok (ex ++ concat sccs), m') ∧
    Forall2 arranged tSorted sccs ∧ annotates m m'.
Proof.
  revert ex m. induction tSorted as [|scc tSorted IH]; intros ex m Hwf Hall; cbn [order_components].
  { exists [], m. rewrite app_nil_r. split_and!; [done|constructor|reflexivity]. }
  destruct (sort_component_spec dm scc m Hwf) as (scc' & Hrun & Harr); [apply Hall; left|].
  rewrite (bind_run _ _ _ _ _ Hrun).
  assert (∃ m1, (if (1 <? length scc')%nat && negb b then recordSCC dm scc' else mret tt) m = (Ok tt, m1) ∧
    annotates m m1) as (m1 & Hrun1 & Ha1).
  { destruct (Nat.ltb_spec 1 (length scc')) as [Hl|Hl]; [|by exists m].
    destruct b; [by exists m|]. apply recordSCC_annotates; [|done]. destruct Harr as [Hp _].
    intros x Hx. apply (Hall scc); [left| |by rewrite <- Hp]. by rewrite <- Hp. }
  rewrite (bind_run _ _ _ _ _ Hrun1).
  destruct (IH (ex ++ scc') m1) as (sccs & m' & Hrun' & Harr' & Ha').
  - by eapply annotates_wf.
  - intros s Hs Hl x Hx. destruct (Hall s) with (x := x) as (p & i & Hst & Hd); [by right|done..|].
    destruct (annotates_stored _ _ _ _ _ Ha1 Hst) as (i' & ? & _). by exists p, i'.
  - exists (scc' :: sccs), m'. cbn [concat]. rewrite app_assoc. split_and!; [done|by constructor|by etrans].
Qed.

End ordering.

(** ** The order as a whole *)

Section execution_order.
Context {St : Store} {Mo : MapOrder} {Pl : Placement} {Uu : UUIDLib}.
Abbreviation M := (ST Manager error).

(** [x] has [y] as a dependency, and both are to be executed. *)
Definition depends (m : Manager) (ex : list InstanceID) (x y : InstanceID) : Prop :=
  x ∈ ex ∧ y ∈ ex ∧ dependency m x y.

(** [x] has to wait for [y]. *)
Definition waits_for (m : Manager) (ex : list InstanceID) : relation InstanceID := rtc (depends m ex).

Record execution_order (m : Manager) (root : InstanceID) (ex un : list InstanceID) : Prop := {
  order_NoDup : NoDup ex;
  order_complete : ∀ x, x ∈ ex →
    ∃ p i, stored m x p i ∧ ∀ d, d ∈ i_Dependencies i → d ∈ ex ∨ d ∈ m_executed m;
  order_reach : ∀ x, x ∈ ex → rtc (dependency m) root x;
  order_before : ∀ x y, x ∈ ex → y ∈ ex → waits_for m ex x y → waits_for m ex y x ∨ precedes ex y x;
  order_mutual : ∀ x y, precedes ex x y → waits_for m ex x y → waits_for m ex y x → ¬ earlier y x;
  order_uncommitted : ∀ x, x ∈ un ↔
    x ∈ ex ∧ ∃ p i, stored m x p i ∧ i_Status i < INSTANCE_COMMITTED;
}.

Lemma precedes_concat_in {A} (ls : list (list A)) i c x y :
  ls !! i = Some c → precedes c x y → precedes (concat ls) x y.
Proof.
  revert i. induction ls as [|l ls IH]; intros [|i] Hi Hc; cbn in *; [done..| |].
  - simplify_eq. by apply precedes_app_l.
  - apply precedes_app_r. eauto.
Qed.

Lemma precedes_elem {A} (l : list A) x y : precedes l x y → x ∈ l ∧ y ∈ l.
Proof. intros (i & j & Hi & Hj & _). split; by eapply list_elem_of_lookup_2. Qed.

Lemma Forall2_concat_perm {A} (R : list A → list A → Prop) ls ls' :
  (∀ l l', R l l' → l' ≡ₚ l) → Forall2 R ls ls' → concat ls' ≡ₚ concat ls.
Proof. intros HR. induction 1 as [|l l' ls ls' Hl _ IH]; cbn; [done|]. by rewrite (HR _ _ Hl), IH. Qed.

Lemma NoDup_concat_in {A} (ls : list (list A)) l : NoDup (concat ls) → l ∈ ls → NoDup l.
Proof.
  induction ls as [|k ls IH]; cbn; [by intros _ ?%elem_of_nil|].
  intros (Hk & _ & Hls)%NoDup_app [->|Hl]%elem_of_cons; auto.
Qed.

Section sorted.
Context (g : graph) (output sccs : list (list InstanceID)).
Context (Hpart : concat output ≡ₚ (map_to_list g).*1) (Hscc : Forall (is_scc g) output).
Context (Htopo : reverse_topological g output) (Harr : Forall2 arranged output sccs).

Lemma sorted_perm : concat sccs ≡ₚ concat output.
Proof. eapply Forall2_concat_perm; [|exact Harr]. by intros ? ? []. Qed.

Lemma sorted_dom x : x ∈ concat sccs ↔ is_Some (g !! x).
Proof.
  rewrite sorted_perm, Hpart, list_elem_of_fmap. setoid_rewrite elem_of_map_to_list'.
  split; [intros ([] & -> & ?); by eexists|intros [o ?]; by exists (x, o)].
Qed.

Lemma sorted_NoDup : NoDup (concat sccs).
Proof. rewrite sorted_perm, Hpart. apply NoDup_fst_map_to_list. Qed.

(** The component of a vertex. *)
Lemma sorted_component x :
  x ∈ concat sccs → ∃ i c c', output !! i = Some c ∧ sccs !! i = Some c' ∧ arranged c c' ∧ x ∈ c.
Proof.
  intros (c' & Hc' & Hx)%elem_of_concat. apply list_elem_of_lookup in Hc' as [i Hi].
  destruct (Forall2_lookup_r _ _ _ _ _ Harr Hi) as (c & Hc & Ha). exists i, c, c'. destruct Ha as [Hp Hs].
  split_and!; [done..|]. by rewrite <- Hp.
Qed.

Lemma sorted_before x y :
  x ∈ concat sccs → y ∈ concat sccs → rtc (edge g) x y →
  rtc (edge g) y x ∨ precedes (concat sccs) y x.
Proof.
  intros (i & c & c' & Hi & Hi' & [Hp _] & Hx)%sorted_component
    (j & d & d' & Hj & Hj' & [Hq _] & Hy)%sorted_component Hxy.
  pose proof (Htopo _ _ _ _ _ _ Hi Hj Hx Hy Hxy) as Hle.
  destruct (decide (i = j)) as [->|Hne].
  - simplify_eq. rewrite Forall_forall in Hscc. destruct (Hscc c) as [_ H]; [by eapply list_elem_of_lookup_2|].
    left. by destruct (proj1 (H y Hy x) Hx).
  - right. eapply precedes_concat; [exact Hj'|exact Hi'|lia|by rewrite Hq|by rewrite Hp].
Qed.

Lemma sorted_mutual x y :
  precedes (concat sccs) x y → rtc (edge g) x y → rtc (edge g) y x → ¬ earlier y x.
Proof.
  intros Hxy H1 H2. destruct (precedes_elem _ _ _ Hxy) as [Hx Hy].
  apply sorted_component in Hx as (i & c & c' & Hi & Hi' & [Hp Hs] & Hx).
  rewrite Forall_forall in Hscc. destruct (Hscc c) as [_ Hc]; [by eapply list_elem_of_lookup_2|].
  assert (y ∈ c) as Hyc by (apply (Hc x Hx); done).
  assert (x ≠ y) as Hne.
  { intros ->. by apply (precedes_asym _ _ _ sorted_NoDup Hxy). }
  rewrite <- Hp in Hx, Hyc. destruct (precedes_total c' x y Hx Hyc Hne) as [Hb|Hb].
  - apply (StronglySorted_precedes _ _ _ _ Hs Hb).
  - destruct (precedes_asym _ _ _ sorted_NoDup Hxy). by eapply precedes_concat_in.
Qed.

End sorted.

Lemma check_known_ok dm ex m :
  (∀ x, x ∈ ex → is_Some (m_instances m !! x)) → check_known dm ex m = (Ok tt, m).
Proof.
  induction ex as [|x ex IH]; intros Hex; cbn [check_known]; [done|].
  rewrite bind_instances_Get. rewrite decide_False.
  - apply IH. intros; apply Hex; by right.
  - intros [_ Hn]. destruct (Hex x) as [p Hp]; [left|]. congruence.
Qed.

(** The members of a component of more than one vertex have been looked up,
    since each is a dependency of another one. *)
Lemma component_mapped m root gray o c x :
  built m root gray o → is_scc (o_depGraph o) c → NoDup c →
  (1 < length c)%nat → x ∈ c → ∃ p i, stored m x p i ∧ o_depMap o !! x = Some (Some p).
Proof.
  intros Hb [_ Hc] Hnd Hl Hx.
  assert (∃ y, y ∈ c ∧ y ≠ x) as (y & Hy & Hne).
  { destruct c as [|a [|b c]]; cbn in Hl; [lia..|]. apply NoDup_cons in Hnd as [Hab _].
    destruct (decide (a = x)) as [->|]; [exists b|exists a; set_solver]. set_solver. }
  destruct (proj1 (Hc x Hx y) Hy) as [_ Hyx].
  apply rtc_inv_r in Hyx as [?|(z & _ & ds & Hz & Hd & dx & Hdx)]; [done|].
  destruct (built_graph _ _ _ _ Hb _ _ Hdx) as (p & i & Hs & _). exists p, i. split; [done|].
  destruct (built_mapped _ _ _ _ Hb _ _ x Hz Hd) as [q Hq]. rewrite Hq, (built_map _ _ _ _ Hb _ _ Hq).
  by rewrite (proj1 Hs).
Qed.

Lemma execution_order_sorted m root o output sccs :
  wf m → built m root [] o → concat output ≡ₚ (map_to_list (o_depGraph o)).*1 →
  Forall (is_scc (o_depGraph o)) output → reverse_topological (o_depGraph o) output →
  Forall2 arranged output sccs →
  execution_order m root (concat sccs) (InstanceIDSet.List (o_uncommitted o)).
Proof.
  intros Hwf Hb Hpart Hscc Htopo Harr. pose proof (sorted_dom _ _ _ Hpart Harr) as Hdom.
  assert (∀ x y, waits_for m (concat sccs) x y ↔ rtc (edge (o_depGraph o)) x y) as Hw.
  { assert (∀ x y, depends m (concat sccs) x y ↔ edge (o_depGraph o) x y) as He.
    2: { intros x y; split; apply rtc_subrel; intros ? ?; apply He. }
    intros x y. split.
    - intros ([ds Hx]%Hdom & Hy%Hdom & p & i & [Hs Hi] & Hd). exists ds. split_and!; [done| |done].
      destruct (built_graph _ _ _ _ Hb _ _ Hx) as (q & j & [? ?] & ->). by simplify_eq.
    - intros (ds & Hx & Hd & Hy). split_and!; [by apply Hdom|by apply Hdom|].
      destruct (built_graph _ _ _ _ Hb _ _ Hx) as (q & j & ? & ->). by exists q, j. }
  split.
  - by eapply sorted_NoDup.
  - intros x [ds Hx]%Hdom. destruct (built_graph _ _ _ _ Hb _ _ Hx) as (q & j & ? & ->).
    exists q, j. split; [done|]. intros d Hd. rewrite Hdom. eapply built_deps; try done. set_solver.
  - intros x Hx%Hdom. by eapply built_reach.
  - intros x y Hx Hy. rewrite !Hw. by eapply sorted_before.
  - intros x y Hxy. rewrite !Hw. by eapply sorted_mutual.
  - intros x. unfold InstanceIDSet.List. rewrite map_order_perm, InstanceIDSet.elem_of_keys, Hdom.
    apply (built_uncommitted _ _ _ _ Hb).
Qed.

Lemma getExecutionOrder_spec m iid p i :
  wf m → deps_known m iid → stored m iid p i →
  ∃ ex un m', getExecutionOrder p m = (Ok (ex, un), m') ∧ annotates m m' ∧
    execution_order m iid ex un ∧ (i_Status i ≠ INSTANCE_EXECUTED → iid ∈ ex).
Proof.
  intros Hwf Hk Hs. unfold getExecutionOrder. rewrite bind_load, (proj2 Hs), bind_gets.
  set (o0 := mkOrdering _ ∅ ∅ ∅).
  assert (built m iid [] o0) as Hb0.
  { apply (built_map_deps m iid [] (mkOrdering ∅ ∅ ∅ ∅)). split; cbn; try done.
    { by intros x []. }
    intros x. rewrite lookup_empty, dom_empty_L. split; [set_solver|by intros [[] _]]. }
  destruct (addInstance_spec m iid Hwf Hk (S (S (size (m_instances m))))
    (InstanceIDSet.NewInstanceIDSet (i_Dependencies i)) [] p iid i o0 Hs) as (o & Hrun & Hb & _ & _ & Htgt);
    [done|done|done|lia|].
  rewrite (bind_run _ _ _ _ _ Hrun).
  destruct (tarjanConnect_correct (o_depGraph o)) as (output & Ht & Hpart & Hscc & Htopo).
  rewrite Ht. cbn [deref]. rewrite bind_ret.
  edestruct (order_components_spec (o_depMap o)) with (tSorted := output) (m := m) as (sccs & m' & Ho & Harr & Ha).
  { done. }
  { intros c Hc Hl x Hx. rewrite Forall_forall in Hscc. eapply component_mapped; try done; [by apply Hscc|].
    assert (NoDup (concat output)) as Hnd by (rewrite Hpart; apply NoDup_fst_map_to_list).
    by eapply NoDup_concat_in. }
  rewrite (bind_run _ _ _ _ _ Ho). cbn [app].
  pose proof (sorted_dom _ _ _ Hpart Harr) as Hdom.
  assert (∀ x, x ∈ concat sccs → ∃ p i, stored m x p i ∧ o_depGraph o !! x = Some (i_Dependencies i)) as Hst.
  { intros x [ds Hx]%Hdom. destruct (built_graph _ _ _ _ Hb _ _ Hx) as (q & j & ? & ->). by exists q, j. }
  erewrite bind_run; [|apply check_known_ok].
  2: { intros x Hx. destruct (Hst x Hx) as (q & j & [Hq _] & _). destruct Ha as [-> _]. by exists q. }
  exists (concat sccs), (InstanceIDSet.List (o_uncommitted o)), m'. split_and!; [done|done| |].
  - by eapply execution_order_sorted.
  - intros Hne. apply Hdom. by apply Htgt.
Qed.

(** Which of two instances comes first is decided by the dependencies and the
    ids alone, if one of them waits for the other. *)
Lemma order_decided m root ex un x y :
  execution_order m root ex un → x ≠ y → B16_wf x → B16_wf y → x ∈ ex → y ∈ ex → waits_for m ex x y →
  precedes ex x y ↔ waits_for m ex y x ∧ earlier x y.
Proof.
  intros [Hnd _ _ Hb Hm _] Hne Wx Wy Hx Hy Hxy. split.
  - intros Hp. destruct (Hb x y Hx Hy Hxy) as [Hyx|Hp']; [|by destruct (precedes_asym _ _ _ Hnd Hp)].
    split; [done|]. pose proof (Hm x y Hp Hxy Hyx). by destruct (earlier_total x y Wx Wy Hne).
  - intros [Hyx He]. destruct (precedes_total ex x y Hx Hy Hne) as [?|Hp]; [done|].
    by destruct (Hm y x Hp Hyx Hxy).
Qed.

Lemma waits_for_elem m ex x y : waits_for m ex x y → x ≠ y → x ∈ ex ∧ y ∈ ex.
Proof.
  intros H Hne. split.
  - by apply rtc_inv in H as [?|(z & (? & _) & _)].
  - by apply rtc_inv_r in H as [?|(z & _ & (_ & ? & _))].
Qed.

End execution_order.

(** ** Properties *)

(** C13. On a well-formed replica that has stored every instance that the one to
    be executed depends on, [getExecutionOrder] returns (neither of its recursions runs
    on, nothing is dereferenced that is nil, no component is missing), and it
    changes nothing but the components recorded on instances.  The order it
    returns has no duplicates, contains the instance unless it has been
    executed, and contains the dependencies of all its members except those
    that have been executed; nothing in it is unrelated to the instance.  One comes after those it waits for, unless
    they wait for it too; of instances that wait for each other, none comes
    before one with an earlier id.  The second result is what of the order has
    yet to be committed. *)
Theorem execution_order_respects_dependencies `{Store, MapOrder, Placement, UUIDLib} m iid p i :
  wf m → deps_known m iid → stored m iid p i →
  ∃ ex un m', getExecutionOrder p m = (Ok (ex, un), m') ∧ annotates m m' ∧
    NoDup ex ∧ (i_Status i ≠ INSTANCE_EXECUTED → iid ∈ ex) ∧
    (∀ x, x ∈ ex → ∃ q j, stored m x q j ∧
       ∀ d, d ∈ i_Dependencies j → d ∈ ex ∨ d ∈ m_executed m) ∧
    (∀ x, x ∈ ex → rtc (dependency m) iid x) ∧
    (∀ x y, x ∈ ex → y ∈ ex → waits_for m ex x y → ¬ waits_for m ex y x → precedes ex y x) ∧
    (∀ x y, precedes ex x y → waits_for m ex x y → waits_for m ex y x → ¬ earlier y x) ∧
    (∀ x, x ∈ un ↔ x ∈ ex ∧ (∃ q j, stored m x q j ∧ i_Status j < INSTANCE_COMMITTED)).
Proof.
  intros Hwf Hk Hs. destruct (getExecutionOrder_spec m iid p i Hwf Hk Hs) as
    (ex & un & m' & Hrun & Ha & [Hnd Hc Hr Hb Hm Hu] & Htgt).
  exists ex, un, m'. split_and!; try done. intros x y Hx Hy Hxy Hyx. by destruct (Hb x y Hx Hy Hxy).
Qed.

(** Two replicas agree on the order of commands that depend on each other.
    Whatever the orders in which their maps are ranged over and whichever
    instance each of them is executing, if they see the same dependencies among
    the instances they are about to execute, then two of these of which one
    waits for the other come in the same order on both. *)
Theorem replicas_order_connected_commands_alike `{St : Store, Pl : Placement, Uu : UUIDLib}
    (Mo1 Mo2 : MapOrder) m1 m2 iid1 iid2 p1 p2 i1 i2 ex1 ex2 un1 un2 m1' m2' x y :
  wf m1 → wf m2 → deps_known m1 iid1 → deps_known m2 iid2 →
  stored m1 iid1 p1 i1 → stored m2 iid2 p2 i2 →
  getExecutionOrder (Mo:=Mo1) p1 m1 = (Ok (ex1, un1), m1') →
  getExecutionOrder (Mo:=Mo2) p2 m2 = (Ok (ex2, un2), m2') →
  (∀ a b, depends m1 ex1 a b ↔ depends m2 ex2 a b) →
  B16_wf x → B16_wf y → x ≠ y → waits_for m1 ex1 x y →
  precedes ex1 x y ↔ precedes ex2 x y.
Proof.
  intros W1 W2 K1 K2 S1 S2 R1 R2 Hsame Bx By Hne Hxy.
  destruct (getExecutionOrder_spec (Mo:=Mo1) m1 iid1 p1 i1 W1 K1 S1) as (? & ? & ? & E1 & _ & O1 & _).
  destruct (getExecutionOrder_spec (Mo:=Mo2) m2 iid2 p2 i2 W2 K2 S2) as (? & ? & ? & E2 & _ & O2 & _).
  rewrite R1 in E1. rewrite R2 in E2. injection E1 as <- <- <-. injection E2 as <- <- <-.
  assert (∀ a b, waits_for m1 ex1 a b ↔ waits_for m2 ex2 a b) as Hw.
  { intros a b. split; apply rtc_subrel; intros ? ?; apply Hsame. }
  pose proof (proj1 (Hw x y) Hxy) as Hxy2.
  destruct (waits_for_elem _ _ _ _ Hxy Hne) as [X1 Y1]. destruct (waits_for_elem _ _ _ _ Hxy2 Hne) as [X2 Y2].
  rewrite (order_decided _ _ _ _ x y O1 Hne Bx By X1 Y1 Hxy), (order_decided _ _ _ _ x y O2 Hne Bx By X2 Y2 Hxy2).
  by rewrite Hw.
Qed.

(** ** Examples *)

Section examples.
#[local] Existing Instances LogStore MapOrder_id example_placement example_uuid.

(** Three commands, of which 1 and 2 depend on each other and 3 on 1. *)
Definition example_committed : Manager :=
  (for_each (λ i, _ ← HandleCommit (mkCommitRequest i); mret tt)
    [example_request 1 1 3 [mkB16 0 2]; example_request 2 1 3 [mkB16 0 1];
     example_request 3 1 3 [mkB16 0 1]] example_empty).2.

Definition example_ptr (n : Z) : ptr := default 1%positive (m_instances example_committed !! mkB16 0 n).
Definition example_entry (n : Z) : Instance :=
  default Instance_zero (m_heap example_committed !! example_ptr n).

Lemma example_committed_wf : wf example_committed.
Proof.
  pose proof (preserves_HandleCommit Z.le ltac:(lia)) as Hc.
  assert (preserves (grows Z.le) (for_each (λ i, _ ← HandleCommit (mkCommitRequest i); mret tt)
    [example_request 1 1 3 [mkB16 0 2]; example_request 2 1 3 [mkB16 0 1];
     example_request 3 1 3 [mkB16 0 1]])) as Hp by preserves_tac.
  apply Hp, wf_NewManager.
Qed.

Lemma example_stored_at n : n ∈ [1; 2; 3] → stored example_committed (mkB16 0 n) (example_ptr n) (example_entry n).
Proof. intros Hn. repeat (apply elem_of_cons in Hn as [->|Hn]; [by split|]). by apply elem_of_nil in Hn. Qed.

Lemma example_deps_known root : deps_known example_committed root.
Proof.
  assert (map_Forall (λ _ p, ∀ i, m_heap example_committed !! p = Some i →
    Forall (λ d, is_Some (m_instances example_committed !! d)) (i_Dependencies i)) (m_instances example_committed)) as Hall.
  { apply map_Forall_to_list. vm_compute. repeat constructor; intros i [= <-]; repeat constructor; by eexists. }
  intros x y _ (p & i & [Hi Hp] & Hy). specialize (Hall x p Hi i Hp). rewrite Forall_forall in Hall. auto.
Qed.

Lemma execution_order_respects_dependencies_witness :
  ∃ ex un m', getExecutionOrder (example_ptr 3) example_committed = (Ok (ex, un), m') ∧
    NoDup ex ∧ mkB16 0 3 ∈ ex.
Proof.
  destruct (execution_order_respects_dependencies example_committed (mkB16 0 3) (example_ptr 3) (example_entry 3))
    as (ex & un & m' & Hrun & _ & Hnd & Hin & _).
  - apply example_committed_wf.
  - apply example_deps_known.
  - apply example_stored_at. set_solver.
  - exists ex, un, m'. split_and!; [done..|]. apply Hin. vm_compute. discriminate.
Defined.

Definition example_order (Mo : MapOrder) : list InstanceID :=
  match (getExecutionOrder (Mo:=Mo) (example_ptr 3) example_committed).1 with Ok (ex, _) => ex | _ => [] end.

Lemma replicas_order_connected_commands_alike_witness :
  precedes (example_order MapOrder_id) (mkB16 0 2) (mkB16 0 1) ↔
  precedes (example_order MapOrder_rev) (mkB16 0 2) (mkB16 0 1).
Proof.
  eapply (replicas_order_connected_commands_alike MapOrder_id MapOrder_rev example_committed example_committed
    (mkB16 0 3) (mkB16 0 3) (example_ptr 3) (example_ptr 3) (example_entry 3) (example_entry 3)).
  1-2: apply example_committed_wf.
  1-2: apply example_deps_known.
  1-2: apply example_stored_at; set_solver.
  1-2: vm_compute; reflexivity.
  - intros a b. change (example_order MapOrder_id) with [mkB16 0 1; mkB16 0 2; mkB16 0 3]. done.
  - done.
  - done.
  - discriminate.
  - apply rtc_once. split_and!.
    + vm_compute. set_solver.
    + vm_compute. set_solver.
    + exists (example_ptr 2), (example_entry 2). split; [apply example_stored_at; set_solver|].
      vm_compute. set_solver.
Defined.
End examples.
