(* ===== verification/Execution.v ===== *)
(** * Execution is correct

    [applyInstance], [executeDependencyChain] and the execute phase of
    [src/consensus/manager_execute.go], against a reference interpreter that
    runs a list of commands on the store: each command is executed once, in
    the order of the dependencies, and the clients that wait for it get its
    result. *)

From S2P Require Import Prelude Bytes Types GoTime Serializer Instruction Containers.
From S2P Require Import Instance Dependencies Messages Manager Invariant Prepare Handlers.
From S2P Require Import Tarjan Execute Order KVStore.

Section execution.
Context {St : Store} {Mo : MapOrder} {Pl : Placement} {Uu : UUIDLib}.
Abbreviation M := (ST Manager error).

(** ** The reference *)

(** What the store does for one instance. *)
Definition run_command (i : Instance) (s : store_state) : res string (option store_value) * store_state :=
  if i_Noop i then (Ok None, s) else store_ExecuteInstruction (i_Command i) s.

(** Runs instances on the store until one fails: those that were executed with
    their results, the store, and how it ended. *)
Fixpoint run_commands (l : list Instance) (s : store_state) :
    list (Instance * option store_value) * store_state * res string unit :=
  match l with
  | [] => ([], s, Ok tt)
  | i :: l =>
      match run_command i s with
      | (Ok v, s) => let '(done, s, r) := run_commands l s in ((i, v) :: done, s, r)
      | (Fail e, s) => ([], s, Fail e)
      | (Panic, s) => ([], s, Panic)
      end
  end.

(** What the clients of executed instances are sent. *)
Definition notifications (done : list (Instance * option store_value)) :
    list (InstanceResultChan * InstanceResult) :=
  concat (map (λ x, map (λ l, (l, mkResult x.2 None)) (i_ResultListeners x.1)) done).

(** The instances of an order that remain to be executed, up to the target. *)
Fixpoint remaining (m : Manager) (target : InstanceID) (ex : list InstanceID) : list Instance :=
  match ex with
  | [] => []
  | x :: ex =>
      match lookup m x with
      | None => []
      | Some i =>
          if decide (i_Status i = INSTANCE_COMMITTED)
          then i :: (if decide (x = target) then [] else remaining m target ex)
          else remaining m target ex
      end
  end.

Definition to_error (r : res string unit) : res error unit :=
  match r with Ok u => Ok u | Fail e => Fail (Errorf e) | Panic => Panic end.

(** ** One instance *)

(** The state after [i], at [p], has been executed with result [v]. *)
Record applied (m m' : Manager) (p : ptr) (i : Instance) (v : option store_value) (s : store_state) : Prop := {
  applied_heap : m_heap m' = <[p := with_Status INSTANCE_EXECUTED i]> (m_heap m);
  applied_instances : m_instances m' = m_instances m;
  applied_executed : m_executed m' = m_executed m ++ [i_InstanceID i];
  applied_store : m_store m' = s;
  applied_results : m_results m' = m_results m ++ notifications [(i, v)];
  applied_outbox : m_outbox m' = m_outbox m;
}.

Lemma applyInstance_spec m p i :
  m_heap m !! p = Some i → i_Status i = INSTANCE_COMMITTED → keys_of i ≠ [] →
  match run_command i (m_store m) with
  | (Ok v, s) => ∃ m', applyInstance p m = (Ok v, m') ∧ applied m m' p i v s
  | (Fail e, s) => applyInstance p m = (Fail (Errorf e), with_store s m)
  | (Panic, s) => applyInstance p m = (Panic, with_store s m)
  end.
Proof.
  intros Hp Hst Hk. unfold applyInstance. rewrite bind_load, Hp.
  rewrite decide_False by (by rewrite Hst). rewrite decide_False by auto.
  assert ((if negb (i_Noop i) then ExecuteInstruction (i_Command i) else mret None) m =
    match run_command i (m_store m) with
    | (Ok v, s) => (Ok v, with_store s m)
    | (Fail e, s) => (Fail (Errorf e), with_store s m)
    | (Panic, s) => (Panic, with_store s m)
    end) as Hrun.
  { unfold run_command, ExecuteInstruction. destruct (i_Noop i); [by destruct m|]. cbn [negb].
    by destruct (store_ExecuteInstruction (i_Command i) (m_store m)) as [[]]. }
  destruct (run_command i (m_store m)) as [[v|e|] s]; rewrite (bind_eval _ _ _ _ _ Hrun); [|done..].
  destruct (mngr_ReportExecuted (with_Status INSTANCE_EXECUTED i) (m_depsMngr m) Hk) as (dm & Hdm & _).
  unfold mbind, ST_bind, store, modify, deps, notify. cbn. rewrite Hdm.
  eexists. split; [done|]. split; try done. cbn. by rewrite app_nil_r.
Qed.

(** ** The chain *)

Definition executed_ids (done : list (Instance * option store_value)) : list InstanceID :=
  map (λ x, i_InstanceID x.1) done.

(** The state after the instances of [done] have been executed. *)
Record executed_all (m m' : Manager) (done : list (Instance * option store_value)) (s : store_state) : Prop := {
  ea_instances : m_instances m' = m_instances m;
  ea_executed : m_executed m' = m_executed m ++ executed_ids done;
  ea_store : m_store m' = s;
  ea_results : m_results m' = m_results m ++ notifications done;
  ea_lookup : ∀ x, lookup m' x =
    (λ i, if decide (x ∈ executed_ids done) then with_Status INSTANCE_EXECUTED i else i) <$> lookup m x;
}.

Definition ready (m : Manager) (x : InstanceID) : Prop :=
  ∃ i, lookup m x = Some i ∧ (i_Status i = INSTANCE_COMMITTED ∨ i_Status i = INSTANCE_EXECUTED) ∧
    keys_of i ≠ [].

Lemma lookup_applied m m' x p i v s y :
  wf m → stored m x p i → applied m m' p i v s →
  lookup m' y = if decide (y = x) then Some (with_Status INSTANCE_EXECUTED i) else lookup m y.
Proof.
  intros Hwf [Hx Hp] Ha. unfold lookup. rewrite (applied_heap _ _ _ _ _ _ Ha), (applied_instances _ _ _ _ _ _ Ha).
  case_decide as Hy; [subst; rewrite Hx; cbn; by rewrite lookup_insert_eq|].
  destruct (m_instances m !! y) as [q|] eqn:Hq; [|done]. cbn. rewrite lookup_insert_ne; [done|].
  intros <-. destruct (wf_ptr m Hwf _ _ Hx) as (? & ? & ? & _), (wf_ptr m Hwf _ _ Hq) as (? & ? & ? & _).
  congruence.
Qed.

Lemma remaining_ext m m' target ex :
  (∀ x, x ∈ ex → lookup m' x = lookup m x) → remaining m' target ex = remaining m target ex.
Proof.
  induction ex as [|x ex IH]; intros Hex; cbn; [done|]. rewrite Hex by left.
  rewrite IH by (intros; apply Hex; by right). done.
Qed.

Lemma executed_all_nil m s : executed_all m (with_store s m) [] s.
Proof.
  split; cbn; try done; rewrite ?app_nil_r; try done.
  intros x. change (lookup (with_store s m) x) with (lookup m x). by destruct (lookup m x).
Qed.

Lemma executed_all_cons m m1 m2 x p i v s1 done s2 :
  wf m → stored m x p i → applied m m1 p i v s1 → executed_all m1 m2 done s2 →
  executed_all m m2 ((i, v) :: done) s2.
Proof.
  intros Hwf Hs Ha [E1 E2 E3 E4 E5]. pose proof (lookup_id m x i Hwf (proj2 (lookup_stored _ _ _) (ex_intro _ p Hs))) as Hid.
  pose proof Ha as [A1 A2 A3 A4 A5 A6]. split.
  - congruence.
  - rewrite E2, A3, <- app_assoc. done.
  - done.
  - rewrite E4, A5, <- app_assoc. f_equal. unfold notifications. cbn. by rewrite app_nil_r.
  - intros y. rewrite E5, (lookup_applied m m1 x p i v s1 y Hwf Hs Ha).
    change (executed_ids ((i, v) :: done)) with (i_InstanceID i :: executed_ids done). rewrite Hid.
    destruct (decide (y = x)) as [->|Hne].
    + rewrite (proj2 (lookup_stored m x i) (ex_intro _ p Hs)). cbn [fmap option_fmap option_map].
      rewrite (decide_True (P := x ∈ x :: _)) by left. by case_decide.
    + destruct (lookup m y); cbn [fmap option_fmap option_map]; [|done]. do 2 case_decide; set_solver.
Qed.

Lemma execute_chain_spec imap ex target m :
  wf m → NoDup ex → (∀ x, x ∈ ex → imap !! x = Some (m_instances m !! x)) → (∀ x, x ∈ ex → ready m x) →
  let '(done, s, r) := run_commands (remaining m target ex) (m_store m) in
  ∃ m', execute_chain imap ex target m = (to_error r, m') ∧ executed_all m m' done s ∧ wf m'.
Proof.
  revert m. induction ex as [|x ex IH]; intros m Hwf Hnd Himap Hready; cbn [execute_chain remaining].
  { cbn. exists m. split_and!; [done| |done]. replace m with (with_store (m_store m) m) at 2 by by destruct m.
    apply executed_all_nil. }
  apply NoDup_cons in Hnd as [Hx Hnd].
  destruct (Hready x) as (i & Hl & Hst & Hk); [left|]. pose proof (lookup_id _ _ _ Hwf Hl) as Hid. rewrite Hl.
  apply lookup_stored in Hl as (p & Hs). rewrite Himap, (proj1 Hs) by left. cbn [mjoin option_join deref].
  rewrite bind_ret, bind_load, (proj2 Hs), Hid. case_decide as Hc.
  2: { destruct Hst as [|Hst]; [done|]. rewrite (decide_True (P := i_Status i = INSTANCE_EXECUTED)) by done.
       apply IH; [done..|intros; apply Himap; by right|intros; apply Hready; by right]. }
  pose proof (applyInstance_spec m p i (proj2 Hs) Hc Hk) as Happ. cbn [run_commands].
  pose proof (grows_applyInstance Z.le (λ b b' H, H) m x p (proj1 Hs) Hwf) as [Hwf1 _].
  destruct (run_command i (m_store m)) as [[v|e|] s].
  2-3: rewrite (bind_eval _ _ _ _ _ Happ), Happ in *; exists (with_store s m); cbn in *;
       split_and!; [done|apply executed_all_nil|done].
  destruct Happ as (m1 & Hrun & Ha). rewrite (bind_run _ _ _ _ _ Hrun). rewrite Hrun in Hwf1. cbn in Hwf1.
  destruct (decide (x = target)) as [->|Hne].
  { cbn. exists m1. split_and!; [done| |done]. eapply executed_all_cons; [done..|].
    replace m1 with (with_store s m1) at 2 by (destruct Ha as [_ _ _ <- _ _]; by destruct m1).
    apply executed_all_nil. }
  assert (∀ y, y ∈ ex → lookup m1 y = lookup m y) as Hsame.
  { intros y Hy. rewrite (lookup_applied _ _ _ _ _ _ _ _ Hwf Hs Ha). rewrite decide_False; [done|]. by intros ->. }
  specialize (IH m1 Hwf1 Hnd). rewrite (remaining_ext m m1) in IH by done.
  rewrite (applied_store _ _ _ _ _ _ Ha) in IH.
  destruct (run_commands (remaining m target ex) s) as [[done s'] r]. destruct IH as (m' & Hrun' & Hall & Hwf').
  - intros y Hy. rewrite (applied_instances _ _ _ _ _ _ Ha). apply Himap. by right.
  - intros y Hy. unfold ready. rewrite Hsame by done. apply Hready. by right.
  - exists m'. split_and!; [done| |done]. by eapply executed_all_cons.
Qed.

(** ** The instances that are executed *)

Lemma remaining_in m target ex i : wf m → i ∈ remaining m target ex →
  i_InstanceID i ∈ ex ∧ lookup m (i_InstanceID i) = Some i.
Proof.
  intros Hwf. induction ex as [|x ex IH]; cbn [remaining]; [by intros ?%elem_of_nil|].
  destruct (lookup m x) as [j|] eqn:Hj; [|by intros ?%elem_of_nil]. pose proof (lookup_id _ _ _ Hwf Hj) as Hid.
  case_decide; [|intros [? ?]%IH; split; [by right|done]].
  intros [->|Hi]%elem_of_cons; [rewrite Hid; split; [left|done]|]. case_decide; [by apply elem_of_nil in Hi|].
  apply IH in Hi as [? ?]. split; [by right|done].
Qed.

Lemma remaining_target m target ex :
  wf m → (∀ x, x ∈ ex → ready m x) → target ∈ ex →
  (∀ i, lookup m target = Some i → i_Status i = INSTANCE_COMMITTED) →
  target ∈ map i_InstanceID (remaining m target ex).
Proof.
  intros Hwf Hr Ht Hst. induction ex as [|x ex IH]; [by apply elem_of_nil in Ht|]. cbn [remaining].
  destruct (Hr x) as (i & Hi & _); [left|]. rewrite Hi. pose proof (lookup_id _ _ _ Hwf Hi) as Hid.
  destruct (decide (x = target)) as [->|Hne].
  - rewrite decide_True by auto. cbn. rewrite Hid. left.
  - apply elem_of_cons in Ht as [|Ht]; [done|]. specialize (IH (λ y Hy, Hr y (list_elem_of_further _ _ _ Hy)) Ht).
    case_decide; [by right|done].
Qed.

(** What precedes an executed instance is executed before it, unless it has
    been. *)
Lemma remaining_precedes m target ex d x j :
  wf m → NoDup ex → precedes ex d x → x ∈ map i_InstanceID (remaining m target ex) →
  lookup m d = Some j → i_Status j = INSTANCE_COMMITTED →
  precedes (map i_InstanceID (remaining m target ex)) d x.
Proof.
  intros Hwf Hnd Hp Hx Hd Hst. induction ex as [|y ex IH]; [by apply precedes_elem in Hp as [?%elem_of_nil _]|].
  apply NoDup_cons in Hnd as [Hy Hnd]. cbn [remaining] in *.
  destruct (lookup m y) as [k|] eqn:Hk; [|by apply elem_of_nil in Hx].
  pose proof (lookup_id _ _ _ Hwf Hk) as Hid.
  assert (x ∈ ex) as Hxex by (apply precedes_cons in Hp as [[_ ?]|[_ ?]%precedes_elem]; done).
  case_decide as Hc.
  - cbn in Hx |- *. rewrite Hid in *. apply precedes_cons.
    apply elem_of_cons in Hx as [->|Hx]; [done|]. apply precedes_cons in Hp as [[-> _]|Hp]; [by left|right].
    case_decide; [by apply elem_of_nil in Hx|]. by apply IH.
  - apply precedes_cons in Hp as [[-> _]|Hp]; [congruence|]. by apply IH.
Qed.

Lemma run_commands_ok l s :
  (∀ i s, i ∈ l → is_ok (run_command i s).1 = true) →
  ∃ done s', run_commands l s = (done, s', Ok tt) ∧ map fst done = l.
Proof.
  revert s. induction l as [|i l IH]; intros s Hl; cbn; [by exists [], s|].
  pose proof (Hl i s ltac:(left)) as Hi. destruct (run_command i s) as [[v| |] s1]; [|done..].
  destruct (IH s1) as (done & s' & -> & <-); [intros; apply Hl; by right|]. by exists ((i, v) :: done), s'.
Qed.

End execution.

(** ** Properties *)

(** C16. [executeDependencyChain] refines the reference interpreter.  On a
    well-formed replica, for an order without duplicates whose instances are all
    committed or executed (and have commands with a key), it runs on the store
    the commands of the committed ones, in that order, up to the target; if the
    store returns an error it stops there and returns it.  Exactly the instances
    that were run become executed and are added to the list of executed ids, and
    exactly their listeners are sent their results.  The state stays
    well-formed. *)
Theorem execute_chain_refines `{Store, MapOrder, Placement, UUIDLib} m ex iid p i :
  wf m → NoDup ex → (∀ x, x ∈ ex → ready m x) → stored m iid p i →
  let '(done, s, r) := run_commands (remaining m iid ex) (m_store m) in
  ∃ m', executeDependencyChain ex p m = (to_error r, m') ∧ executed_all m m' done s ∧ wf m'.
Proof.
  intros Hwf Hnd Hr Hs. unfold executeDependencyChain. rewrite bind_gets, bind_load, (proj2 Hs).
  rewrite (lookup_id m iid i Hwf) by (apply lookup_stored; by exists p).
  apply execute_chain_spec; [done..| |done]. intros x Hx. rewrite lookup_GetMap. by rewrite decide_True.
Qed.

Section store_error.
Context {St : Store} {Mo : MapOrder} {Pl : Placement} {Uu : UUIDLib}.

Lemma run_commands_error l1 j l2 s done s1 e s2 :
  run_commands l1 s = (done, s1, Ok tt) → run_command j s1 = (Fail e, s2) →
  run_commands (l1 ++ j :: l2) s = (done, s2, Fail e).
Proof.
  revert s done. induction l1 as [|i l1 IH]; intros s done Hl Hj; cbn in *.
  - simplify_eq. by rewrite Hj.
  - destruct (run_command i s) as [[v| |] s']; [|done..].
    destruct (run_commands l1 s') as [[d t] r] eqn:Hr. simplify_eq. by rewrite (IH s' d).
Qed.

Lemma run_commands_done l s done s' : run_commands l s = (done, s', Ok tt) → map fst done = l.
Proof.
  revert s done. induction l as [|i l IH]; intros s done; cbn; [by intros [= <- _]|].
  destruct (run_command i s) as [[v| |] s1]; [|done..].
  destruct (run_commands l s1) as [[d t] r'] eqn:Hr. intros [= <- <- ->]. cbn. f_equal. by eapply IH.
Qed.

(** What has been executed no longer remains. *)
Lemma remaining_executed m m' target ex l1 j l2 :
  wf m → NoDup ex →
  (∀ x, x ∈ ex → lookup m' x =
    (λ i, if decide (x ∈ map i_InstanceID l1) then with_Status INSTANCE_EXECUTED i else i) <$> lookup m x) →
  remaining m target ex = l1 ++ j :: l2 → remaining m' target ex = j :: l2.
Proof.
  intros Hwf. revert l1. induction ex as [|x ex IH]; intros l1 Hnd Hl; cbn [remaining]; [by destruct l1|].
  apply NoDup_cons in Hnd as [Hx Hnd]. rewrite (Hl x) by left.
  assert (∀ y, y ∈ ex → _) as Hl' by (exact (λ y Hy, Hl y (list_elem_of_further _ _ _ Hy))).
  destruct (lookup m x) as [k|] eqn:Hk; cbn [fmap option_fmap option_map]; [|by destruct l1].
  pose proof (lookup_id _ _ _ Hwf Hk) as Hid. destruct (decide (i_Status k = INSTANCE_COMMITTED)) as [Hc|Hc].
  - destruct l1 as [|k' l1]; cbn [app]; intros [= -> Hrest].
    + rewrite (decide_False (P := x ∈ _)) by (by intros ?%elem_of_nil). rewrite decide_True by done. f_equal. case_decide; [done|].
      rewrite (remaining_ext m); [done|]. intros y Hy. rewrite Hl' by done.
      destruct (lookup m y); [|done]. cbn. by rewrite decide_False by (by intros ?%elem_of_nil).
    + rewrite (decide_True (P := x ∈ _)) by (cbn; rewrite Hid; left). rewrite decide_False by done.
      case_decide; [by destruct l1|]. apply (IH l1); [done| |done].
      intros y Hy. rewrite Hl' by done. destruct (lookup m y); [|done]. cbn [fmap option_fmap option_map].
      f_equal. cbn [map]. rewrite Hid. do 2 case_decide; try done; set_solver.
  - intros Hrest. rewrite decide_False; [by apply (IH l1)|]. by case_decide.
Qed.

(** One attempt. *)
Lemma chain_stops_at_error m ex iid p i l1 j l2 done s e s' :
  wf m → NoDup ex → (∀ x, x ∈ ex → ready m x) → stored m iid p i →
  remaining m iid ex = l1 ++ j :: l2 →
  run_commands l1 (m_store m) = (done, s, Ok tt) → run_command j s = (Fail e, s') →
  ∃ m', executeDependencyChain ex p m = (Fail (Errorf e), m') ∧ wf m' ∧ executed_all m m' done s' ∧
    remaining m' iid ex = j :: l2.
Proof.
  intros Hwf Hnd Hr Hs Hrem Hl1 Hj.
  pose proof (execute_chain_spec (InstanceMap.GetMap ∅ ex (m_instances m)) ex iid m Hwf Hnd) as Hc.
  rewrite Hrem, (run_commands_error _ _ _ _ _ _ _ _ Hl1 Hj) in Hc.
  destruct Hc as (m' & Hrun & Hea & Hwf'); [|done|].
  { intros x Hx. rewrite lookup_GetMap. by rewrite decide_True. }
  exists m'. split_and!; try done.
  - unfold executeDependencyChain. rewrite bind_gets, bind_load, (proj2 Hs).
    rewrite (lookup_id m iid i Hwf) by (apply lookup_stored; by exists p). done.
  - eapply (remaining_executed m m' iid ex l1); [done..| |done]. intros x _. rewrite (ea_lookup _ _ _ _ Hea).
    rewrite <- (run_commands_done _ _ _ _ Hl1), map_map. done.
Qed.

Lemma executed_all_ready m m' done s x : executed_all m m' done s → ready m x → ready m' x.
Proof.
  intros Hea (i & Hi & Hst & Hk). unfold ready. rewrite (ea_lookup _ _ _ _ Hea), Hi. cbn.
  eexists. split; [done|]. case_decide; [|done]. split; [by right|done].
Qed.

Lemma executed_all_stored m m' done s x p i :
  wf m' → executed_all m m' done s → stored m x p i → ∃ i', stored m' x p i'.
Proof.
  intros Hwf Hea [Hp _]. rewrite <- (ea_instances _ _ _ _ Hea) in Hp.
  destruct (wf_ptr m' Hwf _ _ Hp) as (i' & Hi' & _). by exists i'.
Qed.

End store_error.

(** C39. A command that the store rejects blocks what comes after it.  If one of
    the instances that remain to be executed fails with an error of the store,
    [executeDependencyChain] returns the error; the failed instance is still
    committed, its listeners have been sent nothing, and neither it nor anything
    behind it in the order is executed.  Nothing has been recorded of the failure:
    the next attempt on the same order begins with the same command, and if the
    store still rejects it, then it ends with it too, having executed and reported
    nothing. *)
Theorem store_error_blocks_dependents `{Store, MapOrder, Placement, UUIDLib}
    m ex iid p i l1 j l2 done s e s' :
  wf m → NoDup ex → (∀ x, x ∈ ex → ready m x) → stored m iid p i →
  remaining m iid ex = l1 ++ j :: l2 →
  run_commands l1 (m_store m) = (done, s, Ok tt) → run_command j s = (Fail e, s') →
  ∃ m', executeDependencyChain ex p m = (Fail (Errorf e), m') ∧
    map fst done = l1 ∧ m_executed m' = m_executed m ++ executed_ids done ∧
    m_results m' = m_results m ++ notifications done ∧ lookup m' (i_InstanceID j) = Some j ∧
    remaining m' iid ex = j :: l2 ∧
    ∀ e' s'', run_command j s' = (Fail e', s'') →
      ∃ m'', executeDependencyChain ex p m' = (Fail (Errorf e'), m'') ∧ m_executed m'' = m_executed m' ∧
        m_results m'' = m_results m' ∧ lookup m'' (i_InstanceID j) = Some j ∧ remaining m'' iid ex = j :: l2.
Proof.
  intros Hwf Hnd Hr Hs Hrem Hl1 Hj.
  destruct (chain_stops_at_error m ex iid p i l1 j l2 done s e s') as (m' & Hrun & Hwf' & Hea & Hrem'); try done.
  exists m'. split_and!; [done|by eapply run_commands_done|apply Hea..| |done|].
  { eapply (remaining_in m' iid ex); [done|]. rewrite Hrem'. left. }
  intros e' s'' Hj'. destruct (executed_all_stored _ _ _ _ _ _ _ Hwf' Hea Hs) as (i' & Hs').
  destruct (chain_stops_at_error m' ex iid p i' [] j l2 [] s' e' s'') as (m'' & Hrun' & Hwf'' & Hea' & Hrem''); try done.
  - intros x Hx. eapply executed_all_ready; [done|]. by apply Hr.
  - cbn. by rewrite (ea_store _ _ _ _ Hea).
  - exists m''. destruct Hea' as [_ E2 _ E4 _]. cbn in E2, E4. rewrite app_nil_r in E2, E4. split_and!; try done.
    eapply (remaining_in m'' iid ex); [done|]. rewrite Hrem''. left.
Qed.

Section execute_instance.
Context {St : Store} {Mo : MapOrder} {Pl : Placement} {Uu : UUIDLib}.

(** Everything that [iid] depends on is committed, and the store executes it. *)
Definition executable (m : Manager) (iid : InstanceID) : Prop :=
  ∀ x i, rtc (dependency m) iid x → lookup m x = Some i →
    INSTANCE_COMMITTED ≤ i_Status i ∧ keys_of i ≠ [] ∧ ∀ s, is_ok (run_command i s).1 = true.

Lemma annotates_lookup m m' x i' :
  annotates m m' → lookup m' x = Some i' → ∃ i, lookup m x = Some i ∧ annotated i i'.
Proof.
  intros Ha (p & Hs)%lookup_stored. destruct (annotates_stored_inv _ _ _ _ _ Ha Hs) as (i & Hi & ?).
  exists i. split; [|done]. apply lookup_stored. by exists p.
Qed.

Lemma executable_ready m m1 iid x :
  wf m → executable m iid → annotates m m1 → rtc (dependency m) iid x → is_Some (lookup m1 x) → ready m1 x.
Proof.
  intros Hwf He Ha Hr [i1 Hi1]. destruct (annotates_lookup _ _ _ _ Ha Hi1) as (i & Hi & Hann).
  destruct (He x i Hr Hi) as (Hst & Hk & _). exists i1. split; [done|]. rewrite Hann. split; [|done]. cbn.
  apply lookup_stored in Hi as (p & Hx & Hp). destruct (wf_ptr m Hwf _ _ Hx) as (? & ? & _ & ?). simplify_eq.
  unfold INSTANCE_COMMITTED, INSTANCE_EXECUTED in *. lia.
Qed.

Lemma no_uncommitted m iid ex un :
  executable m iid → execution_order m iid ex un → un = [].
Proof.
  intros He Ho. destruct un as [|x un]; [done|exfalso].
  destruct (proj1 (order_uncommitted _ _ _ _ Ho x)) as (Hx & p & i & Hs & Hlt); [left|].
  destruct (He x i) as (Hge & _); [by eapply order_reach|apply lookup_stored; by exists p|]. lia.
Qed.

Lemma managerExecuteInstance_spec m iid p i :
  wf m → deps_known m iid → stored m iid p i → executable m iid →
  ∃ ex m1 m' done, execution_order m iid ex [] ∧ annotates m m1 ∧ wf m1 ∧ (∀ x, x ∈ ex → ready m1 x) ∧
    (i_Status i ≠ INSTANCE_EXECUTED → iid ∈ ex) ∧ map fst done = remaining m1 iid ex ∧
    run_commands (map fst done) (m_store m) = (done, m_store m', Ok tt) ∧
    managerExecuteInstance p [] m = (Ok true, m') ∧ executed_all m1 m' done (m_store m').
Proof.
  intros Hwf Hk Hs He. destruct (getExecutionOrder_spec m iid p i Hwf Hk Hs) as (ex & un & m1 & Hrun & Ha & Ho & Ht).
  pose proof (no_uncommitted _ _ _ _ He Ho) as ->. pose proof (annotates_wf _ _ Hwf Ha) as Hwf1.
  assert (∀ x, x ∈ ex → ready m1 x) as Hr.
  { intros x Hx. apply (executable_ready m m1 iid x Hwf He Ha); [by eapply order_reach|].
    destruct (order_complete _ _ _ _ Ho x Hx) as (q & j & Hj & _).
    destruct (annotates_stored _ _ _ _ _ Ha Hj) as (j' & Hj' & _). exists j'. apply lookup_stored. by exists q. }
  destruct (annotates_stored _ _ _ _ _ Ha Hs) as (i1 & Hs1 & _).
  pose proof (execute_chain_spec (InstanceMap.GetMap ∅ ex (m_instances m1)) ex iid m1 Hwf1 (order_NoDup _ _ _ _ Ho)) as Hc.
  destruct (run_commands_ok (remaining m1 iid ex) (m_store m1)) as (done & s & Hd & Hl).
  { intros k s' Hin. destruct (remaining_in _ _ _ _ Hwf1 Hin) as [Hex Hlk].
    destruct (annotates_lookup _ _ _ _ Ha Hlk) as (k0 & Hk0 & ->).
    destruct (He _ _ (order_reach _ _ _ _ Ho _ Hex) Hk0) as (_ & _ & Hok). apply (Hok s'). }
  rewrite Hd in Hc. destruct Hc as (m' & Hrun' & Hall & _); [|done|].
  { intros x Hx. rewrite lookup_GetMap. by rewrite decide_True. }
  exists ex, m1, m', done. rewrite (ea_store _ _ _ _ Hall).
  split_and!; try done.
  - rewrite Hl. by replace (m_store m) with (m_store m1) by (destruct Ha as [-> _]; done).
  - unfold managerExecuteInstance. rewrite (bind_run _ _ _ _ _ Hrun). cbn [fst snd execute_loop]. rewrite bind_ret.
    unfold executeDependencyChain, mbind, ST_bind, gets. rewrite load_eq, (proj2 Hs1).
    rewrite (lookup_id m1 iid i1 Hwf1) by (apply lookup_stored; by exists p). by rewrite Hrun'.
Qed.

(** A member of the order is executed already, or still committed. *)
Lemma ready_executed m x :
  wf m → ready m x → x ∈ m_executed m ∨ ∃ i, lookup m x = Some i ∧ i_Status i = INSTANCE_COMMITTED.
Proof.
  intros Hwf (i & Hi & [Hst|Hst] & _); [right; by exists i|left].
  apply (wf_executed m Hwf). apply lookup_stored in Hi as (p & Hp). by exists p, i.
Qed.

Lemma executed_before m m1 iid ex x d :
  wf m1 → annotates m m1 → execution_order m iid ex [] → (∀ x, x ∈ ex → ready m1 x) →
  x ∈ map i_InstanceID (remaining m1 iid ex) → dependency m x d →
  d ∈ m_executed m ∨ precedes (map i_InstanceID (remaining m1 iid ex)) d x ∨ rtc (dependency m) d x.
Proof.
  intros Hwf1 Ha Ho Hr Hx Hd.
  assert (x ∈ ex) as Hxe by (apply list_elem_of_fmap in Hx as (k & -> & Hk); by apply remaining_in in Hk as [? _]).
  destruct (order_complete _ _ _ _ Ho x Hxe) as (q & j & [Hq Hj] & Hall).
  assert (d ∈ i_Dependencies j) as Hdj by (destruct Hd as (q' & j' & [? ?] & ?); by simplify_eq).
  destruct (Hall d Hdj) as [Hde|]; [|by left].
  destruct (order_before _ _ _ _ Ho x d Hxe Hde) as [Hw|Hp]; [by apply rtc_once|..].
  - do 2 right. eapply rtc_subrel; [|exact Hw]. by intros ? ? (_ & _ & ?).
  - destruct (ready_executed m1 d Hwf1 (Hr d Hde)) as [Hex|(k & Hk & Hst)].
    + left. destruct Ha as [E _]. by rewrite E in Hex.
    + right. left. by eapply remaining_precedes; [|by eapply order_NoDup|..].
Qed.

End execute_instance.

(** C14. Executing an instance executes what it depends on first.  On a
    well-formed replica where everything the instance depends on, directly or
    not, is known, committed and executable, the execute phase returns without
    error, having run commands on the store one after the other.  The instance
    is executed at the end; all that was executed is the instance or something
    it depends on; and every dependency of what was executed had been executed
    earlier, before or in this phase, unless it depends on the former in turn.
    The listeners of the executed instances have been sent their results, in the
    order of execution, and nothing else has been sent. *)
Theorem execute_runs_dependencies_first `{Store, MapOrder, Placement, UUIDLib} m iid p i :
  wf m → deps_known m iid → stored m iid p i → executable m iid →
  ∃ done m', managerExecuteInstance p [] m = (Ok true, m') ∧
    run_commands (map fst done) (m_store m) = (done, m_store m', Ok tt) ∧
    m_executed m' = m_executed m ++ executed_ids done ∧
    m_results m' = m_results m ++ notifications done ∧
    iid ∈ m_executed m' ∧
    (∀ x, x ∈ executed_ids done → rtc (dependency m) iid x) ∧
    (∀ x d, x ∈ executed_ids done → dependency m x d →
       d ∈ m_executed m ∨ precedes (executed_ids done) d x ∨ rtc (dependency m) d x).
Proof.
  intros Hwf Hk Hs He.
  destruct (managerExecuteInstance_spec m iid p i Hwf Hk Hs He) as
    (ex & m1 & m' & done & Ho & Ha & Hwf1 & Hr & Ht & Hl & Hrun & Hex & [E1 E2 E3 E4 E5]).
  assert (executed_ids done = map i_InstanceID (remaining m1 iid ex)) as Hids.
  { rewrite <- Hl. unfold executed_ids. by rewrite map_map. }
  pose proof Ha as [Em _].
  assert (m_executed m1 = m_executed m) as Hx1 by by rewrite Em.
  assert (∀ x, x ∈ executed_ids done → x ∈ ex) as Hin.
  { intros x. rewrite Hids. intros (k & -> & Hk')%list_elem_of_fmap. by apply remaining_in in Hk' as [? _]. }
  exists done, m'. split_and!; try done.
  - congruence.
  - rewrite E4. by rewrite Em.
  - rewrite E2, Hx1, elem_of_app. destruct (decide (i_Status i = INSTANCE_EXECUTED)) as [Hst|Hst].
    + left. apply (wf_executed m Hwf). by exists p, i.
    + right. rewrite Hids. specialize (Ht Hst).
      destruct (ready_executed m1 iid Hwf1 (Hr _ Ht)) as [Hin'|(k & Hk' & Hc)].
      { rewrite Hx1 in Hin'. apply (wf_executed m Hwf) in Hin' as (q & j & [H3 H4] & ?). destruct Hs.
        by simplify_eq. }
      apply remaining_target; try done. intros k' Hk''. congruence.
  - intros x Hx. by eapply order_reach, Hin.
  - intros x d Hx Hd. rewrite Hids in *. by apply (executed_before m m1 iid ex).
Qed.

(** ** Examples *)

Section examples.
#[local] Existing Instances LogStore MapOrder_id example_placement example_uuid.

Lemma example_status x i : lookup example_committed x = Some i → i_Status i = INSTANCE_COMMITTED.
Proof.
  assert (map_Forall (λ _ p, ∀ i, m_heap example_committed !! p = Some i → i_Status i = INSTANCE_COMMITTED)
    (m_instances example_committed)) as Hall.
  { apply map_Forall_to_list. vm_compute. repeat (apply Forall_cons; split; [by intros ? [= <-]|]). apply Forall_nil_2. }
  intros (p & Hx & Hp)%lookup_stored. exact (Hall x p Hx i Hp).
Qed.

Opaque example_committed.

Lemma example_executable n : executable example_committed (mkB16 0 n).
Proof.
  intros x i _ Hi. split_and!; [by rewrite (example_status x i Hi)|done|].
  intros s. unfold run_command. by destruct (i_Noop i).
Qed.

Lemma example_ready n : n ∈ [1; 2; 3] → ready example_committed (mkB16 0 n).
Proof.
  intros Hn. exists (example_entry n). split_and!; [|left|done].
  - apply lookup_stored. exists (example_ptr n). by apply example_stored_at.
  - eapply example_status, lookup_stored. exists (example_ptr n). by apply example_stored_at.
Qed.

Lemma execute_chain_refines_witness :
  ∃ done s r m',
    run_commands (remaining example_committed (mkB16 0 3) [mkB16 0 1; mkB16 0 2; mkB16 0 3])
      (m_store example_committed) = (done, s, r) ∧
    executeDependencyChain [mkB16 0 1; mkB16 0 2; mkB16 0 3] (example_ptr 3) example_committed =
      (to_error r, m') ∧ executed_all example_committed m' done s.
Proof.
  pose proof (execute_chain_refines example_committed [mkB16 0 1; mkB16 0 2; mkB16 0 3] (mkB16 0 3) (example_ptr 3)
    (example_entry 3) example_committed_wf) as Hc.
  destruct (run_commands _ _) as [[done s] r]. destruct Hc as (m' & Hrun & Hall & _).
  - repeat (apply NoDup_cons; split; [set_solver|]). apply NoDup_nil_2.
  - intros x Hx. repeat (apply elem_of_cons in Hx as [->|Hx]; [apply example_ready; set_solver|]).
    by apply elem_of_nil in Hx.
  - apply example_stored_at. set_solver.
  - exists done, s, r, m'. exact (conj eq_refl (conj Hrun Hall)).
Defined.

Lemma execute_runs_dependencies_first_witness :
  ∃ done m', managerExecuteInstance (example_ptr 3) [] example_committed = (Ok true, m') ∧
    m_executed m' = m_executed example_committed ++ executed_ids done ∧ mkB16 0 3 ∈ m_executed m'.
Proof.
  destruct (execute_runs_dependencies_first example_committed (mkB16 0 3) (example_ptr 3) (example_entry 3))
    as (done & m' & Hrun & _ & Hex & _ & Hin & _).
  - apply example_committed_wf.
  - apply example_deps_known.
  - apply example_stored_at. set_solver.
  - apply example_executable.
  - exists done, m'. exact (conj Hrun (conj Hex Hin)).
Defined.
End examples.

(** With the key/value store: the first command, a [SET] without a value, is
    rejected, and the second, which depends on it, is never executed. *)
Section rejected.
#[local] Existing Instances KVStore.KVStore_Store MapOrder_id example_placement example_uuid.

Definition example_rejected : Manager :=
  (for_each (λ i, _ ← HandleCommit (mkCommitRequest i); mret tt)
    [example_request 1 1 3 []; example_request 2 1 3 [mkB16 0 1]]
    (NewManager (KVStore.NewKVStore : @store_state KVStore.KVStore_Store) Time_zero)).2.

Lemma example_rejected_wf : wf example_rejected.
Proof.
  pose proof (preserves_HandleCommit Z.le ltac:(lia)) as Hc.
  assert (preserves (grows Z.le) (for_each (λ i, _ ← HandleCommit (mkCommitRequest i); mret tt)
    [example_request 1 1 3 []; example_request 2 1 3 [mkB16 0 1]])) as Hp by preserves_tac.
  apply Hp, wf_NewManager.
Qed.

Definition rejected_entry (n : Z) : Instance := default Instance_zero (lookup example_rejected (mkB16 0 n)).

Lemma store_error_blocks_dependents_witness :
  ∃ p m', executeDependencyChain [mkB16 0 1; mkB16 0 2] p example_rejected =
      (Fail (Errorf "incorrect number of args for SET"), m') ∧
    m_executed m' = [] ∧ lookup m' (mkB16 0 1) = Some (rejected_entry 1).
Proof.
  set (p := default 1%positive (m_instances example_rejected !! mkB16 0 2)).
  destruct (store_error_blocks_dependents example_rejected [mkB16 0 1; mkB16 0 2] (mkB16 0 2) p (rejected_entry 2)
    [] (rejected_entry 1) [rejected_entry 2] [] (m_store example_rejected) "incorrect number of args for SET"
    (m_store example_rejected)) as (m' & Hrun & _ & Hex & _ & Hl & _ & _).
  - apply example_rejected_wf.
  - repeat (apply NoDup_cons; split; [set_solver|]). apply NoDup_nil_2.
  - intros x [->|[->|[]%elem_of_nil]%elem_of_cons]%elem_of_cons.
    + exists (rejected_entry 1). split_and!; [vm_compute; reflexivity|left; vm_compute; reflexivity|vm_compute; discriminate].
    + exists (rejected_entry 2). split_and!; [vm_compute; reflexivity|left; vm_compute; reflexivity|vm_compute; discriminate].
  - split; vm_compute; reflexivity.
  - vm_compute; reflexivity.
  - vm_compute; reflexivity.
  - vm_compute; reflexivity.
  - exists p, m'. exact (conj Hrun (conj Hex Hl)).
Defined.
End rejected.
