(* ===== verification/Leader.v ===== *)
(** * The leader of a command

    What the sending sides of [src/consensus/manager_preaccept.go],
    [manager_accept.go] and [manager_prepare.go] do with the answers they get:
    how many they wait for, how they merge dependencies, and what an explicit
    prepare takes over. *)

From S2P Require Import Prelude Bytes Types GoTime Serializer Instruction Containers.
From S2P Require Import Instance Dependencies Messages Manager Invariant Prepare Handlers.
From S2P Require Import Tarjan Execute.

(** ** Waiting for a quorum *)

Lemma receive_spec {A} (n q : nat) (responses arrivals : list A) :
  (n ≤ q)%nat →
  receive n q responses arrivals =
    if decide (length arrivals < q - n)%nat then None
    else Some (responses ++ take (q - n) arrivals, drop (q - n) arrivals).
Proof.
  revert n responses. induction arrivals as [|a arrivals IH]; intros n responses Hle; cbn [receive].
  - destruct (Nat.ltb_spec n q); [by rewrite decide_True by (cbn; lia)|].
    rewrite decide_False by (cbn; lia). by rewrite take_nil, drop_nil, app_nil_r.
  - destruct (Nat.ltb_spec n q).
    + rewrite IH by lia. replace (q - n)%nat with (S (q - S n)) by lia. cbn [take drop length].
      rewrite <- app_assoc. repeat case_decide; try done; lia.
    + replace (q - n)%nat with 0%nat by lia. rewrite decide_False by (cbn; lia). by rewrite app_nil_r.
Qed.

(** The number of answers of other replicas that a phase waits for. *)
Definition awaited (replicas : list NodeId) : nat := (quorumSize replicas - 1)%nat.

Section quorum.
Context {St : Store} {Mo : MapOrder} {Pl : Placement}.
Abbreviation M := (ST Manager error).

Lemma receive_quorum {A} replicas (arrivals : list A) :
  receive 1 (quorumSize replicas) [] arrivals =
    if decide (length arrivals < awaited replicas)%nat then None
    else Some (take (awaited replicas) arrivals, drop (awaited replicas) arrivals).
Proof. rewrite receive_spec by (unfold quorumSize; lia). done. Qed.

Lemma length_getInstanceReplicas i :
  local_id ∈ local_nodes (Key (i_Command i)) →
  S (length (getInstanceReplicas i)) = length (local_nodes (Key (i_Command i))).
Proof.
  intros Hin. unfold getInstanceReplicas. pose proof (local_nodes_NoDup (Key (i_Command i))) as Hnd.
  induction Hnd as [|n l Hn Hnd IH]; [by apply elem_of_nil in Hin|].
  destruct (decide (n = local_id)) as [->|Hne].
  - rewrite filter_cons_False by (by intros []). rewrite Forall_filter_id; [done|].
    apply Forall_forall. intros x Hx ->. done.
  - rewrite filter_cons_True by done. cbn. f_equal. apply IH. set_solver.
Qed.

Lemma quorums_overlap (nodes q1 q2 : list NodeId) :
  q1 ⊆ nodes → q2 ⊆ nodes → NoDup q1 → NoDup q2 → (length nodes < length q1 + length q2)%nat →
  ∃ n, n ∈ q1 ∧ n ∈ q2.
Proof.
  intros H1 H2 N1 N2 Hl. destruct (decide (Exists (λ n, n ∈ q2) q1)) as [He|He].
  - apply Exists_exists in He as (n & ? & ?). by exists n.
  - exfalso. rewrite <- Forall_Exists_neg, Forall_forall in He.
    assert (NoDup (q1 ++ q2)) as N by (apply NoDup_app; split_and!; auto).
    assert (q1 ++ q2 ⊆ nodes) as H by set_solver.
    pose proof (submseteq_length _ _ (NoDup_submseteq _ _ N H)) as Hle.
    rewrite length_app in Hle. lia.
Qed.

(** What [sendAccept] does with the answers. *)
Lemma sendAccept_cases p replicas w m m1 i i' :
  m_heap m !! p = Some i →
  w_meanwhile w (send (MAcceptRequest (mkAcceptRequest (Instance.Copy i) [])) replicas m).2 = Some m1 →
  let received := take (awaited replicas) (w_arrivals w) in
  m_heap m1 !! p = Some i' →
  sendAccept p replicas w m =
    if decide (length (w_arrivals w) < awaited replicas)%nat
    then (Fail (TimeoutError "Timeout while awaiting accept responses"), m1)
    else if forallb a_Accepted received then (Ok tt, m1)
    else (Fail (BallotError "Ballot number rejected"),
          with_heap (<[p := (Instance.updateBallot (max_ballot (map AcceptResponse.GetBallot received)) i').1]>
            (m_heap m1)) m1).
Proof.
  intros Hp Hw received Hp1. unfold sendAccept. rewrite bind_load, Hp.
  unfold mbind at 1, ST_bind at 1. cbn [send modify]. unfold mbind at 1, ST_bind at 1, wait.
  cbn [send modify snd] in Hw. rewrite Hw. rewrite receive_quorum. case_decide; [done|]. fold received.
  destruct (forallb a_Accepted received); [done|].
  unfold updateInstanceBallotFromResponses, update, mbind, ST_bind. by rewrite load_eq, Hp1.
Qed.

End quorum.

(** ** Merging dependencies *)

Section merge.
Context {St : Store} {Mo : MapOrder} {Pl : Placement}.
Abbreviation M := (ST Manager error).

Abbreviation ids l := (list_to_set l : gset InstanceID).

(** The dependencies of the responses, together. *)
Definition response_deps (responses : list PreAcceptResponse) : gset InstanceID :=
  ⋃ ((λ r, ids (i_Dependencies (pa_Instance r))) <$> responses).

Lemma mergeAttributes_spec deps i :
  i_Status i = INSTANCE_PREACCEPTED →
  ∃ i' changed, Instance.mergeAttributes deps i = Ok (i', changed) ∧ i_Status i' = INSTANCE_PREACCEPTED ∧
    ids (i_Dependencies i') = ids (i_Dependencies i) ∪ ids deps ∧
    i' = with_Dependencies (i_Dependencies i') i ∧
    (changed = false ↔ ids deps = ids (i_Dependencies i)) ∧ (changed = false → i' = i).
Proof.
  intros Hst. unfold Instance.mergeAttributes. rewrite decide_False by auto.
  rewrite InstanceIDSet.idset_Equal_spec by apply InstanceIDSet.wf_New. rewrite !InstanceIDSet.dom_New. case_bool_decide as Heq; cbn [negb].
  - exists i, false. split_and!; [done|done|set_solver|by destruct i|done|done].
  - eexists _, true. split; [done|]. split_and!; try done.
    cbn. apply set_eq. intros x.
    rewrite elem_of_list_to_set, InstanceIDSet.elem_of_List, InstanceIDSet.dom_Union, !InstanceIDSet.dom_New. done.
Qed.

Lemma mergePreAcceptAttributes_spec p responses m i b :
  m_heap m !! p = Some i → i_Status i = INSTANCE_PREACCEPTED →
  ∃ i' changed, mergePreAcceptAttributes p responses b m =
      (Ok (b || changed, None), with_heap (<[p := i']> (m_heap m)) m) ∧
    i' = with_Dependencies (i_Dependencies i') i ∧
    ids (i_Dependencies i') = ids (i_Dependencies i) ∪ response_deps responses ∧
    (changed = false ↔ Forall (λ r, ids (i_Dependencies (pa_Instance r)) = ids (i_Dependencies i)) responses).
Proof.
  revert m i b. induction responses as [|r responses IH]; intros m i b Hp Hst.
  { exists i, false. cbn. rewrite orb_false_r, insert_id by done. split_and!; [by destruct m|by destruct i|set_solver|].
    by split. }
  cbn [mergePreAcceptAttributes]. rewrite bind_load, Hp.
  destruct (mergeAttributes_spec (i_Dependencies (pa_Instance r)) i Hst) as
    (i1 & c1 & Hm & Hst1 & Hd1 & Hi1 & Hc1 & Heq1). rewrite Hm.
  unfold mbind at 1, ST_bind at 1. cbn [store modify].
  destruct (IH (with_heap (<[p := i1]> (m_heap m)) m) i1 (b || c1)) as (i' & c & Hrun & Hi' & Hd & Hc).
  { cbn. by rewrite lookup_insert_eq. }
  { done. }
  exists i', (c1 || c). rewrite Hrun. cbn [m_heap with_heap]. rewrite insert_insert_eq, orb_assoc. split_and!.
  - done.
  - rewrite Hi', Hi1. done.
  - rewrite Hd, Hd1. unfold response_deps. cbn. set_solver.
  - rewrite orb_false_iff, Hc, Hc1, Forall_cons. split; intros [H1 H2]; (split; [done|]).
    + by rewrite <- (Heq1 (proj2 Hc1 H1)).
    + by rewrite (Heq1 (proj2 Hc1 H1)).
Qed.

End merge.

(** ** What an explicit prepare continues with *)

Section recovery.
Context {St : Store} {Mo : MapOrder} {Pl : Placement}.
Abbreviation M := (ST Manager error).

Lemma highest_ballot_ge responses i : i ∈ known responses → i_MaxBallot i ≤ highest_ballot responses.
Proof.
  unfold highest_ballot. generalize (known responses) as l. intros l Hi.
  assert (∀ l b, b ≤ foldl (λ maxBallot i, if decide (i_MaxBallot i > maxBallot) then i_MaxBallot i else maxBallot) b l) as Hmono.
  { induction l0 as [|j l0 IH]; intros b; cbn; [done|].
    etrans; [|apply IH]. case_decide; lia. }
  revert Hi. generalize 0 as b. induction l as [|j l IH]; intros b Hi; [by apply elem_of_nil in Hi|]. cbn.
  apply elem_of_cons in Hi as [->|Hi]; [|auto].
  etrans; [|apply Hmono]. case_decide; lia.
Qed.

Lemma highest_ballot_le responses b :
  0 ≤ b → (∀ i, i ∈ known responses → i_MaxBallot i ≤ b) → highest_ballot responses ≤ b.
Proof.
  unfold highest_ballot. generalize (known responses) as l. intros l H0 Hl. revert H0. generalize 0 as c.
  induction l as [|j l IH]; intros c Hc; cbn; [done|]. apply IH; [set_solver|].
  specialize (Hl j ltac:(left)). case_decide; lia.
Qed.

Definition status_of (o : option Instance) : Z := from_option i_Status 0 o.

Lemma highest_status_spec mb l o :
  let r := highest_status mb (status_of o) o l in
  status_of o ≤ status_of r ∧ (∀ j, j ∈ l → mb ≤ i_MaxBallot j → i_Status j ≤ status_of r) ∧
  (r = o ∨ ∃ j, j ∈ l ∧ r = Some j).
Proof.
  revert o. induction l as [|i l IH]; intros o; cbv zeta; cbn [highest_status].
  { split_and!; [done|by intros ? ?%elem_of_nil|by left]. }
  destruct (decide (i_MaxBallot i < mb)) as [Hb|Hb]; [|destruct (decide (i_Status i > status_of o)) as [Hs|Hs]].
  - destruct (IH o) as (H1 & H2 & H3). split_and!; [done| |set_solver].
    intros j [->|Hj]%elem_of_cons; [lia|auto].
  - destruct (IH (Some i)) as (H1 & H2 & H3). change (status_of (Some i)) with (i_Status i) in H1, H2, H3. split_and!; [lia| |set_solver].
    intros j [->|Hj]%elem_of_cons; [intros; lia|auto].
  - destruct (IH o) as (H1 & H2 & H3). split_and!; [done| |set_solver].
    intros j [->|Hj]%elem_of_cons; [lia|auto].
Qed.

Lemma analyzePrepareResponses_in responses c :
  analyzePrepareResponses responses = Some c → c ∈ known responses.
Proof.
  unfold analyzePrepareResponses. destruct (known responses) as [|k l] eqn:Hk; [done|].
  pose proof (highest_status_spec (highest_ballot responses) (k :: l) None) as (_ & _ & H). intros Hc.
  cbn [status_of from_option] in H. rewrite Hc in H. destruct H as [|(j & Hj & [= ->])]; done.
Qed.

(** [HandlePrepare] has answered [r] to a prepare with this ballot. *)
Definition answers_prepare (ballot : Z) (iid : InstanceID) (r : PrepareResponse) : Prop :=
  ∃ m m', HandlePrepare (mkPrepareRequest ballot iid) m = (Ok r, m').

(** An instance in an accepting answer carries the ballot of the request. *)
Lemma answers_prepare_ballot ballot iid r i :
  answers_prepare ballot iid r → p_Accepted r = true → p_Instance r = Some i → i_MaxBallot i = ballot.
Proof.
  intros (m & m' & Hrun) Ha Hi. unfold HandlePrepare in Hrun. cbn [preq_InstanceID preq_Ballot] in Hrun.
  rewrite bind_instances_Get in Hrun. destruct (m_instances m !! iid) as [p|].
  2: { unfold mret, ST_ret in Hrun. by simplify_eq. }
  rewrite bind_load in Hrun. destruct (m_heap m !! p) as [j|] eqn:Hj; [|done].
  case_bool_decide as Hb.
  - unfold update, mbind, ST_bind in Hrun. rewrite load_eq, Hj in Hrun. unfold store, modify in Hrun.
    rewrite load_eq in Hrun. cbn in Hrun. rewrite lookup_insert_eq in Hrun. unfold mret, ST_ret in Hrun.
    simplify_eq. cbn in Hi. simplify_eq. cbn. unfold Instance.updateBallot. by rewrite decide_True.
  - rewrite bind_ret, bind_load, Hj in Hrun. unfold mret, ST_ret in Hrun. by simplify_eq.
Qed.

Lemma analyzePrepareResponses_spec ballot iid responses :
  0 ≤ ballot →
  (∀ r, r ∈ responses → answers_prepare ballot iid r ∧ p_Accepted r = true) →
  (∀ j, j ∈ known responses → i_Status j ≤ status_of (analyzePrepareResponses responses)) ∧
  (∀ c, analyzePrepareResponses responses = Some c → c ∈ known responses).
Proof.
  intros Hb Hr.
  assert (∀ j, j ∈ known responses → i_MaxBallot j = ballot) as Hball.
  { intros j (r & Hin & Hj)%list_elem_of_omap. destruct (Hr r Hin). by eapply answers_prepare_ballot. }
  pose proof (highest_ballot_le responses ballot Hb) as Hle.
  split; [|apply analyzePrepareResponses_in].
  pose proof (highest_status_spec (highest_ballot responses) (known responses) None) as (_ & H2 & _).
  unfold analyzePrepareResponses. destruct (known responses) as [|k l] eqn:Hk.
  { by intros ? ?%elem_of_nil. }
  intros j Hj. apply H2; [done|]. rewrite (Hball j Hj). apply Hle. intros i Hi. by rewrite (Hball i Hi).
Qed.

End recovery.

(** ** The commit phase always commits *)

Section commits.
Context {St : Store} {Mo : MapOrder} {Pl : Placement} {Uu : UUIDLib}.
Abbreviation M := (ST Manager error).

(** [iid] is stored at [p], in a well-formed state. *)
Definition held (m : Manager) (iid : InstanceID) (p : ptr) : Prop := wf m ∧ ∃ i, stored m iid p i.

Lemma held_grows m m' iid p : held m iid p → grows any_ballot m m' → held m' iid p.
Proof.
  intros [Hwf (i & Hs)] Hg. destruct (Hg Hwf) as [Hwf' [He _]].
  destruct (He _ _ _ Hs) as (i' & ? & _). split; [done|by exists i'].
Qed.

Lemma held_commitInstance m iid p :
  held m iid p → ∃ i, stored (commitInstance p true m).2 iid p i ∧ INSTANCE_COMMITTED ≤ i_Status i.
Proof.
  intros [Hwf (i & Hp & Hi)]. destruct (wf_ptr m Hwf _ _ Hp) as (? & ? & Hid & _). simplify_eq.
  unfold commitInstance. rewrite (bind_run _ _ _ _ _ (getOrSetInstance_found _ _ _ _ _ Hi Hp Hi)). cbn [fst].
  unfold commit. unfold mbind at 1, ST_bind at 1. rewrite bind_load, Hi, bind_argument, decide_True by done.
  rewrite bind_lift. unfold Instance.commit. case_decide as Hc.
  { exists i. cbn. split; [done|lia]. }
  unfold store, modify. rewrite bind_load. cbn [m_heap with_heap]. rewrite lookup_insert_eq. eexists. split.
  - split; unfold deps; destruct (DepsMngr.ReportAcknowledged _ _); cbn; [done|by rewrite lookup_insert_eq].
  - done.
Qed.

Lemma held_managerCommitPhase m iid p :
  held m iid p →
  ∃ i, stored (managerCommitPhase p m).2 iid p i ∧ INSTANCE_COMMITTED ≤ i_Status i.
Proof.
  intros Hh. destruct (held_commitInstance m iid p Hh) as (j & Hj & Hst). destruct Hh as [Hwf (i & Hp & Hi)].
  assert (i_InstanceID i = iid) as Hid by (destruct (wf_ptr m Hwf _ _ Hp) as (? & ? & ? & _); by simplify_eq).
  unfold managerCommitPhase. rewrite bind_load, Hi, Hid. unfold ignore_invalid_status.
  destruct (commitInstance p true m) as [r m1] eqn:Hrun. cbn [snd] in Hj.
  exists j. split; [|done].
  unfold mbind at 1, ST_bind at 1. rewrite bind_try, Hrun. destruct r as [[]|e|]; [| |done].
  - cbn [mret ST_ret]. rewrite bind_instances_Get, (proj1 Hj). cbn [deref]. rewrite bind_ret.
    unfold sendCommit. rewrite bind_load, (proj2 Hj). done.
  - destruct (is_InvalidStatusUpdateError e); [|done]. cbn [mret ST_ret].
    rewrite bind_instances_Get, (proj1 Hj). cbn [deref]. rewrite bind_ret.
    unfold sendCommit. rewrite bind_load, (proj2 Hj). done.
Qed.

Lemma held_managerPreAcceptPhase m p i w :
  wf m → m_heap m !! p = Some i → m_instances m !! i_InstanceID i = None → calm any_ballot (w_meanwhile w) →
  held (managerPreAcceptPhase p w m).2 (i_InstanceID i) p.
Proof.
  intros Hwf Hi Hn Hw. unfold managerPreAcceptPhase. rewrite bind_load, Hi.
  set (k := λ x, match x with
    | inr e => if is_InvalidStatusUpdateError e then mret None else mret (Some e)
    | inl _ => mret None end ≫= _).
  assert (held (preAcceptInstance p true m).2 (i_InstanceID i) p) as Hh.
  { unfold preAcceptInstance. rewrite (bind_run _ _ _ _ _ (getOrSetInstance_new _ _ _ Hi Hn)). cbn [fst].
    eapply held_grows; [|by apply preserves_preaccept].
    pose proof (preserves_getOrSetInstance any_ballot p m Hwf) as [Hwf' _].
    rewrite (getOrSetInstance_new _ _ _ Hi Hn) in Hwf'. split; [done|]. exists (initialize i).
    unfold inserted. split; cbn; by rewrite lookup_insert_eq. }
  rewrite bind_try. destruct (preAcceptInstance p true m) as [r m1]. cbn [snd] in Hh.
  assert (∀ x, preserves (grows any_ballot) (k x)) as Hk.
  { intros x. unfold k. preserves_tac; [by apply preserves_sendPreAccept|by apply preserves_mergePreAcceptAttributes]. }
  destruct r; [by eapply held_grows; [|apply Hk]..|done].
Qed.

(** Whatever the answers of the other replicas are, or if there are none, a
    query ends with its instance committed. *)
Lemma held_ExecutePaxos m p i run b m' :
  wf m → m_heap m !! p = Some i → m_instances m !! i_InstanceID i = None → calm_query any_ballot run →
  ExecutePaxos p run m = (Ok b, m') →
  ∃ i', stored m' (i_InstanceID i) p i' ∧ INSTANCE_COMMITTED ≤ i_Status i'.
Proof.
  intros Hwf Hi Hn (Hw1 & Hw2 & Hw3) Hrun. unfold ExecutePaxos in Hrun.
  pose proof (held_managerPreAcceptPhase m p i _ Hwf Hi Hn Hw1) as Hh.
  apply bind_ok in Hrun as ([required err] & m1 & H1 & Hrun). rewrite H1 in Hh. cbn [snd] in Hh.
  apply bind_ok in Hrun as ([] & m2 & H2 & Hrun).
  assert (held m2 (i_InstanceID i) p) as Hh2.
  { eapply held_grows; [exact Hh|].
    assert (preserves (grows any_ballot) (managerAcceptPhase p (q_accept run)))
      by (by apply preserves_managerAcceptPhase).
    assert (preserves (grows any_ballot) (if required : bool
      then _ ← try (managerAcceptPhase p (q_accept run)); mret tt else mret tt)) as Hp by preserves_tac.
    specialize (Hp m1). by rewrite H2 in Hp. }
  apply bind_ok in Hrun as (x & m3 & H3 & Hrun).
  destruct (held_managerCommitPhase m2 _ _ Hh2) as (j & Hj & Hst).
  assert ((managerCommitPhase p m2).2 = m3) as Hm3.
  { unfold try in H3. by destruct (managerCommitPhase p m2) as [[]]; simplify_eq. }
  assert (wf m3) as Hwf3.
  { rewrite <- Hm3. apply (preserves_managerCommitPhase any_ballot); [done..|apply Hh2]. }
  rewrite Hm3 in Hj. assert (grows any_ballot m3 m') as Hg.
  { assert (preserves (grows any_ballot) (managerExecuteInstance p (q_rounds run)))
      by (by apply preserves_managerExecuteInstance).
    assert (preserves (grows any_ballot) (x ← try (managerExecuteInstance p (q_rounds run));
      match x with inl done => mret done | inr _ => mret true end)) as Hp by preserves_tac.
    specialize (Hp m3). by rewrite Hrun in Hp. }
  destruct (Hg Hwf3) as [_ [He _]]. destruct (He _ _ _ Hj) as (i' & Hs' & Hev).
  exists i'. split; [done|]. pose proof (ev_status _ _ _ Hev). lia.
Qed.

End commits.

(** ** Quorums *)

Lemma quorums_odd `{Placement} (i : Instance) :
  local_id ∈ local_nodes (Key (i_Command i)) →
  let nodes := local_nodes (Key (i_Command i)) in
  (∀ q1 q2, q1 ⊆ nodes → q2 ⊆ nodes → NoDup q1 → NoDup q2 →
     length q1 = quorumSize (getInstanceReplicas i) → length q2 = quorumSize (getInstanceReplicas i) →
     ∃ n, n ∈ q1 ∧ n ∈ q2) ↔ Nat.Odd (length nodes).
Proof.
  intros Hin nodes. pose proof (length_getInstanceReplicas i Hin) as Hlen. fold nodes in Hlen.
  set (r := length (getInstanceReplicas i)) in *. pose proof (Nat.div_mod_eq r 2) as Hr.
  pose proof (Nat.mod_upper_bound r 2). unfold quorumSize. fold r. split.
  - intros Hall. destruct (Nat.Even_or_Odd (length nodes)) as [[k Hk]|]; [exfalso|done].
    pose proof (local_nodes_NoDup (Key (i_Command i))) as Hnd. fold nodes in Hnd.
    rewrite <- (take_drop k nodes) in Hnd. apply NoDup_app in Hnd as (N1 & Hdis & N2).
    destruct (Hall (take k nodes) (drop k nodes)) as (n & Hn1 & Hn2); try done.
    + intros n Hn. rewrite <- (take_drop k nodes). set_solver.
    + intros n Hn. rewrite <- (take_drop k nodes). set_solver.
    + rewrite length_take. lia.
    + rewrite length_drop. lia.
    + by apply (Hdis n).
  - intros [k Hk] q1 q2 S1 S2 N1 N2 L1 L2. apply (quorums_overlap nodes); try done. lia.
Qed.

(** ** Properties *)

(** The quorums of the phases.  A phase goes on when [quorumSize] replicas,
    itself included, have answered.  For a command on a key that this node
    replicates, any two such quorums have a node in common exactly if the number
    of replicas is odd: with an even number, two disjoint halves each are
    one. *)
Theorem quorums_intersect_iff_odd `{Placement} (i : Instance) :
  local_id ∈ local_nodes (Key (i_Command i)) →
  let nodes := local_nodes (Key (i_Command i)) in
  (∀ q1 q2, q1 ⊆ nodes → q2 ⊆ nodes → NoDup q1 → NoDup q2 →
     length q1 = quorumSize (getInstanceReplicas i) → length q2 = quorumSize (getInstanceReplicas i) →
     ∃ n, n ∈ q1 ∧ n ∈ q2) ↔ Nat.Odd (length nodes).
Proof. apply quorums_odd. Qed.

Lemma quorums_intersect_iff_odd_witness :
  ∃ n, n ∈ [mkB16 1 1; mkB16 1 2] ∧ n ∈ [mkB16 1 2; mkB16 1 3].
Proof.
  refine (proj2 (quorums_intersect_iff_odd (H:=example_placement) Instance_zero _) _
    [mkB16 1 1; mkB16 1 2] [mkB16 1 2; mkB16 1 3] _ _ _ _ _ _).
  - cbn. left.
  - exists 1%nat. reflexivity.
  - cbn. set_solver.
  - cbn. set_solver.
  - apply NoDup_cons; split; [set_solver|apply NoDup_singleton].
  - apply NoDup_cons; split; [set_solver|apply NoDup_singleton].
  - reflexivity.
  - reflexivity.
Defined.

(** What the accept phase does with the answers.  It sends the instance to
    every other replica and looks at the first [quorumSize - 1] answers only.
    Fewer of them before the timeout are a [TimeoutError]; if all of them accept
    it succeeds; if one rejects, the instance takes the highest ballot among
    them and the phase ends with a [BallotError].  [m1] is the state when it
    stops waiting. *)
Theorem accept_phase_outcomes `{Store, MapOrder, Placement} p replicas w m m1 i i' :
  m_heap m !! p = Some i →
  w_meanwhile w
    (with_outbox (m_outbox m ++ map (λ n, (n, MAcceptRequest (mkAcceptRequest (Instance.Copy i) []))) replicas) m) =
    Some m1 →
  let received := take (quorumSize replicas - 1) (w_arrivals w) in
  m_heap m1 !! p = Some i' →
  sendAccept p replicas w m =
    if decide (length (w_arrivals w) < quorumSize replicas - 1)%nat
    then (Fail (TimeoutError "Timeout while awaiting accept responses"), m1)
    else if forallb a_Accepted received then (Ok tt, m1)
    else (Fail (BallotError "Ballot number rejected"),
          with_heap (<[p := (Instance.updateBallot (max_ballot (map AcceptResponse.GetBallot received)) i').1]>
            (m_heap m1)) m1).
Proof. intros Hp Hw received Hp1. by apply (sendAccept_cases _ _ _ _ _ i). Qed.

(** The preaccept phase merges what the replicas have answered.  The
    preaccepted instance ends up with the union of its dependencies and all of
    theirs, and nothing else changes; the accept phase is skipped exactly if
    every answer named the same dependencies as the instance. *)
Theorem preaccept_merges_union `{Store, MapOrder, Placement} p responses m i :
  m_heap m !! p = Some i → i_Status i = INSTANCE_PREACCEPTED →
  ∃ i' changed, mergePreAcceptAttributes p responses false m =
      (Ok (changed, None), with_heap (<[p := i']> (m_heap m)) m) ∧
    i' = with_Dependencies (i_Dependencies i') i ∧
    (∀ d, d ∈ i_Dependencies i' ↔
       d ∈ i_Dependencies i ∨ (∃ r, r ∈ responses ∧ d ∈ i_Dependencies (pa_Instance r))) ∧
    (changed = false ↔ ∀ r, r ∈ responses →
       ∀ d, d ∈ i_Dependencies (pa_Instance r) ↔ d ∈ i_Dependencies i).
Proof.
  intros Hp Hst. destruct (mergePreAcceptAttributes_spec p responses m i false Hp Hst) as (i' & c & Hrun & Hi & Hd & Hc).
  exists i', c. split_and!; [done|done| |].
  - intros d. rewrite <- (elem_of_list_to_set (C:=gset InstanceID)), Hd, elem_of_union, elem_of_list_to_set.
    apply or_iff_compat_l. unfold response_deps. rewrite elem_of_union_list. split.
    + intros (X & (r & -> & Hr)%list_elem_of_fmap & Hx%elem_of_list_to_set). by exists r.
    + intros (r & Hr & Hx). eexists. split; [by apply list_elem_of_fmap; exists r|by apply elem_of_list_to_set].
  - rewrite Hc, Forall_forall. setoid_rewrite set_eq. setoid_rewrite elem_of_list_to_set. done.
Qed.

(** What an explicit prepare continues with.  If every answer comes from
    [HandlePrepare] and accepts the ballot, and some replica knows the instance,
    then the instance that is carried on is the local one or one of those in the
    answers, as it was reported there with its dependencies, and no status among
    the answers and the local one is higher than its.  A command that one of
    these replicas has accepted or committed is thus continued as such. *)
Theorem prepare_continues_highest_status `{Store, MapOrder, Placement} p responses m i ballot iid j :
  m_heap m !! p = Some i → 0 ≤ ballot →
  (∀ r, r ∈ responses → answers_prepare ballot iid r ∧ p_Accepted r = true) →
  j ∈ known responses → 0 < i_Status j →
  ∃ p' c m', choosePrepareInstance p responses m = (Ok (p', i_Status c), m') ∧
    m_heap m' !! p' = Some c ∧ (c = i ∨ c ∈ known responses) ∧
    i_Status i ≤ i_Status c ∧ (∀ k, k ∈ known responses → i_Status k ≤ i_Status c) ∧
    m_instances m' = m_instances m ∧ m_heap m ⊆ m_heap m' ∧ (wf m → wf m').
Proof.
  intros Hp Hb Hr Hj Hpos.
  destruct (analyzePrepareResponses_spec ballot iid responses Hb Hr) as [Hge Hin].
  unfold choosePrepareInstance. rewrite bind_load, Hp.
  destruct (analyzePrepareResponses responses) as [c|] eqn:Hc; [|specialize (Hge j Hj); cbn in Hge; lia].
  cbn in Hge. case_decide as Hlt.
  - exists p, i, m. split_and!; try done; [by left|]. intros k Hk. specialize (Hge k Hk). lia.
  - destruct (alloc_eq c m) as (q & Ha & Hn). rewrite (bind_run _ _ _ _ _ Ha). eexists q, c, _.
    split_and!; [done| |right; auto|lia|done|done|by apply insert_subseteq|intros; by apply wf_alloc].
    cbn. by rewrite lookup_insert_eq.
Qed.

(** C40. Deferring to a successor commits the wrong dependencies.  When a
    successor answers that it has committed the instance, the local replica
    marks its own instance committed and keeps its own dependencies, whatever
    those in the answer are; it then returns true, which says that the prepare
    should proceed locally, and no error. *)
Theorem defer_commits_own_dependencies `{Store, MapOrder, Placement} m iid p i r :
  wf m → stored m iid p i → keys_of i ≠ [] →
  i_Status i < INSTANCE_COMMITTED → i_Status r = INSTANCE_COMMITTED →
  ∃ m' i', handleSuccessorResponse p r m = (Ok (true, None), m') ∧ stored m' iid p i' ∧
    i_Status i' = INSTANCE_COMMITTED ∧ i_Dependencies i' = i_Dependencies i.
Proof.
  intros Hwf [Hp Hi] Hk Hst Hr. destruct (wf_ptr m Hwf _ _ Hp) as (? & ? & Hid & _). simplify_eq.
  unfold handleSuccessorResponse. rewrite bind_load, Hi, Hr.
  rewrite decide_True by lia. rewrite (decide_False (P := INSTANCE_COMMITTED = INSTANCE_ACCEPTED)) by done.
  rewrite decide_True by auto. rewrite bind_try. unfold commitInstance.
  rewrite (bind_run _ _ _ _ _ (getOrSetInstance_found _ _ _ _ _ Hi Hp Hi)). cbn [fst].
  unfold commit. unfold mbind at 1, ST_bind at 1. rewrite bind_load, Hi, bind_argument, decide_True by done.
  rewrite bind_lift. unfold Instance.commit. rewrite decide_False by lia. unfold store, modify.
  rewrite bind_load. cbn [m_heap with_heap]. rewrite lookup_insert_eq.
  destruct (ReportAcknowledged_ok (Instance.bump false (with_Status INSTANCE_COMMITTED i))
    (with_heap (<[p := Instance.bump false (with_Status INSTANCE_COMMITTED i)]> (m_heap m)) m) Hk) as (dm & Hrep & _).
  rewrite Hrep. eexists _, (Instance.bump false (with_Status INSTANCE_COMMITTED i)). split_and!; [done| |done|done].
  split; cbn; [done|by rewrite lookup_insert_eq].
Qed.

(** C38. A query is committed without a quorum.  Whatever the other replicas
    answer, be it nothing or only rejections, [ExecutePaxos] leaves the new
    instance committed: the errors of the preaccept and accept phases are not
    looked at. *)
Theorem query_committed_without_quorum `{Store, MapOrder, Placement, UUIDLib} m p i run b m' :
  wf m → m_heap m !! p = Some i → m_instances m !! i_InstanceID i = None → calm_query any_ballot run →
  ExecutePaxos p run m = (Ok b, m') →
  ∃ i', stored m' (i_InstanceID i) p i' ∧ INSTANCE_COMMITTED ≤ i_Status i'.
Proof. apply held_ExecutePaxos. Qed.

(** ** Examples *)

Section examples.
#[local] Existing Instances LogStore MapOrder_id example_placement example_uuid.

Definition example_at : ptr := default 1%positive (m_instances example_manager !! mkB16 0 1).

Lemma accept_phase_outcomes_witness :
  ∃ m', sendAccept example_at [mkB16 1 2; mkB16 1 3] (mkWait Some [mkAcceptResponse false 9]) example_manager =
    (Fail (BallotError "Ballot number rejected"), m').
Proof.
  erewrite (accept_phase_outcomes example_at [mkB16 1 2; mkB16 1 3] (mkWait Some [mkAcceptResponse false 9])
    example_manager _ example_stored example_stored); [|vm_compute; reflexivity..].
  cbn. eexists. reflexivity.
Defined.

Definition example_preaccepted : PreAcceptResponse :=
  mkPreAcceptResponse true 5 (example_request 1 5 1 [mkB16 0 7]) [].

Lemma preaccept_merges_union_witness :
  ∃ i', mergePreAcceptAttributes example_at [example_preaccepted] false example_manager =
      (Ok (true, None), with_heap (<[example_at := i']> (m_heap example_manager)) example_manager) ∧
    mkB16 0 7 ∈ i_Dependencies i'.
Proof.
  destruct (preaccept_merges_union example_at [example_preaccepted] example_manager example_stored)
    as (i' & c & Hrun & _ & Hd & Hc).
  - vm_compute. reflexivity.
  - vm_compute. reflexivity.
  - exists i'. assert (mkB16 0 7 ∈ i_Dependencies i') as Hin.
    { apply Hd. right. exists example_preaccepted. split; [left|cbn; left]. }
    destruct c; [exact (conj Hrun Hin)|].
    exfalso. apply (not_elem_of_nil (mkB16 0 7)).
    exact (proj1 (proj1 Hc eq_refl example_preaccepted ltac:(left) (mkB16 0 7)) ltac:(left)).
Defined.

Definition example_answer : PrepareResponse :=
  match (HandlePrepare (mkPrepareRequest 9 (mkB16 0 1)) example_manager).1 with
  | Ok r => r | _ => mkPrepareResponse false None
  end.

Lemma prepare_continues_highest_status_witness :
  ∃ p' c m', choosePrepareInstance example_at [example_answer] example_manager = (Ok (p', i_Status c), m') ∧
    i_Status example_stored ≤ i_Status c.
Proof.
  destruct (prepare_continues_highest_status example_at [example_answer] example_manager example_stored
    9 (mkB16 0 1) (default Instance_zero (p_Instance example_answer))) as (p' & c & m' & Hrun & _ & _ & Hle & _).
  - vm_compute. reflexivity.
  - lia.
  - intros r ->%list_elem_of_singleton. split; [|vm_compute; reflexivity].
    exists example_manager, (HandlePrepare (mkPrepareRequest 9 (mkB16 0 1)) example_manager).2.
    vm_compute. reflexivity.
  - vm_compute. left.
  - vm_compute. reflexivity.
  - exists p', c, m'. exact (conj Hrun Hle).
Defined.

Lemma defer_commits_own_dependencies_witness :
  ∃ m' i', handleSuccessorResponse example_at (example_request 1 5 3 [mkB16 0 7]) example_manager =
      (Ok (true, None), m') ∧ i_Status i' = INSTANCE_COMMITTED ∧ i_Dependencies i' = [].
Proof.
  destruct (defer_commits_own_dependencies example_manager (mkB16 0 1) example_at example_stored
    (example_request 1 5 3 [mkB16 0 7])) as (m' & i' & Hrun & _ & Hst & Hd).
  - apply example_manager_wf.
  - split; vm_compute; reflexivity.
  - vm_compute. discriminate.
  - vm_compute. reflexivity.
  - reflexivity.
  - exists m', i'. exact (conj Hrun (conj Hst Hd)).
Defined.

(** Nobody answers. *)
Definition example_silence : QueryRun := mkQueryRun (mkWait Some []) (mkWait Some []) [].
Definition example_query : Manager := (alloc (example_request 1 0 0 []) example_empty).2.

Lemma query_committed_without_quorum_witness :
  ∃ p b m' i', ExecutePaxos p example_silence example_query = (Ok b, m') ∧
    stored m' (mkB16 0 1) p i' ∧ INSTANCE_COMMITTED ≤ i_Status i'.
Proof.
  set (p := 1%positive).
  destruct (query_committed_without_quorum example_query p (example_request 1 0 0 []) example_silence true
    (ExecutePaxos p example_silence example_query).2) as (i' & Hs & Hst).
  - apply wf_alloc; [apply wf_NewManager|reflexivity].
  - vm_compute. reflexivity.
  - reflexivity.
  - split_and!; [by intros m ? [= <-]..|apply Forall_nil_2].
  - vm_compute. reflexivity.
  - exists p, true, (ExecutePaxos p example_silence example_query).2, i'.
    split; [vm_compute; reflexivity|exact (conj Hs Hst)].
Defined.

End examples.
