(* ===== verification/Routing.v ===== *)
(** * Routing commands to replicas

    The consensus manager on top of the topology: the functions of
    [src/consensus/manager.go] that ask the topology which nodes replicate a
    command.  A topology implements the interface the manager was verified
    against, so that the theorems on quorums become theorems about rings and
    replication factors. *)

From S2P Require Import Prelude Bytes Types GoTime Serializer Partitioner Topology Instruction.
From S2P Require Import Containers Instance Dependencies Messages Manager Invariant Prepare Handlers.
From S2P Require Import Tarjan Execute Leader.

Section routing.
Context {N : Type} {TN : TopologyNode N}.

(** [m.topology] *)
Variable t : Topology N.

Definition getInstanceNodes (instance : Instance) : option (list N) :=
  GetLocalNodesForToken (Topology_GetToken (Key (i_Command instance)) t) t.

Definition checkLocalKeyEligibility (key : string) : option bool :=
  TokenLocallyReplicated (Topology_GetToken key t) t.

Definition checkLocalInstanceEligibility (instance : Instance) : option bool :=
  checkLocalKeyEligibility (Key (i_Command instance)).

(** The loop that skips the local node. *)
Definition getInstanceReplicas (instance : Instance) : option (list N) :=
  nodes ← getInstanceNodes instance;
  Some (filter (λ n, GetId n ≠ localNodeID t) nodes).

Hypothesis Ht : topology_wf t.

(** The nodes of the local datacenter that replicate a key. *)
Definition replicas_for (key : string) : list N :=
  replicas_of (partitioner t key) (u32 (replicationFactor t)) (tokenRing (ring_of (localDcID t) t)).

Lemma local_nodes_for key :
  GetLocalNodesForToken (Topology_GetToken key t) t = Some (replicas_for key).
Proof. by apply GetLocalNodesForToken_spec. Qed.

Lemma replicas_for_NoDup key : NoDup (GetId <$> replicas_for key).
Proof. apply replicas_of_NoDup. by apply ring_of_wf. Qed.

(** The interface of the manager, implemented by the topology. *)
Definition topology_placement : Placement := {|
  local_id := localNodeID t;
  local_nodes := λ key, GetId <$> replicas_for key;
  local_nodes_NoDup := replicas_for_NoDup;
|}.

(** What the code computes from the topology is what the manager's functions
    compute from the interface. *)
Lemma getInstanceReplicas_placement i :
  ∃ l, getInstanceReplicas i = Some l ∧
    GetId <$> l = Manager.getInstanceReplicas (Pl:=topology_placement) i.
Proof.
  unfold getInstanceReplicas, getInstanceNodes. rewrite local_nodes_for. cbn.
  eexists. split; [done|]. unfold Manager.getInstanceReplicas. cbn.
  generalize (replicas_for (Key (i_Command i))). intros l.
  induction l as [|n l IH]; [done|].
  rewrite fmap_cons, !filter_cons.
  destruct (decide (GetId n ≠ localNodeID t)); rewrite ?fmap_cons; by rewrite IH.
Qed.

Lemma checkLocalKeyEligibility_placement key :
  checkLocalKeyEligibility key =
    Some (Manager.checkLocalKeyEligibility (Pl:=topology_placement) key).
Proof.
  unfold checkLocalKeyEligibility, TokenLocallyReplicated. rewrite local_nodes_for. cbn. f_equal.
  unfold Manager.checkLocalKeyEligibility. cbn. apply eq_true_iff_eq.
  rewrite bool_decide_eq_true, existsb_exists, list_elem_of_fmap.
  setoid_rewrite bool_decide_eq_true. setoid_rewrite list_elem_of_In. naive_solver.
Qed.
End routing.

(** C26. The replication factor decides whether the phases of consensus are
    safe.  For a command on a key this node replicates, the nodes that decide it
    are as many as the replication factor, or all of the local datacenter's if
    there are fewer, and the leader asks all of them but itself; any two of its
    quorums have a node in common exactly if that number is odd. *)
Theorem replication_factor_decides_quorums {N} `{TopologyNode N} (t : Topology N) (i : Instance) :
  topology_wf t → checkLocalInstanceEligibility t i = Some true →
  let n := (Z.to_nat (u32 (replicationFactor t)) `min` Ring_Size (ring_of (localDcID t) t))%nat in
  ∃ nodes others, getInstanceNodes t i = Some nodes ∧ getInstanceReplicas t i = Some others ∧
    length nodes = n ∧ S (length others) = n ∧
    ((∀ q1 q2, q1 ⊆ GetId <$> nodes → q2 ⊆ GetId <$> nodes → NoDup q1 → NoDup q2 →
        length q1 = quorumSize (GetId <$> others) → length q2 = quorumSize (GetId <$> others) →
        ∃ nid, nid ∈ q1 ∧ nid ∈ q2) ↔ Nat.Odd n).
Proof.
  intros Ht Hin n. unfold checkLocalInstanceEligibility in Hin.
  rewrite (checkLocalKeyEligibility_placement t Ht) in Hin.
  apply (inj Some), bool_decide_eq_true in Hin.
  destruct (getInstanceReplicas_placement t Ht i) as (others & Hothers & Hids).
  assert (length (replicas_for t (Key (i_Command i))) = n) as Hlen by apply replicas_of_length.
  exists (replicas_for t (Key (i_Command i))), others.
  split; [by apply local_nodes_for|]. split; [done|]. split; [done|].
  pose proof (length_getInstanceReplicas (Pl:=topology_placement t Ht) i Hin) as Hl.
  pose proof (quorums_odd (H:=topology_placement t Ht) i Hin) as Hq. cbv zeta in Hq.
  rewrite <-Hids in Hl, Hq. cbn [topology_placement local_nodes] in Hl, Hq.
  rewrite !length_fmap, Hlen in Hl. rewrite (length_fmap GetId (replicas_for _ _)), Hlen in Hq. done.
Qed.

(** Three nodes around the token of ["1234"], which starts with 129. *)
Definition example_ring : list example_node :=
  (λ p : Z * Z, Mocks.newMockNode (mkB16 1 p.1) "DC1" (token_of [p.2]) "N") <$> [(1, 64); (2, 130); (3, 192)].

Definition example_topology : Topology example_node :=
  add_all (TN:=example_node_TN) (Mo:=MapOrder_id) example_ring
    (NewTopology (mkB16 1 1) "DC1" MD5Partitioner 3).

Lemma replication_factor_decides_quorums_witness :
  let i := mkInstance B16_zero B16_zero [] (NewInstruction "SET" "1234" ["x"] Time_zero) [] 0 0
             false false false [] [] ∅ Time_zero in
  checkLocalInstanceEligibility (TN:=example_node_TN) example_topology i = Some true ∧
  ∃ nodes, getInstanceNodes (TN:=example_node_TN) example_topology i = Some nodes ∧ length nodes = 3%nat.
Proof.
  intros i.
  assert (checkLocalInstanceEligibility (TN:=example_node_TN) example_topology i = Some true) as Hi
    by (vm_compute; reflexivity).
  split; [exact Hi|].
  destruct (replication_factor_decides_quorums (H:=example_node_TN) example_topology i
    (add_all_wf (TN:=example_node_TN) (Mo:=MapOrder_id) _ _ (NewTopology_wf (TN:=example_node_TN) _ _ _ _)) Hi)
    as (nodes & others & Hn & _ & Hl & _).
  exists nodes. split; [exact Hn|]. rewrite Hl. vm_compute. reflexivity.
Defined.
