(* ===== verification/Replica.v ===== *)
(** * The replica as a state machine

    [HandleMessage] of [src/consensus/manager.go], the transitions of a replica,
    and what holds of every state it can reach: the invariant of [Invariant.v],
    the promises made to other replicas, and the dependencies that order
    interfering commands. *)

From S2P Require Import Prelude Bytes Types GoTime Serializer Instruction Containers.
From S2P Require Import Instance Dependencies Messages Manager Invariant Prepare.
From S2P Require Import Handlers Tarjan Execute.

Section replica.
Context {St : Store} {Mo : MapOrder} {Pl : Placement} {Uu : UUIDLib}.
Abbreviation M := (ST Manager error).

Definition HandleMessage (msg : Message) : M Message :=
  match msg with
  | MPreAcceptRequest request => MPreAcceptResponse <$> HandlePreAccept request
  | MAcceptRequest request => MAcceptResponse <$> HandleAccept request
  | MCommitRequest request => _ ← HandleCommit request; mret MCommitResponse
  | MPrepareRequest request => MPrepareResponse <$> HandlePrepare request
  | MPrepareSuccessorRequest request => MPrepareSuccessorResponse <$> HandlePrepareSuccessor request
  | _ => fail (Errorf "Unhandled request type")
  end.

(** ** Transitions *)

(** [f] is what happens during one of the waits of a run. *)
Definition phase_wait (r : PhaseRun) (f : Manager → option Manager) : Prop :=
  f = w_meanwhile (ph_prepare r) ∨ f = w_meanwhile (ph_preaccept r) ∨ f = w_meanwhile (ph_accept r).
Definition successor_wait (l : list SuccessorWait) (f : Manager → option Manager) : Prop :=
  ∃ w, w ∈ l ∧ f = sw_meanwhile w.
Definition run_wait (r : PrepareRun) (f : Manager → option Manager) : Prop :=
  f = pw_meanwhile (pr_proceed r) ∨ successor_wait (pr_defer r) f ∨
  (∃ d, d ∈ pr_rounds r ∧ (f = dr_interval d ∨ successor_wait (dr_waits d) f)) ∨
  f = pr_commitEvent r ∨ f = pw_meanwhile (pr_proceed_again r) ∨ phase_wait (pr_phase r) f.
Definition attempt_wait (a : Attempt) (f : Manager → option Manager) : Prop :=
  run_wait (at_run a) f ∨ f = at_meanwhile a.
Definition query_wait (q : QueryRun) (f : Manager → option Manager) : Prop :=
  f = w_meanwhile (q_preaccept q) ∨ f = w_meanwhile (q_accept q) ∨
  ∃ r iid i, r ∈ q_rounds q ∧ attempt_wait (r iid i) f.

(** What a replica can do: answer a message, run the prepare that a
    [PrepareSuccessorRequest] has started, run a client's query, and read the
    clock.  While an operation is blocked, the replica does any of these; an
    operation that is still blocked is one with a wait that does not end. *)
Inductive run : Manager → Manager → Prop :=
  | run_refl m : run m m
  | run_trans m1 m2 m3 : run m1 m2 → run m2 m3 → run m1 m3
  | run_clock now m : run m (with_now now m)
  | run_message msg m : run m (HandleMessage msg m).2
  | run_prepare p attempts m :
      (∀ i f, attempt_wait (attempts i) f → ∀ m m', f m = Some m' → run m m') →
      run m (prepareSuccessorTask p attempts m).2
  | run_query instruction iid perm listener q m :
      (∀ f, query_wait q f → ∀ m m', f m = Some m' → run m m') →
      run m (ExecuteQuery instruction iid perm listener q m).2.

(** The part of it in which the replica only answers others. *)
Inductive answers : Manager → Manager → Prop :=
  | answers_refl m : answers m m
  | answers_message msg m m' : answers (HandleMessage msg m).2 m' → answers m m'
  | answers_clock now m m' : answers (with_now now m) m' → answers m m'.

Lemma answers_run m m' : answers m m' → run m m'.
Proof. induction 1; eauto using run, run_trans. Qed.

(** ** The invariant along runs *)

Lemma preserves_HandleMessage B `{!PreOrder B} (B_le : ∀ b b', b ≤ b' → B b b') msg :
  preserves (grows B) (HandleMessage msg).
Proof. unfold HandleMessage. preserves_tac. Qed.

Lemma calm_attempt_waits B a : (∀ f, attempt_wait a f → calm B f) → calm_attempt B a.
Proof.
  unfold attempt_wait, run_wait, successor_wait, phase_wait. intros H.
  split; [split_and!|]; try apply Forall_forall.
  - apply H. eauto 12.
  - intros w Hw. apply H. eauto 12.
  - intros d Hd. split; [|apply Forall_forall; intros w Hw]; apply H; eauto 12.
  - apply H. eauto 12.
  - apply H. eauto 12.
  - split_and!; apply H; eauto 12.
  - apply H. eauto 12.
Qed.

Lemma calm_query_waits B q : (∀ f, query_wait q f → calm B f) → calm_query B q.
Proof.
  unfold query_wait. intros H. split_and!; [apply H; auto..|].
  apply Forall_forall. intros r Hr iid i. apply calm_attempt_waits.
  intros f Hf. apply H. eauto 12.
Qed.

Lemma run_grows m m' : run m m' → grows any_ballot m m'.
Proof.
  induction 1 as [m|m1 m2 m3 _ IH1 _ IH2|now m|msg m|p at_ m _ IH|c iid perm l q m _ IH].
  - reflexivity.
  - by etrans.
  - apply grows_frame; cbn; auto with typeclass_instances.
  - by apply preserves_HandleMessage.
  - apply preserves_prepareSuccessorTask; [apply _|done|done|].
    intros i. apply calm_attempt_waits. intros f Hf m1 m2. by apply (IH i).
  - apply preserves_ExecuteQuery; [apply _|done|done|].
    apply calm_query_waits. intros f Hf m1 m2. by apply IH.
Qed.

Lemma answers_grows m m' : answers m m' → grows Z.le m m'.
Proof.
  induction 1 as [m|msg m m' _ IH|now m m' _ IH]; [reflexivity| |].
  - etrans; [|exact IH]. apply preserves_HandleMessage; [apply _|done].
  - etrans; [|exact IH]. apply grows_frame; [apply _|done..|auto|auto].
Qed.

(** ** Properties *)



Lemma HandlePrepare_promise m b iid p i :
  wf m → stored m iid p i → b > i_MaxBallot i →
  ∃ i' m', HandlePrepare (mkPrepareRequest b iid) m =
      (Ok (mkPrepareResponse true (Some (Instance.Copy i'))), m') ∧
    stored m' iid p i' ∧ i_MaxBallot i' = b.
Proof.
  intros Hm [Hp Hi] Hb. exists (with_MaxBallot b i), (with_heap (<[p := with_MaxBallot b i]> (m_heap m)) m).
  split; [|split; [split; [done|apply lookup_insert_eq]|done]].
  unfold HandlePrepare. rewrite bind_instances_Get. cbn [preq_InstanceID preq_Ballot]. rewrite Hp, bind_load, Hi.
  cbv zeta. rewrite bool_decide_true by done.
  rewrite (bind_run _ _ m tt (with_heap (<[p := with_MaxBallot b i]> (m_heap m)) m)).
  - rewrite bind_load. cbn. by rewrite lookup_insert_eq.
  - unfold update. rewrite bind_load, Hi. unfold Instance.updateBallot. rewrite decide_True by done. done.
Qed.

(** C19. Promises are kept: after a replica that holds an instance has accepted
    a prepare for it with ballot [b], it accepts no [PreAccept] and no [Accept]
    for that instance with a ballot of at most [b], however many messages it
    answers in between.  It rejects a [PreAccept] without any effect; it rejects
    an [Accept] after adding the missing instances that come with it, if they
    have keys and a known status (otherwise it may panic), and these change nothing
    that is known. *)
Theorem prepare_promise_kept (m m1 m2 : Manager) (b : Z) (iid : InstanceID) (p : ptr) (i r : Instance)
    (resp : PrepareResponse)
    (Hwf : wf m) (Hknown : stored m iid p i)
    (Hprepare : HandlePrepare (mkPrepareRequest b iid) m = (Ok resp, m1))
    (Haccepted : p_Accepted resp = true) (Hanswers : answers m1 m2)
    (Hid : i_InstanceID r = iid) (Hballot : i_MaxBallot r ≤ b) :
  (∃ ra, HandlePreAccept (mkPreAcceptRequest r) m2 = (Ok ra, m2) ∧ pa_Accepted ra = false) ∧
  (∀ missing ra m3, HandleAccept (mkAcceptRequest r missing) m2 = (Ok ra, m3) →
     a_Accepted ra = false ∧ ∀ id j, lookup m2 id = Some j → lookup m3 id = Some j) ∧
  (∀ missing, Forall carriable missing → ∃ ra m3,
     HandleAccept (mkAcceptRequest r missing) m2 = (Ok ra, m3) ∧ a_Accepted ra = false ∧
     adds_missing missing m2 m3 ∧ (missing = [] → m3 = m2)).
Proof.
  assert (b > i_MaxBallot i) as Hb.
  { unfold HandlePrepare in Hprepare. rewrite bind_instances_Get in Hprepare.
    cbn [preq_InstanceID preq_Ballot] in Hprepare. destruct Hknown as [Hp Hi].
    rewrite Hp, bind_load, Hi in Hprepare. cbv zeta in Hprepare.
    st_inv. cbn in Haccepted. by apply bool_decide_eq_true in Haccepted. }
  destruct (HandlePrepare_promise m b iid p i Hwf Hknown Hb) as (i1 & m1' & Hrun & Hst1 & Hb1).
  rewrite Hrun in Hprepare. simplify_eq.
  assert (wf m1) as Hwf1.
  { pose proof (preserves_HandlePrepare Z.le ltac:(done) (mkPrepareRequest (i_MaxBallot i1) (i_InstanceID r)) m) as Hg.
    rewrite Hrun in Hg. by apply Hg. }
  destruct (answers_grows _ _ Hanswers Hwf1) as [Hwf2 [Hs _ _]].
  destruct (Hs _ _ _ Hst1) as (i2 & Hst2 & E). apply ev_ballot in E.
  assert (lookup m2 (i_InstanceID r) = Some i2) as Hl by (apply lookup_stored; eauto).
  destruct (stale_rejected m2 r i2) as [H1 H2]; [done|done|lia|]. split_and!; [by eexists|..].
  - intros missing. apply (stale_accept_rejected m2 r i2); [done|done|lia].
  - intros missing Hc. destruct (stale_accept_rejected m2 r i2 missing) as [_ H3]; [done|done|lia|].
    destruct (H3 Hc) as (m3 & Hrun3 & Ham). eexists _, m3. split_and!; [exact Hrun3|done|done|].
    intros ->. rewrite H2 in Hrun3. by simplify_eq.
Qed.

(** No promise is recorded for an instance the replica does not hold: the
    prepare is accepted, nothing is stored, and a preaccept with a lower ballot
    that arrives afterwards is accepted. *)
Theorem prepare_unknown_not_recorded (m : Manager) (b : Z) (r : Instance)
    (Hwf : wf m) (Hunknown : lookup m (i_InstanceID r) = None) (Hlower : i_MaxBallot r < b)
    (Hstatus : i_Status r ≤ INSTANCE_PREACCEPTED) (Hkeys : keys_of r ≠ []) :
  HandlePrepare (mkPrepareRequest b (i_InstanceID r)) m = (Ok (mkPrepareResponse true None), m) ∧
  ∃ ra m', HandlePreAccept (mkPreAcceptRequest r) m = (Ok ra, m') ∧ pa_Accepted ra = true.
Proof.
  split.
  - unfold HandlePrepare. rewrite bind_instances_Get. cbn [preq_InstanceID].
    apply lookup_None in Hunknown; [|done]. by rewrite Hunknown.
  - assert (initialize r = r) as Hinit.
    { unfold initialize. rewrite decide_False; [done|]. unfold INSTANCE_PREACCEPTED, INSTANCE_COMMITTED in *. lia. }
    assert (incoming m r = r) as Hin by (unfold incoming; rewrite Hunknown; done).
    destruct (HandlePreAccept_ok m r) as (m' & i' & l & H & _);
      [done|by intros i; rewrite Hunknown|by rewrite Hin..|]. by eexists _, m'.
Qed.

Lemma not_executed_low m iid i :
  wf m → lookup m iid = Some i → i_Status i ≤ INSTANCE_PREACCEPTED → iid ∉ m_executed m.
Proof.
  intros Hm Hl Hs (p & j & Hst & Hx)%(wf_executed m Hm).
  assert (lookup m iid = Some j) as Hj by (apply lookup_stored; eauto). simplify_eq.
  rewrite Hx in Hs. done.
Qed.

(** What [HandlePreAccept] has recorded. *)
Lemma preaccept_pending m a :
  wf m → newer m a → i_Status (incoming m a) ≤ INSTANCE_PREACCEPTED → keys_of (incoming m a) ≠ [] →
  pending (incoming m a) (view (m_depsMngr (HandlePreAccept (mkPreAcceptRequest a) m).2)).
Proof.
  intros Hm Hn Hs Hk. destruct (HandlePreAccept_ok m a Hm Hn Hs Hk)
    as (m' & i' & l & -> & Hoa & Hl & Hsame & _ & _ & _ & _ & _ & _ & Hv).
  assert (i_InstanceID a ∉ m_executed m) as Hnx.
  { destruct (lookup m (i_InstanceID a)) as [i|] eqn:Hi.
    - apply (not_executed_low m _ i Hm Hi). unfold incoming in Hs. by rewrite Hi in Hs.
    - intros (p & j & Hst & _)%(wf_executed m Hm).
      assert (lookup m (i_InstanceID a) = Some j) by (apply lookup_stored; eauto). congruence. }
  assert (i_InstanceID (incoming m a) ∉ s_executed (view (m_depsMngr m) (keys_of (incoming m a)))) as Hne.
  { rewrite (incoming_id m a Hm). by intros ?%(wf_view m Hm). }
  unfold pending. cbn [snd]. rewrite Hv. unfold at_path. rewrite decide_True by done. cbn.
  destruct (i_ReadOnly (incoming m a)); set_solver.
Qed.

(** C10. Interfering commands are ordered: when a replica preaccepts [a] and
    later, after any run in which it has not executed [a], preaccepts a command
    [b] on interfering keys, and not both only read, then [a] is among the
    dependencies it reports for [b]. *)
Theorem interfering_commands_ordered (m m2 : Manager) (a b : Instance)
    (Hwf : wf m) (Hna : newer m a) (Hsa : i_Status (incoming m a) ≤ INSTANCE_PREACCEPTED)
    (Hka : keys_of (incoming m a) ≠ [])
    (Hrun : run (HandlePreAccept (mkPreAcceptRequest a) m).2 m2)
    (Hunexecuted : i_InstanceID a ∉ m_executed m2)
    (Hnb : newer m2 b) (Hsb : i_Status (incoming m2 b) ≤ INSTANCE_PREACCEPTED)
    (Hkb : keys_of (incoming m2 b) ≠ []) (Hdistinct : i_InstanceID a ≠ i_InstanceID b)
    (Hinterferes : interferes (keys_of (incoming m a)) (keys_of (incoming m2 b)))
    (Hwrite : i_ReadOnly (incoming m a) && i_ReadOnly (incoming m2 b) = false) :
  ∃ resp m3, HandlePreAccept (mkPreAcceptRequest b) m2 = (Ok resp, m3) ∧
    pa_Accepted resp = true ∧ i_InstanceID a ∈ i_Dependencies (pa_Instance resp).
Proof.
  pose proof (preaccept_pending m a Hwf Hna Hsa Hka) as Hp.
  assert (wf (HandlePreAccept (mkPreAcceptRequest a) m).2) as Hwf1.
  { by apply (preserves_HandlePreAccept Z.le). }
  destruct (run_grows _ _ Hrun Hwf1) as [Hwf2 [_ _ Hpend]].
  destruct (HandlePreAccept_ok m2 b Hwf2 Hnb Hsb Hkb)
    as (m3 & i' & l & Hh & _ & _ & _ & _ & _ & _ & Hids & _).
  eexists _, m3. split; [exact Hh|]. split; [done|]. cbn. apply Hids. split; [done|].
  rewrite <-(incoming_id m a Hwf) in Hunexecuted |- *.
  by apply pending_interfering; [apply Hpend| |].
Qed.

End replica.

(** ** Examples *)

Section examples.
#[local] Existing Instances LogStore MapOrder_id example_placement example_uuid.

Definition example_message : Message := MPreAcceptRequest (mkPreAcceptRequest (example_request 1 5 1 [])).



Definition example_stored_ptr : ptr := default 1%positive (m_instances example_manager !! mkB16 0 1).
Definition example_promised : Manager :=
  (HandlePrepare (mkPrepareRequest 9 (mkB16 0 1)) example_manager).2.
Definition example_promise : PrepareResponse :=
  match (HandlePrepare (mkPrepareRequest 9 (mkB16 0 1)) example_manager).1 with
  | Ok r => r | _ => mkPrepareResponse false None
  end.

Lemma prepare_promise_kept_witness :
  ∃ ra m3, HandleAccept (mkAcceptRequest (example_request 1 9 2 []) [example_request 9 1 4 []]) example_promised =
    (Ok ra, m3) ∧ a_Accepted ra = false.
Proof.
  destruct (prepare_promise_kept example_manager example_promised example_promised 9 (mkB16 0 1)
    example_stored_ptr example_stored (example_request 1 9 2 []) example_promise) as (_ & _ & H).
  - apply example_manager_wf.
  - split; vm_compute; reflexivity.
  - vm_compute. reflexivity.
  - vm_compute. reflexivity.
  - apply answers_refl.
  - reflexivity.
  - vm_compute. discriminate.
  - destruct (H [example_request 9 1 4 []]) as (ra & m3 & Hrun & Hr & _); [repeat constructor; vm_compute; discriminate|].
    exists ra, m3. exact (conj Hrun Hr).
Defined.

Lemma prepare_unknown_not_recorded_witness :
  HandlePrepare (mkPrepareRequest 9 (mkB16 0 1)) example_empty =
    (Ok (mkPrepareResponse true None), example_empty) ∧
  ∃ ra m', HandlePreAccept (mkPreAcceptRequest (example_request 1 5 1 [])) example_empty = (Ok ra, m') ∧
    pa_Accepted ra = true.
Proof.
  apply (prepare_unknown_not_recorded example_empty 9 (example_request 1 5 1 [])).
  - apply wf_NewManager.
  - reflexivity.
  - vm_compute. reflexivity.
  - vm_compute. discriminate.
  - discriminate.
Defined.

Lemma interfering_commands_ordered_witness :
  ∃ resp m3, HandlePreAccept (mkPreAcceptRequest (example_request 2 3 1 [])) example_manager = (Ok resp, m3) ∧
    pa_Accepted resp = true ∧ mkB16 0 1 ∈ i_Dependencies (pa_Instance resp).
Proof.
  apply (interfering_commands_ordered example_empty example_manager (example_request 1 5 1 [])
    (example_request 2 3 1 [])).
  - apply wf_NewManager.
  - intros i. vm_compute. discriminate.
  - vm_compute. discriminate.
  - discriminate.
  - apply run_refl.
  - apply (bool_decide_eq_true_1 _). vm_compute. reflexivity.
  - intros i. vm_compute. discriminate.
  - vm_compute. discriminate.
  - discriminate.
  - discriminate.
  - by left.
  - reflexivity.
Defined.

End examples.
