(* ===== verification/Frame.v ===== *)
(** * Operations that execute nothing

    Everything the manager does except for the execution itself: such an
    operation leaves the list of executed ids as it is and the recorded
    components ([StronglyConnected]) of the instances alone.  Shown for the
    operations of [Manager.v] and [Prepare.v] that do not wait; those that do consist
    of such steps. *)

From S2P Require Import Prelude Bytes Types GoTime Serializer Instruction Containers.
From S2P Require Import Instance Dependencies Messages Manager Invariant Prepare Replica.

(** ** What comes from the network has no recorded component *)

Definition unrecorded (i : Instance) : Prop := i_StronglyConnected i = ∅.

Definition clean_message (msg : Message) : Prop :=
  match msg with
  | MPreAcceptRequest r => unrecorded (pareq_Instance r)
  | MAcceptRequest r => unrecorded (areq_Instance r) ∧ Forall unrecorded (areq_MissingInstances r)
  | MCommitRequest r => unrecorded (creq_Instance r)
  | _ => True
  end.

Section quiet.
Context {St : Store} {Mo : MapOrder} {Pl : Placement}.
Abbreviation M := (ST Manager error).

(** Every object keeps its component, new ones have none, and nothing is
    executed. *)
Record quiet (m m' : Manager) : Prop := {
  quiet_heap : ∀ p i', m_heap m' !! p = Some i' →
    match m_heap m !! p with
    | Some i => i_StronglyConnected i' = i_StronglyConnected i ∧ i_InstanceID i' = i_InstanceID i
    | None => unrecorded i'
    end;
  quiet_executed : m_executed m' = m_executed m;
  quiet_state : m_store m' = m_store m;
  quiet_dom : dom (m_heap m) ⊆ dom (m_heap m');
}.

#[export] Instance quiet_preorder : PreOrder quiet.
Proof.
  split.
  - intros m. split; [|done..]. intros p i ->. done.
  - intros m1 m2 m3 [H1 E1 S1 D1] [H2 E2 S2 D2]. split; [|congruence|congruence|set_solver].
    intros p i3 Hp3. specialize (H2 p i3 Hp3). specialize (H1 p).
    destruct (m_heap m2 !! p) as [i2|] eqn:Hp2.
    + specialize (H1 i2 eq_refl). destruct H2 as [Hsc Hid]. unfold unrecorded in *. rewrite Hsc, Hid.
      by destruct (m_heap m1 !! p).
    + destruct (m_heap m1 !! p) eqn:Hp1; [|done]. exfalso.
      apply (not_elem_of_dom (m_heap m2) p); [done|]. apply D1, elem_of_dom. by eexists.
Qed.

Lemma quiet_frame m m' :
  m_heap m' = m_heap m → m_executed m' = m_executed m → m_store m' = m_store m → quiet m m'.
Proof. intros Hh He Hs. split; [|done..|by rewrite Hh]. rewrite Hh. intros p i ->. done. Qed.

Lemma quiet_store m p i i' :
  m_heap m !! p = Some i → i_StronglyConnected i' = i_StronglyConnected i → i_InstanceID i' = i_InstanceID i →
  quiet m (with_heap (<[p := i']> (m_heap m)) m).
Proof.
  intros Hp Hsc Hid. split; cbn; [|done|done|set_solver]. intros q j. destruct (decide (q = p)) as [->|Hne].
  - rewrite lookup_insert_eq, Hp. by intros [= <-].
  - rewrite lookup_insert_ne by done. by intros ->.
Qed.

Lemma preserves_quiet_frame {A} (op : M A) :
  (∀ m, m_heap (op m).2 = m_heap m ∧ m_executed (op m).2 = m_executed m ∧ m_store (op m).2 = m_store m) →
  preserves quiet op.
Proof. intros H m. destruct (H m) as (? & ? & ?). by apply quiet_frame. Qed.

Lemma quiet_load p : preserves quiet (load p).
Proof. intros m. rewrite load_eq. reflexivity. Qed.

Lemma quiet_alloc i : unrecorded i → preserves quiet (alloc i).
Proof.
  intros Hi m. unfold alloc. cbn. set (p := fresh _).
  assert (m_heap m !! p = None) as Hp by apply not_elem_of_dom, is_fresh.
  split; cbn; [|done|done|set_solver]. intros q j. destruct (decide (q = p)) as [->|Hne].
  - rewrite lookup_insert_eq, Hp. by intros [= <-].
  - rewrite lookup_insert_ne by done. by intros ->.
Qed.

Lemma quiet_alloc_all l : Forall unrecorded l → preserves quiet (alloc_all l).
Proof.
  induction 1 as [|i l Hi _ IH]; cbn; [apply preserves_ret, _|].
  apply preserves_bind; [apply _|by apply quiet_alloc|intros].
  apply preserves_bind; [apply _|done|intros; apply preserves_ret, _].
Qed.

Lemma quiet_deps {A} (op : ST dependencyMap error A) : preserves quiet (deps op).
Proof. apply preserves_quiet_frame. intros m. unfold deps. by destruct (op _). Qed.

Lemma quiet_send msg l : preserves quiet (send msg l).
Proof. by apply preserves_quiet_frame. Qed.

Lemma quiet_lift {A} (r : res error A) : preserves quiet (lift r).
Proof. by apply preserves_quiet_frame. Qed.

Lemma quiet_instances_Get iid : preserves quiet (instances_Get iid).
Proof. by apply preserves_quiet_frame. Qed.

Lemma quiet_update p f :
  (∀ i, i_StronglyConnected (f i) = i_StronglyConnected i ∧ i_InstanceID (f i) = i_InstanceID i) →
  preserves quiet (update p f).
Proof.
  intros Hf m. unfold update. rewrite bind_load. destruct (m_heap m !! p) as [i|] eqn:Hp; [|reflexivity].
  destruct (Hf i). by eapply quiet_store.
Qed.

Lemma quiet_load_store {A} p (f : Instance → Instance) (k : Instance → M A) :
  (∀ i, i_StronglyConnected (f i) = i_StronglyConnected i ∧ i_InstanceID (f i) = i_InstanceID i) →
  (∀ i, preserves quiet (k i)) → preserves quiet (i ← load p; _ ← store p (f i); k i).
Proof.
  intros Hf Hk m. rewrite bind_load. destruct (m_heap m !! p) as [i|] eqn:Hp; [|reflexivity].
  apply preserves_bind_dep; [apply _| |intros; apply Hk]. destruct (Hf i). by eapply quiet_store.
Qed.

Lemma quiet_GetOrSet inst : preserves quiet (GetOrSet inst initialize).
Proof.
  intros m. unfold GetOrSet. rewrite bind_load. destruct (m_heap m !! inst) as [i|] eqn:Hi; [|reflexivity].
  rewrite bind_instances_Get. destruct (m_instances m !! _); [reflexivity|].
  assert (quiet m (with_heap (<[inst := initialize i]> (m_heap m)) m)) as Hq.
  { eapply quiet_store; [exact Hi|unfold initialize; by case_decide|apply initialize_id]. }
  etrans; [exact Hq|]. by apply quiet_frame.
Qed.
#[local] Hint Resolve quiet_load quiet_alloc quiet_alloc_all quiet_deps quiet_send quiet_lift
  quiet_instances_Get quiet_GetOrSet : preserves.

Lemma quiet_getOrSetInstance inst : preserves quiet (getOrSetInstance inst).
Proof. unfold getOrSetInstance. preserves_tac. Qed.
#[local] Hint Resolve quiet_getOrSetInstance : preserves.

(** A method of [*Instance] that keeps the component. *)
Definition keeps (f : Instance → res error Instance) : Prop :=
  ∀ i i', f i = Ok i' → i_StronglyConnected i' = i_StronglyConnected i ∧ i_InstanceID i' = i_InstanceID i.

Ltac keeps_tac :=
  intros j j' H; unfold Instance.preaccept_enter, Instance.accept, Instance.commit, Instance.bump,
    Instance.take_ballot, Instance.setDeps in H; repeat (case_match; simplify_eq); done.

Lemma keeps_accept o now incr : keeps (Instance.accept o now incr).
Proof. destruct o as [o|]; keeps_tac. Qed.
Lemma keeps_commit o incr : keeps (Instance.commit o incr).
Proof. destruct o as [o|]; keeps_tac. Qed.
Lemma keeps_preaccept_enter o : keeps (Instance.preaccept_enter o).
Proof. destruct o as [o|]; keeps_tac. Qed.

Lemma quiet_accept p q incr : preserves quiet (accept p q incr).
Proof.
  intros m. unfold accept. rewrite bind_load. destruct (m_heap m !! p) as [i|] eqn:Hp; [|reflexivity].
  rewrite bind_argument. repeat case_match; try reflexivity;
    rewrite bind_gets, bind_lift; case_match eqn:Ha; try reflexivity;
    apply keeps_accept in Ha as [? ?]; by eapply quiet_store.
Qed.

Lemma quiet_commit p q incr : preserves quiet (commit p q incr).
Proof.
  intros m. unfold commit. rewrite bind_load. destruct (m_heap m !! p) as [i|] eqn:Hp; [|reflexivity].
  rewrite bind_argument. repeat case_match; try reflexivity;
    rewrite bind_lift; case_match eqn:Ha; try reflexivity;
    apply keeps_commit in Ha as [? ?]; by eapply quiet_store.
Qed.

Lemma quiet_preaccept_tail m p i i1 incr :
  m_heap m !! p = Some i → i_StronglyConnected i1 = i_StronglyConnected i → i_InstanceID i1 = i_InstanceID i →
  quiet m ((_ ← store p i1; ids ← deps (DepsMngr.GetAndSetDeps i1); now ← gets m_now;
            store p (Instance.preaccept_leave ids now incr i1)) m).2.
Proof.
  intros Hp Hsc Hid. set (m1 := with_heap (<[p := i1]> (m_heap m)) m).
  assert (quiet m m1) as H1 by by eapply quiet_store.
  rewrite (bind_run _ _ m tt m1 eq_refl). etrans; [exact H1|].
  apply preserves_bind_dep; [apply _|apply quiet_deps|]. intros ids m2 Hdeps.
  rewrite bind_gets. apply (quiet_store m2 p i1).
  - unfold deps in Hdeps. destruct (DepsMngr.GetAndSetDeps i1 _). simplify_eq. apply lookup_insert_eq.
  - unfold Instance.preaccept_leave, Instance.bump, Instance.setDeps. by repeat case_match.
  - unfold Instance.preaccept_leave, Instance.bump, Instance.setDeps. by repeat case_match.
Qed.

Lemma quiet_preaccept p q incr : preserves quiet (preaccept p q incr).
Proof.
  intros m. unfold preaccept. rewrite bind_load. destruct (m_heap m !! p) as [i|] eqn:Hp; [|reflexivity].
  rewrite bind_argument. repeat case_match; try reflexivity;
    rewrite bind_lift; case_match eqn:Ha; try reflexivity;
    apply keeps_preaccept_enter in Ha as [? ?]; by eapply quiet_preaccept_tail.
Qed.
#[local] Hint Resolve quiet_accept quiet_commit quiet_preaccept : preserves.

Lemma quiet_preAcceptInstance p incr : preserves quiet (preAcceptInstance p incr).
Proof. unfold preAcceptInstance. preserves_tac. Qed.
Lemma quiet_acceptInstance p incr : preserves quiet (acceptInstance p incr).
Proof. unfold acceptInstance. preserves_tac. Qed.
Lemma quiet_commitInstance p incr : preserves quiet (commitInstance p incr).
Proof. unfold commitInstance. preserves_tac. Qed.
#[local] Hint Resolve quiet_preAcceptInstance quiet_acceptInstance quiet_commitInstance : preserves.

Lemma quiet_ignore (op : M unit) : preserves quiet op → preserves quiet (ignore_invalid_status op).
Proof. intros H. unfold ignore_invalid_status. preserves_tac. Qed.

Lemma quiet_addMissingInstance p : preserves quiet (addMissingInstance p).
Proof.
  unfold addMissingInstance. apply preserves_bind; [apply _|apply quiet_getOrSetInstance|intros [q []]]; [preserves_tac|].
  intros m. rewrite bind_load. destruct (m_heap m !! q) as [i|] eqn:Hq; [|reflexivity].
  apply preserves_bind_dep; [apply _| |].
  - repeat case_decide; try reflexivity. by eapply quiet_store.
  - intros _ m1 _. apply preserves_bind; [apply _|apply quiet_load|intros; apply quiet_deps].
Qed.
#[local] Hint Resolve quiet_ignore quiet_addMissingInstance : preserves.

Lemma quiet_addMissing l : Forall unrecorded l → preserves quiet (addMissing l).
Proof. intros Hl. unfold addMissing, addMissingInstancesUnsafe. preserves_tac. Qed.

Lemma quiet_updateBallot p b : preserves quiet (update p (λ i, (Instance.updateBallot b i).1)).
Proof. apply quiet_update. intros i. unfold Instance.updateBallot. by case_decide. Qed.

Lemma quiet_copies l : preserves quiet (copies l).
Proof. induction l; cbn; preserves_tac. Qed.

Lemma quiet_outdated iid b : preserves quiet (outdated iid b).
Proof. unfold outdated. preserves_tac. Qed.

Lemma quiet_replyPreAccept iid ext : preserves quiet (replyPreAccept iid ext).
Proof.
  unfold replyPreAccept. apply preserves_bind; [apply _|apply quiet_instances_Get|intros found].
  apply preserves_bind; [apply _|apply preserves_deref, _|intros p].
  set (f := λ i, with_DependencyMatch (InstanceIDSet.Equal ext
    (InstanceIDSet.NewInstanceIDSet (i_Dependencies i))) i).
  apply (quiet_load_store p f); [done|].
  intros i. apply preserves_bind; [apply _|apply quiet_copies|]. intros. apply preserves_ret, _.
Qed.
#[local] Hint Resolve quiet_addMissing quiet_updateBallot quiet_copies quiet_outdated quiet_replyPreAccept : preserves.

Lemma quiet_mergePreAcceptAttributes p rs c : preserves quiet (mergePreAcceptAttributes p rs c).
Proof.
  revert c; induction rs as [|r rs IH]; intros c; cbn [mergePreAcceptAttributes]; [apply preserves_ret, _|].
  intros m. rewrite bind_load. destruct (m_heap m !! p) as [i|] eqn:Hp; [|reflexivity].
  destruct (Instance.mergeAttributes _ i) as [[i' b]|e|] eqn:Hm; try reflexivity.
  apply preserves_bind_dep; [apply _| |intros; apply IH].
  unfold Instance.mergeAttributes, Instance.setDeps in Hm.
  eapply quiet_store; [exact Hp|repeat case_match; by simplify_eq..].
Qed.

(** ** The handlers *)

Lemma quiet_HandleMessage msg : clean_message msg → preserves quiet (HandleMessage msg).
Proof.
  intros Hc. unfold HandleMessage, HandlePreAccept, HandleAccept, HandleCommit, HandlePrepare, HandlePrepareSuccessor.
  destruct msg; cbn in Hc; destruct_and? Hc; preserves_tac.
Qed.

Lemma quiet_managerCommitPhase p : preserves quiet (managerCommitPhase p).
Proof. unfold managerCommitPhase, sendCommit. preserves_tac. Qed.

End quiet.
