(* ===== verification/Components.v ===== *)
(** * The recorded components

    Once instances have been executed they no longer appear in the graphs that
    [getExecutionOrder] of [src/consensus/manager_execute.go] builds, unless they
    are still needed; the components recorded on the instances
    ([StronglyConnected]) say when.  Here: whenever it returns, the graph
    contains the whole component of each of its members, provided that the
    components with an executed member have been recorded. *)

From S2P Require Import Prelude Bytes Types GoTime Serializer Instruction Containers.
From S2P Require Import Instance Dependencies Messages Manager Invariant Prepare Handlers.
From S2P Require Import Tarjan Execute Order.

Section components.
Context {St : Store} {Mo : MapOrder} {Pl : Placement} {Uu : UUIDLib}.
Abbreviation M := (ST Manager error).

Context (m : Manager) (root : InstanceID) (Hwf : wf m).

(** [x] and [d] belong to the same component: [d] is recorded on [x] if it has
    been executed, and has dependencies. *)
Context (linked : InstanceID → InstanceID → Prop).
Context (Hlinked : ∀ x p i d q j, stored m x p i → stored m d q j → linked x d → x ≠ d →
  i_Status j = INSTANCE_EXECUTED → d ∈ dom (i_StronglyConnected i) ∧ i_Dependencies j ≠ []).

(** What the building of the graph keeps true besides [built]. *)
Record closing (gray : list InstanceID) (o : ordering) : Prop := {
  closing_required : ∀ x p i, is_Some (o_depGraph o !! x) → stored m x p i →
    dom (i_StronglyConnected i) ⊆ dom (o_required o);
  closing_linked : ∀ x ds d, o_depGraph o !! x = Some ds → x ∉ gray → d ∈ ds → linked x d →
    is_Some (o_depGraph o !! d);
}.

Lemma is_connected_run t o iid ds b r m' :
  is_connected t o iid ds b m = (r, m') →
  m' = m ∧ ∀ b', r = Ok b' → (b = true → b' = true) ∧
    (ds ≠ [] → iid ∈ dom (o_required o) → b' = true).
Proof.
  revert b. induction ds as [|d ds IH]; intros b; cbn [is_connected].
  { unfold mret, ST_ret. intros [= <- <-]. split; [done|]. intros ? [= <-]. by split. }
  unfold dep_status. destruct (mjoin (o_depMap o !! d)) as [p|]; cbn [deref].
  2: { cbn. intros [= <- <-]. done. }
  unfold mbind at 1, ST_bind at 1. rewrite bind_ret, bind_load. destruct (m_heap m !! p) as [i|].
  2: { intros [= <- <-]. done. }
  cbn [mret ST_ret]. intros H. destruct (IH _ H) as [-> Hb]. split; [done|]. intros b' ->.
  destruct (Hb b' eq_refl) as [H1 H2]. split.
  - intros ->. by apply H1.
  - intros _ Hreq. apply H1.
    rewrite (InstanceIDSet.Contains_dom (o_required o)), (bool_decide_true (iid ∈ _)) by done.
    by rewrite orb_true_r.
Qed.

Lemma closing_map_deps gray o deps : closing gray o → closing gray (map_deps m deps o).
Proof. by intros [H1 H2]. Qed.

Lemma closing_add_vertex gray o x p i :
  closing gray o → stored m x p i → closing (x :: gray) (add_vertex i o).
Proof.
  intros [H1 H2] Hs. assert (i_InstanceID i = x) as Hid.
  { destruct (wf_ptr m Hwf _ _ (proj1 Hs)) as (? & ? & ? & _). destruct Hs. by simplify_eq. }
  split; cbn [add_vertex o_depGraph o_required]; rewrite Hid.
  - intros y q j Hy Hj. rewrite InstanceIDSet.dom_Combine1. destruct (decide (y = x)) as [->|Hne].
    + destruct Hs, Hj. simplify_eq. set_solver.
    + rewrite lookup_insert_ne in Hy by done. specialize (H1 y q j Hy Hj). set_solver.
  - intros y ds d [[<- _]|[Hne Hy]]%lookup_insert_Some Hg Hd Hl; [set_solver|].
    rewrite lookup_insert. case_decide; [done|]. eapply H2; [done|set_solver|done..].
Qed.

Lemma closing_finish gray o x ds :
  closing (x :: gray) o → o_depGraph o !! x = Some ds →
  (∀ d, d ∈ ds → linked x d → is_Some (o_depGraph o !! d)) → closing gray o.
Proof.
  intros [H1 H2] Hx Hds. split; [done|]. intros y ds' d Hy Hg Hd Hl.
  destruct (decide (y = x)) as [->|Hne]; [simplify_eq; by apply Hds|].
  eapply H2; [done|set_solver|done..].
Qed.

(** What a call that returns has done. *)
Definition sound (rec : ptr → ordering → M ordering) : Prop :=
  ∀ gray p x i o r m', stored m x p i → rtc (dependency m) root x → o_depGraph o !! x = None →
    built m root gray o → closing gray o → rec p o m = (r, m') →
    m' = m ∧ ∀ o', r = Ok o' → built m root gray o' ∧ closing gray o' ∧ extends o o' ∧ settled m o' x ∧
      (i_Status i ≠ INSTANCE_EXECUTED ∨ (i_Dependencies i ≠ [] ∧ x ∈ dom (o_required o)) →
       is_Some (o_depGraph o' !! x)).

(** Dependencies that have been dealt with. *)
Definition dealt (o : ordering) (x d : InstanceID) : Prop :=
  settled m o d ∧ (linked x d → is_Some (o_depGraph o !! d)).

Lemma dealt_extends o o' x d : extends o o' → dealt o x d → dealt o' x d.
Proof. intros He [H1 H2]. split; [by eapply settled_extends|]. intros Hl. by eapply extends_in; auto. Qed.

Lemma add_deps_run rec gray x ds0 ds o r m' :
  sound rec → built m root gray o → closing gray o → o_depGraph o !! x = Some ds0 → ds ⊆ ds0 →
  add_deps rec ds o m = (r, m') →
  m' = m ∧ ∀ o', r = Ok o' → built m root gray o' ∧ closing gray o' ∧ extends o o' ∧
    ∀ d, d ∈ ds → dealt o' x d.
Proof.
  intros Hrec. revert o. induction ds as [|d ds IH]; intros o Hb Hc Hx Hds; cbn [add_deps].
  { unfold mret, ST_ret. intros [= <- <-]. split; [done|]. intros ? [= <-].
    split_and!; [done..|]. by intros ? ?%elem_of_nil. }
  assert (ds ⊆ ds0) as Hds' by set_solver. case_decide as Hin.
  - intros H. destruct (IH o Hb Hc Hx Hds' H) as [-> Ho]. split; [done|]. intros o' ->.
    destruct (Ho o' eq_refl) as (Hb' & Hc' & He & Hd). split_and!; [done..|].
    intros d' [->|Hd']%elem_of_cons; [|auto]. apply (dealt_extends o); [done|]. split; [by left|done].
  - destruct (mjoin (o_depMap o !! d)) as [q|] eqn:Hq; [|intros [= <- <-]; done].
    destruct (built_graph _ _ _ _ Hb _ _ Hx) as (p & i & Hs & ->).
    assert (m_instances m !! d = Some q) as Hdq.
    { destruct (o_depMap o !! d) as [q'|] eqn:Hq'; [|done]. cbn in Hq. subst q'.
      by rewrite <- (built_map _ _ _ _ Hb _ _ Hq'). }
    destruct (wf_ptr m Hwf _ _ Hdq) as (j & Hj & _).
    assert (rtc (dependency m) root d) as Hrd.
    { eapply rtc_r; [by eapply built_reach; [|rewrite Hx]|]. exists p, i. split; [done|set_solver]. }
    destruct (rec q o m) as [r1 m1] eqn:Hrun. rewrite (bind_eval _ _ _ _ _ Hrun).
    destruct (Hrec gray q d j o r1 m1 (conj Hdq Hj) Hrd) as [-> Ho1]; [by apply eq_None_not_Some|done..|].
    destruct r1 as [o1|e|]; [|by intros [= <- <-]..].
    destruct (Ho1 o1 eq_refl) as (Hb1 & Hc1 & He1 & Hst1 & Hin1). intros H.
    destruct (IH o1 Hb1 Hc1) as [-> Ho]; [by eapply lookup_weaken, extends_graph|done..|].
    split; [done|]. intros o' ->. destruct (Ho o' eq_refl) as (Hb' & Hc' & He & Hd).
    split_and!; [done..|by etrans|]. intros d' [->|Hd']%elem_of_cons; [|auto].
    apply (dealt_extends o1); [done|]. split; [done|]. intros Hl. apply Hin1.
    destruct (decide (x = d)) as [->|Hne]; [by destruct Hin|].
    destruct (decide (i_Status j = INSTANCE_EXECUTED)) as [Hex|]; [right|by left].
    destruct (Hlinked x p i d q j Hs (conj Hdq Hj) Hl Hne Hex) as [Hsc Hne'].
    split; [done|]. eapply (closing_required _ _ Hc x p i); [by rewrite Hx|done..].
Qed.

Lemma addInstance_run fuel t : sound (addInstance fuel t).
Proof.
  induction fuel as [|fuel IH]; intros gray p x i o r m' Hs Hrt Hx Hb Hc; cbn [addInstance].
  { intros [= <- <-]. done. }
  assert (i_InstanceID i = x) as <-.
  { destruct (wf_ptr m Hwf _ _ (proj1 Hs)) as (j & Hj & Hiid & _). destruct Hs. by simplify_eq. }
  rewrite bind_load, (proj2 Hs), bind_gets.
  set (o1 := map_deps m (i_Dependencies i) o).
  assert (built m root gray o1) as Hb1 by by apply built_map_deps.
  assert (closing gray o1) as Hc1 by by apply closing_map_deps.
  set (test := if decide (i_Status i = INSTANCE_EXECUTED) then _ else _).
  assert (∃ rb, test m = (rb, m) ∧ ∀ b, rb = Ok b →
    (b = false → i_Status i = INSTANCE_EXECUTED ∧ ¬ (i_Dependencies i ≠ [] ∧ i_InstanceID i ∈ dom (o_required o))))
    as (rb & Htest & Hskip).
  { unfold test. case_decide; [|exists (Ok true); split; [done|]; by intros ? [= <-]].
    destruct (negb _); [|exists (Ok true); split; [done|]; by intros ? [= <-]].
    destruct (is_connected t o1 (i_InstanceID i) (i_Dependencies i) false m) as [rb m1] eqn:Hcon.
    destruct (is_connected_run _ _ _ _ _ _ _ Hcon) as [-> Hr]. exists rb. split; [exact Hcon|].
    intros b -> ->. destruct (Hr false eq_refl) as [_ Hreq]. split; [done|]. intros [? ?]. by specialize (Hreq H0 H1). }
  rewrite (bind_eval _ _ _ _ _ Htest). destruct rb as [[]|e|]; cbn [negb]; [| |by intros [= <- <-]..].
  - destruct (built_add_vertex m root Hwf gray o1 _ p i Hb1 Hs Hrt Hx) as [Hb2 He2].
    { intros d Hd. cbn. rewrite lookup_GetMap. by rewrite decide_True. }
    pose proof (closing_add_vertex gray o1 _ p i Hc1 Hs) as Hc2. intros H.
    destruct (add_deps_run (addInstance fuel t) _ (i_InstanceID i) (i_Dependencies i) (i_Dependencies i)
      (add_vertex i o1) r m' IH Hb2 Hc2 (lookup_insert_eq _ _ _)) as [-> Ho]; [done|exact H|].
    split; [done|]. intros o' ->. destruct (Ho o' eq_refl) as (Hb3 & Hc3 & He3 & Hd3).
    assert (o_depGraph o' !! i_InstanceID i = Some (i_Dependencies i)) as Hin.
    { eapply lookup_weaken; [|by apply extends_graph]. cbn. by rewrite lookup_insert_eq. }
    split_and!.
    + eapply built_finish; [done..|]. intros d Hd. by apply Hd3.
    + eapply closing_finish; [done..|]. intros d Hd. by apply Hd3.
    + etrans; [apply extends_map_deps|]. by etrans.
    + left. by rewrite Hin.
    + intros _. by rewrite Hin.
  - intros [= <- <-]. split; [done|]. intros ? [= <-]. destruct (Hskip false eq_refl eq_refl) as [Hex Hno].
    split_and!; [done..|apply extends_map_deps| |].
    + right. apply (wf_executed m Hwf). exists p, i. auto.
    + intros [|]; by exfalso.
Qed.

End components.
