(* ===== verification/Concurrent.v ===== *)
(** * Concurrent execution

    A replica executes commands in several goroutines at once: each computes an
    order ([getExecutionOrder]) and then walks through it
    ([executeDependencyChain]), while others do the same and messages change the
    instances.  [src/consensus/manager.go] lists the races this may cause as an
    open question.  Here the loop of [executeDependencyChain] is taken apart into
    its passes, and the passes of all goroutines are interleaved with each other
    and with everything else a replica does, but for the computation of an order,
    which is one step: as if it held a lock.  Then commands are executed after
    the dependencies that they, or the commands on a cycle with them, have been
    committed with; indirect dependencies can be overtaken.  The code holds no
    such lock: [Interleaved] takes the computation of an order apart as well, and
    shows that what is reached here is reached there, by the schedules in which
    nobody disturbs it. *)

From S2P Require Import Prelude Bytes Types GoTime Serializer Instruction Containers.
From S2P Require Import Instance Dependencies Messages Manager Invariant Prepare Handlers.
From S2P Require Import Tarjan Execute Order Execution Leader Replica Frame Components.

(** ** The loop, pass by pass *)

(** A goroutine in [executeDependencyChain]: the instances it has looked up, the
    ids that it has yet to go through, and the one it executes up to. *)
Record chain := mkChain {
  ch_imap : gmap InstanceID (option ptr);
  ch_iids : list InstanceID;
  ch_target : InstanceID;
}.

Section passes.
Context {St : Store} {Mo : MapOrder} {Pl : Placement} {Uu : UUIDLib}.
Abbreviation M := (ST Manager error).

(** One pass; [None] when the loop is left. *)
Definition chain_pass (c : chain) : M (option chain) :=
  match ch_iids c with
  | [] => mret None
  | iid :: iids =>
      instance ← deref (mjoin (ch_imap c !! iid));
      i ← load instance;
      if decide (i_Status i = INSTANCE_COMMITTED) then
        _ ← applyInstance instance;
        mret (if decide (i_InstanceID i = ch_target c) then None
              else Some (mkChain (ch_imap c) iids (ch_target c)))
      else if decide (i_Status i = INSTANCE_EXECUTED)
      then mret (Some (mkChain (ch_imap c) iids (ch_target c)))
      else fail (Errorf "Uncommitted dependencies should be handled before calling executeDependencyChain")
  end.

(** The loop is its passes. *)
Lemma execute_chain_passes imap iids t m :
  execute_chain imap iids t m =
    match chain_pass (mkChain imap iids t) m with
    | (Ok None, m') => (Ok tt, m')
    | (Ok (Some c), m') => execute_chain (ch_imap c) (ch_iids c) (ch_target c) m'
    | (Fail e, m') => (Fail e, m')
    | (Panic, m') => (Panic, m')
    end.
Proof.
  destruct iids as [|iid iids]; [done|]. cbn [execute_chain]. unfold chain_pass. cbn [ch_iids ch_imap ch_target].
  destruct (mjoin (imap !! iid)) as [p|]; [|done]. cbn [deref]. rewrite !bind_ret, !bind_load.
  destruct (m_heap m !! p) as [i|]; [|done]. case_decide; [|by case_decide].
  unfold mbind, ST_bind. destruct (applyInstance p m) as [[]]; [|done..]. by case_decide.
Qed.

Definition start_chain (iids : list InstanceID) (target : InstanceID) (m : Manager) : chain :=
  mkChain (InstanceMap.GetMap ∅ iids (m_instances m)) iids target.

Lemma executeDependencyChain_passes iids p m i :
  m_heap m !! p = Some i →
  executeDependencyChain iids p m =
    let c := start_chain iids (i_InstanceID i) m in execute_chain (ch_imap c) (ch_iids c) (ch_target c) m.
Proof. intros Hp. unfold executeDependencyChain. by rewrite bind_gets, bind_load, Hp. Qed.

End passes.

(** ** The agreed dependencies *)

Section agreement.
Context {Uu : UUIDLib}.

(** What the commands have been committed with. *)
Context (agreed : InstanceID → list InstanceID).

Definition needs (x y : InstanceID) : Prop := y ∈ agreed x.
Definition mutual (x y : InstanceID) : Prop := rtc needs x y ∧ rtc needs y x.
Definition in_cycle (x : InstanceID) : Prop := ∃ y, y ≠ x ∧ mutual x y.

(** [x] has to be executed before [y]: [y], or a command on a cycle with it,
    depends on [x] and [x] does not depend on [y], or they depend on each other
    and the id of [x] is the earlier one. *)
Definition goes_first (x y : InstanceID) : Prop :=
  (∃ z, mutual y z ∧ needs z x ∧ ¬ rtc needs x y) ∨ (mutual x y ∧ earlier x y).

Lemma mutual_refl x : mutual x x.
Proof. split; apply rtc_refl. Qed.
Lemma mutual_sym x y : mutual x y → mutual y x.
Proof. by intros []. Qed.
Lemma mutual_trans x y z : mutual x y → mutual y z → mutual x z.
Proof. intros [] []. split; by etrans. Qed.

Lemma in_cycle_mutual x y : in_cycle x → mutual x y → in_cycle y.
Proof.
  intros (z & Hne & Hz) Hy. destruct (decide (x = y)) as [<-|Hxy]; [by exists z|].
  exists x. split; [done|by apply mutual_sym].
Qed.

Lemma goes_first_irrefl x : ¬ goes_first x x.
Proof.
  intros [(z & _ & _ & Hn)|[_ He]]; [by destruct Hn|]. by apply (earlier_asym x x).
Qed.

(** A cycle goes on from each of its members. *)
Lemma in_cycle_needs x : in_cycle x → ∃ d, needs x d ∧ mutual x d.
Proof.
  intros (y & Hne & Hxy & Hyx). destruct (rtc_inv _ _ Hxy) as [?|(d & Hd & Hdy)]; [done|].
  exists d. split; [done|]. split; [by apply rtc_once|]. by etrans.
Qed.

(** What is closed under the dependencies within a cycle contains whole
    cycles. *)
Lemma mutual_path (R : relation InstanceID) (P : InstanceID → Prop) x y :
  (∀ x d, P x → needs x d → mutual x d → P d ∧ R x d) → P x → mutual x y → P y ∧ rtc R x y.
Proof.
  intros HR HP [Hxy Hyx]. induction Hxy as [x|x z y Hxz Hzy IH]; [split; [done|apply rtc_refl]|].
  destruct (HR x z HP Hxz) as [Pz Rxz]; [split; [by apply rtc_once|by etrans]|].
  destruct (IH Pz) as [Py Ryz]; [by eapply rtc_r|]. split; [done|by eapply rtc_l].
Qed.

Context {St : Store}.

(** The replica has committed nothing else. *)
Definition agrees (m : Manager) : Prop :=
  ∀ x p i, stored m x p i → INSTANCE_COMMITTED ≤ i_Status i →
    ∀ d, d ∈ i_Dependencies i ↔ d ∈ agreed x.

(** [x] is committed, and its component has been recorded. *)
Definition recorded (m : Manager) (x : InstanceID) : Prop :=
  ∃ p i, stored m x p i ∧ INSTANCE_COMMITTED ≤ i_Status i ∧ ¬ unrecorded i.

(** Recorded components are right. *)
Definition records (m : Manager) : Prop :=
  ∀ p i, m_heap m !! p = Some i → ¬ unrecorded i →
    m_instances m !! i_InstanceID i = Some p ∧
    ∀ y, y ∈ dom (i_StronglyConnected i) ↔ mutual (i_InstanceID i) y.

(** The components of what has been executed are recorded; each command has been
    executed after those that go first. *)
Record consistent (m : Manager) : Prop := {
  cons_wf : wf m;
  cons_agrees : agrees m;
  cons_records : records m;
  cons_cycles : ∀ x y, x ∈ m_executed m → in_cycle x → mutual x y → recorded m y;
  cons_order : ∀ x y, y ∈ m_executed m → goes_first x y → precedes (m_executed m) x y;
}.

(** The same for what a goroutine is about to execute. *)
Record chain_ok (m : Manager) (c : chain) : Prop := {
  chain_NoDup : NoDup (ch_iids c);
  chain_imap : ∀ x, x ∈ ch_iids c → ∃ p i, ch_imap c !! x = Some (Some p) ∧ stored m x p i ∧
    INSTANCE_COMMITTED ≤ i_Status i;
  chain_cycles : ∀ x y, x ∈ ch_iids c → in_cycle x → mutual x y → recorded m y;
  chain_order : ∀ x y, y ∈ ch_iids c → goes_first x y →
    x ∈ m_executed m ∨ precedes (ch_iids c) x y;
}.

(** *** Operations that execute nothing *)

Lemma recorded_quiet m m' x :
  wf m → grows any_ballot m m' → quiet m m' → recorded m x → recorded m' x.
Proof.
  intros Hwf Hg [Hh _ _ _] (p & i & Hs & Hst & Hr). destruct (Hg Hwf) as [_ [He _ _]].
  destruct (He _ _ _ Hs) as (i' & Hs' & Hev). exists p, i'. split; [done|].
  specialize (Hh p i' (proj2 Hs')). rewrite (proj2 Hs) in Hh. destruct Hh as [Hsc _].
  split; [pose proof (ev_status _ _ _ Hev); lia|]. unfold unrecorded in *. by rewrite Hsc.
Qed.

Lemma consistent_quiet m m' :
  consistent m → grows any_ballot m m' → quiet m m' → agrees m' → consistent m'.
Proof.
  intros [W A R C O] Hg Hq Ha. destruct (Hg W) as [W' [He _ _]]. pose proof Hq as [Hh Hx _ _].
  split; [done|done| | |by rewrite Hx].
  - intros p i' Hp Hr. specialize (Hh p i' Hp). destruct (m_heap m !! p) as [i|] eqn:Hi; [|done].
    destruct Hh as [Hsc Hid]. unfold unrecorded in Hr. rewrite Hsc in Hr |- *. rewrite Hid.
    destruct (R p i Hi Hr) as [Hm Hy]. split; [|done].
    by destruct (He (i_InstanceID i) p i (conj Hm Hi)) as (? & [? _] & _).
  - rewrite Hx. intros x y Hin Hc Hxy. apply (recorded_quiet m); [done..|]. by apply (C x).
Qed.

Lemma chain_ok_quiet m m' c :
  wf m → chain_ok m c → grows any_ballot m m' → quiet m m' → chain_ok m' c.
Proof.
  intros W [N I C O] Hg Hq. destruct (Hg W) as [W' [He _ _]]. split; [done| | |].
  - intros x Hx. destruct (I x Hx) as (p & i & Hi & Hs & Hst). destruct (He _ _ _ Hs) as (i' & Hs' & Hev).
    exists p, i'. split_and!; [done..|]. pose proof (ev_status _ _ _ Hev). lia.
  - intros x y Hx Hc Hxy. apply (recorded_quiet m); [done..|]. by apply (C x).
  - by rewrite (quiet_executed _ _ Hq).
Qed.

(** *** One pass *)

(** The parts of the state that matter here are the same. *)
Lemma consistent_frame m m' :
  m_heap m' = m_heap m → m_instances m' = m_instances m → m_executed m' = m_executed m → wf m' →
  consistent m → consistent m' ∧ ∀ c, chain_ok m c → chain_ok m' c.
Proof.
  intros Hh Hm Hx W' [W A R C O].
  assert (∀ x p i, stored m' x p i ↔ stored m x p i) as Hs by (intros; unfold stored; by rewrite Hh, Hm).
  assert (∀ x, recorded m x → recorded m' x) as Hr.
  { intros x (p & i & ? & ?). exists p, i. by rewrite Hs. }
  split; [split|]; rewrite ?Hx; auto.
  - intros x p i H%Hs. by apply (A x p).
  - unfold records. by rewrite Hh, Hm.
  - intros x y ? ? ?. by apply Hr, (C x).
  - intros c [N I C' O']. split; rewrite ?Hx; auto.
    + intros x Hin. destruct (I x Hin) as (p & i & ? & ? & ?). exists p, i. by rewrite Hs.
    + intros x y ? ? ?. by apply Hr, (C' x).
Qed.

(** [x], stored at [p] as [i], is executed. *)
Record executes (m m' : Manager) (x : InstanceID) (p : ptr) (i : Instance) : Prop := {
  exs_stored : stored m x p i;
  exs_committed : i_Status i = INSTANCE_COMMITTED;
  exs_instances : m_instances m' = m_instances m;
  exs_heap : m_heap m' = <[p := with_Status INSTANCE_EXECUTED i]> (m_heap m);
  exs_executed : m_executed m' = m_executed m ++ [x];
  exs_outbox : m_outbox m' = m_outbox m;
  exs_store : ∃ v, run_command i (m_store m) = (Ok v, m_store m');
  exs_wf : wf m';
}.

Lemma executes_stored m m' x p i y q j :
  executes m m' x p i → stored m y q j →
  ∃ j', stored m' y q j' ∧ i_Status j ≤ i_Status j' ∧ i_StronglyConnected j' = i_StronglyConnected j.
Proof.
  intros [[Hx Hp] Hst Hm Hh _ _ _ _] [Hy Hq]. unfold stored. rewrite Hm, Hh.
  destruct (decide (q = p)) as [->|Hne].
  - exists (with_Status INSTANCE_EXECUTED i). rewrite lookup_insert_eq. simplify_eq. cbn. by rewrite Hst.
  - exists j. by rewrite lookup_insert_ne.
Qed.

Lemma recorded_executes m m' x p i y : executes m m' x p i → recorded m y → recorded m' y.
Proof.
  intros He (q & j & Hs & Hst & Hr). destruct (executes_stored _ _ _ _ _ _ _ _ He Hs) as (j' & Hs' & Hle & Hsc).
  exists q, j'. split_and!; [done|lia|]. unfold unrecorded in *. by rewrite Hsc.
Qed.

Lemma chain_ok_executes m m' x p i c : executes m m' x p i → chain_ok m c → chain_ok m' c.
Proof.
  intros He [N I C O]. split; [done| | |].
  - intros y Hy. destruct (I y Hy) as (q & j & Hi & Hs & Hst).
    destruct (executes_stored _ _ _ _ _ _ _ _ He Hs) as (j' & Hs' & Hle & _). exists q, j'. split_and!; [done..|lia].
  - intros y z ? ? ?. eapply recorded_executes; [done|]. by apply (C y).
  - intros y z Hz Hyz. rewrite (exs_executed _ _ _ _ _ He). destruct (O y z Hz Hyz); [left; set_solver|by right].
Qed.

Lemma consistent_executes m m' x p i :
  executes m m' x p i → consistent m → (∀ y, in_cycle x → mutual x y → recorded m y) →
  (∀ y, goes_first y x → y ∈ m_executed m) → consistent m'.
Proof.
  intros He [W A R C O] Hcyc Hfirst. pose proof He as [[Hx Hp] Hst Hm Hh Hex _ _ W'].
  assert (∀ q j', m_heap m' !! q = Some j' → ∃ j, m_heap m !! q = Some j ∧
    i_Dependencies j' = i_Dependencies j ∧ i_InstanceID j' = i_InstanceID j ∧
    i_StronglyConnected j' = i_StronglyConnected j ∧
    (INSTANCE_COMMITTED ≤ i_Status j' → INSTANCE_COMMITTED ≤ i_Status j)) as Hback.
  { intros q j'. rewrite Hh. destruct (decide (q = p)) as [->|Hne].
    - rewrite lookup_insert_eq. intros [= <-]. exists i. split_and!; try done. by rewrite Hst.
    - rewrite lookup_insert_ne by done. intros ?. by exists j'. }
  split; [done| | | |]; rewrite ?Hex.
  - intros y q j' [Hy Hq] Hc. destruct (Hback q j' Hq) as (j & Hj & -> & _ & _ & Hs).
    rewrite Hm in Hy. apply (A y q j); [done|auto].
  - intros q j' Hq Hr. destruct (Hback q j' Hq) as (j & Hj & _ & Hid & Hsc & _).
    unfold unrecorded in Hr. rewrite Hsc in Hr |- *. rewrite Hid, Hm. by apply (R q j).
  - intros y z [Hy| ->%list_elem_of_singleton]%elem_of_app Hc Hyz; eapply recorded_executes; eauto.
  - intros y z [Hz| ->%list_elem_of_singleton]%elem_of_app Hyz.
    + apply precedes_app_l. by apply O.
    + apply precedes_app; [by apply Hfirst|set_solver].
Qed.

End agreement.

Section steps.
Context {St : Store} {Mo : MapOrder} {Pl : Placement} {Uu : UUIDLib}.
Context (agreed : InstanceID → list InstanceID).
Abbreviation M := (ST Manager error).

Lemma applyInstance_effect m x p i r m' :
  wf m → stored m x p i → i_Status i = INSTANCE_COMMITTED → applyInstance p m = (r, m') →
  wf m' ∧ (executes m m' x p i ∨
    (m_heap m' = m_heap m ∧ m_instances m' = m_instances m ∧ m_executed m' = m_executed m ∧
     m_outbox m' = m_outbox m ∧ (∀ v, r ≠ Ok v) ∧ ∃ e, is_ok e = false ∧ run_command i (m_store m) = (e, m_store m'))).
Proof.
  intros Hwf Hs Hst Hrun. pose proof Hs as [Hx Hp].
  assert (wf m') as Hwf'.
  { pose proof (grows_applyInstance any_ballot ltac:(done) m x p Hx Hwf) as [Hw _]. by rewrite Hrun in Hw. }
  split; [done|]. revert Hrun. unfold applyInstance. rewrite bind_load, Hp.
  rewrite decide_False by (by rewrite Hst). rewrite decide_False by auto.
  set (run := if negb (i_Noop i) then _ else _).
  assert (run m = match run_command i (m_store m) with
    | (Ok v, s) => (Ok v, with_store s m)
    | (Fail e, s) => (Fail (Errorf e), with_store s m)
    | (Panic, s) => (Panic, with_store s m) end) as Hro.
  { unfold run, run_command, ExecuteInstruction. destruct (i_Noop i); [by destruct m|].
    cbn [negb]. by destruct (store_ExecuteInstruction (i_Command i) (m_store m)) as [[]]. }
  destruct (run_command i (m_store m)) as [[v|e|] s] eqn:Hcmd; rewrite (bind_eval _ _ _ _ _ Hro);
    [|intros [= <- <-]; right; split_and!; [done..|eexists; split; cycle 1; done]..].
  assert (i_InstanceID i = x) as Hid by (destruct (wf_ptr m Hwf _ _ Hx) as (? & ? & ? & _); by simplify_eq).
  unfold mbind, ST_bind, store, modify, deps, notify. cbn.
  destruct (DepsMngr.ReportExecuted _ _) as [[[]|e|] dm]; intros [= <- <-]; left; split; cbn; try done;
    rewrite ?Hid; eauto.
Qed.

Lemma pass_ok m c r m' :
  consistent agreed m → chain_ok agreed m c → chain_pass c m = (r, m') →
  consistent agreed m' ∧ (∀ c', chain_ok agreed m c' → chain_ok agreed m' c') ∧
  ∀ c', r = Ok (Some c') → chain_ok agreed m' c'.
Proof.
  intros Hc Hok. pose proof Hok as [N I C O]. destruct c as [imap iids t]. unfold chain_pass. cbn in *.
  destruct iids as [|x iids].
  { unfold mret, ST_ret. intros [= <- <-]. split_and!; [done..|]. by intros ? [=]. }
  destruct (I x) as (p & i & Him & Hs & Hst); [left|]. rewrite Him. cbn [mjoin option_join deref].
  rewrite bind_ret, bind_load, (proj2 Hs). apply NoDup_cons in N as [Nx N].
  assert (∀ m', x ∈ m_executed m' → chain_ok agreed m' (mkChain imap (x :: iids) t) →
    chain_ok agreed m' (mkChain imap iids t)) as Htail.
  { intros m1 Hx [_ I' C' O']. split; cbn in *; [done| | |].
    - intros y Hy. apply I'. by right.
    - intros y z Hy. apply C'. by right.
    - intros y z Hz Hyz. destruct (O' y z ltac:(by right) Hyz) as [|Hp]; [by left|].
      apply precedes_cons in Hp as [[-> _]|]; [by left|by right]. }
  case_decide as Hcom.
  - destruct (applyInstance p m) as [ra m1] eqn:Hrun. rewrite (bind_eval _ _ _ _ _ Hrun).
    destruct (applyInstance_effect m x p i ra m1 (cons_wf _ _ Hc) Hs Hcom Hrun) as [Hwf1 [He|(Hh & Hm & Hx & _ & Hnok & _)]].
    + assert (consistent agreed m1) as Hc1.
      { apply (consistent_executes agreed m m1 x p i He Hc).
        - intros y. by apply C; left.
        - intros y Hy. destruct (O y x ltac:(left) Hy) as [|Hp]; [done|].
          apply precedes_cons in Hp as [[-> _]|[_ Hp]%precedes_elem]; [|done]. by destruct (goes_first_irrefl agreed x). }
      assert (∀ c', chain_ok agreed m c' → chain_ok agreed m1 c') as Hoth by (intros; by eapply chain_ok_executes).
      destruct ra as [v|e|]; intros [= <- <-]; (split_and!; [done..|]); intros c' Hc'; [|done..].
      injection Hc' as Hc'. case_decide; simplify_eq. apply Htail; [|auto]. rewrite (exs_executed _ _ _ _ _ He). set_solver.
    + destruct (consistent_frame agreed m m1 Hh Hm Hx Hwf1 Hc) as [Hc1 Hoth].
      destruct ra as [v|e|]; [by destruct (Hnok v)|..]; intros [= <- <-]; by split_and!.
  - case_decide as Hex; intros [= <- <-]; (split_and!; [done..|]); intros c' [= <-].
    apply Htail; [|done]. apply (wf_executed m (cons_wf _ _ Hc)). by exists p, i.
Qed.

(** *** Computing an order *)

(** [scc] is a whole component of committed instances, which have been looked
    up. *)
Record component (m : Manager) (dm : gmap InstanceID (option ptr)) (scc : list InstanceID) : Prop := {
  comp_nonempty : scc ≠ [];
  comp_mapped : ∀ x, x ∈ scc → ∃ p i, stored m x p i ∧ dm !! x = Some (Some p) ∧ INSTANCE_COMMITTED ≤ i_Status i;
  comp_mutual : ∀ x, x ∈ scc → ∀ y, y ∈ scc ↔ mutual agreed x y;
}.

Lemma annotates_recorded m m' x p i i' :
  annotates m m' → stored m x p i → INSTANCE_COMMITTED ≤ i_Status i →
  m_heap m' !! p = Some i' → ¬ unrecorded i' → recorded m' x.
Proof.
  intros Ha Hs Hst Hp Hr. destruct (annotates_stored _ _ _ _ _ Ha Hs) as (j & Hs' & Hj).
  assert (j = i') as -> by (destruct Hs'; congruence). exists p, i'. split_and!; [done| |done]. by rewrite Hj.
Qed.

Lemma component_annotates m m' dm scc : annotates m m' → component m dm scc → component m' dm scc.
Proof.
  intros Ha [H1 H2 H3]. split; [done| |done]. intros x Hx. destruct (H2 x Hx) as (p & i & Hs & Hd & Hst).
  destruct (annotates_stored _ _ _ _ _ Ha Hs) as (i' & Hs' & Hi). exists p, i'. split_and!; [done..|]. by rewrite Hi.
Qed.

(** What recording components keeps. *)
Record recording (m m' : Manager) : Prop := {
  rec_annotates : annotates m m';
  rec_records : records agreed m → records agreed m';
  rec_recorded : ∀ x, recorded m x → recorded m' x;
}.

#[export] Instance recording_preorder : PreOrder recording.
Proof.
  split; [intros m; split; [reflexivity|done|done]|].
  intros m1 m2 m3 [] []. split; [by etrans|auto|auto].
Qed.

(** One assignment of [setStronglyConnectedIds]. *)
Lemma record_one m dm scc x p i :
  wf m → component m dm scc → x ∈ scc → stored m x p i → INSTANCE_COMMITTED ≤ i_Status i →
  let m' := with_heap (<[p := Instance.setStronglyConnectedIds scc i]> (m_heap m)) m in
  recording m m' ∧ recorded m' x.
Proof.
  intros Hwf [_ _ Hmut] Hin [Hx Hp] Hst m'.
  assert (i_InstanceID i = x) as Hid by (destruct (wf_ptr m Hwf _ _ Hx) as (? & ? & ? & _); by simplify_eq).
  assert (annotates m m') as Ha.
  { split; [done|]. intros q. cbn. rewrite lookup_insert. case_decide as Hq.
    - subst. rewrite Hp. by constructor.
    - destruct (m_heap m !! q) as [[]|]; by constructor. }
  assert (dom (i_StronglyConnected (Instance.setStronglyConnectedIds scc i)) = list_to_set scc) as Hdom
    by apply InstanceIDSet.dom_New.
  assert (¬ unrecorded (Instance.setStronglyConnectedIds scc i)) as Hnew.
  { intros Hu. unfold unrecorded in Hu. rewrite Hu, dom_empty_L in Hdom. set_solver. }
  assert (m_heap m' !! p = Some (Instance.setStronglyConnectedIds scc i)) as Hp' by apply lookup_insert_eq.
  split; [split; [done| |]|].
  - intros R q j Hq Hr. cbn [m' m_heap m_instances with_heap] in Hq |- *. apply lookup_insert_Some in Hq as [[<- <-]|[Hne Hq]]; [|by apply R].
    rewrite Hdom. cbn. rewrite Hid. split; [done|]. intros y. rewrite elem_of_list_to_set. by apply Hmut.
  - intros y (q & j & Hs & Hstj & Hr). destruct (decide (q = p)) as [->|Hne].
    + eapply annotates_recorded; [exact Ha|exact Hs|done..].
    + eapply annotates_recorded; [exact Ha|exact Hs|done| |exact Hr]. cbn. rewrite lookup_insert_ne by done. apply Hs.
  - eapply annotates_recorded; [exact Ha|by split|done|exact Hp'|exact Hnew].
Qed.

Lemma recordSCC_run m dm scc l :
  wf m → component m dm scc → l ⊆ scc →
  ∃ m', for_each (λ iid, p ← deref (mjoin (dm !! iid));
          update p (Instance.setStronglyConnectedIds scc)) l m = (Ok tt, m') ∧
    recording m m' ∧ ∀ x, x ∈ l → recorded m' x.
Proof.
  revert m. induction l as [|x l IH]; intros m Hwf Hc Hl; cbn [for_each].
  { exists m. split_and!; [done|reflexivity|by intros ? ?%elem_of_nil]. }
  destruct (comp_mapped _ _ _ Hc x) as (p & i & Hs & Hd & Hst); [set_solver|]. rewrite Hd.
  unfold mbind at 1, ST_bind at 1. cbn [mjoin option_join deref]. rewrite bind_ret.
  unfold update. rewrite bind_load, (proj2 Hs). unfold store, modify.
  destruct (record_one m dm scc x p i Hwf Hc) as [Hrec Hx]; [set_solver|done..|]. set (m1 := with_heap _ m) in *.
  pose proof (rec_annotates _ _ Hrec) as Ha.
  destruct (IH m1) as (m' & Hrun & Hrec' & Hall); [by eapply annotates_wf|by eapply component_annotates|set_solver|].
  exists m'. split_and!; [done|by etrans|]. intros y [->|Hy]%elem_of_cons; [by apply (rec_recorded _ _ Hrec')|auto].
Qed.

Lemma component_perm m dm scc scc' : scc' ≡ₚ scc → component m dm scc → component m dm scc'.
Proof.
  intros Hp [H1 H2 H3]. split.
  - intros ->. by apply Permutation_nil_l in Hp.
  - intros x. rewrite Hp. apply H2.
  - intros x Hx y. rewrite Hp in Hx |- *. by apply H3.
Qed.

Lemma order_components_run dm tSorted ex m :
  wf m → (∀ scc, scc ∈ tSorted → (1 < length scc)%nat → component m dm scc) →
  ∃ sccs m', order_components dm false tSorted ex m = (Ok (ex ++ concat sccs), m') ∧
    Forall2 arranged tSorted sccs ∧ recording m m' ∧
    ∀ scc x, scc ∈ tSorted → (1 < length scc)%nat → x ∈ scc → recorded m' x.
Proof.
  revert ex m. induction tSorted as [|scc tSorted IH]; intros ex m Hwf Hall; cbn [order_components].
  { exists [], m. rewrite app_nil_r. split_and!; [done|constructor|reflexivity|by intros ? ? ?%elem_of_nil]. }
  destruct (sort_component_spec dm scc m Hwf) as (scc' & Hrun & Harr).
  { intros Hl x Hx. destruct (comp_mapped _ _ _ (Hall scc ltac:(left) Hl) x Hx) as (p & i & ? & ? & _). by exists p, i. }
  rewrite (bind_run _ _ _ _ _ Hrun). pose proof Harr as [Hp _].
  assert (length scc' = length scc) as Hlen by by rewrite Hp.
  assert (∃ m1, (if (1 <? length scc')%nat && negb false then recordSCC dm scc' else mret tt) m = (Ok tt, m1) ∧
    recording m m1 ∧ ((1 < length scc)%nat → ∀ x, x ∈ scc → recorded m1 x)) as (m1 & Hrun1 & Hrec1 & Hx1).
  { rewrite Hlen, andb_true_r. destruct (Nat.ltb_spec 1 (length scc)) as [Hl|Hl].
    - destruct (recordSCC_run m dm scc' scc' Hwf) as (m1 & ? & ? & Hx).
      + eapply component_perm; [exact Hp|]. apply Hall; [left|done].
      + done.
      + exists m1. split_and!; [done..|]. intros _ x. rewrite <- Hp. apply Hx.
    - exists m. split_and!; [done|reflexivity|lia]. }
  rewrite (bind_run _ _ _ _ _ Hrun1). pose proof (rec_annotates _ _ Hrec1) as Ha1.
  destruct (IH (ex ++ scc') m1) as (sccs & m' & Hrun' & Harr' & Hrec' & Hx').
  - by eapply annotates_wf.
  - intros s Hs Hl. eapply component_annotates; [done|]. apply Hall; [by right|done].
  - exists (scc' :: sccs), m'. cbn [concat]. rewrite app_assoc. split_and!; [done|by constructor|by etrans|].
    intros s x [->|Hs]%elem_of_cons Hl Hx; [|by eapply Hx']. by apply (rec_recorded _ _ Hrec'), Hx1.
Qed.

(** With uncommitted instances in the graph, nothing is recorded. *)
Lemma order_components_uncommitted dm tSorted ex :
  preserves (=) (order_components dm true tSorted ex).
Proof.
  assert (∀ p, preserves (=) (load p)) as Hload by (intros p m; by rewrite load_eq).
  assert (∀ l, preserves (=) (sorter dm l)) as Hsort by (induction l; cbn; preserves_tac).
  revert ex. induction tSorted as [|scc tSorted IH]; intros ex; cbn [order_components]; [preserves_tac|].
  apply preserves_bind; [apply _|unfold sort_component; preserves_tac|intros scc'].
  rewrite andb_false_r. preserves_tac.
Qed.

Lemma consistent_recording m m' :
  recording m m' → consistent agreed m →
  consistent agreed m' ∧ ∀ c, chain_ok agreed m c → chain_ok agreed m' c.
Proof.
  intros [Ha R X] [W A R' C O]. pose proof Ha as [E _].
  assert (m_executed m' = m_executed m) as Hx by (by rewrite E).
  split; [split|]; rewrite ?Hx; auto.
  - by eapply annotates_wf.
  - intros x p i' Hs Hst. destruct (annotates_stored_inv _ _ _ _ _ Ha Hs) as (i & Hs' & Hi).
    rewrite Hi in Hst |- *. by apply (A x p i).
  - intros x y ? ? ?. by apply X, (C x).
  - intros c [N I C' O']. split; rewrite ?Hx; auto.
    + intros x Hc. destruct (I x Hc) as (p & i & Hi & Hs & Hst).
      destruct (annotates_stored _ _ _ _ _ Ha Hs) as (i' & Hs' & Hi'). exists p, i'. split_and!; [done..|]. by rewrite Hi'.
    + intros x y ? ? ?. by apply X, (C' x).
Qed.

(** The components that involve executed instances have been recorded. *)
Lemma consistent_linked m x p i d q j :
  consistent agreed m → stored m x p i → stored m d q j → mutual agreed x d → x ≠ d →
  i_Status j = INSTANCE_EXECUTED → d ∈ dom (i_StronglyConnected i) ∧ i_Dependencies j ≠ [].
Proof.
  intros [W A R C _] Hx Hd Hm Hne Hex.
  assert (d ∈ m_executed m) as Hin by (apply (wf_executed m W); by exists q, j).
  assert (in_cycle agreed d) as Hcyc by (exists x; split; [done|by apply mutual_sym]).
  destruct (C d x Hin Hcyc (mutual_sym _ _ _ Hm)) as (p' & i' & Hx' & _ & Hr).
  assert (i' = i) as -> by (destruct Hx, Hx'; congruence). split.
  - destruct (R p i (proj2 Hx) Hr) as [_ Hy]. apply Hy.
    by rewrite (lookup_id m x i W) by (apply lookup_stored; by exists p).
  - destruct (in_cycle_needs _ _ Hcyc) as (z & Hz & _). intros Hnil.
    apply (A d q j Hd) in Hz; [|by rewrite Hex]. rewrite Hnil in Hz. by apply elem_of_nil in Hz.
Qed.

End steps.

(** *** The graph of a committed instance *)

Section complete_graph.
Context {St : Store} {Mo : MapOrder} {Pl : Placement} {Uu : UUIDLib}.
Context (agreed : InstanceID → list InstanceID).
Context (m : Manager) (root : InstanceID) (o : ordering).
Context (Hc : consistent agreed m) (Hb : built m root [] o) (Hcl : closing m (mutual agreed) [] o).
Context (Hun : dom (o_uncommitted o) = ∅).
Abbreviation g := (o_depGraph o).

Lemma graph_committed x ds :
  g !! x = Some ds → ∃ p i, stored m x p i ∧ INSTANCE_COMMITTED ≤ i_Status i ∧ ds = i_Dependencies i.
Proof.
  intros Hx. destruct (built_graph _ _ _ _ Hb _ _ Hx) as (p & i & Hs & ->). exists p, i. split_and!; [done| |done].
  destruct (decide (i_Status i < INSTANCE_COMMITTED)) as [Hlt|]; [exfalso|lia].
  assert (x ∈ dom (o_uncommitted o)) as Hin by (apply (built_uncommitted _ _ _ _ Hb); split; [by eexists|eauto]).
  rewrite Hun in Hin. set_solver.
Qed.

Lemma graph_needs x ds d : g !! x = Some ds → d ∈ ds ↔ needs agreed x d.
Proof. intros (p & i & Hs & Hst & ->)%graph_committed. by apply (cons_agrees _ _ Hc x p i). Qed.

Lemma graph_mutual x y : is_Some (g !! x) → mutual agreed x y → is_Some (g !! y) ∧ rtc (edge g) x y.
Proof.
  intros Hx Hxy. eapply (mutual_path agreed _ (λ x, is_Some (g !! x))); [|done..].
  intros z d [ds Hz] Hzd Hm. apply (graph_needs _ _ _ Hz) in Hzd.
  assert (is_Some (g !! d)) as Hd by (eapply (closing_linked _ _ _ _ Hcl z ds d); [done|set_solver|done..]).
  split; [done|]. by exists ds.
Qed.

Lemma graph_path x y : rtc (edge g) x y → rtc (needs agreed) x y.
Proof. apply rtc_subrel. intros a b (ds & Ha & Hab & _). by apply (graph_needs _ _ _ Ha). Qed.

Lemma graph_component scc :
  is_scc g scc → NoDup scc → (1 < length scc)%nat → component agreed m (o_depMap o) scc.
Proof.
  intros Hscc Hnd Hl. pose proof Hscc as [Hne Hreach].
  assert (∀ x, x ∈ scc → ∃ p i, stored m x p i ∧ o_depMap o !! x = Some (Some p)) as Hmap
    by (intros x Hx; by eapply component_mapped).
  assert (∀ x, x ∈ scc → is_Some (g !! x)) as Hdom.
  { intros x Hx. destruct scc as [|a [|b scc]]; cbn in Hl; [lia..|]. apply NoDup_cons in Hnd as [Hab _].
    assert (∃ y, y ∈ a :: b :: scc ∧ y ≠ x) as (y & Hy & Hyx).
    { destruct (decide (a = x)) as [->|]; [exists b|exists a]; set_solver. }
    destruct (proj1 (Hreach y Hy x) Hx) as [H _]. apply rtc_inv_r in H as [?|(z & _ & ds & _ & _ & ?)]; done. }
  split; [done| |].
  - intros x Hx. destruct (Hmap x Hx) as (p & i & Hs & Hd). destruct (Hdom x Hx) as [ds Hds].
    destruct (graph_committed _ _ Hds) as (p' & i' & Hs' & Hst & _). exists p, i. split_and!; [done..|].
    destruct Hs, Hs'. by simplify_eq.
  - intros x Hx y. rewrite (Hreach x Hx y). split; [intros []; split; by apply graph_path|].
    intros Hm. destruct (graph_mutual x y (Hdom x Hx) Hm) as [Hy Hxy]. split; [done|].
    by apply (graph_mutual y x Hy (mutual_sym _ _ _ Hm)).
Qed.

(** The order that this graph is sorted into. *)
Section sorted.
Context (output sccs : list (list InstanceID)).
Context (Hpart : concat output ≡ₚ (map_to_list g).*1) (Hscc : Forall (is_scc g) output).
Context (Htopo : reverse_topological g output) (Harr : Forall2 arranged output sccs).
Abbreviation ex := (concat sccs).

Lemma sorted_graph x : x ∈ ex ↔ is_Some (g !! x).
Proof. by eapply sorted_dom. Qed.

Lemma sorted_committed x : x ∈ ex → ∃ p i, stored m x p i ∧ INSTANCE_COMMITTED ≤ i_Status i.
Proof. intros [ds Hx]%sorted_graph. destruct (graph_committed _ _ Hx) as (p & i & ? & ? & _). eauto. Qed.

Lemma sorted_depends x d : x ∈ ex → d ∈ ex → needs agreed x d → depends m ex x d.
Proof.
  intros Hx Hd Hxd. split_and!; [done..|]. destruct (sorted_committed x Hx) as (p & i & Hs & Hst).
  exists p, i. split; [done|]. by apply (cons_agrees _ _ Hc x p i).
Qed.

Lemma sorted_path x y : waits_for m ex x y → rtc (needs agreed) x y.
Proof.
  apply rtc_subrel. intros a b (Ha & _ & p & i & Hs & Hab). destruct (sorted_committed a Ha) as (p' & i' & Hs' & Hst).
  apply (cons_agrees _ _ Hc a p' i' Hs' Hst). destruct Hs, Hs'. by simplify_eq.
Qed.

Lemma sorted_cycle_waits x y : x ∈ ex → mutual agreed x y → y ∈ ex ∧ waits_for m ex x y.
Proof.
  intros Hx Hxy. apply (mutual_path agreed _ (λ z, z ∈ ex)); [|done..].
  intros z d Hz Hzd Hm. assert (d ∈ ex) as Hd; [|split; [done|by apply sorted_depends]].
  apply sorted_graph. apply sorted_graph in Hz. by apply (graph_mutual z).
Qed.

Lemma sorted_cycle x : x ∈ ex → in_cycle agreed x → ∃ scc, scc ∈ output ∧ (1 < length scc)%nat ∧ x ∈ scc.
Proof.
  intros Hx (z & Hne & Hxz). destruct (sorted_component _ _ Harr x Hx) as (k & c & c' & Hk & _ & _ & Hxc).
  assert (c ∈ output) as Hin by by eapply list_elem_of_lookup_2. exists c. split_and!; [done| |done].
  rewrite Forall_forall in Hscc. assert (z ∈ c) as Hzc.
  { apply (proj2 (Hscc c Hin) x Hxc z). apply sorted_graph in Hx. destruct (graph_mutual x z Hx Hxz) as [Hz ?].
    split; [done|]. by apply (graph_mutual z x Hz), mutual_sym. }
  destruct c as [|a [|b c]]; cbn; [by apply elem_of_nil in Hxc| |lia].
  apply list_elem_of_singleton in Hxc, Hzc. by subst.
Qed.

Lemma sorted_goes_first x y : y ∈ ex → goes_first agreed x y → x ∈ m_executed m ∨ precedes ex x y.
Proof.
  pose proof (execution_order_sorted m root o output sccs (cons_wf _ _ Hc) Hb Hpart Hscc Htopo Harr) as Ho.
  intros Hy [(z & Hyz & Hzx & Hn)|[Hm He]].
  - destruct (sorted_cycle_waits y z Hy Hyz) as [Hz Hwz]. destruct (order_complete _ _ _ _ Ho z Hz) as (p & i & Hs & Hds).
    destruct (Hds x) as [Hx|]; [|right|by left].
    { apply (cons_agrees _ _ Hc z p i Hs); [|done]. destruct (sorted_committed z Hz) as (p' & i' & Hs' & ?).
      destruct Hs, Hs'. by simplify_eq. }
    destruct (order_before _ _ _ _ Ho y x Hy Hx) as [Hw|]; [|by destruct Hn; apply sorted_path|done].
    eapply rtc_r; [exact Hwz|by apply sorted_depends].
  - right. destruct (sorted_cycle_waits y x Hy (mutual_sym _ _ _ Hm)) as [Hx Hyx].
    destruct (sorted_cycle_waits x y Hx Hm) as [_ Hxy]. assert (x ≠ y) as Hne by (intros ->; by apply (earlier_asym y y)).
    destruct (precedes_total ex x y Hx Hy Hne) as [?|Hp]; [done|]. by destruct (order_mutual _ _ _ _ Ho y x Hp Hyx Hxy).
Qed.

(** The chain that is started with it. *)
Lemma graph_chain m' t :
  recording agreed m m' → (∀ scc x, scc ∈ output → (1 < length scc)%nat → x ∈ scc → recorded m' x) →
  chain_ok agreed m' (start_chain ex t m').
Proof.
  intros Hrec Hall. pose proof (rec_annotates _ _ _ Hrec) as Ha. pose proof Ha as [E _]. split; cbn.
  - eapply order_NoDup, execution_order_sorted; [apply (cons_wf _ _ Hc)|exact Hb|done..].
  - intros x Hx. rewrite lookup_GetMap, decide_True by done. destruct (sorted_committed x Hx) as (p & i & Hs & Hst).
    destruct (annotates_stored _ _ _ _ _ Ha Hs) as (i' & Hs' & Hi'). exists p, i'.
    split_and!; [by rewrite (proj1 Hs')|done|by rewrite Hi'].
  - intros x y Hx Hcyc Hxy. destruct (sorted_cycle_waits x y Hx Hxy) as [Hy _].
    destruct (sorted_cycle y Hy (in_cycle_mutual _ _ _ Hcyc Hxy)) as (scc & ? & ? & ?). by apply (Hall scc).
  - intros x y Hy Hxy. assert (m_executed m' = m_executed m) as -> by (by rewrite E). by apply sorted_goes_first.
Qed.

End sorted.

End complete_graph.

Section order_step.
Context {St : Store} {Mo : MapOrder} {Pl : Placement} {Uu : UUIDLib}.
Context (agreed : InstanceID → list InstanceID).

Lemma check_known_state dm ex : preserves (=) (check_known dm ex).
Proof. induction ex as [|x ex IH]; cbn [check_known]; unfold instances_Get; preserves_tac. Qed.

(** What is left of [getExecutionOrder] when the graph has been built. *)
Lemma order_built_run m o iid r m' :
  consistent agreed m → built m iid [] o → closing m (mutual agreed) [] o →
  (tSorted ← deref (tarjanConnect (o_depGraph o));
   exOrder ← order_components (o_depMap o) (bool_decide (InstanceIDSet.Size (o_uncommitted o) > 0)) tSorted [];
   _ ← check_known (o_depMap o) exOrder;
   mret (exOrder, InstanceIDSet.List (o_uncommitted o)) : ST Manager error _) m = (r, m') →
  (m' = m ∧ ∀ ex, r ≠ Ok (ex, [])) ∨
  ∃ ex, r = Ok (ex, []) ∧ recording agreed m m' ∧ chain_ok agreed m' (start_chain ex iid m').
Proof.
  intros Hc Hb Hcl. destruct (tarjanConnect_correct (o_depGraph o)) as (output & Ht & Hpart & Hscc & Htopo).
  rewrite Ht. cbn [deref]. rewrite bind_ret.
  destruct (decide (dom (o_uncommitted o) = ∅)) as [Hun|Hun].
  - assert (InstanceIDSet.Size (o_uncommitted o) = 0%nat) as Hsz.
    { unfold InstanceIDSet.Size. apply dom_empty_inv_L in Hun. by rewrite Hun, map_size_empty. }
    rewrite Hsz, bool_decide_false by done.
    destruct (order_components_run agreed (o_depMap o) output [] m (cons_wf _ _ Hc)) as
      (sccs & m1 & Hrun & Harr & Hrec & Hall).
    { intros scc Hin Hl. rewrite Forall_forall in Hscc. apply (graph_component agreed m iid); try done; [by apply Hscc|].
      assert (NoDup (concat output)) as Hnd by (rewrite Hpart; apply NoDup_fst_map_to_list).
      by eapply NoDup_concat_in. }
    rewrite (bind_run _ _ _ _ _ Hrun). cbn [app].
    erewrite bind_run; [|apply check_known_ok].
    2: { intros x [ds Hx]%(sorted_dom _ _ _ Hpart Harr). destruct (built_graph _ _ _ _ Hb _ _ Hx) as (p & i & [Hp _] & _).
         destruct (rec_annotates _ _ _ Hrec) as [-> _]. by exists p. }
    intros [= <- <-]. right. exists (concat sccs). split_and!; [|done|by eapply graph_chain].
    destruct (InstanceIDSet.List (o_uncommitted o)) as [|x l] eqn:Hl; [done|].
    assert (x ∈ dom (o_uncommitted o)) as Hx by (rewrite <- InstanceIDSet.elem_of_List, Hl; left). rewrite Hun in Hx. set_solver.
  - intros Hrun. left. assert (InstanceIDSet.Size (o_uncommitted o) ≠ 0%nat) as Hsz.
    { unfold InstanceIDSet.Size. intros Hz%map_size_empty_inv. apply Hun. rewrite Hz. apply dom_empty_L. }
    rewrite bool_decide_true in Hrun by (unfold InstanceIDSet.Size in *; lia). split.
    + pose proof order_components_uncommitted as H1. pose proof check_known_state as H2.
      match type of Hrun with ?op m = _ => assert (preserves (=) op) as Hp by preserves_tac end.
      specialize (Hp m). by rewrite Hrun in Hp.
    + intros ex ->. st_inv. apply Hun. apply set_eq. intros x. rewrite <- InstanceIDSet.elem_of_List.
      match goal with H : _ = [] |- _ => rewrite H end. set_solver.
Qed.

Lemma order_run m iid p i r m' :
  consistent agreed m → stored m iid p i → getExecutionOrder p m = (r, m') →
  (m' = m ∧ ∀ ex, r ≠ Ok (ex, [])) ∨
  ∃ ex, r = Ok (ex, []) ∧ recording agreed m m' ∧ chain_ok agreed m' (start_chain ex iid m').
Proof.
  intros Hc Hs. unfold getExecutionOrder. rewrite bind_load, (proj2 Hs), bind_gets.
  set (o0 := mkOrdering _ ∅ ∅ ∅).
  assert (built m iid [] o0) as Hb0.
  { apply (built_map_deps m iid [] (mkOrdering ∅ ∅ ∅ ∅)). split; cbn; try done.
    { by intros x []. }
    intros x. rewrite lookup_empty, dom_empty_L. split; [set_solver|by intros [[] _]]. }
  assert (closing m (mutual agreed) [] o0) as Hcl0 by (split; cbn; [by intros x ? ? []|done]).
  destruct (addInstance (S (S (size (m_instances m)))) (InstanceIDSet.NewInstanceIDSet (i_Dependencies i)) p o0 m)
    as [ro m1] eqn:Hadd. rewrite (bind_eval _ _ _ _ _ Hadd).
  destruct (addInstance_run m iid (cons_wf _ _ Hc) (mutual agreed)
    (λ x p i d q j, consistent_linked agreed m x p i d q j Hc) (S (S (size (m_instances m))))
    (InstanceIDSet.NewInstanceIDSet (i_Dependencies i)) [] p iid i o0 ro m1 Hs) as [-> Ho]; [done..|].
  destruct ro as [o|e|]; [|by intros [= <- <-]; left..].
  destruct (Ho o eq_refl) as (Hb & Hcl & _). by apply order_built_run.
Qed.

End order_step.

(** ** Interleavings *)

Section interleaving.
Context {St : Store} {Mo : MapOrder} {Pl : Placement} {Uu : UUIDLib}.
Abbreviation M := (ST Manager error).

(** What the goroutines of a replica do between their waits, other than
    answering messages and executing. *)
Inductive local_action : ∀ {A}, M A → Prop :=
  | act_clock now : local_action (modify (with_now now))
  | act_alloc i : unrecorded i → local_action (alloc i)
  | act_send msg replicas : local_action (send msg replicas)
  | act_getOrSet p : local_action (getOrSetInstance p)
  | act_preAccept p incr : local_action (preAcceptInstance p incr)
  | act_accept p incr : local_action (acceptInstance p incr)
  | act_commit p incr : local_action (commitInstance p incr)
  | act_addMissing l : Forall unrecorded l → local_action (addMissing l)
  | act_merge p responses changes : local_action (mergePreAcceptAttributes p responses changes)
  | act_updateBallot p ballot : local_action (update p (λ i, (Instance.updateBallot ballot i).1))
  | act_incrementBallot p : local_action (update p (λ i, (Instance.incrementBallot i).1))
  | act_choose p responses : Forall unrecorded (known responses) →
      local_action (choosePrepareInstance p responses).

(** A replica and its goroutines in [executeDependencyChain].  An order is computed
    in one piece, and either a chain started with it or not; a chain makes a pass, after which
    it goes on or ends.  A chain may also stop before a pass: the status that it
    reads may be out of date by the time [applyInstance] holds the lock and reads
    it again, and the loop is then left early when the target has been executed
    in between.  Each of these steps is a sequence of steps of [Interleaved]
    ([undisturbed_reached]). *)
Inductive chain_step : Manager * list chain → Manager * list chain → Prop :=
  | go_order p iid i r m m' cs :
      stored m iid p i → getExecutionOrder p m = (r, m') → (∀ ex, r ≠ Ok (ex, [])) →
      chain_step (m, cs) (m', cs)
  | go_start p iid i ex m m' cs :
      stored m iid p i → getExecutionOrder p m = (Ok (ex, []), m') →
      chain_step (m, cs) (m', start_chain ex iid m' :: cs)
  | go_pass c c' m m' cs cs' :
      chain_pass c m = (Ok (Some c'), m') → chain_step (m, cs ++ c :: cs') (m', cs ++ c' :: cs')
  | go_end c r m m' cs cs' :
      chain_pass c m = (r, m') → (∀ c', r ≠ Ok (Some c')) → chain_step (m, cs ++ c :: cs') (m', cs ++ cs')
  | go_quit c m cs cs' : chain_step (m, cs ++ c :: cs') (m, cs ++ cs').

(** Besides, messages are answered and other goroutines act. *)
Inductive exec_step : Manager * list chain → Manager * list chain → Prop :=
  | step_message msg m cs :
      clean_message msg → exec_step (m, cs) ((HandleMessage msg m).2, cs)
  | step_local {A} (op : M A) m cs :
      local_action op → exec_step (m, cs) ((op m).2, cs)
  | step_chain x y : chain_step x y → exec_step x y.

Lemma preserves_choosePrepare_quiet p responses :
  Forall unrecorded (known responses) → preserves quiet (choosePrepareInstance p responses).
Proof.
  intros Hr m. unfold choosePrepareInstance. rewrite bind_load. destruct (m_heap m !! p) as [i|] eqn:Hp; [|reflexivity].
  destruct (analyzePrepareResponses responses) as [r|] eqn:Ha.
  - case_decide; [reflexivity|]. assert (unrecorded r) as Hu.
    { rewrite Forall_forall in Hr. apply Hr. by apply analyzePrepareResponses_in. }
    apply preserves_bind; [apply _|by apply quiet_alloc|intros; apply preserves_ret, _].
  - case_decide; [|reflexivity]. apply preserves_bind_dep; [apply _| |reflexivity]. by eapply quiet_store.
Qed.

Lemma local_action_quiet {A} (op : M A) :
  local_action op → preserves (grows any_ballot) op ∧ preserves quiet op.
Proof.
  intros [now|i|msg l|p|p incr|p incr|p incr|l|p rs c|p b|p|p rs]; split.
  - by apply preserves_frame.
  - by apply preserves_quiet_frame.
  - apply preserves_alloc, _.
  - by apply quiet_alloc.
  - apply preserves_send, _.
  - apply quiet_send.
  - by apply preserves_getOrSetInstance.
  - apply quiet_getOrSetInstance.
  - by apply preserves_preAcceptInstance.
  - apply quiet_preAcceptInstance.
  - by apply preserves_acceptInstance.
  - apply quiet_acceptInstance.
  - by apply preserves_commitInstance.
  - apply quiet_commitInstance.
  - by apply preserves_addMissing.
  - by apply quiet_addMissing.
  - by apply preserves_mergePreAcceptAttributes.
  - apply quiet_mergePreAcceptAttributes.
  - by apply preserves_updateBallot.
  - apply quiet_updateBallot.
  - apply preserves_update; [apply _|by split|done].
  - by apply quiet_update.
  - by apply preserves_choosePrepareInstance.
  - by apply preserves_choosePrepare_quiet.
Qed.

Context (agreed : InstanceID → list InstanceID).

(** Steps after which nothing is committed other than as agreed. *)
Definition agreeing_step (x y : Manager * list chain) : Prop := exec_step x y ∧ agrees agreed y.1.

Definition all_ok (x : Manager * list chain) : Prop :=
  consistent agreed x.1 ∧ Forall (chain_ok agreed x.1) x.2.

Lemma all_ok_quiet m m' cs :
  all_ok (m, cs) → grows any_ballot m m' → quiet m m' → agrees agreed m' → all_ok (m', cs).
Proof.
  intros [Hc Hcs] Hg Hq Ha. split; [by eapply consistent_quiet|].
  eapply Forall_impl; [exact Hcs|]. intros c Hok. by eapply chain_ok_quiet; [apply Hc|..].
Qed.

Lemma all_ok_chain x y : all_ok x → chain_step x y → all_ok y.
Proof.
  intros [Hc Hcs] Hstep. destruct Hstep as [p iid i r m m' cs Hs Ho Hr|p iid i ex m m' cs Hs Ho|c c' m m' cs cs' Hp
    |c r m m' cs cs' Hp Hr|c m cs cs']; cbn in Hc, Hcs; try (apply Forall_app in Hcs as [H1 [Hcok H2]%Forall_cons]).
  - destruct (order_run agreed m iid p i r m' Hc Hs Ho) as [[-> _]|(ex & -> & _)]; [done|]. by destruct (Hr ex).
  - destruct (order_run agreed m iid p i _ m' Hc Hs Ho) as [[_ Hn]|(ex' & [= <-] & Hrec & Hnew)];
      [by destruct (Hn ex)|]. destruct (consistent_recording agreed m m' Hrec Hc) as [Hc' Hoth].
    split; [done|]. constructor; [done|]. eapply Forall_impl; [exact Hcs|]. auto.
  - destruct (pass_ok agreed m c _ m' Hc Hcok Hp) as (Hc' & Hoth & Hnew).
    split; [done|]. apply Forall_app. split; [by eapply Forall_impl|]. constructor; [auto|by eapply Forall_impl].
  - destruct (pass_ok agreed m c _ m' Hc Hcok Hp) as (Hc' & Hoth & _).
    split; [done|]. apply Forall_app. split; by eapply Forall_impl.
  - split; [done|]. by apply Forall_app.
Qed.

Lemma all_ok_step x y : all_ok x → agreeing_step x y → all_ok y.
Proof.
  intros Hok [Hstep Ha]. destruct Hstep as [msg m cs Hm|A op m cs Hop|x y Hch]; [| |by eapply all_ok_chain].
  - apply (all_ok_quiet m); [done| |by apply quiet_HandleMessage|done]. by apply preserves_HandleMessage.
  - destruct (local_action_quiet op Hop) as [H1 H2]. by apply (all_ok_quiet m).
Qed.

Lemma all_ok_NewManager s now : all_ok (NewManager s now, []).
Proof.
  split; [|constructor]. split; cbn; [apply wf_NewManager|..].
  - intros x p i [H _]. done.
  - intros p i H. done.
  - by intros x y ?%elem_of_nil.
  - by intros x y ?%elem_of_nil.
Qed.

(** Every state that is reached. *)
Lemma reached_ok s now x : rtc agreeing_step (NewManager s now, []) x → all_ok x.
Proof.
  intros H. assert (all_ok (NewManager s now, [])) as H0 by apply all_ok_NewManager. revert H0.
  induction H as [|x y z Hxy _ IH]; [done|]. intros Hx. apply IH. by eapply all_ok_step.
Qed.

(** C25. Orders that are computed undisturbed respect cycles.  Let a replica start
    empty, and let its goroutines answer messages, run the phases, compute
    orders at any time and execute them one instance at a time, in any
    interleaving in which nothing else happens while an order is computed, with
    store errors and panics ending some of them.  As long as everything it
    commits has the dependencies [agreed], a command is executed only after the
    dependencies of its cycle that do not depend on it in turn, and, of the
    commands on its cycle, after those with an earlier id, however many
    others they depend on each other through.  So the components that are recorded
    make up for the instances that are left out of a graph because they have been
    executed; that they do not when orders are computed at the same time is shown in
    [Interleaved]. *)
Theorem undisturbed_execution_ordered s now m cs x y :
  rtc agreeing_step (NewManager s now, []) (m, cs) →
  y ∈ m_executed m → goes_first agreed x y → precedes (m_executed m) x y.
Proof. intros [Hc _]%reached_ok. apply (cons_order _ _ Hc). Qed.

End interleaving.

(** ** Schedules *)

(** One choice of a scheduler: deliver a message, compute an order for an
    instance and start a chain if nothing is uncommitted, let a chain make a
    pass. *)
Inductive choice :=
  | Deliver (msg : Message)
  | Order (iid : InstanceID)
  | Pass (n : nat).

Section schedules.
Context {St : Store} {Mo : MapOrder} {Pl : Placement} {Uu : UUIDLib}.

Definition perform (a : choice) (x : Manager * list chain) : option (Manager * list chain) :=
  let '(m, cs) := x in
  match a with
  | Deliver msg => Some ((HandleMessage msg m).2, cs)
  | Order iid =>
      p ← m_instances m !! iid;
      i ← m_heap m !! p;
      match getExecutionOrder p m with
      | (Ok (ex, []), m') => Some (m', start_chain ex iid m' :: cs)
      | (_, m') => Some (m', cs)
      end
  | Pass n =>
      c ← cs !! n;
      match chain_pass c m with
      | (Ok (Some c'), m') => Some (m', <[n := c']> cs)
      | (_, m') => Some (m', delete n cs)
      end
  end.

Definition clean_choice (a : choice) : Prop :=
  match a with Deliver msg => clean_message msg | _ => True end.

Lemma perform_chain a x y :
  match a with Deliver _ => False | _ => True end → perform a x = Some y → chain_step x y.
Proof.
  destruct x as [m cs], a as [msg|iid|n]; cbn; intros Hc H; [done|..].
  - destruct (m_instances m !! iid) as [p|] eqn:Hp; [|done]. cbn in H.
    destruct (m_heap m !! p) as [i|] eqn:Hi; [|done]. cbn in H.
    destruct (getExecutionOrder p m) as [r m'] eqn:Ho.
    destruct r as [[ex [|u un]]| |]; simplify_eq; [by eapply go_start|by eapply go_order..].
  - destruct (cs !! n) as [c|] eqn:Hn; [|done]. cbn in H. destruct (chain_pass c m) as [r m'] eqn:Hp.
    pose proof (take_drop_middle cs n c Hn) as Hcs. rewrite delete_take_drop in H.
    destruct r as [[c'|]| |]; simplify_eq; rewrite <- Hcs at 1; try by eapply go_end.
    rewrite insert_take_drop by (by eapply lookup_lt_Some). by eapply go_pass.
Qed.

Lemma perform_step a x y : clean_choice a → perform a x = Some y → exec_step x y.
Proof.
  intros Hc H. destruct a as [msg|iid|n]; [|by apply step_chain, (perform_chain (Order iid))|
    by apply step_chain, (perform_chain (Pass n))].
  destruct x as [m cs]. cbn in H. simplify_eq. by apply step_message.
Qed.

(** The states a schedule goes through, as long as each satisfies [ok]. *)
Fixpoint play (ok : Manager → bool) (l : list choice) (x : Manager * list chain) :
    option (Manager * list chain) :=
  match l with
  | [] => Some x
  | a :: l => y ← perform a x; if ok y.1 then play ok l y else None
  end.

Lemma play_steps (P : Manager → Prop) ok l x y :
  (∀ m, ok m = true → P m) → Forall clean_choice l → play ok l x = Some y →
  rtc (λ x y, exec_step x y ∧ P y.1) x y.
Proof.
  intros Hok Hc. revert x. induction Hc as [|a l Ha _ IH]; intros x; cbn; [intros [= <-]; apply rtc_refl|].
  destruct (perform a x) as [z|] eqn:Hp; [|done]. cbn. destruct (ok z.1) eqn:Hz; [|done]. intros H.
  eapply rtc_l; [|by apply IH]. split; [by apply (perform_step a)|by apply Hok].
Qed.

(** Whether a replica has committed what has been agreed, to the letter. *)
Definition agreeing (agreed : InstanceID → list InstanceID) (m : Manager) : bool :=
  forallb (λ '(x, p), match m_heap m !! p with
    | Some i => bool_decide (i_Status i < INSTANCE_COMMITTED ∨ i_Dependencies i = agreed x)
    | None => true
    end) (map_to_list (m_instances m)).

Lemma agreeing_agrees agreed m : agreeing agreed m = true → agrees agreed m.
Proof.
  unfold agreeing. rewrite forallb_forall. intros H x p i [Hx Hp] Hs d.
  apply elem_of_map_to_list, list_elem_of_In in Hx. specialize (H _ Hx). cbn in H. rewrite Hp in H.
  apply bool_decide_eq_true in H as [H| ->]; [lia|done].
Qed.

End schedules.

Section examples.
#[local] Existing Instances LogStore example_placement example_uuid.

(** 1 and 2 depend on each other, 3 on 1. *)
Definition example_agreed (x : InstanceID) : list InstanceID :=
  if decide (x = mkB16 0 1) then [mkB16 0 2]
  else if decide (x = mkB16 0 2) then [mkB16 0 1]
  else if decide (x = mkB16 0 3) then [mkB16 0 1] else [].

Definition example_commit (n : Z) : choice :=
  Deliver (MCommitRequest (mkCommitRequest (example_request n 1 3 (example_agreed (mkB16 0 n))))).

(** Two chains at once. *)
Definition example_schedule1 : list choice :=
  [example_commit 1; example_commit 2; example_commit 3; Order (mkB16 0 3); Order (mkB16 0 2);
   Pass 1; Pass 0; Pass 1; Pass 0; Pass 0; Pass 0].
Definition example_played (Mo : MapOrder) (l : list choice) : Manager * list chain :=
  default (example_empty, []) (play (agreeing example_agreed) l (example_empty, [])).

Lemma example_schedule_clean : Forall clean_choice example_schedule1.
Proof. by repeat constructor. Qed.

Lemma example_played_reached (Mo : MapOrder) l y :
  Forall clean_choice l → play (agreeing example_agreed) l (example_empty, []) = Some y →
  rtc (agreeing_step example_agreed) (example_empty, []) y.
Proof. apply play_steps, agreeing_agrees. Qed.

Lemma example_reached1 :
  let x := example_played MapOrder_id example_schedule1 in
  rtc (agreeing_step (Mo := MapOrder_id) example_agreed) (example_empty, []) (x.1, x.2).
Proof.
  apply (example_played_reached MapOrder_id example_schedule1);
    [exact example_schedule_clean|vm_compute; reflexivity].
Qed.

Lemma undisturbed_execution_ordered_witness :
  precedes (m_executed (example_played MapOrder_id example_schedule1).1) (mkB16 0 1) (mkB16 0 2).
Proof.
  apply (undisturbed_execution_ordered (Mo := MapOrder_id) example_agreed ([] : @store_state LogStore) Time_zero _
    (example_played MapOrder_id example_schedule1).2).
  - exact example_reached1.
  - vm_compute. right. left.
  - right. split; [split; apply rtc_once; left|]. vm_compute. auto.
Defined.

(** 1, 2 and 3 form a cycle, 4 depends on 1 and 5 on 4. *)
Definition cycle_agreed (x : InstanceID) : list InstanceID :=
  if decide (x = mkB16 0 1) then [mkB16 0 2]
  else if decide (x = mkB16 0 2) then [mkB16 0 3]
  else if decide (x = mkB16 0 3) then [mkB16 0 1]
  else if decide (x = mkB16 0 4) then [mkB16 0 1]
  else if decide (x = mkB16 0 5) then [mkB16 0 4] else [].

Definition cycle_commits : list choice :=
  (λ n, Deliver (MCommitRequest (mkCommitRequest (example_request n 1 3 (cycle_agreed (mkB16 0 n)))))) <$> [1; 2; 3; 4; 5].

(** One goroutine executes everything up to 5; or a goroutine has executed 1 and 2
    on its way to 3 when another starts for 5. *)
Definition cycle_alone : list choice := cycle_commits ++ [Order (mkB16 0 5); Pass 0; Pass 0; Pass 0; Pass 0; Pass 0].
Definition cycle_overtaken : list choice :=
  cycle_commits ++ [Order (mkB16 0 3); Pass 0; Pass 0; Order (mkB16 0 5); Pass 0; Pass 0; Pass 0].

Lemma cycle_reached l ids :
  Forall clean_choice l →
  (m_executed ∘ fst <$> play (Mo := MapOrder_id) (agreeing cycle_agreed) l (example_empty, [])) = Some ids →
  ∃ m cs, rtc (agreeing_step (Mo := MapOrder_id) cycle_agreed) (example_empty, []) (m, cs) ∧ m_executed m = ids.
Proof.
  intros Hc. destruct (play _ _ _) as [[m cs]|] eqn:Hp; [|done]. intros [= <-]. exists m, cs.
  split; [|done]. by apply (play_steps (Mo := MapOrder_id) _ _ l _ _ (agreeing_agrees cycle_agreed)).
Qed.

(** C9. Indirect dependencies can be overtaken.  Two replicas commit the same five
    commands with the same dependencies: 5 depends on 4, 4 on 1, and 1, 2 and 3
    on each other in a cycle.  One of them executes 3 before 4, which depends on
    it through 1 and 2; the other executes 4 before 3.  There the order for 5 is
    computed while 1 and 2, but not 3, have been executed: 1 is not a dependency
    of 5 itself and its own dependency 2 is executed, so it is left out of the
    graph, and with it what remains of the cycle. *)
Theorem indirect_dependency_overtaken :
  ∃ m1 cs1 m2 cs2,
    rtc (agreeing_step (Mo := MapOrder_id) cycle_agreed) (example_empty, []) (m1, cs1) ∧
    rtc (agreeing_step (Mo := MapOrder_id) cycle_agreed) (example_empty, []) (m2, cs2) ∧
    m_executed m1 ≡ₚ m_executed m2 ∧
    rtc (needs cycle_agreed) (mkB16 0 4) (mkB16 0 3) ∧ ¬ rtc (needs cycle_agreed) (mkB16 0 3) (mkB16 0 4) ∧
    precedes (m_executed m1) (mkB16 0 3) (mkB16 0 4) ∧ precedes (m_executed m2) (mkB16 0 4) (mkB16 0 3).
Proof.
  destruct (cycle_reached cycle_alone (mkB16 0 <$> [1; 2; 3; 4; 5])) as (m1 & cs1 & H1 & E1);
    [by repeat constructor|vm_compute; reflexivity|].
  destruct (cycle_reached cycle_overtaken (mkB16 0 <$> [1; 2; 4; 5; 3])) as (m2 & cs2 & H2 & E2);
    [by repeat constructor|vm_compute; reflexivity|].
  exists m1, cs1, m2, cs2. rewrite E1, E2. split_and!; [done|done| | | | |].
  - apply (bool_decide_eq_true_1 _). vm_compute. reflexivity.
  - do 2 (eapply rtc_l; [left|]). eapply rtc_once. left.
  - intros H. assert (mkB16 0 4 ∈ mkB16 0 <$> [1; 2; 3]) as Hin; [|by vm_compute in Hin; set_solver].
    revert H. assert (mkB16 0 3 ∈ mkB16 0 <$> [1; 2; 3]) as Hin by set_solver. revert Hin.
    generalize (mkB16 0 3), (mkB16 0 4). intros x y Hx H. induction H as [|x z y Hxz _ IH]; [done|]. apply IH.
    revert Hxz. cbn in Hx |- *. rewrite !elem_of_cons, elem_of_nil in Hx.
    destruct Hx as [-> | [-> | [-> | []]]]; vm_compute; set_solver.
  - apply (precedes_app [mkB16 0 1; mkB16 0 2; mkB16 0 3] [mkB16 0 4; mkB16 0 5]); set_solver.
  - apply (precedes_app [mkB16 0 1; mkB16 0 2; mkB16 0 4; mkB16 0 5] [mkB16 0 3]); set_solver.
Qed.

End examples.
