(* ===== verification/Interleaved.v ===== *)
(** * Goroutines, lock by lock

    [getExecutionOrder] of [src/consensus/manager_execute.go] holds no lock for
    long: it locks one instance, or the map of instances, at a time, and between
    two of these short sections other goroutines record components, execute
    instances and answer messages.  Here the functions of the execute phase are
    programs whose actions are these sections.  Run in one piece they are the
    functions of [Execute]; interleaved in every way they still execute a command
    after the dependencies that it has been committed with, unless these depend on
    it in turn through others. *)

From S2P Require Import Prelude Bytes Types GoTime Serializer Instruction Containers.
From S2P Require Import Instance Dependencies Messages Manager Invariant Prepare Handlers.
From S2P Require Import Tarjan Execute Order Execution Leader Replica Frame Components Concurrent.

(** ** Programs *)

Section programs.
Context {St : Store}.
Abbreviation M := (ST Manager error).

(** What is left of a goroutine: it has returned, or it is about to do [op] and
    goes on with the result.  An error or a panic of [op] is its own. *)
Inductive prog (A : Type) : Type :=
  | Halt (r : res error A)
  | Act {B : Type} (op : M B) (k : B → prog A).
Arguments Halt {A} r.
Arguments Act {A B} op k.

#[export] Instance prog_ret : MRet prog := λ A a, Halt (Ok a).

#[export] Instance prog_bind : MBind prog := λ A B f,
  fix bind p :=
    match p with
    | Halt (Ok a) => f a
    | Halt (Fail e) => Halt (Fail e)
    | Halt Panic => Halt Panic
    | Act op k => Act op (λ b, bind (k b))
    end.

Definition act {A} (op : M A) : prog A := Act op mret.

(** The next action. *)
Definition advance {A} (g : prog A) (m : Manager) : prog A * Manager :=
  match g with
  | Halt r => (Halt r, m)
  | Act op k =>
      match op m with
      | (Ok b, m') => (k b, m')
      | (Fail e, m') => (Halt (Fail e), m')
      | (Panic, m') => (Halt Panic, m')
      end
  end.

(** All of them in one piece. *)
Fixpoint run_program {A} (g : prog A) : M A :=
  match g with
  | Halt r => lift r
  | Act op k => b ← op; run_program (k b)
  end.

Lemma run_bind {A B} (g : prog A) (f : A → prog B) m :
  run_program (g ≫= f) m = (a ← run_program g; run_program (f a)) m.
Proof.
  revert m. induction g as [[a|e|]|C op k IH]; intros m; try done.
  cbn. unfold mbind at 1 3 4, ST_bind. destruct (op m) as [[c|e|] m']; [|done..]. apply IH.
Qed.

Lemma run_act {A} (op : M A) m : run_program (act op) m = op m.
Proof. cbn. unfold mbind, ST_bind. by destruct (op m) as [[a|e|] m']. Qed.

End programs.

Arguments Halt {St A} r.
Arguments Act {St A B} op k.

(** ** The execute phase *)

Section execute_programs.
Context {St : Store} {Mo : MapOrder} {Uu : UUIDLib}.
Abbreviation M := (ST Manager error).

(** A nil pointer panics. *)
Definition pointer (o : option ptr) : prog ptr := Halt (match o with Some p => Ok p | None => Panic end).

(** [getStatus] of every dependency of an executed instance. *)
Fixpoint is_connected_program (targetDepSet : InstanceIDSet) (o : ordering) (iid : InstanceID)
    (deps : list InstanceID) (connected : bool) : prog bool :=
  match deps with
  | [] => mret connected
  | dep :: deps =>
      let exists_ := bool_decide (is_Some (o_depGraph o !! dep)) in
      status ← act (dep_status (o_depMap o) dep);
      let notExecuted := bool_decide (status < INSTANCE_EXECUTED) in
      let targetDep := InstanceIDSet.Contains targetDepSet dep in
      let required := InstanceIDSet.Contains (o_required o) iid in
      is_connected_program targetDepSet o iid deps (connected || exists_ || notExecuted || targetDep || required)
  end.

Fixpoint add_deps_program (rec : ptr → ordering → prog ordering) (deps : list InstanceID) (o : ordering) :
    prog ordering :=
  match deps with
  | [] => mret o
  | iid :: deps =>
      if decide (is_Some (o_depGraph o !! iid)) then add_deps_program rec deps o
      else
        match mjoin (o_depMap o !! iid) with
        | None => Halt (Fail (Errorf "getExecutionOrder: Unknown instance id"))
        | Some inst => o ← rec inst o; add_deps_program rec deps o
        end
  end.

(** The dependencies, the status and the component of the instance are read
    under its lock; then the lock of the map is taken.  [fuel] bounds the depth of the
    calls, which is not bounded by the number of instances there are in the
    beginning, since others may be added: what follows holds for every [fuel]. *)
Fixpoint addInstance_program (fuel : nat) (targetDepSet : InstanceIDSet) (inst : ptr) (o : ordering) :
    prog ordering :=
  match fuel with
  | O => Halt Panic
  | S fuel =>
      i ← act (load inst);
      let deps := i_Dependencies i in
      let status := i_Status i in
      imap ← act (gets (λ m, InstanceMap.GetMap (o_depMap o) deps (m_instances m)));
      let o := mkOrdering imap (o_depGraph o) (o_uncommitted o) (o_required o) in
      connected ← (if decide (status = INSTANCE_EXECUTED) then
                     if negb (InstanceIDSet.Contains targetDepSet (i_InstanceID i))
                     then is_connected_program targetDepSet o (i_InstanceID i) deps false
                     else mret true
                   else mret true);
      if negb connected then mret o else
      let uncommitted := if decide (status < INSTANCE_COMMITTED)
                         then InstanceIDSet.Add (o_uncommitted o) [i_InstanceID i] else o_uncommitted o in
      let required := InstanceIDSet.Combine (o_required o) [i_StronglyConnected i] in
      add_deps_program (addInstance_program fuel targetDepSet) deps
        (mkOrdering (o_depMap o) (<[i_InstanceID i := deps]> (o_depGraph o)) uncommitted required)
  end.

(** [recordSCC] locks one instance after the other. *)
Fixpoint recordSCC_program (depMap : gmap InstanceID (option ptr)) (scc iids : list InstanceID) : prog unit :=
  match iids with
  | [] => mret tt
  | iid :: iids =>
      _ ← act (p ← deref (mjoin (depMap !! iid)); update p (Instance.setStronglyConnectedIds scc));
      recordSCC_program depMap scc iids
  end.

(** The ids that [sort.Sort] compares never change. *)
Fixpoint order_components_program (depMap : gmap InstanceID (option ptr)) (hasUncommitted : bool)
    (tSorted : list (list InstanceID)) (exOrder : list InstanceID) : prog (list InstanceID) :=
  match tSorted with
  | [] => mret exOrder
  | scc :: tSorted =>
      scc ← act (sort_component depMap scc);
      _ ← (if (1 <? length scc)%nat && negb hasUncommitted then recordSCC_program depMap scc scc else mret tt);
      order_components_program depMap hasUncommitted tSorted (exOrder ++ scc)
  end.

Fixpoint check_known_program (depMap : gmap InstanceID (option ptr)) (exOrder : list InstanceID) : prog unit :=
  match exOrder with
  | [] => mret tt
  | iid :: exOrder =>
      found ← act (instances_Get iid);
      if decide (mjoin (depMap !! iid) = None ∧ found = None)
      then Halt (Fail (Errorf "getExecutionOrder: Unknown instance id"))
      else check_known_program depMap exOrder
  end.

Definition getExecutionOrder_program (fuel : nat) (instance : ptr) : prog (list InstanceID * list InstanceID) :=
  i ← act (load instance);
  let targetDeps := i_Dependencies i in
  let targetDepSet := InstanceIDSet.NewInstanceIDSet targetDeps in
  depMap ← act (gets (λ m, InstanceMap.GetMap ∅ targetDeps (m_instances m)));
  o ← addInstance_program fuel targetDepSet instance (mkOrdering depMap ∅ ∅ ∅);
  tSorted ← Halt (match tarjanConnect (o_depGraph o) with Some l => Ok l | None => Panic end);
  let hasUncommitted := bool_decide (InstanceIDSet.Size (o_uncommitted o) > 0) in
  exOrder ← order_components_program (o_depMap o) hasUncommitted tSorted [];
  _ ← check_known_program (o_depMap o) exOrder;
  mret (exOrder, InstanceIDSet.List (o_uncommitted o)).

(** The status is read under the lock of the instance, which is then released;
    [applyInstance] takes it again, holds it until it returns, and reads the
    status anew. *)
Fixpoint execute_chain_program (imap : gmap InstanceID (option ptr)) (iids : list InstanceID)
    (target : InstanceID) : prog unit :=
  match iids with
  | [] => mret tt
  | iid :: iids =>
      instance ← pointer (mjoin (imap !! iid));
      i ← act (load instance);
      if decide (i_Status i = INSTANCE_COMMITTED) then
        _ ← act (applyInstance instance);
        if decide (i_InstanceID i = target) then mret tt else execute_chain_program imap iids target
      else if decide (i_Status i = INSTANCE_EXECUTED) then execute_chain_program imap iids target
      else Halt (Fail (Errorf "Uncommitted dependencies should be handled before calling executeDependencyChain"))
  end.

Definition executeDependencyChain_program (iids : list InstanceID) (target : ptr) : prog unit :=
  imap ← act (gets (λ m, InstanceMap.GetMap ∅ iids (m_instances m)));
  t ← act (load target);
  execute_chain_program imap iids (i_InstanceID t).

(** A goroutine of [managerExecuteInstance] from one call of [getExecutionOrder]
    on: unless there is something to prepare it executes the order. *)
Definition execute_program (fuel : nat) (instance : ptr) : prog unit :=
  x ← getExecutionOrder_program fuel instance;
  match x.2 with
  | [] => executeDependencyChain_program x.1 instance
  | _ => mret tt
  end.

(** *** In one piece *)

Lemma bind_ext {A B} (op1 op2 : M A) (k1 k2 : A → M B) m :
  op1 m = op2 m → (∀ a m', op2 m = (Ok a, m') → k1 a m' = k2 a m') → (op1 ≫= k1) m = (op2 ≫= k2) m.
Proof. intros E Hk. unfold mbind, ST_bind. rewrite E. destruct (op2 m) as [[a|e|] m']; [|done..]. by apply Hk. Qed.

Lemma run_act_bind {A B} (op : M A) (f : A → prog B) (k : A → M B) m :
  (∀ a m', run_program (f a) m' = k a m') → run_program (act op ≫= f) m = (op ≫= k) m.
Proof. intros Hk. rewrite run_bind. apply bind_ext; [apply run_act|auto]. Qed.

Lemma run_gets_bind {A B} (g : Manager → A) (f : A → prog B) m :
  run_program (act (gets g) ≫= f) m = run_program (f (g m)) m.
Proof. done. Qed.

Lemma run_is_connected t o iid ds b m :
  run_program (is_connected_program t o iid ds b) m = is_connected t o iid ds b m.
Proof. revert b m. induction ds as [|d ds IH]; intros b m; [done|]. by apply run_act_bind. Qed.

Lemma run_add_deps rec rec' ds o m :
  (∀ p o m, run_program (rec p o) m = rec' p o m) →
  run_program (add_deps_program rec ds o) m = add_deps rec' ds o m.
Proof.
  intros Hr. revert o m. induction ds as [|d ds IH]; intros o m; [done|]. cbn. case_decide; [apply IH|].
  destruct (mjoin (o_depMap o !! d)) as [p|]; [|done]. rewrite run_bind. apply bind_ext; auto.
Qed.

Lemma run_addInstance fuel t p o m :
  run_program (addInstance_program fuel t p o) m = addInstance fuel t p o m.
Proof.
  revert p o m. induction fuel as [|fuel IH]; intros p o m; [done|]. cbn [addInstance_program addInstance].
  apply run_act_bind. intros i m1. apply run_act_bind. intros imap m2. rewrite run_bind. apply bind_ext.
  - case_decide; [|done]. destruct (negb _); [|done]. apply run_is_connected.
  - intros c m3 _. destruct c; [|done]. by apply run_add_deps.
Qed.

Lemma run_recordSCC dm scc l m :
  run_program (recordSCC_program dm scc l) m =
    for_each (λ iid, p ← deref (mjoin (dm !! iid)); update p (Instance.setStronglyConnectedIds scc)) l m.
Proof. revert m. induction l as [|x l IH]; intros m; [done|]. by apply run_act_bind. Qed.

Lemma run_order_components dm b l ex m :
  run_program (order_components_program dm b l ex) m = order_components dm b l ex m.
Proof.
  revert ex m. induction l as [|scc l IH]; intros ex m; [done|]. cbn [order_components_program order_components].
  apply run_act_bind. intros scc' m1. rewrite run_bind. apply bind_ext; [|auto].
  destruct (_ && _); [apply run_recordSCC|done].
Qed.

Lemma run_check_known dm ex m : run_program (check_known_program dm ex) m = check_known dm ex m.
Proof.
  revert m. induction ex as [|x ex IH]; intros m; [done|]. apply run_act_bind. intros found m1. by case_decide.
Qed.

(** With the fuel of [getExecutionOrder], and nothing in between, the program is
    [getExecutionOrder]. *)
Lemma run_getExecutionOrder p m :
  run_program (getExecutionOrder_program (S (S (size (m_instances m)))) p) m = getExecutionOrder p m.
Proof.
  unfold getExecutionOrder_program, getExecutionOrder. rewrite run_bind. apply bind_ext; [apply run_act|].
  intros i m1 Hl. rewrite load_eq in Hl. assert (m1 = m) as -> by (destruct (m_heap m !! p); by simplify_eq).
  rewrite bind_gets, run_gets_bind, run_bind.
  apply bind_ext; [apply run_addInstance|]. intros o m2 _. rewrite run_bind. apply bind_ext.
  { by destruct (tarjanConnect (o_depGraph o)). }
  intros l m3 _. rewrite run_bind. apply bind_ext; [apply run_order_components|]. intros ex m4 _.
  rewrite run_bind. apply bind_ext; [apply run_check_known|done].
Qed.

Lemma run_execute_chain imap l t m :
  run_program (execute_chain_program imap l t) m = execute_chain imap l t m.
Proof.
  revert m. induction l as [|x l IH]; intros m; [done|]. cbn [execute_chain_program execute_chain].
  rewrite run_bind. apply bind_ext; [by destruct (mjoin (imap !! x))|]. intros p m1 _. apply run_act_bind. intros i m2.
  case_decide; [|by case_decide]. apply run_act_bind. intros v m3. by case_decide.
Qed.

Lemma run_executeDependencyChain l p m :
  run_program (executeDependencyChain_program l p) m = executeDependencyChain l p m.
Proof. apply run_act_bind. intros imap m1. apply run_act_bind. intros t m2. apply run_execute_chain. Qed.

End execute_programs.

(** ** What every interleaving keeps *)

Section interleaved.
Context {St : Store} {Mo : MapOrder} {Uu : UUIDLib}.
Context (agreed : InstanceID → list InstanceID).
Abbreviation M := (ST Manager error).

(** Whether everything is committed with the dependencies [agreed]; what does not
    depend on this is shown without it as well. *)
Context (agreement : Prop).

(** [y] depends on [x] and not the other way round, or they depend on each other
    directly and the id of [x] is the earlier one. *)
Definition direct_first (x y : InstanceID) : Prop :=
  needs agreed y x ∧ (¬ rtc (needs agreed) x y ∨ (needs agreed x y ∧ earlier x y)).

Lemma direct_first_irrefl x : ¬ direct_first x x.
Proof. intros [_ [Hn|[_ He]]]; [by destruct Hn|by apply (earlier_asym x x)]. Qed.

Record ordered (m : Manager) : Prop := {
  ord_wf : wf m;
  ord_agrees : agreement → agrees agreed m;
  ord_order : agreement → ∀ x y, y ∈ m_executed m → direct_first x y → precedes (m_executed m) x y;
}.

(** What a goroutine can rely on. *)
Record later (m m' : Manager) : Prop := {
  later_stored : ∀ x p i, stored m x p i → ∃ i', stored m' x p i' ∧ i_Status i ≤ i_Status i';
  later_executed : m_executed m `prefix_of` m_executed m';
}.

#[export] Instance later_preorder : PreOrder later.
Proof.
  split.
  - intros m. split; [|done]. intros x p i Hs. by exists i.
  - intros m1 m2 m3 [S1 X1] [S2 X2]. split; [|by etrans]. intros x p i Hs.
    destruct (S1 _ _ _ Hs) as (i1 & H1 & ?), (S2 _ _ _ H1) as (i2 & H2 & ?). exists i2. split; [done|lia].
Qed.

Lemma later_in m m' x : later m m' → x ∈ m_executed m → x ∈ m_executed m'.
Proof. intros [_ [l ->]]. set_solver. Qed.

Lemma grows_later m m' : wf m → grows any_ballot m m' → later m m'.
Proof.
  intros Hwf Hg. destruct (Hg Hwf) as [_ [He Hx _]]. split; [|done]. intros x p i Hs.
  destruct (He _ _ _ Hs) as (i' & Hs' & Hev). exists i'. split; [done|]. apply (ev_status _ _ _ Hev).
Qed.

(** What an action of the execute phase does: it records a component, executes a
    command all of whose predecessors have been executed, or fails to. *)
Inductive effect (m m' : Manager) : Prop :=
  | effect_annotates : annotates m m' → effect m m'
  | effect_executes x p i :
      grows any_ballot m m' → executes m m' x p i →
      (agreement → ∀ y, direct_first y x → y ∈ m_executed m) → effect m m'
  | effect_fails i e :
      grows any_ballot m m' → m_heap m' = m_heap m → m_instances m' = m_instances m → m_executed m' = m_executed m →
      m_outbox m' = m_outbox m → is_ok e = false → run_command i (m_store m) = (e, m_store m') → effect m m'.

Lemma annotates_grows m m' : annotates m m' → grows any_ballot m m'.
Proof.
  intros Ha Hwf. pose proof Ha as [E _]. split; [by eapply annotates_wf|]. split; [|by rewrite E..].
  intros x p i Hs. destruct (annotates_stored _ _ _ _ _ Ha Hs) as (i' & Hs' & Hi). exists i'. split; [done|].
  rewrite Hi. by split.
Qed.

Lemma effect_grows m m' : effect m m' → grows any_ballot m m'.
Proof. intros []; [by apply annotates_grows|done..]. Qed.

Lemma effect_ordered m m' : ordered m → effect m m' → ordered m' ∧ later m m'.
Proof.
  intros [W A O] He. pose proof (effect_grows _ _ He) as Hg. split; [|by apply grows_later]. split; [by apply Hg| |].
  - intros Hag y q j' Hs Hc. destruct He as [Ha|x p i _ He _|i e _ Hh Hm _ _ _ _].
    + destruct (annotates_stored_inv _ _ _ _ _ Ha Hs) as (i & Hs' & Hi). rewrite Hi in Hc |- *. by apply (A Hag y q i).
    + destruct He as [[Hx Hp] Hst Hm Hh _ _ _ _], Hs as [Hy Hq]. rewrite Hm in Hy. rewrite Hh in Hq.
      apply lookup_insert_Some in Hq as [[<- <-]|[_ Hq]]; [|by apply (A Hag y q j')].
      apply (A Hag y p i); [done|by rewrite Hst].
    + apply (A Hag y q j'); [|done]. unfold stored in *. by rewrite <- Hh, <- Hm.
  - intros Hag. destruct He as [[E _]|x p i _ He Hfirst|i e _ _ _ Hx _ _ _].
    + rewrite E. by apply O.
    + rewrite (exs_executed _ _ _ _ _ He).
      intros y z [Hz| ->%list_elem_of_singleton]%elem_of_app Hyz; [by apply precedes_app_l, O|].
      apply precedes_app; [by apply Hfirst|set_solver].
    + rewrite Hx. by apply O.
Qed.

(** *** A program logic *)

(** Whatever happens before each of its actions, the goroutine's own actions have
    these effects, and what it returns satisfies [Φ]. *)
Fixpoint wp {A} (Φ : A → Manager → Prop) (g : prog A) (m : Manager) : Prop :=
  match g with
  | Halt (Ok a) => ∀ m1, ordered m1 → later m m1 → Φ a m1
  | Halt _ => True
  | Act op k => ∀ m1, ordered m1 → later m m1 →
      effect m1 (op m1).2 ∧ ∀ b, (op m1).1 = Ok b → wp Φ (k b) (op m1).2
  end.

Lemma wp_later {A} (Φ : A → Manager → Prop) g m m' : later m m' → wp Φ g m → wp Φ g m'.
Proof. intros Hl. destruct g as [[a|e|]|B op k]; cbn; [|done..|]; intros H m1 Ho Hm; apply H; [done|by etrans..|done|by etrans]. Qed.

Lemma wp_bind {A B} (Φ : B → Manager → Prop) (g : prog A) f m :
  ordered m → wp (λ a, wp Φ (f a)) g m → wp Φ (g ≫= f) m.
Proof.
  revert m. induction g as [[a|e|]|C op k IH]; intros m Ho; cbn; [|done..|].
  - intros H. by apply H.
  - intros H m1 Ho1 Hm. destruct (H m1 Ho1 Hm) as [He Hk]. split; [done|]. intros b Hb.
    apply IH; [by apply (effect_ordered m1)|auto].
Qed.

Lemma wp_mono {A} (Φ Ψ : A → Manager → Prop) g m :
  (∀ a m, ordered m → Φ a m → Ψ a m) → wp Φ g m → wp Ψ g m.
Proof.
  intros HΦ. revert m. induction g as [[a|e|]|C op k IH]; intros m; cbn; [|done..|].
  - auto.
  - intros H m1 Ho1 Hm. destruct (H m1 Ho1 Hm) as [He Hk]. auto.
Qed.

(** What holds afterwards may refer to what was before. *)
Lemma wp_since {A} (Φ : A → Manager → Prop) g m :
  wp Φ g m → wp (λ a m', later m m' ∧ Φ a m') g m.
Proof.
  assert (∀ m0, later m0 m → wp Φ g m → wp (λ a m', later m0 m' ∧ Φ a m') g m) as H; [|by apply H].
  intros m0. revert m. induction g as [[a|e|]|C op k IH]; intros m Hl; cbn; [|done..|].
  - intros H m1 Ho1 Hm. split; [by etrans|auto].
  - intros H m1 Ho1 Hm. destruct (H m1 Ho1 Hm) as [He Hk]. split; [done|]. intros b Hb. apply IH; [|auto].
    destruct (effect_ordered _ _ Ho1 He) as [_ ?]. etrans; [exact Hl|]. by etrans.
Qed.

Lemma wp_act {A B} (Φ : B → Manager → Prop) (op : M A) f m :
  (∀ m1, ordered m1 → later m m1 → effect m1 (op m1).2 ∧ ∀ a, (op m1).1 = Ok a → wp Φ (f a) (op m1).2) →
  wp Φ (act op ≫= f) m.
Proof. done. Qed.

Lemma wp_read {A B} (Φ : B → Manager → Prop) (op : M A) f m :
  preserves (=) op → (∀ m1 a, ordered m1 → later m m1 → op m1 = (Ok a, m1) → wp Φ (f a) m1) →
  wp Φ (act op ≫= f) m.
Proof.
  intros Hop H. apply wp_act. intros m1 Ho Hm. pose proof (Hop m1) as E. destruct (op m1) as [r m2] eqn:Hr.
  cbn in *. subst m2. split; [by apply effect_annotates|]. intros a ->. by apply H.
Qed.

Lemma preserves_load_eq p : preserves (=) (load p).
Proof. intros m. by rewrite load_eq. Qed.

Lemma wp_load {B} (Φ : B → Manager → Prop) f p m :
  (∀ m1 i, ordered m1 → later m m1 → m_heap m1 !! p = Some i → wp Φ (f i) m1) → wp Φ (act (load p) ≫= f) m.
Proof.
  intros H. apply wp_read; [apply preserves_load_eq|]. intros m1 i Ho Hm. rewrite load_eq.
  destruct (m_heap m1 !! p) eqn:Hp; intros; simplify_eq. by apply H.
Qed.

Lemma wp_gets {A B} (Φ : B → Manager → Prop) f (h : Manager → A) m :
  (∀ m1, ordered m1 → later m m1 → wp Φ (f (h m1)) m1) → wp Φ (act (gets h) ≫= f) m.
Proof. intros H. apply wp_read; [done|]. intros m1 a Ho Hm [= <-]. by apply H. Qed.

(** *** Building the graph *)

Definition mapped (dm : gmap InstanceID (option ptr)) (m : Manager) : Prop :=
  ∀ x p, mjoin (dm !! x) = Some p → ∃ i, stored m x p i.

Lemma mapped_later dm m m' : later m m' → mapped dm m → mapped dm m'.
Proof. intros Hl H x p [i Hs]%H. destruct (later_stored _ _ Hl _ _ _ Hs) as (i' & ? & _). by exists i'. Qed.

Lemma mapped_GetMap dm l m : wf m → mapped dm m → mapped (InstanceMap.GetMap dm l (m_instances m)) m.
Proof.
  intros Hwf H x p. rewrite lookup_GetMap. case_decide; [|apply H]. cbn. intros Hx.
  destruct (wf_ptr m Hwf x p Hx) as (i & ? & _). by exists i.
Qed.

Definition committed (m : Manager) (x : InstanceID) : Prop :=
  ∃ p i, stored m x p i ∧ INSTANCE_COMMITTED ≤ i_Status i.

Lemma committed_later m m' x : later m m' → committed m x → committed m' x.
Proof.
  intros Hl (p & i & Hs & Hst). destruct (later_stored _ _ Hl _ _ _ Hs) as (i' & Hs' & ?). exists p, i'.
  split; [done|lia].
Qed.

(** Every vertex was committed, with the dependencies that it has in the graph, or
    is in the set of the uncommitted; the dependencies of those that have been
    dealt with are in the graph too or have been executed. *)
Definition covered (o : ordering) (m : Manager) (x : InstanceID) : Prop :=
  is_Some (o_depGraph o !! x) ∨ x ∈ m_executed m.

Record graph_ok (gray : list InstanceID) (o : ordering) (m : Manager) : Prop := {
  gok_map : mapped (o_depMap o) m;
  gok_vertex : ∀ x ds, o_depGraph o !! x = Some ds →
    x ∈ dom (o_uncommitted o) ∨ (committed m x ∧ (agreement → ∀ d, d ∈ ds ↔ needs agreed x d));
  gok_closed : ∀ x ds d, o_depGraph o !! x = Some ds → x ∉ gray → d ∈ ds → covered o m d;
}.

Lemma covered_later o m m' x : later m m' → covered o m x → covered o m' x.
Proof. intros Hl [|H]; [by left|right; by eapply later_in]. Qed.

Lemma covered_grows o o' m x : o_depGraph o ⊆ o_depGraph o' → covered o m x → covered o' m x.
Proof. intros Hs [[ds H]|]; [left; exists ds; by eapply lookup_weaken|by right]. Qed.

Lemma graph_ok_later gray o m m' : later m m' → graph_ok gray o m → graph_ok gray o m'.
Proof.
  intros Hl [H1 H2 H3]. split.
  - by eapply mapped_later.
  - intros x ds Hx. destruct (H2 x ds Hx) as [|[Hc Hd]]; [by left|right]. split; [by eapply committed_later|done].
  - intros x ds d Hx Hg Hd. eapply covered_later; [done|]. by eapply H3.
Qed.

Lemma wp_is_connected (Φ : bool → Manager → Prop) t o iid ds b m :
  (∀ b m1, ordered m1 → later m m1 → Φ b m1) → wp Φ (is_connected_program t o iid ds b) m.
Proof.
  revert b m. induction ds as [|d ds IH]; intros b m H; cbn [is_connected_program]; [intros m1; apply H|].
  apply wp_read; [pose proof preserves_load_eq; unfold dep_status; preserves_tac|]. intros m1 s Ho Hm _. apply IH.
  intros b' m2 Ho2 Hm2. apply H; [done|by etrans].
Qed.

(** What the recursive call does for the instance [x]. *)
Definition adds_program (rec : ptr → ordering → prog ordering) : Prop :=
  ∀ p x gray o m, ordered m → (∃ i, stored m x p i) → graph_ok gray o m → o_depGraph o !! x = None →
    wp (λ o' m', graph_ok gray o' m' ∧ o_depGraph o ⊆ o_depGraph o' ∧ covered o' m' x) (rec p o) m.

Lemma wp_add_deps rec ds gray o m :
  adds_program rec → ordered m → graph_ok gray o m →
  wp (λ o' m', graph_ok gray o' m' ∧ o_depGraph o ⊆ o_depGraph o' ∧ ∀ d, d ∈ ds → covered o' m' d)
    (add_deps_program rec ds o) m.
Proof.
  intros Hrec. revert o m. induction ds as [|d ds IH]; intros o m Ho Hg; cbn [add_deps_program].
  { intros m1 _ Hm. split_and!; [by eapply graph_ok_later|done|by intros ? ?%elem_of_nil]. }
  assert (∀ o1 m1, ordered m1 → graph_ok gray o1 m1 → o_depGraph o ⊆ o_depGraph o1 → covered o1 m1 d →
    wp (λ o' m', graph_ok gray o' m' ∧ o_depGraph o ⊆ o_depGraph o' ∧ ∀ d', d' ∈ d :: ds → covered o' m' d')
      (add_deps_program rec ds o1) m1) as Hgo.
  { intros o1 m1 Ho1 Hg1 Hsub Hc.
    eapply wp_mono; [|apply wp_since, (IH o1 m1 Ho1 Hg1)]. intros o' m' _ (Hl & H1 & H2 & H3).
    split_and!; [done|by etrans|]. intros d' [->|?]%elem_of_cons; [|auto].
    eapply covered_grows; [done|]. by eapply covered_later. }
  case_decide as Hd; [by apply Hgo; [..|left]|]. destruct (mjoin (o_depMap o !! d)) as [p|] eqn:Hp; [|done].
  apply wp_bind; [done|]. eapply wp_mono; [|apply (Hrec p d gray); try done].
  - intros o1 m1 Ho1 (Hg1 & Hsub & Hc). by apply Hgo.
  - by apply (gok_map _ _ _ Hg).
  - by apply eq_None_not_Some.
Qed.

Lemma graph_ok_finish x ds gray o m :
  graph_ok (x :: gray) o m → o_depGraph o !! x = Some ds → (∀ d, d ∈ ds → covered o m d) → graph_ok gray o m.
Proof.
  intros [H1 H2 H3] Hx Hd. split; [done..|]. intros y ds' d Hy Hg Hin. destruct (decide (y = x)) as [->|Hne].
  - simplify_eq. auto.
  - eapply H3; [done| |done]. set_solver.
Qed.

(** The instance [i], as it has been read earlier, is added. *)
Lemma graph_ok_add x p i gray o m1 m required :
  ordered m1 → later m1 m → stored m1 x p i → graph_ok gray o m → o_depGraph o !! x = None →
  graph_ok (x :: gray) (mkOrdering (o_depMap o) (<[x := i_Dependencies i]> (o_depGraph o))
    (if decide (i_Status i < INSTANCE_COMMITTED) then InstanceIDSet.Add (o_uncommitted o) [x] else o_uncommitted o)
    required) m.
Proof.
  intros Ho1 Hl Hs [H1 H2 H3] Hx. split; [done| |]; cbn [o_depGraph o_uncommitted].
  - intros y ds [[<- <-]|[Hne Hy]]%lookup_insert_Some.
    + case_decide as Hst; [left; rewrite InstanceIDSet.dom_Add; set_solver|right]. split.
      * apply (committed_later m1); [done|]. exists p, i. split; [done|lia].
      * intros Hag. apply (ord_agrees _ Ho1 Hag x p i); [done|lia].
    + destruct (H2 y ds Hy) as [Hu|]; [left|by right]. case_decide; [rewrite InstanceIDSet.dom_Add; set_solver|done].
  - intros y ds d [[<- <-]|[Hne Hy]]%lookup_insert_Some Hgr Hd; [set_solver|].
    apply (covered_grows o); [by apply insert_subseteq|]. eapply H3; [done| |done]. set_solver.
Qed.

Lemma wp_addInstance fuel t : adds_program (addInstance_program fuel t).
Proof.
  induction fuel as [|fuel IH]; intros p x gray o m Ho [i0 Hs0] Hg Hx; [done|]. cbn [addInstance_program].
  apply wp_load. intros m1 i Ho1 Hl1 Hp. destruct (later_stored _ _ Hl1 _ _ _ Hs0) as (i' & Hs & _).
  assert (i' = i) as -> by (destruct Hs; congruence).
  assert (i_InstanceID i = x) as Hid
    by (destruct (wf_ptr m1 (ord_wf _ Ho1) _ _ (proj1 Hs)) as (? & ? & ? & _); destruct Hs; congruence).
  apply wp_gets. intros m2 Ho2 Hl2.
  set (o2 := mkOrdering _ _ _ _). assert (graph_ok gray o2 m2) as Hg2.
  { destruct (graph_ok_later gray o m m2 ltac:(by etrans) Hg) as [H1 H2 H3]. split; [|done..].
    by apply mapped_GetMap; [apply ord_wf|]. }
  apply wp_bind; [done|].
  apply (wp_mono (λ (c : bool) m3, later m2 m3 ∧ (c = false → x ∈ m_executed m3))).
  2: { apply wp_since. case_decide as Hex; [|by intros]. assert (x ∈ m_executed m1) as Hin.
       { apply (wf_executed m1 (ord_wf _ Ho1)). by exists p, i. }
       assert (∀ (c : bool) m3, ordered m3 → later m2 m3 → c = false → x ∈ m_executed m3) as H
         by (intros c m3 _ Hl3 _; eapply later_in; [|exact Hin]; by etrans).
       destruct (negb _); [by apply wp_is_connected|by intros ? ?]. }
  intros c m3 Ho3 [Hl3 Hc]. destruct c; cbn [negb].
  - set (o3 := mkOrdering _ _ _ _). assert (o_depGraph o ⊆ o_depGraph o3) as Hsub by (cbn; rewrite Hid; by apply insert_subseteq).
    assert (o_depGraph o3 !! x = Some (i_Dependencies i)) as Hx3 by (cbn; rewrite Hid; apply lookup_insert_eq).
    assert (graph_ok (x :: gray) o3 m3) as Hg3.
    { unfold o3. rewrite Hid. apply (graph_ok_add x p i gray o2 m1); [done|by etrans|done| |done]. by eapply graph_ok_later. }
    eapply wp_mono; [|by apply (wp_add_deps _ _ (x :: gray))]. intros o' m' _ (H1 & H2 & H3).
    assert (o_depGraph o' !! x = Some (i_Dependencies i)) as Hx' by by eapply lookup_weaken.
    split_and!; [by eapply graph_ok_finish|by etrans|left; by eexists].
  - intros m4 Ho4 Hl4. split_and!; [eapply graph_ok_later; [|exact Hg2]; by etrans|done|].
    right. eapply later_in; [exact Hl4|auto].
Qed.

(** *** Ordering the components *)

Lemma record_effect m p scc r m' :
  update p (Instance.setStronglyConnectedIds scc) m = (r, m') → effect m m'.
Proof.
  unfold update. rewrite bind_load. destruct (m_heap m !! p) as [i|] eqn:Hp; intros [= _ <-];
    apply effect_annotates; [|done]. split; [done|]. intros q. cbn. rewrite lookup_insert. case_decide as Hq.
  - subst. rewrite Hp. by constructor.
  - destruct (m_heap m !! q) as [[]|]; by constructor.
Qed.

Lemma wp_recordSCC dm scc l m : wp (λ _ _, True) (recordSCC_program dm scc l) m.
Proof.
  revert m. induction l as [|x l IH]; intros m; cbn [recordSCC_program]; [done|]. apply wp_act. intros m1 _ _.
  split; [|intros; apply IH]. destruct (mjoin (dm !! x)) as [p|]; [|by apply effect_annotates].
  cbn [deref]. rewrite bind_ret. destruct (update _ _ m1) as [r m2] eqn:Hu. by eapply record_effect.
Qed.

(** A component that has been sorted. *)
Lemma sort_component_inv dm scc scc' m :
  wf m → mapped dm m → sort_component dm scc m = (Ok scc', m) → arranged scc scc'.
Proof.
  intros Hwf Hd Hrun. assert (∀ l l', sorter dm l m = (Ok l', m) → ∀ x, x ∈ l → is_Some (mjoin (dm !! x))) as Hs.
  { induction l as [|y l IH]; intros l' Hl x; [by intros ?%elem_of_nil|]. cbn [sorter] in Hl.
    destruct (mjoin (dm !! y)) as [p|] eqn:Hy; [|done]. cbn [deref] in Hl. rewrite bind_ret, bind_load in Hl.
    destruct (m_heap m !! p) as [i|]; [|done]. intros [->|Hx]%elem_of_cons; [by eexists|].
    assert (preserves (=) (sorter dm l)) as Hp.
    { clear. pose proof preserves_load_eq. induction l; cbn [sorter]; preserves_tac. }
    specialize (Hp m). destruct (sorter dm l m) as [[l1|e|] m1] eqn:Hl1; cbn in Hp; subst m1;
      [by apply (IH l1)|rewrite (bind_eval _ _ _ _ _ Hl1) in Hl; done..]. }
  destruct (sort_component_spec dm scc m Hwf) as (scc1 & Hrun1 & Harr); [|congruence].
  intros Hlen x Hx. unfold sort_component in Hrun. destruct (Nat.ltb_spec 1 (length scc)) as [_|]; [|lia].
  assert (is_Some (mjoin (dm !! x))) as [p Hp].
  { destruct (sorter dm scc m) as [[l1|e|] m1] eqn:Hl1; rewrite (bind_eval _ _ _ _ _ Hl1) in Hrun; [|done..].
    injection Hrun as _ ->. by apply (Hs scc l1). }
  destruct (Hd x p Hp) as [i Hi]. exists p, i. split; [done|].
  destruct (dm !! x) as [[q|]|]; [by injection Hp as ->|discriminate Hp..].
Qed.

Lemma preserves_sort_eq dm scc : preserves (=) (sort_component dm scc).
Proof.
  pose proof preserves_load_eq. assert (∀ l, preserves (=) (sorter dm l)) by (induction l; cbn [sorter]; preserves_tac).
  unfold sort_component. preserves_tac.
Qed.

Lemma wp_order_components dm b l ex m :
  ordered m → mapped dm m →
  wp (λ r m', ∃ sccs, r = ex ++ concat sccs ∧ Forall2 arranged l sccs) (order_components_program dm b l ex) m.
Proof.
  revert ex m. induction l as [|scc l IH]; intros ex m Ho Hd; cbn [order_components_program].
  { intros m1 _ _. exists []. by rewrite app_nil_r. }
  apply wp_read; [apply preserves_sort_eq|]. intros m1 scc' Ho1 Hl1 Hrun.
  assert (mapped dm m1) as Hd1 by by eapply mapped_later.
  apply sort_component_inv in Hrun; [|apply Ho1|done]. apply wp_bind; [done|].
  apply (wp_mono (λ _ m2, later m1 m2 ∧ True)).
  - intros _ m2 Ho2 [Hl2 _]. eapply wp_mono; [|apply IH; [done|by eapply mapped_later]].
    intros r m3 _ (sccs & -> & Harr). exists (scc' :: sccs). cbn. rewrite app_assoc. split; [done|by constructor].
  - apply (wp_since (λ _ _, True)). destruct (_ && _); [apply wp_recordSCC|by intros].
Qed.

Lemma wp_check_known dm ex m : wp (λ _ _, True) (check_known_program dm ex) m.
Proof.
  revert m. induction ex as [|x ex IH]; intros m; cbn [check_known_program]; [done|]. apply wp_gets.
  intros m1 _ _. case_decide; [done|apply IH].
Qed.

(** *** The order *)

(** What may be executed one after the other. *)
Record chain_safe (m : Manager) (l : list InstanceID) : Prop := {
  safe_NoDup : NoDup l;
  safe_committed : ∀ x, x ∈ l → committed m x;
  safe_order : agreement → ∀ x y, y ∈ l → direct_first x y → x ∈ m_executed m ∨ precedes l x y;
}.

Lemma chain_safe_later m m' l : later m m' → chain_safe m l → chain_safe m' l.
Proof.
  intros Hl [N C O]. split; [done| |].
  - intros x Hx. eapply committed_later; [done|auto].
  - intros Hag x y Hy Hxy. destruct (O Hag x y Hy Hxy); [left; by eapply later_in|by right].
Qed.

Lemma graph_ok_sorted o m output sccs :
  graph_ok [] o m → dom (o_uncommitted o) = ∅ →
  concat output ≡ₚ (map_to_list (o_depGraph o)).*1 → Forall (is_scc (o_depGraph o)) output →
  reverse_topological (o_depGraph o) output → Forall2 arranged output sccs → chain_safe m (concat sccs).
Proof.
  intros [_ Hv Hc] Hun Hpart Hscc Htopo Harr. set (g := o_depGraph o) in *.
  assert (∀ x, x ∈ concat sccs ↔ is_Some (g !! x)) as Hdom by (intros; by eapply sorted_dom).
  assert (∀ x ds, g !! x = Some ds → committed m x ∧ (agreement → ∀ d, d ∈ ds ↔ needs agreed x d)) as Hv'.
  { intros x ds [Hu|]%Hv; [|done]. rewrite Hun in Hu. set_solver. }
  split; [by eapply sorted_NoDup|intros x [ds Hx]%Hdom; by apply (Hv' x ds)|].
  intros Hag. assert (∀ x y, rtc (edge g) x y → rtc (needs agreed) x y) as Hpath.
  { intros x y. apply rtc_subrel. intros a b (ds & Ha & Hab & _). by apply (Hv' a ds Ha). }
  - intros x y [ds Hy]%Hdom [Hyx Hor]. assert (x ∈ ds) as Hin by (by apply (Hv' y ds Hy)).
    destruct (Hc y ds x Hy ltac:(set_solver) Hin) as [[ds' Hx]|]; [right|by left].
    assert (x ∈ concat sccs ∧ y ∈ concat sccs) as [Hxs Hys] by (split; apply Hdom; by eexists).
    assert (edge g y x) as Hedge by (exists ds; split_and!; [done..|by eexists]).
    destruct Hor as [Hn|[Hxy He]].
    + destruct (sorted_before g output sccs Hscc Htopo Harr y x Hys Hxs) as [Hp|]; [by apply rtc_once| |done].
      by destruct Hn; apply Hpath.
    + assert (edge g x y) as Hedge' by (exists ds'; split_and!; [done|by apply (Hv' x ds' Hx)|by eexists]).
      assert (x ≠ y) as Hne by (intros ->; by apply (earlier_asym y y)).
      destruct (precedes_total (concat sccs) x y Hxs Hys Hne) as [|Hp]; [done|].
      by destruct (sorted_mutual g output sccs Hpart Hscc Harr y x Hp); [apply rtc_once..|].
Qed.

Lemma wp_getExecutionOrder fuel p x m :
  ordered m → (∃ i, stored m x p i) →
  wp (λ r m', r.2 = [] → chain_safe m' r.1) (getExecutionOrder_program fuel p) m.
Proof.
  intros Ho [i0 Hs0]. unfold getExecutionOrder_program. apply wp_load. intros m1 i Ho1 Hl1 Hp.
  apply wp_gets. intros m2 Ho2 Hl2. apply wp_bind; [done|].
  eapply wp_mono; [|apply (wp_addInstance fuel _ p x [] (mkOrdering _ ∅ ∅ ∅) m2 Ho2)].
  - intros o m3 Ho3 (Hg & _ & _). destruct (tarjanConnect_correct (o_depGraph o)) as (output & -> & Hpart & Hscc & Htopo).
    apply wp_bind; [done|]. intros m4 Ho4 Hl4. apply wp_bind; [done|].
    assert (graph_ok [] o m4) as Hg4 by by eapply graph_ok_later.
    eapply wp_mono; [|apply wp_since, wp_order_components; [done|apply (gok_map _ _ _ Hg4)]].
    intros ex m5 Ho5 (Hl5 & sccs & -> & Harr). apply wp_bind; [done|].
    eapply wp_mono; [|apply wp_since, wp_check_known]. intros _ m6 Ho6 [Hl6 _] m7 Ho7 Hl7 Hnil. cbn [fst snd app] in *.
    eapply graph_ok_sorted; [| |exact Hpart|exact Hscc|exact Htopo|exact Harr].
    + eapply graph_ok_later; [|exact Hg4]. etrans; [exact Hl5|]. by etrans.
    + apply set_eq. intros y. rewrite <- InstanceIDSet.elem_of_List, Hnil. set_solver.
  - destruct (later_stored _ _ Hl1 _ _ _ Hs0) as (i1 & Hs1 & _), (later_stored _ _ Hl2 _ _ _ Hs1) as (i2 & Hs2 & _). by exists i2.
  - split; cbn [o_depMap o_depGraph o_uncommitted].
    + apply mapped_GetMap; [apply Ho2|]. by intros y q.
    + by intros y ds.
    + by intros y ds.
  - done.
Qed.

(** *** Executing it *)

Lemma chain_safe_tail m x l : chain_safe m (x :: l) → x ∈ m_executed m → chain_safe m l.
Proof.
  intros [N C O] Hx. apply NoDup_cons in N as [Nx N]. split; [done| |].
  - intros y Hy. apply C. by right.
  - intros Hag y z Hz Hyz. destruct (O Hag y z ltac:(by right) Hyz) as [|Hp]; [by left|].
    apply precedes_cons in Hp as [[-> _]|]; [by left|by right].
Qed.

Lemma chain_safe_head m x l y : agreement → chain_safe m (x :: l) → direct_first y x → y ∈ m_executed m.
Proof.
  intros Hag [N _ O] Hy. apply NoDup_cons in N as [Nx _]. destruct (O Hag y x ltac:(left) Hy) as [|Hp]; [done|].
  apply precedes_cons in Hp as [[-> _]|[_ Hp]%precedes_elem]; [|done]. by apply direct_first_irrefl in Hy.
Qed.

Lemma apply_effect m x p i l r m' :
  ordered m → stored m x p i → INSTANCE_COMMITTED ≤ i_Status i → chain_safe m (x :: l) → applyInstance p m = (r, m') →
  effect m m' ∧ ∀ v, r = Ok v → x ∈ m_executed m'.
Proof.
  intros Ho Hs Hst Hc Hrun. pose proof (ord_wf _ Ho) as Hwf.
  pose proof (grows_applyInstance any_ballot ltac:(done) m x p (proj1 Hs)) as Hg. rewrite Hrun in Hg. destruct (decide (i_Status i = INSTANCE_COMMITTED)) as [Hcom|Hne].
  - destruct (applyInstance_effect m x p i r m' Hwf Hs Hcom Hrun) as [Hwf' [He|(Hh & Hm & Hx & Hob & Hnok & e & Hno & Hcmd)]].
    + split; [|intros v _; rewrite (exs_executed _ _ _ _ _ He); set_solver].
      eapply effect_executes; [exact Hg|exact He|]. intros Hag y. by eapply chain_safe_head.
    + split; [by eapply effect_fails|]. intros v ->. by destruct (Hnok v).
  - destruct (wf_ptr m Hwf _ _ (proj1 Hs)) as (i' & Hi' & _ & Hle).
    assert (i' = i) as -> by (destruct Hs; congruence).
    assert (i_Status i = INSTANCE_EXECUTED) as Hex by (unfold INSTANCE_COMMITTED, INSTANCE_EXECUTED in *; lia).
    revert Hrun. unfold applyInstance. rewrite bind_load, (proj2 Hs), decide_True by done. intros [= <- <-].
    split; [by apply effect_annotates|]. intros _ _. apply (wf_executed m Hwf). by exists p, i.
Qed.

Lemma wp_execute_chain imap l t m :
  mapped imap m → chain_safe m l → wp (λ _ _, True) (execute_chain_program imap l t) m.
Proof.
  revert m. induction l as [|x l IH]; intros m Hmap Hc; cbn [execute_chain_program]; [done|].
  destruct (mjoin (imap !! x)) as [p|] eqn:Hp; [|done]. cbn [pointer mbind prog_bind].
  destruct (Hmap x p Hp) as [i0 Hs0]. apply wp_load. intros m1 i Ho1 Hl1 Hi.
  destruct (later_stored _ _ Hl1 _ _ _ Hs0) as (i1 & Hs1 & _). assert (i1 = i) as -> by (destruct Hs1; congruence).
  assert (chain_safe m1 (x :: l)) as Hc1 by by eapply chain_safe_later.
  assert (∀ m2, later m1 m2 → x ∈ m_executed m2 → wp (λ _ _, True) (execute_chain_program imap l t) m2) as Hgo.
  { intros m2 Hl2 Hx. apply IH; [eapply mapped_later; [|exact Hmap]; by etrans|].
    eapply chain_safe_tail; [|done]. by eapply chain_safe_later. }
  case_decide as Hst; [|case_decide as Hex; [|done]].
  - apply wp_act. intros m2 Ho2 Hl2. destruct (later_stored _ _ Hl2 _ _ _ Hs1) as (i2 & Hs2 & Hle).
    destruct (applyInstance p m2) as [r m3] eqn:Hrun.
    destruct (apply_effect m2 x p i2 l r m3 Ho2 Hs2 ltac:(lia) ltac:(by eapply chain_safe_later) Hrun) as [He Hx].
    split; [done|]. cbn. intros v ->. case_decide; [done|]. apply Hgo; [|by eapply Hx].
    etrans; [exact Hl2|]. by apply effect_ordered.
  - apply Hgo; [done|]. apply (wf_executed m1 (ord_wf _ Ho1)). by exists p, i.
Qed.

Lemma wp_execute fuel p x m :
  ordered m → (∃ i, stored m x p i) → wp (λ _ _, True) (execute_program fuel p) m.
Proof.
  intros Ho Hs. apply wp_bind; [done|]. eapply wp_mono; [|by eapply wp_getExecutionOrder].
  intros [ex un] m1 Ho1 Hc. cbn [fst snd] in *. destruct un; [|done]. apply wp_gets. intros m2 Ho2 Hl2.
  apply wp_load. intros m3 i Ho3 Hl3 _. apply wp_execute_chain.
  - eapply mapped_later; [exact Hl3|]. apply mapped_GetMap; [apply Ho2|]. by intros y q.
  - eapply chain_safe_later; [|by apply Hc]. by etrans.
Qed.

End interleaved.

(** ** Interleavings *)

Section interleaving.
Context {St : Store} {Mo : MapOrder} {Uu : UUIDLib}.
Abbreviation M := (ST Manager error).

(** A goroutine is started for an instance, or one of them takes its next
    action. *)
Inductive go_step : Manager * list (prog unit) → Manager * list (prog unit) → Prop :=
  | go_spawn fuel p x i m gs :
      stored m x p i → go_step (m, gs) (m, gs ++ [execute_program fuel p])
  | go_advance g m gs gs' :
      go_step (m, gs ++ g :: gs') ((advance g m).2, gs ++ (advance g m).1 :: gs').

(** Besides, messages are answered and other goroutines act. *)
Inductive interleaved_step : Manager * list (prog unit) → Manager * list (prog unit) → Prop :=
  | interleaved_message msg m gs :
      clean_message msg → interleaved_step (m, gs) ((HandleMessage msg m).2, gs)
  | interleaved_local {A} (op : M A) m gs :
      local_action op → interleaved_step (m, gs) ((op m).2, gs)
  | interleaved_go x y : go_step x y → interleaved_step x y.

Context (agreed : InstanceID → list InstanceID).

(** Steps after which nothing is committed other than as agreed. *)
Definition interleaved_agreeing (x y : Manager * list (prog unit)) : Prop :=
  interleaved_step x y ∧ agrees agreed y.1.

Context (agreement : Prop).
Definition all_safe (x : Manager * list (prog unit)) : Prop :=
  ordered agreed agreement x.1 ∧ Forall (λ g, wp agreed agreement (λ _ _, True) g x.1) x.2.

Lemma all_safe_later m m' gs :
  all_safe (m, gs) → later m m' → ordered agreed agreement m' → all_safe (m', gs).
Proof. intros [_ Hg] Hl Ho. split; [done|]. eapply Forall_impl; [exact Hg|]. intros g. by apply wp_later. Qed.

Lemma all_safe_quiet m m' gs :
  all_safe (m, gs) → grows any_ballot m m' → quiet m m' → (agreement → agrees agreed m') → all_safe (m', gs).
Proof.
  intros Hs Hg Hq Ha. pose proof Hs as [[W A O] _]. apply (all_safe_later m); [done|by apply grows_later|].
  split; [by apply Hg|done|]. by rewrite (quiet_executed _ _ Hq).
Qed.

(** An action of a goroutine. *)
Lemma advance_safe (g : prog unit) m :
  ordered agreed agreement m → wp agreed agreement (λ _ _, True) g m →
  effect agreed agreement m (advance g m).2 ∧ wp agreed agreement (λ _ _, True) (advance g m).1 (advance g m).2.
Proof.
  intros Ho Hg. destruct g as [r|B op k]; [split; [by apply effect_annotates|done]|].
  destruct (Hg m Ho ltac:(done)) as [He Hk]. cbn [advance].
  destruct (op m) as [[b|e|] m']; cbn [fst snd] in *; (split; [done|]); [by apply Hk|done..].
Qed.

Lemma all_safe_go x y : all_safe x → go_step x y → all_safe y ∧ effect agreed agreement x.1 y.1.
Proof.
  intros Hs Hstep. destruct Hstep as [fuel p x i m gs Hst|g m gs gs'].
  - pose proof Hs as [Ho Hg]. split; [|by apply effect_annotates]. split; [done|]. apply Forall_app. split; [done|].
    apply Forall_singleton. eapply wp_execute; [done|by exists i].
  - pose proof Hs as [Ho Hg]. cbn in Ho, Hg. apply Forall_app in Hg as [H1 [H2 H3]%Forall_cons].
    destruct (advance_safe g m Ho H2) as [He Hw]. split; [|done].
    destruct (effect_ordered _ _ _ _ Ho He) as [Ho' Hl]. split; [done|].
    assert (∀ h : prog unit, wp agreed agreement (λ _ _, True) h m → wp agreed agreement (λ _ _, True) h (advance g m).2) as Hh by (intros h; by apply wp_later).
    apply Forall_app. split; [by eapply Forall_impl|]. constructor; [done|by eapply Forall_impl].
Qed.

Lemma all_safe_step x y :
  all_safe x → interleaved_step x y → (agreement → agrees agreed y.1) → all_safe y ∧ grows any_ballot x.1 y.1.
Proof.
  intros Hs Hstep Ha. destruct Hstep as [msg m gs Hm|A op m gs Hop|x y Hgo].
  - assert (grows any_ballot m (HandleMessage msg m).2) as Hg by by apply preserves_HandleMessage.
    split; [|done]. apply (all_safe_quiet m); [done..|by apply quiet_HandleMessage|done].
  - destruct (local_action_quiet op Hop) as [H1 H2]. split; [|apply H1]. by apply (all_safe_quiet m).
  - destruct (all_safe_go x y Hs Hgo) as [Hs' He]. split; [done|by eapply effect_grows].
Qed.

Lemma all_safe_NewManager s now : all_safe (NewManager s now, []).
Proof.
  split; [|constructor]. split; cbn; [apply wf_NewManager| |by intros _ x y ?%elem_of_nil].
  intros _ x p i [H _]. done.
Qed.

Lemma all_safe_steps x y :
  rtc (λ x y, interleaved_step x y ∧ (agreement → agrees agreed y.1)) x y → all_safe x →
  all_safe y ∧ grows any_ballot x.1 y.1.
Proof.
  induction 1 as [x|x y z [Hxy Ha] _ IH]; intros Hx; [done|].
  destruct (all_safe_step x y Hx Hxy Ha) as [Hy Hg]. destruct (IH Hy) as [Hz Hg']. split; [done|by etrans].
Qed.

End interleaving.

Section reached.
Context {St : Store} {Mo : MapOrder} {Uu : UUIDLib}.
Context (agreed : InstanceID → list InstanceID).

Lemma reached_safe s now x : rtc (interleaved_agreeing agreed) (NewManager s now, []) x → all_safe agreed True x.
Proof.
  intros H. apply (all_safe_steps agreed True (NewManager s now, []) x); [|apply all_safe_NewManager].
  eapply rtc_subrel; [|exact H]. by intros y z [].
Qed.

(** What holds whatever is committed. *)
Definition tame (x : Manager * list (prog unit)) : Prop := all_safe (λ _, []) False x.

Lemma tame_steps x y : rtc interleaved_step x y → tame x → tame y ∧ grows any_ballot x.1 y.1.
Proof.
  intros H. apply (all_safe_steps (λ _, []) False x y). eapply rtc_subrel; [|exact H]. by intros a b.
Qed.

Lemma tame_wf x : tame x → wf x.1.
Proof. by intros [[] _]. Qed.

Lemma tame_grows m m' gs : tame (m, gs) → grows any_ballot m m' → tame (m', gs).
Proof.
  intros H Hg. pose proof H as [[W _ _] _]. apply (all_safe_later _ _ m); [done|by apply grows_later|].
  split; [by apply Hg|done..].
Qed.

Lemma reached_tame s now x : rtc interleaved_step (NewManager s now, []) x → tame x.
Proof. intros H. apply (tame_steps _ _ H), all_safe_NewManager. Qed.

(** C3. Execution follows the committed dependencies however goroutines
    interleave.  Let a replica start empty, and let its goroutines run in any
    interleaving of their critical sections: every read of an instance or of the
    map, every recorded component and every executed instance is a step of its
    own, between which other goroutines may compute orders, execute them, answer
    messages and run the phases, and store errors and panics may end some of
    them.  As long as everything that the replica commits has the dependencies
    [agreed], a command is executed only after each of its dependencies that does
    not depend on it in turn, and, of two commands that depend directly on each
    other, after the one with the earlier id. *)
Theorem interleaved_execution_ordered s now m gs x y :
  rtc (interleaved_agreeing agreed) (NewManager s now, []) (m, gs) →
  y ∈ m_executed m → direct_first agreed x y → precedes (m_executed m) x y.
Proof. intros [Ho _]%reached_safe. by apply (ord_order _ _ _ Ho). Qed.

End reached.

(** ** Orders that are computed undisturbed

    The steps of [Concurrent] are schedules of these: those in which no other
    goroutine acts between the first and the last action of [getExecutionOrder],
    nor within a pass of [executeDependencyChain]. *)

Section undisturbed.
Context {St : Store} {Mo : MapOrder} {Uu : UUIDLib}.
Abbreviation M := (ST Manager error).

Definition advances (x y : prog unit * Manager) : Prop := y = advance x.1 x.2.

(** A program is run in one piece by taking its actions one after the other. *)
Lemma run_advances {A} (g : prog A) (f : A → prog unit) m :
  rtc advances (g ≫= f, m)
    (match (run_program g m).1 with Ok a => f a | Fail e => Halt (Fail e) | Panic => Halt Panic end, (run_program g m).2).
Proof.
  revert m. induction g as [[a|e|]|B op k IH]; intros m; try apply rtc_refl. cbn [run_program].
  eapply rtc_l; [reflexivity|]. cbn [mbind prog_bind fst snd advance]. unfold mbind, ST_bind.
  destruct (op m) as [[b|e|] m']; [apply IH|apply rtc_refl..].
Qed.

Definition program_of (c : chain) : prog unit := execute_chain_program (ch_imap c) (ch_iids c) (ch_target c).

Lemma pass_advances c m :
  ∃ g, rtc advances (program_of c, m) (g, (chain_pass c m).2) ∧
    ∀ c', (chain_pass c m).1 = Ok (Some c') → g = program_of c'.
Proof.
  destruct c as [imap [|iid iids] t]; unfold program_of, chain_pass; cbn [ch_imap ch_iids ch_target execute_chain_program].
  { eexists. split; [apply rtc_refl|done]. }
  destruct (mjoin (imap !! iid)) as [p|]; [|eexists; split; [apply rtc_refl|done]].
  cbn [deref]. rewrite bind_ret, bind_load. destruct (m_heap m !! p) as [i|] eqn:Hp.
  2: { eexists. split; [eapply rtc_l; [reflexivity|]; cbn; rewrite load_eq, Hp; apply rtc_refl|done]. }
  set (k := λ i, if decide (i_Status i = INSTANCE_COMMITTED) then
      act (applyInstance p) ≫= λ _, if decide (i_InstanceID i = t) then mret tt else execute_chain_program imap iids t
    else if decide (i_Status i = INSTANCE_EXECUTED) then execute_chain_program imap iids t
    else Halt (Fail (Errorf "Uncommitted dependencies should be handled before calling executeDependencyChain"))).
  assert (rtc advances (act (load p) ≫= k, m) (k i, m)) as Hload.
  { apply rtc_once. unfold advances. cbn [advance act mbind prog_bind fst snd]. by rewrite load_eq, Hp. }
  change (pointer (Some p) ≫= _) with (act (load p) ≫= k). subst k. cbv beta in Hload.
  destruct (decide (i_Status i = INSTANCE_COMMITTED)); [|destruct (decide (i_Status i = INSTANCE_EXECUTED))].
  - pose proof (run_advances (act (applyInstance p))
      (λ _, if decide (i_InstanceID i = t) then mret tt else execute_chain_program imap iids t) m) as Ha.
    rewrite run_act in Ha. set (next := if decide (i_InstanceID i = t) then None else Some (mkChain imap iids t)).
    change ((applyInstance p ≫= λ _, mret next) m) with
      (match applyInstance p m with (Ok _, m') => (Ok next, m') | (Fail e, m') => (Fail e, m') | (Panic, m') => (Panic, m') end).
    subst next. destruct (applyInstance p m) as [[v|er|] m'];
      (eexists; split; [etrans; [exact Hload|exact Ha]|]); [|done..].
    intros c'. cbn. by case_decide; intros [= <-].
  - eexists. split; [exact Hload|]. by intros c' [= <-].
  - by eexists.
Qed.

(** The goroutines that walk through the chains, and others that are left alone. *)
Definition matched (cs : list chain) (gs : list (prog unit)) : Prop :=
  ∃ rest, gs ≡ₚ map program_of cs ++ rest.

Lemma go_advances g g' m m' gs rest :
  rtc advances (g, m) (g', m') → gs ≡ₚ g :: rest →
  ∃ gs', rtc go_step (m, gs) (m', gs') ∧ gs' ≡ₚ g' :: rest.
Proof.
  intros H. remember (g, m) as x. remember (g', m') as y. revert gs g m Heqx.
  induction H as [|x z y Hxz _ IH]; intros gs g m -> Hgs; simplify_eq; [by exists gs; split; [apply rtc_refl|]|].
  assert (g ∈ gs) as (l1 & l2 & ->)%list_elem_of_split by (rewrite Hgs; left).
  rewrite <- Permutation_middle in Hgs. apply Permutation.Permutation_cons_inv in Hgs.
  unfold advances in Hxz. cbn [fst snd] in Hxz. destruct (advance g m) as [g1 m1] eqn:Hadv. subst z.
  destruct (IH eq_refl (l1 ++ g1 :: l2) g1 m1 eq_refl) as (gs' & Hs & Hp); [by rewrite <- Permutation_middle, Hgs|].
  exists gs'. split; [|done]. eapply rtc_l; [|exact Hs]. pose proof (go_advance g m l1 l2) as Hgo. by rewrite Hadv in Hgo.
Qed.

(** A new goroutine computes its order. *)
Lemma order_go p iid i m gs :
  stored m iid p i → ∃ gs', rtc go_step (m, gs) ((getExecutionOrder p m).2, gs') ∧
    gs' ≡ₚ match (getExecutionOrder p m).1 with
           | Ok (ex, []) => executeDependencyChain_program ex p
           | Ok _ => mret tt | Fail e => Halt (Fail e) | Panic => Halt Panic
           end :: gs.
Proof.
  intros Hst. set (fuel := S (S (size (m_instances m)))).
  pose proof (run_advances (getExecutionOrder_program fuel p) (λ x, match x.2 with
    | [] => executeDependencyChain_program x.1 p | _ => mret tt end) m) as Hr.
  unfold fuel in Hr. rewrite run_getExecutionOrder in Hr.
  eapply go_advances in Hr as (gs' & Hs & Hp); [|symmetry; apply Permutation_cons_append].
  exists gs'. split; [eapply rtc_l; [by eapply (go_spawn fuel)|exact Hs]|]. rewrite Hp.
  by destruct (getExecutionOrder p m).1 as [[ex [|]]|e|].
Qed.

Lemma chain_step_go m cs m' cs' gs :
  tame (m, gs) → chain_step (m, cs) (m', cs') → matched cs gs → ∃ gs', rtc go_step (m, gs) (m', gs') ∧ matched cs' gs'.
Proof.
  intros Ht Hstep [rest Hgs]. inversion Hstep; clear Hstep; simplify_eq.
  - destruct (order_go p iid i m gs ltac:(done)) as (gs' & Hs & Hp).
    match goal with H : getExecutionOrder p m = _ |- _ => rewrite H in Hs, Hp end. cbn [fst snd] in Hs, Hp.
    exists gs'. split; [done|]. eexists. by rewrite Hp, Hgs, Permutation_middle.
  - destruct (order_go p iid i m gs ltac:(done)) as (gs1 & Hs & Hp).
    pose proof (preserves_getExecutionOrder any_ballot p m (tame_wf _ Ht)) as [Hwf' [He _]].
    match goal with H : getExecutionOrder p m = _ |- _ => rewrite H in Hs, Hp, Hwf', He end. cbn [fst snd] in Hs, Hp, Hwf', He.
    destruct (He iid p i ltac:(done)) as (i' & [Hp' Hi'] & _). destruct (wf_ptr _ Hwf' _ _ Hp') as (? & ? & Hid & _). simplify_eq.
    destruct (go_advances (executeDependencyChain_program ex p) (program_of (start_chain ex (i_InstanceID i') m')) m' m' gs1 gs)
      as (gs2 & Hs2 & Hp2); [|done|].
    { eapply rtc_l; [reflexivity|]. apply rtc_once. unfold advances. cbn. by rewrite load_eq, Hi'. }
    exists gs2. split; [by etrans|]. exists rest. rewrite Hp2, Hgs. done.
  - rewrite map_app, <- app_assoc in Hgs. cbn [map app] in Hgs. rewrite <- Permutation_middle in Hgs.
    destruct (pass_advances c m) as (g & Ha & Hg).
    match goal with H : chain_pass c m = _ |- _ => rewrite H in Ha, Hg end. rewrite (Hg _ eq_refl) in Ha.
    destruct (go_advances _ _ _ _ _ _ Ha Hgs) as (gs' & Hs & Hp). exists gs'. split; [done|]. exists rest.
    rewrite map_app, <- app_assoc. cbn [map app]. by rewrite <- Permutation_middle.
  - rewrite map_app, <- app_assoc in Hgs. cbn [map app] in Hgs. rewrite <- Permutation_middle in Hgs.
    destruct (pass_advances c m) as (g & Ha & _).
    match goal with H : chain_pass c m = _ |- _ => rewrite H in Ha end. 
    destruct (go_advances _ _ _ _ _ _ Ha Hgs) as (gs' & Hs & Hp). exists gs'. split; [done|]. exists (g :: rest).
    by rewrite map_app, Hp, app_assoc, Permutation_middle.
  - rewrite map_app, <- app_assoc in Hgs. cbn [map app] in Hgs. exists gs. split; [apply rtc_refl|]. exists (program_of c :: rest).
    by rewrite Hgs, map_app, <- Permutation_middle, app_assoc, Permutation_middle.
Qed.

Context (agreed : InstanceID → list InstanceID).

Lemma go_agreeing x y :
  rtc go_step x y → all_safe agreed True x → rtc (interleaved_agreeing agreed) x y.
Proof.
  induction 1 as [x|x y z Hxy _ IH]; intros Hx; [apply rtc_refl|].
  destruct (all_safe_go agreed True x y Hx Hxy) as [Hy _]. eapply rtc_l; [|by apply IH].
  split; [by apply interleaved_go|]. destruct Hy as [[_ Ha _] _]. by apply Ha.
Qed.

(** Whatever [Concurrent] reaches is reached. *)
Lemma undisturbed_reached s now m cs :
  rtc (agreeing_step agreed) (NewManager s now, []) (m, cs) →
  ∃ gs, rtc (interleaved_agreeing agreed) (NewManager s now, []) (m, gs) ∧ matched cs gs.
Proof.
  intros H.
  refine (rtc_ind_r (λ y, ∃ gs, rtc (interleaved_agreeing agreed) (NewManager s now, []) (y.1, gs) ∧ matched y.2 gs)
    (NewManager s now, []) _ _ (m, cs) H); [by exists []; split; [apply rtc_refl|exists []]|]. clear m cs H.
  intros [m cs] [m' cs'] _ [Hstep Ha] (gs & Hr & Hm). cbn [fst snd] in *.
  inversion Hstep as [msg ? ? Hc|A op ? ? Hop|? ? Hgo]; simplify_eq.
  - exists gs. split; [|done]. eapply rtc_r; [exact Hr|]. split; [by apply interleaved_message|done].
  - exists gs. split; [|done]. eapply rtc_r; [exact Hr|]. split; [by apply interleaved_local|done].
  - destruct (chain_step_go m cs m' cs' gs) as (gs' & Hs & Hm'); try done.
    { apply (reached_tame s now). eapply rtc_subrel; [|exact Hr]. by intros ? ? []. }
    exists gs'. split; [|done]. etrans; [exact Hr|]. apply go_agreeing; [done|]. by eapply reached_safe.
Qed.

End undisturbed.

(** One depends on the other and not the other way round, or both depend on each
    other directly. *)
Definition related (agreed : InstanceID → list InstanceID) (x y : InstanceID) : Prop :=
  (needs agreed x y ∧ ¬ rtc (needs agreed) y x) ∨ (needs agreed y x ∧ ¬ rtc (needs agreed) x y) ∨
  (needs agreed x y ∧ needs agreed y x).

Lemma related_direct `{UUIDLib} agreed x y :
  B16_wf x → B16_wf y → x ≠ y → related agreed x y → direct_first agreed x y ∨ direct_first agreed y x.
Proof.
  intros Bx By Hne [[H1 H2]|[[H1 H2]|[H1 H2]]].
  - right. split; [done|by left].
  - left. split; [done|by left].
  - destruct (earlier_total x y Bx By Hne) as [He|He]; [left|right]; (split; [done|by right]).
Qed.

Lemma same_direct_order `{UUIDLib} agreed l1 l2 x y :
  NoDup l1 → NoDup l2 → (∀ x y, y ∈ l1 → direct_first agreed x y → precedes l1 x y) →
  (∀ x y, y ∈ l2 → direct_first agreed x y → precedes l2 x y) →
  B16_wf x → B16_wf y → x ≠ y → related agreed x y →
  x ∈ l1 → y ∈ l1 → x ∈ l2 → y ∈ l2 → precedes l1 x y ↔ precedes l2 x y.
Proof.
  intros N1 N2 O1 O2 Bx By Hne Hr X1 Y1 X2 Y2.
  destruct (related_direct agreed x y Bx By Hne Hr) as [Hd|Hd].
  - split; intros _; auto.
  - split; intros Hp; exfalso; [apply (precedes_asym l1 x y N1 Hp)|apply (precedes_asym l2 x y N2 Hp)]; auto.
Qed.


(** ** Schedules *)

(** One choice of a scheduler: deliver a message, start a goroutine for an
    instance, let the [n]th goroutine take its next action. *)
Inductive go_choice :=
  | GDeliver (msg : Message)
  | GSpawn (fuel : nat) (iid : InstanceID)
  | GAdvance (n : nat).

Section schedules.
Context {St : Store} {Mo : MapOrder} {Uu : UUIDLib}.

Definition go_perform (a : go_choice) (x : Manager * list (prog unit)) : option (Manager * list (prog unit)) :=
  let '(m, gs) := x in
  match a with
  | GDeliver msg => Some ((HandleMessage msg m).2, gs)
  | GSpawn fuel iid =>
      p ← m_instances m !! iid;
      i ← m_heap m !! p;
      Some (m, gs ++ [execute_program fuel p])
  | GAdvance n =>
      g ← gs !! n;
      let '(g', m') := advance g m in
      Some (m', <[n := g']> gs)
  end.

Definition clean_go (a : go_choice) : Prop :=
  match a with GDeliver msg => clean_message msg | _ => True end.

Lemma go_perform_go a x y :
  match a with GDeliver _ => False | _ => True end → go_perform a x = Some y → go_step x y.
Proof.
  destruct x as [m gs], a as [msg|fuel iid|n]; cbn; intros Hc H; [done|..].
  - destruct (m_instances m !! iid) as [p|] eqn:Hp; [|done]. cbn in H.
    destruct (m_heap m !! p) as [i|] eqn:Hi; [|done]. cbn in H. simplify_eq. by apply (go_spawn fuel p iid i).
  - destruct (gs !! n) as [g|] eqn:Hn; [|done]. cbn in H. pose proof (go_advance g m (take n gs) (drop (S n) gs)) as Hs.
    rewrite (take_drop_middle gs n g Hn) in Hs. destruct (advance g m) as [g' m']. simplify_eq.
    rewrite insert_take_drop by (by eapply lookup_lt_Some). done.
Qed.

Lemma go_perform_step a x y : clean_go a → go_perform a x = Some y → interleaved_step x y.
Proof.
  intros Hc H. destruct a as [msg|fuel iid|n];
    [|by apply interleaved_go, (go_perform_go (GSpawn fuel iid))|by apply interleaved_go, (go_perform_go (GAdvance n))].
  destruct x as [m gs]. cbn in H. simplify_eq. by apply interleaved_message.
Qed.

(** The states a schedule goes through, as long as each satisfies [ok]. *)
Fixpoint go_play (ok : Manager → bool) (l : list go_choice) (x : Manager * list (prog unit)) :
    option (Manager * list (prog unit)) :=
  match l with
  | [] => Some x
  | a :: l => y ← go_perform a x; if ok y.1 then go_play ok l y else None
  end.

Lemma go_play_steps (P : Manager → Prop) ok l x y :
  (∀ m, ok m = true → P m) → Forall clean_go l → go_play ok l x = Some y →
  rtc (λ x y, interleaved_step x y ∧ P y.1) x y.
Proof.
  intros Hok Hc. revert x. induction Hc as [|a l Ha _ IH]; intros x; cbn; [intros [= <-]; apply rtc_refl|].
  destruct (go_perform a x) as [z|] eqn:Hp; [|done]. cbn. destruct (ok z.1) eqn:Hz; [|done]. intros H.
  eapply rtc_l; [|by apply IH]. split; [by apply (go_perform_step a)|by apply Hok].
Qed.

(** A schedule that executes the given ids. *)
Lemma go_play_reached agreed l m0 ids :
  Forall clean_go l → (m_executed ∘ fst <$> go_play (agreeing agreed) l (m0, [])) = Some ids →
  ∃ m gs, rtc (interleaved_agreeing agreed) (m0, []) (m, gs) ∧ m_executed m = ids.
Proof.
  intros Hc. destruct (go_play _ _ _) as [[m gs]|] eqn:Hp; [|done]. intros [= <-]. exists m, gs.
  split; [|done]. by apply (go_play_steps _ _ l _ _ (agreeing_agrees agreed)).
Qed.

End schedules.

(** ** Examples *)

Section examples.
#[local] Existing Instances LogStore example_placement example_uuid.

Abbreviation go_on n k := (repeat (GAdvance n) k).

Definition go_commits (agreed : InstanceID → list InstanceID) (l : list Z) : list go_choice :=
  (λ n, GDeliver (MCommitRequest (mkCommitRequest (example_request n 1 3 (agreed (mkB16 0 n)))))) <$> l.

Lemma go_commits_clean agreed l l' :
  Forall (λ a, match a with GDeliver _ => False | _ => True end) l' → Forall clean_go (go_commits agreed l ++ l').
Proof.
  intros H. apply Forall_app. split; [|by eapply Forall_impl; [exact H|]; intros []].
  apply Forall_fmap, Forall_true. done.
Qed.

(** Two goroutines in turns; one after the other, with other instances first. *)
Definition go_schedule1 : list go_choice :=
  go_commits example_agreed [1; 2; 3] ++ [GSpawn 9 (mkB16 0 3); GSpawn 9 (mkB16 0 2)] ++
  mjoin (repeat [GAdvance 0; GAdvance 1; GAdvance 1] 40).
Definition go_schedule2 : list go_choice :=
  go_commits example_agreed [2; 1; 3] ++ [GSpawn 9 (mkB16 0 2)] ++ go_on 0 30 ++ [GSpawn 9 (mkB16 0 3)] ++ go_on 1 30.

Lemma go_example_reached (Mo : MapOrder) l :
  l = go_schedule1 ∨ l = go_schedule2 →
  (m_executed ∘ fst <$> go_play (agreeing example_agreed) l (example_empty, [])) = Some (mkB16 0 <$> [1; 2; 3]) →
  ∃ m gs, rtc (interleaved_agreeing example_agreed) (example_empty, []) (m, gs) ∧ m_executed m = mkB16 0 <$> [1; 2; 3].
Proof.
  intros Hl. apply go_play_reached. destruct Hl as [-> | ->]; apply go_commits_clean; by repeat constructor.
Qed.

Lemma interleaved_execution_ordered_witness :
  ∃ m gs, rtc (interleaved_agreeing (Mo := MapOrder_id) example_agreed) (example_empty, []) (m, gs) ∧
    precedes (m_executed m) (mkB16 0 1) (mkB16 0 2).
Proof.
  destruct (go_example_reached MapOrder_id go_schedule1) as (m & gs & Hr & E); [by left|vm_compute; reflexivity|].
  exists m, gs. split; [exact Hr|].
  apply (interleaved_execution_ordered (Mo := MapOrder_id) example_agreed ([] : @store_state LogStore) Time_zero m gs).
  - exact Hr.
  - rewrite E. right. left.
  - split; [left|]. right. split; [left|]. vm_compute. auto.
Defined.


(** 1, 2, 3 and 4 form a cycle, and 5 depends on 4. *)
Definition ring_agreed (x : InstanceID) : list InstanceID :=
  if decide (x = mkB16 0 1) then [mkB16 0 2]
  else if decide (x = mkB16 0 2) then [mkB16 0 3]
  else if decide (x = mkB16 0 3) then [mkB16 0 4]
  else if decide (x = mkB16 0 4) then [mkB16 0 1]
  else if decide (x = mkB16 0 5) then [mkB16 0 4] else [].

(** One goroutine executes everything up to 5; or a goroutine for 5 has read 5 and
    4 when another orders the cycle, records it and executes 1 and 2. *)
Definition ring_alone : list go_choice :=
  go_commits ring_agreed [1; 2; 3; 4; 5] ++ [GSpawn 9 (mkB16 0 5)] ++ go_on 0 40.
Definition ring_split : list go_choice :=
  go_commits ring_agreed [1; 2; 3; 4; 5] ++
  [GSpawn 9 (mkB16 0 5)] ++ go_on 0 6 ++ [GSpawn 9 (mkB16 0 3)] ++ go_on 1 25 ++ go_on 0 40 ++ go_on 1 40.

(** C8. A cycle can be split.  Two replicas commit the same five commands with the
    same dependencies: 1 depends on 2, 2 on 3, 3 on 4, 4 on 1, and 5 on 4.  One
    executes 3 before 4, as their ids say; the other executes 4 before 3, although 3 depends
    directly on 4.  There a goroutine that computes the order for 5 has read 5 and
    4, and not yet 1, when another records the component of 1, 2, 3 and 4 and
    executes 1 and 2: the first one then finds 1 executed, does not know that it
    belongs to a component, since it read that of 4 before it was recorded, and
    leaves it out, so that 4 looks as if it were on no cycle. *)
Theorem cycle_split_by_interleaving :
  ∃ m1 gs1 m2 gs2,
    rtc (interleaved_agreeing (Mo := MapOrder_id) ring_agreed) (example_empty, []) (m1, gs1) ∧
    rtc (interleaved_agreeing (Mo := MapOrder_id) ring_agreed) (example_empty, []) (m2, gs2) ∧
    m_executed m1 ≡ₚ m_executed m2 ∧ needs ring_agreed (mkB16 0 3) (mkB16 0 4) ∧
    precedes (m_executed m1) (mkB16 0 3) (mkB16 0 4) ∧ precedes (m_executed m2) (mkB16 0 4) (mkB16 0 3).
Proof.
  destruct (go_play_reached (Mo := MapOrder_id) ring_agreed ring_alone example_empty (mkB16 0 <$> [1; 2; 3; 4; 5]))
    as (m1 & gs1 & H1 & E1); [apply go_commits_clean; by repeat constructor|vm_compute; reflexivity|].
  destruct (go_play_reached (Mo := MapOrder_id) ring_agreed ring_split example_empty (mkB16 0 <$> [1; 2; 4; 5; 3]))
    as (m2 & gs2 & H2 & E2); [apply go_commits_clean; by repeat constructor|vm_compute; reflexivity|].
  exists m1, gs1, m2, gs2. rewrite E1, E2. split_and!; [done|done| |left| |].
  - apply (bool_decide_eq_true_1 _). vm_compute. reflexivity.
  - apply (precedes_app [mkB16 0 1; mkB16 0 2; mkB16 0 3] [mkB16 0 4; mkB16 0 5]); set_solver.
  - apply (precedes_app [mkB16 0 1; mkB16 0 2; mkB16 0 4; mkB16 0 5] [mkB16 0 3]); set_solver.
Qed.

End examples.
