(* ===== verification/Network.v ===== *)
(** * Two commands and their quorums

    The preaccept phases of two leaders and the replicas that answer them, put
    together: the leader's part is [managerPreAcceptPhase] of
    [src/consensus/manager_preaccept.go], the answers come from
    [HandlePreAccept] at the other replicas, and each replica does whatever else
    it does in between ([Interleaved.interleaved_step]). *)

From S2P Require Import Prelude Bytes Types GoTime Serializer Instruction Containers.
From S2P Require Import Instance Dependencies Messages Manager Invariant Prepare Handlers.
From S2P Require Import Tarjan Execute Order Execution Leader Replica Frame Components Concurrent Interleaved.

(** ** A replica's part in a preaccept *)

Section votes.
Context {St : Store} {Mo : MapOrder} {Pl : Placement}.
Abbreviation M := (ST Manager error).

(** The replica preaccepts [x] and takes [deps] as its dependencies: it is asked
    and has not gone beyond a preaccept of it, or it leads it. *)
Inductive preaccepts (x : Instance) (deps : list InstanceID) (m m' : Manager) : Prop :=
  | preaccepts_asked r resp :
      i_InstanceID r = i_InstanceID x → same_command x (incoming m r) →
      i_Status (incoming m r) ≤ INSTANCE_PREACCEPTED →
      HandlePreAccept (mkPreAcceptRequest r) m = (Ok resp, m') → pa_Accepted resp = true →
      deps = i_Dependencies (pa_Instance resp) → preaccepts x deps m m'
  | preaccepts_leads p i :
      m_heap m !! p = Some x → m_instances m !! i_InstanceID x = None →
      i_Status x ≤ INSTANCE_PREACCEPTED → preAcceptInstance p true m = (Ok tt, m') →
      stored m' (i_InstanceID x) p i → deps = i_Dependencies i → preaccepts x deps m m'.

Lemma accepted_newer m r resp m' :
  wf m → HandlePreAccept (mkPreAcceptRequest r) m = (Ok resp, m') → pa_Accepted resp = true → newer m r.
Proof.
  intros Hm Hrun Ha i Hi. destruct (decide (i_MaxBallot i < i_MaxBallot r)) as [|Hlt]; [done|].
  destruct (stale_rejected m r i) as [Hr _]; [done..|lia|]. rewrite Hr in Hrun. by simplify_eq.
Qed.

(** The leader's own preaccept of a new instance. *)
Lemma preAcceptInstance_new m p x :
  wf m → m_heap m !! p = Some x → m_instances m !! i_InstanceID x = None →
  i_Status x ≤ INSTANCE_PREACCEPTED → keys_of x ≠ [] →
  ∃ m' i', preAcceptInstance p true m = (Ok tt, m') ∧ stored m' (i_InstanceID x) p i' ∧
    i_Status i' = INSTANCE_PREACCEPTED ∧
    (∀ id, id ∈ i_Dependencies i' ↔ id ≠ i_InstanceID x ∧ interfering x (view (m_depsMngr m)) id) ∧
    ∀ k, view (m_depsMngr m') k = at_path (keys_of x) (spec_record x) (view (m_depsMngr m)) k.
Proof.
  intros Hm Hp Hn Hs Hk. assert (initialize x = x) as Hx.
  { unfold initialize. rewrite decide_False; [done|]. unfold INSTANCE_PREACCEPTED, INSTANCE_COMMITTED in *. lia. }
  unfold preAcceptInstance. rewrite (bind_run _ _ _ _ _ (getOrSetInstance_new _ _ _ Hp Hn)). cbn [fst].
  set (m1 := inserted p x m). set (i1 := with_Status INSTANCE_PREACCEPTED x).
  assert (m_depsMngr m1 = m_depsMngr m) as Hd by (unfold m1, inserted; rewrite Hx, decide_False by lia; done).
  assert (keys_of i1 ≠ []) as Hk1 by done.
  destruct (preaccept_ok m1 p p x None i1 true) as (ids & dm' & Hg & Hrun); [| |unfold Instance.preaccept_enter|done|].
  { unfold m1, inserted. cbn. by rewrite lookup_insert_eq, Hx. }
  { unfold arg_value. by rewrite decide_True. }
  { by rewrite decide_False by lia. }
  rewrite Hd in Hg. destruct (mngr_GetAndSetDeps i1 (m_depsMngr m) Hk1) as (ids' & dm'' & Hg' & _ & Hids & Hv).
  rewrite Hg in Hg'. simplify_eq. eexists _, _. split; [exact Hrun|]. split; [split; [|cbn; apply lookup_insert_eq]|].
  { unfold m1, inserted. cbn. apply lookup_insert_eq. }
  split_and!; [done| |exact Hv]. intros id. change (i_Dependencies _) with ids' at 1. by rewrite Hids.
Qed.

Lemma preaccepts_grows x deps m m' : preaccepts x deps m m' → grows any_ballot m m'.
Proof.
  intros [r resp _ _ _ Hrun _ _|p i _ _ _ Hrun _ _].
  - pose proof (preserves_HandlePreAccept any_ballot ltac:(done) (mkPreAcceptRequest r) m) as Hg. by rewrite Hrun in Hg.
  - pose proof (preserves_preAcceptInstance any_ballot ltac:(done) true ltac:(done) p m) as Hg. by rewrite Hrun in Hg.
Qed.

(** What it takes as dependencies, and that others will from then on. *)
Lemma preaccepts_spec x deps m m' :
  wf m → keys_of x ≠ [] → preaccepts x deps m m' →
  (∀ id, id ∈ deps ↔ id ≠ i_InstanceID x ∧ interfering x (view (m_depsMngr m)) id) ∧
  pending x (view (m_depsMngr m')).
Proof.
  intros Hm Hk [r resp Hid (S1 & _ & _ & S4 & S5) Hs Hrun Hacc ->|p i Hp Hn Hs Hrun Hst ->].
  - assert (keys_of (incoming m r) = keys_of x) as Hkeys by (unfold keys_of; by rewrite S4).
    pose proof (accepted_newer m r resp m' Hm Hrun Hacc) as Hnew. rewrite <- Hkeys in Hk.
    pose proof (preaccept_pending m r Hm Hnew Hs Hk) as Hpend. rewrite Hrun in Hpend.
    destruct (HandlePreAccept_ok m r Hm Hnew Hs Hk) as (m1 & i1 & l & Hrun' & _ & _ & _ & _ & _ & _ & Hids & _).
    rewrite Hrun in Hrun'. simplify_eq. split.
    + intros id. cbn. rewrite Hids, Hid. unfold interfering. by rewrite Hkeys, S5.
    + unfold pending in *. by rewrite <- Hkeys, <- S5, <- S1.
  - destruct (preAcceptInstance_new m p x Hm Hp Hn Hs Hk) as (m1 & i1 & Hrun' & Hst1 & _ & Hids & Hv).
    rewrite Hrun in Hrun'. simplify_eq. destruct Hst as [_ Hi]. destruct Hst1 as [_ Hi1]. simplify_eq.
    split; [done|]. assert (i_InstanceID x ∉ s_executed (view (m_depsMngr m) (keys_of x))) as Hne.
    { intros Hx%(wf_view m Hm). apply (wf_executed m Hm) in Hx as (q & j & [Hq _] & _). by rewrite Hn in Hq. }
    unfold pending. rewrite Hv. unfold at_path. rewrite decide_True by done. cbn.
    destruct (i_ReadOnly x); set_solver.
Qed.

(** A replica that has preaccepted [a] reports it for an interfering [b]. *)
Lemma preaccepts_ordered a b da db m1 m1' m2 m2' :
  wf m1 → preaccepts a da m1 m1' → grows any_ballot m1' m2 → preaccepts b db m2 m2' →
  keys_of a ≠ [] → keys_of b ≠ [] → i_InstanceID a ≠ i_InstanceID b →
  interferes (keys_of a) (keys_of b) → i_ReadOnly a && i_ReadOnly b = false →
  i_InstanceID a ∉ m_executed m2 → i_InstanceID a ∈ db.
Proof.
  intros Hm1 Ha Hg Hb Hka Hkb Hne Hint Hro Hx. destruct (Hg (proj1 (preaccepts_grows _ _ _ _ Ha Hm1))) as [Hm2 [_ _ Hpend]].
  destruct (preaccepts_spec a da m1 m1' Hm1 Hka Ha) as [_ Hp].
  destruct (preaccepts_spec b db m2 m2' Hm2 Hkb Hb) as [Hd _]. apply Hd. split; [done|].
  apply pending_interfering; auto.
Qed.

End votes.

(** ** The leader's phase *)

Section phase.
Context {St : Store} {Mo : MapOrder} {Pl : Placement}.
Abbreviation M := (ST Manager error).

Lemma sendPreAccept_ok p replicas w m rs m' :
  sendPreAccept p replicas w m = (Ok rs, m') →
  (awaited replicas ≤ length (w_arrivals w))%nat ∧ rs = take (awaited replicas) (w_arrivals w) ∧
  ∃ out, w_meanwhile w (with_outbox out m) = Some m'.
Proof.
  unfold sendPreAccept. rewrite bind_load. destruct (m_heap m !! p) as [i|]; [|done]. rewrite receive_quorum.
  intros ([] & m1 & Hsend & H)%bind_ok. unfold send, modify in Hsend. simplify_eq.
  apply bind_ok in H as ([] & m2 & Hwait & H). unfold wait in Hwait.
  destruct (w_meanwhile w _) as [m3|] eqn:Hm3; [|done]. simplify_eq.
  case_decide; [done|]. case_match; [st_inv|by apply bind_ok in H as (? & ? & ? & ?)].
  split_and!; [lia|done|by eexists].
Qed.

(** The phase of a leader whose copy of the new instance is left alone while it
    waits: it goes on with what itself and the first of those who have answered
    have taken as dependencies. *)
Lemma managerPreAcceptPhase_merges m p x w m1 i1 changed m' :
  wf m → m_heap m !! p = Some x → m_instances m !! i_InstanceID x = None → i_Status x ≤ INSTANCE_PREACCEPTED →
  keys_of x ≠ [] →
  (∀ m1 m2, w_meanwhile w m1 = Some m2 → grows any_ballot m1 m2 ∧ lookup m2 (i_InstanceID x) = lookup m1 (i_InstanceID x)) →
  preAcceptInstance p true m = (Ok tt, m1) → stored m1 (i_InstanceID x) p i1 →
  managerPreAcceptPhase p w m = (Ok (changed, None), m') →
  (awaited (getInstanceReplicas x) ≤ length (w_arrivals w))%nat ∧
  ∃ i', stored m' (i_InstanceID x) p i' ∧
    ∀ d, d ∈ i_Dependencies i1 ∨
         (∃ r, r ∈ take (awaited (getInstanceReplicas x)) (w_arrivals w) ∧ d ∈ i_Dependencies (pa_Instance r)) →
      d ∈ i_Dependencies i'.
Proof.
  intros Hm Hp Hn Hs Hk Hw Hpre Hst1 Hrun.
  destruct (preAcceptInstance_new m p x Hm Hp Hn Hs Hk) as (m1' & i1' & E & Hst & Hstat & _).
  rewrite Hpre in E. injection E as <-. destruct Hst as [_ E]. rewrite (proj2 Hst1) in E. injection E as <-.
  assert (wf m1) as Hm1.
  { pose proof (preserves_preAcceptInstance any_ballot ltac:(done) true ltac:(done) p m) as Hg. rewrite Hpre in Hg. by apply Hg. }
  unfold managerPreAcceptPhase in Hrun. rewrite bind_load, Hp in Hrun. cbv zeta in Hrun.
  rewrite bind_try, Hpre in Hrun. rewrite bind_ret, bind_instances_Get, (proj1 Hst1) in Hrun. cbn [deref] in Hrun.
  rewrite bind_ret, bind_try in Hrun.
  destruct (sendPreAccept p _ w m1) as [[rs|e|] m2] eqn:Hsend; [|by st_inv|done].
  apply sendPreAccept_ok in Hsend as (Hlen & -> & out & Hwait). split; [done|].
  destruct (Hw _ _ Hwait) as [Hg Hl]. assert (wf m2) as Hm2.
  { apply Hg. destruct Hm1. by split. }
  change (lookup (with_outbox out m1) (i_InstanceID x)) with (lookup m1 (i_InstanceID x)) in Hl.
  assert (stored m2 (i_InstanceID x) p i1) as Hst2.
  { assert (lookup m2 (i_InstanceID x) = Some i1) as (q & Hq & Hqi)%lookup_stored
      by (rewrite Hl; apply lookup_stored; by exists p).
    destruct (Hg ltac:(destruct Hm1; by split)) as [_ [Hs2 _ _]]. destruct (Hs2 _ _ _ Hst1) as (j & [Hj _] & _).
    split; [done|]. by simplify_eq. }
  rewrite bind_try in Hrun. set (rs := take _ _) in *.
  pose proof (preserves_for_each keeps_stored (λ r, addMissing (pa_MissingInstances r)) rs
    (λ r _, keeps_addMissing (pa_MissingInstances r)) m2 Hm2) as [_ Hkeep].
  destruct (for_each _ rs m2) as [[[]|e|] m3]; [|by st_inv|done]. specialize (Hkeep _ _ _ Hst2).
  destruct (mergePreAcceptAttributes_spec p rs m3 i1 false (proj2 Hkeep) Hstat) as (i' & c & Hmerge & _ & Hd & _).
  rewrite Hmerge in Hrun. simplify_eq. exists i'. split; [split; [apply Hkeep|cbn; apply lookup_insert_eq]|].
  intros d Hd'. rewrite <- (elem_of_list_to_set (C := gset InstanceID)), Hd, elem_of_union, elem_of_list_to_set.
  destruct Hd' as [?|(r & Hr & Hx)]; [by left|right]. apply elem_of_union_list.
  eexists. split; [by apply list_elem_of_fmap; exists r|by apply elem_of_list_to_set].
Qed.

End phase.

(** ** Two leaders *)

Section network.
Context {St : Store} {Uu : UUIDLib}.

(** Every node ranges over maps in its own way and knows who it is. *)
Context (mo : NodeId → MapOrder) (pl : NodeId → Placement).

(** A node's part in a phase: the moment before its preaccept, the state after
    it, and what it has taken as dependencies. *)
Record Vote := mkVote {
  v_before : Manager * list (prog unit);
  v_after : Manager;
  v_deps : list InstanceID;
}.

Definition votes (n : NodeId) (x : Instance) (v : Vote) : Prop :=
  (∃ s now, rtc (interleaved_step (Mo := mo n)) (NewManager s now, []) (v_before v)) ∧
  preaccepts (Mo := mo n) x (v_deps v) (v_before v).1 (v_after v).

(** The leader: its instance, what it waits for, and the nodes that the answers
    it gets come from. *)
Record Lead := mkLead {
  l_node : NodeId;
  l_ptr : ptr;
  l_wait : Wait PreAcceptResponse;
  l_answers : list NodeId;
}.

(** The nodes whose votes count. *)
Definition voters (x : Instance) (l : Lead) : list NodeId :=
  l_node l :: take (awaited (getInstanceReplicas (Pl := pl (l_node l)) x)) (l_answers l).

(** The leader [l] of [x] ends its preaccept phase with the dependencies [D]. *)
Record leads (x : Instance) (l : Lead) (vs : NodeId → Vote) (D : list InstanceID) : Prop := {
  ld_new : let m := (v_before (vs (l_node l))).1 in
    m_heap m !! l_ptr l = Some x ∧ m_instances m !! i_InstanceID x = None ∧ i_Status x ≤ INSTANCE_PREACCEPTED;
  ld_own : preAcceptInstance (Mo := mo (l_node l)) (l_ptr l) true (v_before (vs (l_node l))).1 =
      (Ok tt, v_after (vs (l_node l))) ∧
    ∃ i, stored (v_after (vs (l_node l))) (i_InstanceID x) (l_ptr l) i ∧ v_deps (vs (l_node l)) = i_Dependencies i;
  ld_wait : ∀ m1 m2, w_meanwhile (l_wait l) m1 = Some m2 →
    grows any_ballot m1 m2 ∧ lookup m2 (i_InstanceID x) = lookup m1 (i_InstanceID x);
  ld_answers : Forall2 (λ r n, v_deps (vs n) = i_Dependencies (pa_Instance r)) (w_arrivals (l_wait l)) (l_answers l);
  ld_nodes : NoDup (l_node l :: l_answers l) ∧
    l_node l :: l_answers l ⊆ local_nodes (Placement := pl (l_node l)) (Key (i_Command x));
  ld_phase : ∃ changed m' i',
    managerPreAcceptPhase (Mo := mo (l_node l)) (Pl := pl (l_node l)) (l_ptr l) (l_wait l) (v_before (vs (l_node l))).1 =
      (Ok (changed, None), m') ∧
    stored m' (i_InstanceID x) (l_ptr l) i' ∧ D = i_Dependencies i';
}.

Lemma leads_quorum x l vs D :
  leads x l vs D → keys_of x ≠ [] → wf (v_before (vs (l_node l))).1 →
  length (voters x l) = quorumSize (getInstanceReplicas (Pl := pl (l_node l)) x) ∧
  ∀ n d, n ∈ voters x l → d ∈ v_deps (vs n) → d ∈ D.
Proof.
  intros [(Hp & Hn & Hs) (Hpre & i1 & Hst & Hown) Hw Hans _ (c & m' & i' & Hrun & Hi' & ->)] Hk Hm.
  destruct (managerPreAcceptPhase_merges (Mo := mo (l_node l)) (Pl := pl (l_node l)) _ _ x _ _ i1 c m' Hm Hp Hn Hs Hk Hw
    Hpre Hst Hrun) as (Hlen & j & Hj & Hd).
  assert (j = i') as -> by (destruct Hj as [_ E1], Hi' as [_ E2]; rewrite E1 in E2; by injection E2).
  pose proof (Forall2_length _ _ _ Hans) as Hl. split.
  - unfold voters. cbn [length]. rewrite length_take_le by lia. unfold awaited, quorumSize in *. lia.
  - intros n d Hin Hdn. apply Hd. apply elem_of_cons in Hin as [->|Hin]; [left; by rewrite <- Hown|right].
    apply list_elem_of_lookup in Hin as [k Hkn]. 
    apply (Forall2_take _ _ _ (awaited (getInstanceReplicas (Pl := pl (l_node l)) x))) in Hans.
    destruct (Forall2_lookup_r _ _ _ _ _ Hans Hkn) as (r & Hr & E). exists r. split; [by eapply list_elem_of_lookup_2|].
    by rewrite <- E.
Qed.

(** The votes of two commands at one node come one after the other, and when the
    second comes the first has not been executed there. *)
Definition one_after_the_other (n : NodeId) (a b : Instance) (va vb : Vote) : Prop :=
  rtc (interleaved_step (Mo := mo n)) (v_after va, (v_before va).2) (v_before vb) ∧
  i_InstanceID a ∉ m_executed (v_before vb).1.

Lemma votes_ordered n a b va vb :
  votes n a va → votes n b vb → one_after_the_other n a b va vb →
  keys_of a ≠ [] → keys_of b ≠ [] → i_InstanceID a ≠ i_InstanceID b →
  interferes (keys_of a) (keys_of b) → i_ReadOnly a && i_ReadOnly b = false → i_InstanceID a ∈ v_deps vb.
Proof.
  intros [(s & now & Hr) Ha] [_ Hb] [Hsteps Hx] Hka Hkb Hne Hint Hro.
  pose proof (reached_tame s now _ Hr) as Ht. pose proof (tame_wf _ Ht) as Hm.
  assert (grows any_ballot (v_before va).1 (v_after va)) as Hg by by eapply preaccepts_grows.
  destruct (tame_steps _ _ Hsteps) as [_ Hg'].
  { apply (tame_grows (v_before va).1); [by destruct (v_before va)|done]. }
  by eapply preaccepts_ordered.
Qed.

(** C5. Of two interfering commands one depends on the other.  Two leaders, which
    may be the same node, run the preaccept phases of commands with interfering
    keys, not both of them reads, on an odd number of replicas.  The replicas
    answer in any order, in between do anything else, and range over their maps
    in different ways.  Provided that no leader's own copy of its command changes
    while it waits for answers, and that at a replica which preaccepts both the
    first is not yet executed when it preaccepts the second, one of the two goes on with
    the other among its dependencies if both phases succeed: their quorums share a
    replica, and there the command that came second depends on the first. *)
Theorem quorums_relate_interfering_commands (a b : Instance) (la lb : Lead) (va vb : NodeId → Vote)
    (Da Db : list InstanceID) (nodes : list NodeId)
    (Hid : ∀ n, local_id (Placement := pl n) = n)
    (Hnodes : ∀ n, local_nodes (Placement := pl n) (Key (i_Command a)) = nodes ∧
                   local_nodes (Placement := pl n) (Key (i_Command b)) = nodes)
    (Hodd : Nat.Odd (length nodes))
    (Hleada : leads a la va Da) (Hleadb : leads b lb vb Db)
    (Hvotesa : ∀ n, n ∈ voters a la → votes n a (va n)) (Hvotesb : ∀ n, n ∈ voters b lb → votes n b (vb n))
    (Hkeysa : keys_of a ≠ []) (Hkeysb : keys_of b ≠ []) (Hdistinct : i_InstanceID a ≠ i_InstanceID b)
    (Hinterferes : interferes (keys_of a) (keys_of b)) (Hwrite : i_ReadOnly a && i_ReadOnly b = false)
    (Hshared : ∀ n, n ∈ voters a la → n ∈ voters b lb →
       one_after_the_other n a b (va n) (vb n) ∨ one_after_the_other n b a (vb n) (va n)) :
  i_InstanceID a ∈ Db ∨ i_InstanceID b ∈ Da.
Proof.
  assert (∀ x l vs D, leads x l vs D → (∀ n, n ∈ voters x l → votes n x (vs n)) → keys_of x ≠ [] →
    local_nodes (Placement := pl (l_node l)) (Key (i_Command x)) = nodes →
    NoDup (voters x l) ∧ voters x l ⊆ nodes ∧ (length nodes < length (voters x l) + length (voters x l))%nat ∧
    ∀ n d, n ∈ voters x l → d ∈ v_deps (vs n) → d ∈ D) as Hquorum.
  { clear - Hid Hodd. intros x l vs D Hl Hv Hk Hn. destruct (Hv (l_node l)) as [(s & now & Hr) _]; [left|].
    pose proof (tame_wf _ (reached_tame s now _ Hr)) as Hm. destruct (leads_quorum x l vs D Hl Hk Hm) as [Hlen Hd].
    destruct (ld_nodes _ _ _ _ Hl) as [Hnd Hsub]. rewrite Hn in Hsub.
    pose proof (length_getInstanceReplicas (Pl := pl (l_node l)) x) as Hlr. rewrite Hid, Hn in Hlr.
    specialize (Hlr (Hsub _ (list_elem_of_here _ _))). unfold quorumSize in Hlen. destruct Hodd as [k Hk'].
    assert (voters x l `sublist_of` l_node l :: l_answers l) as Hsl by (apply sublist_skip, sublist_take).
    split_and!; [by eapply sublist_NoDup|by etrans; [apply sublist_subseteq|]| |done].
    rewrite Hlen. set (r := length (getInstanceReplicas (Pl := pl (l_node l)) x)) in *.
    pose proof (Nat.div_mod_eq r 2). pose proof (Nat.mod_upper_bound r 2 ltac:(done)). lia. }
  destruct (Hquorum a la va Da) as (Na & Sa & La & Ha); [done|done|done|apply Hnodes|].
  destruct (Hquorum b lb vb Db) as (Nb & Sb & Lb & Hb); [done|done|done|apply Hnodes|].
  destruct (quorums_overlap nodes (voters a la) (voters b lb)) as (n & Hna & Hnb); [done..|lia|].
  destruct (Hshared n Hna Hnb) as [Ho|Ho]; [left; apply (Hb n); [done|]|right; apply (Ha n); [done|]];
    eapply votes_ordered; eauto.
  - destruct Hinterferes; [by right|by left].
  - by rewrite andb_comm.
Qed.

End network.

(** ** Example *)

Section examples.
#[local] Existing Instances LogStore MapOrder_id example_uuid.

Definition node (k : Z) : NodeId := mkB16 1 k.

(** Three replicas of every key. *)
Definition example_place (n : NodeId) : Placement := {|
  local_id := n;
  local_nodes := λ _, [node 1; node 2; node 3];
  local_nodes_NoDup := λ _, example_nodes_NoDup;
|}.

(** Node 1 leads [1], node 3 leads [2], node 2 answers both. *)
Definition net_instance (n : Z) : Instance := example_request n 0 0 [].
Definition net_ptr : ptr := 1%positive.
Definition net_new (n : Z) : Manager := with_heap {[net_ptr := net_instance n]} example_empty.
Definition net_own (n : Z) : Manager := (preAcceptInstance net_ptr true (net_new n)).2.
Definition net_stored (n : Z) : Instance := default Instance_zero (lookup (net_own n) (mkB16 0 n)).
Definition net_request (n : Z) : PreAcceptRequest := mkPreAcceptRequest (Instance.Copy (net_stored n)).

Definition net_asked1 : Manager := (HandlePreAccept (net_request 1) example_empty).2.
Definition net_asked2 : Manager := (HandlePreAccept (net_request 2) net_asked1).2.
Definition net_answer (n : Z) (m : Manager) : PreAcceptResponse :=
  match (HandlePreAccept (net_request n) m).1 with Ok r => r | _ => mkPreAcceptResponse false 0 Instance_zero [] end.

Definition net_own_vote (n : Z) : Vote := mkVote (net_new n, []) (net_own n) [].
Definition net_votes1 (n : NodeId) : Vote :=
  if decide (n = node 1) then net_own_vote 1 else mkVote (example_empty, []) net_asked1 [].
Definition net_votes2 (n : NodeId) : Vote :=
  if decide (n = node 3) then net_own_vote 2 else mkVote (net_asked1, []) net_asked2 [mkB16 0 1].

Definition net_lead1 : Lead :=
  mkLead (node 1) net_ptr (mkWait Some [net_answer 1 example_empty]) [node 2].
Definition net_lead2 : Lead :=
  mkLead (node 3) net_ptr (mkWait Some [net_answer 2 net_asked1]) [node 2].

Lemma net_new_reached n : rtc interleaved_step (example_empty, []) (net_new n, []).
Proof. apply rtc_once. by apply (interleaved_local (alloc (net_instance n))), act_alloc. Qed.

Lemma net_leads1 : leads (λ _, MapOrder_id) example_place (net_instance 1) net_lead1 net_votes1 [].
Proof.
  split; cbn [l_node net_lead1].
  - by vm_compute.
  - split; [vm_compute; reflexivity|]. exists (net_stored 1). by vm_compute.
  - intros m1 m2 [= <-]. split; [reflexivity|done].
  - constructor; [by vm_compute|constructor].
  - split; [apply (bool_decide_eq_true_1 _); vm_compute; reflexivity|]. cbn. set_solver.
  - eexists _, _, _. split; [vm_compute; reflexivity|]. split; [split; vm_compute; reflexivity|by vm_compute].
Qed.

Lemma net_leads2 : leads (λ _, MapOrder_id) example_place (net_instance 2) net_lead2 net_votes2 [mkB16 0 1].
Proof.
  split; cbn [l_node net_lead2].
  - by vm_compute.
  - split; [vm_compute; reflexivity|]. exists (net_stored 2). by vm_compute.
  - intros m1 m2 [= <-]. split; [reflexivity|done].
  - constructor; [by vm_compute|constructor].
  - split; [apply (bool_decide_eq_true_1 _); vm_compute; reflexivity|]. cbn. set_solver.
  - eexists _, _, _. split; [vm_compute; reflexivity|]. split; [split; vm_compute; reflexivity|by vm_compute].
Qed.

Lemma net_votes_own n vs :
  vs = net_own_vote n → preAcceptInstance net_ptr true (net_new n) = (Ok tt, net_own n) →
  stored (net_own n) (mkB16 0 n) net_ptr (net_stored n) → i_Dependencies (net_stored n) = [] →
  votes (λ _, MapOrder_id) (node 0) (net_instance n) vs.
Proof.
  intros -> Hrun Hst Hd. split; [exists [], Time_zero; apply net_new_reached|].
  apply (preaccepts_leads _ _ _ _ net_ptr (net_stored n)); [done..| |by rewrite Hd].
  exact Hst.
Qed.

Lemma net_votes1_ok n : n ∈ [node 1; node 2] → votes (λ _, MapOrder_id) n (net_instance 1) (net_votes1 n).
Proof.
  rewrite !elem_of_cons, elem_of_nil. intros [->|[->|[]]].
  - apply (net_votes_own 1); [done|vm_compute; reflexivity|split; vm_compute; reflexivity|vm_compute; reflexivity].
  - split; [exists [], Time_zero; apply rtc_refl|].
    apply (preaccepts_asked _ _ _ _ (Instance.Copy (net_stored 1)) (net_answer 1 example_empty));
      [vm_compute; reflexivity|vm_compute; by split_and!|vm_compute; discriminate|vm_compute; reflexivity..].
Qed.

Lemma net_step1 : rtc interleaved_step (example_empty, []) (net_asked1, []).
Proof.
  apply rtc_once. assert (net_asked1 = (HandleMessage (MPreAcceptRequest (net_request 1)) example_empty).2) as ->
    by (vm_compute; reflexivity). by apply interleaved_message.
Qed.

Lemma net_votes2_ok n : n ∈ [node 3; node 2] → votes (λ _, MapOrder_id) n (net_instance 2) (net_votes2 n).
Proof.
  rewrite !elem_of_cons, elem_of_nil. intros [->|[->|[]]].
  - apply (net_votes_own 2); [done|vm_compute; reflexivity|split; vm_compute; reflexivity|vm_compute; reflexivity].
  - split; [exists [], Time_zero; apply net_step1|].
    apply (preaccepts_asked _ _ _ _ (Instance.Copy (net_stored 2)) (net_answer 2 net_asked1));
      [vm_compute; reflexivity|vm_compute; by split_and!|vm_compute; discriminate|vm_compute; reflexivity..].
Qed.

Lemma quorums_relate_interfering_commands_witness : mkB16 0 1 ∈ [mkB16 0 1] ∨ mkB16 0 2 ∈ ([] : list InstanceID).
Proof.
  apply (quorums_relate_interfering_commands (λ _, MapOrder_id) example_place (net_instance 1) (net_instance 2)
    net_lead1 net_lead2 net_votes1 net_votes2 [] [mkB16 0 1] [node 1; node 2; node 3]).
  - reflexivity.
  - split; reflexivity.
  - exists 1%nat. reflexivity.
  - exact net_leads1.
  - exact net_leads2.
  - exact net_votes1_ok.
  - exact net_votes2_ok.
  - discriminate.
  - discriminate.
  - discriminate.
  - by left.
  - reflexivity.
  - intros n H1 H2. left. change (n ∈ [node 1; node 2]) in H1. change (n ∈ [node 3; node 2]) in H2.
    assert (n = node 2) as -> by set_solver. split; [apply rtc_refl|].
    apply (bool_decide_eq_true_1 _). vm_compute. reflexivity.
Defined.

End examples.
