(* ===== verification/MockNetwork.v ===== *)
(** * The network of the consensus tests

    [src/consensus/testing_mocks.go] and [testing_setup.go]: nodes in one
    process that exchange messages over the wire format, a store of integers,
    and the replica sets that the tests of the consensus package run on.  The
    times that pass between the readings of the clock, and the ids that the uuid
    package makes, are inputs. *)

From Stdlib Require Import Ascii.
From S2P Require Import Prelude Bytes Strconv Types GoTime Serializer Partitioner Topology Instruction.
From S2P Require Import Containers Instance Dependencies Messages Manager Invariant Prepare Handlers.
From S2P Require Import Tarjan Execute Leader Routing Replica Frame.

(** ** The store *)

Record intVal := newIntVal { iv_value : Z; iv_time : Time }.

Definition intVal_Equal (v value : intVal) : bool := bool_decide (iv_value value = iv_value v).

(** [strings.Split(s, ":")] *)
Fixpoint Split (s : string) : list string :=
  match s with
  | EmptyString => [EmptyString]
  | String c s =>
      match Split s with
      | [] => []
      | w :: ws => if decide (c = ":"%char) then EmptyString :: w :: ws else String c w :: ws
      end
  end.

Record mockStore := mkMockStore {
  ms_instructions : list Instruction;
  ms_values : gmap string intVal;
}.

Definition newMockStore : mockStore := mkMockStore [] ∅.

(** An instruction without arguments is an index out of range. *)
Definition mock_ExecuteInstruction (instruction : Instruction) : ST mockStore string (option intVal) := λ s,
  match Args instruction with
  | [] => (Panic, s)
  | arg :: _ =>
      match Atoi arg with
      | inl err => (Fail err, s)
      | inr z =>
          let val := newIntVal z (Timestamp instruction) in
          (Ok (Some val), mkMockStore (ms_instructions s ++ [instruction]) (<[Key instruction := val]> (ms_values s)))
      end
  end.

Definition mock_InterferingKeys (instruction : Instruction) : list string := Split (Key instruction).

#[export] Instance MockStore : Store := {|
  store_state := mockStore;
  store_value := intVal;
  store_ExecuteInstruction := mock_ExecuteInstruction;
  store_InterferingKeys := mock_InterferingKeys;
|}.

Definition mock_IsReadOnly (instruction : Instruction) : bool := false.
Definition mock_IsWriteOnly (instruction : Instruction) : bool := false.

(** A key always has a first part: no mock command is without dependencies. *)
Lemma Split_nonempty s : Split s ≠ [].
Proof. destruct s as [|c s]; cbn; [done|]. induction s as [|c' s IH]; cbn in *; repeat case_match; done. Qed.

(** What the tests execute is stored as the number that they have written. *)
Lemma mock_executes_number z key now s :
  - 2 ^ 63 ≤ z < 2 ^ 63 →
  mock_ExecuteInstruction (NewInstruction "set" key [format_int z] now) s =
    (Ok (Some (newIntVal z now)),
     mkMockStore (ms_instructions s ++ [NewInstruction "set" key [format_int z] now]) (<[key := newIntVal z now]> (ms_values s))).
Proof. intros Hz. unfold mock_ExecuteInstruction. cbn. by rewrite Atoi_format_int. Qed.

(** ** Statistics *)

Record mockStatter := mkMockStatter { counters : gmap string Z; timers : gmap string Z; guages : gmap string Z }.

Definition newMockStatter : mockStatter := mkMockStatter ∅ ∅ ∅.

Definition i64 (z : Z) : Z := (z + 2 ^ 63) `mod` 2 ^ 64 - 2 ^ 63.

Definition statter_Inc (stat : string) (value : Z) (s : mockStatter) : mockStatter :=
  mkMockStatter (<[stat := i64 (default 0 (counters s !! stat) + value)]> (counters s)) (timers s) (guages s).
Definition statter_Dec (stat : string) (value : Z) (s : mockStatter) : mockStatter :=
  mkMockStatter (<[stat := i64 (default 0 (counters s !! stat) - value)]> (counters s)) (timers s) (guages s).
Definition statter_Gauge (stat : string) (value : Z) (s : mockStatter) : mockStatter :=
  mkMockStatter (counters s) (timers s) (<[stat := value]> (guages s)).
Definition statter_GaugeDelta (stat : string) (value : Z) (s : mockStatter) : mockStatter :=
  mkMockStatter (counters s) (timers s) (<[stat := i64 (default 0 (guages s !! stat) + value)]> (guages s)).
Definition statter_Timing (stat : string) (delta : Z) (s : mockStatter) : mockStatter :=
  mkMockStatter (counters s) (<[stat := delta]> (timers s)) (guages s).

(** [getDuration], for a duration in nanoseconds. *)
Definition getDuration (elapsed : Z) : Z := i64 (Z.quot elapsed 1000000 + 1).

(** The two records that follow a step: the timer is written before the
    counter. *)
Definition stat_name (stage type kind : string) : string :=
  (stage +:+ "." +:+ type +:+ "." +:+ kind)%string.
Definition record_step (stage type : string) (elapsed : Z) (s : mockStatter) : mockStatter :=
  statter_Inc (stat_name stage type "count") 1 (statter_Timing (stat_name stage type "time") (getDuration elapsed) s).

(** An error of the handler is counted under both names. *)
Definition record_error (type : string) (s : mockStatter) : mockStatter :=
  statter_Inc (stat_name "error" type "count") 1 (statter_Inc (stat_name "error" type "time") 1 s).

(** [%T] of a message. *)
Definition type_name (m : Message) : string :=
  match m with
  | MPreAcceptRequest _ => "*consensus.PreAcceptRequest"
  | MPreAcceptResponse _ => "*consensus.PreAcceptResponse"
  | MAcceptRequest _ => "*consensus.AcceptRequest"
  | MAcceptResponse _ => "*consensus.AcceptResponse"
  | MCommitRequest _ => "*consensus.CommitRequest"
  | MCommitResponse => "*consensus.CommitResponse"
  | MPrepareRequest _ => "*consensus.PrepareRequest"
  | MPrepareResponse _ => "*consensus.PrepareResponse"
  | MPrepareSuccessorRequest _ => "*consensus.PrepareSuccessorRequest"
  | MPrepareSuccessorResponse _ => "*consensus.PrepareSuccessorResponse"
  | MInstanceRequest _ => "*consensus.InstanceRequest"
  | MInstanceResponse _ => "*consensus.InstanceResponse"
  end.

(** [%T] of the response that [HandleMessage] returns beside an error: the
    handlers return a nil pointer of their response type. *)
Definition nil_response (m : Message) : string :=
  match m with
  | MPreAcceptRequest _ => "*consensus.PreAcceptResponse"
  | MAcceptRequest _ => "*consensus.AcceptResponse"
  | MCommitRequest _ => "*consensus.CommitResponse"
  | MPrepareRequest _ => "*consensus.PrepareResponse"
  | MPrepareSuccessorRequest _ => "*consensus.PrepareSuccessorResponse"
  | _ => "<nil>"
  end.

Lemma i64_add a b : i64 (i64 a + b) = i64 (a + b).
Proof.
  unfold i64. f_equal. replace ((a + 2 ^ 63) `mod` 2 ^ 64 - 2 ^ 63 + b + 2 ^ 63) with ((a + 2 ^ 63) `mod` 2 ^ 64 + b) by lia.
  rewrite Zplus_mod_idemp_l. f_equal. lia.
Qed.

(** A counter holds the sum of its increments and decrements, modulo [2 ^ 64]. *)
Theorem statter_counts (stat : string) (l : list (string * Z)) :
  default 0 (counters (foldl (λ s p, statter_Inc p.1 p.2 s) newMockStatter l) !! stat) =
    i64 (foldr (λ p n, if decide (p.1 = stat) then p.2 + n else n) 0 l).
Proof.
  assert (∀ s t, default 0 (counters s !! stat) = i64 t →
    default 0 (counters (foldl (λ s p, statter_Inc p.1 p.2 s) s l) !! stat) =
      i64 (t + foldr (λ p n, if decide (p.1 = stat) then p.2 + n else n) 0 l)) as Hgen; [|by apply (Hgen _ 0)].
  induction l as [|[x v] l IH]; intros s t Hs; cbn; [by rewrite Z.add_0_r|].
  destruct (decide (x = stat)) as [->|Hne].
  - rewrite (IH _ (t + v)); [f_equal; lia|]. cbn. by rewrite lookup_insert_eq, Hs; cbn; rewrite i64_add.
  - apply IH. cbn. by rewrite lookup_insert_ne.
Qed.

(** ** Nodes *)

(** What other nodes see of a node. *)
Record nodeRef := mkNodeRef { nr_id : NodeId; nr_token : Token; nr_dcID : DatacenterID }.

#[export] Instance nodeRef_TN : TopologyNode nodeRef := {|
  GetId := nr_id;
  GetToken := nr_token;
  GetDatacenterId := nr_dcID;
|}.

Inductive send_error :=
  | SendPartition
  | SendIO (e : io_error)
  | SendHandler (e : error).

Section nodes.
Context {St : Store} {Mo : MapOrder}.

(** A handler that fails names, beside its error, the type of the response that
    it returns with it.  [queries] is never used. *)
Abbreviation handler := (Message → ST Manager (string * error) Message).

Record mockNode := mkMockNode {
  mn_ref : nodeRef;
  mn_name : string;
  mn_manager : Manager;
  mn_topology : Topology nodeRef;
  mn_messageHandler : handler;
  mn_sentMessages : list Message;
  mn_partition : bool;
  mn_stats : mockStatter;
  mn_started : bool;
  mn_status : NodeStatus;
}.

Definition with_manager (m : Manager) (n : mockNode) : mockNode :=
  mkMockNode (mn_ref n) (mn_name n) m (mn_topology n) (mn_messageHandler n) (mn_sentMessages n) (mn_partition n)
    (mn_stats n) (mn_started n) (mn_status n).
Definition with_topology (t : Topology nodeRef) (n : mockNode) : mockNode :=
  mkMockNode (mn_ref n) (mn_name n) (mn_manager n) t (mn_messageHandler n) (mn_sentMessages n) (mn_partition n)
    (mn_stats n) (mn_started n) (mn_status n).
Definition with_sentMessages (l : list Message) (n : mockNode) : mockNode :=
  mkMockNode (mn_ref n) (mn_name n) (mn_manager n) (mn_topology n) (mn_messageHandler n) l (mn_partition n)
    (mn_stats n) (mn_started n) (mn_status n).
Definition with_stats (s : mockStatter) (n : mockNode) : mockNode :=
  mkMockNode (mn_ref n) (mn_name n) (mn_manager n) (mn_topology n) (mn_messageHandler n) (mn_sentMessages n)
    (mn_partition n) s (mn_started n) (mn_status n).
Definition with_started (b : bool) (n : mockNode) : mockNode :=
  mkMockNode (mn_ref n) (mn_name n) (mn_manager n) (mn_topology n) (mn_messageHandler n) (mn_sentMessages n)
    (mn_partition n) (mn_stats n) b (mn_status n).

Definition mockNode_Start (n : mockNode) : mockNode := with_started true n.
Definition mockNode_Stop (n : mockNode) : mockNode := with_started false n.

Definition mockNodeDefaultMessageHandler : handler := λ msg m,
  match HandleMessage msg m with
  | (Ok resp, m) => (Ok resp, m)
  | (Fail e, m) => (Fail (nil_response msg, e), m)
  | (Panic, m) => (Panic, m)
  end.

Definition newMockNode (nid : NodeId) (prtnr : Partitioner) (s : store_state) (now : Time) : mockNode :=
  let dcid := "DC1" in
  mkMockNode (mkNodeRef nid (replicate 4 (byte_of_Z 0)) dcid) "node" (NewManager s now)
    (NewTopology nid dcid prtnr 3) mockNodeDefaultMessageHandler [] false newMockStatter true NODE_UP.

(** ** Sending *)

Definition measure (stage type : string) (elapsed : Z) : ST mockNode send_error unit :=
  modify (λ n, with_stats (record_step stage type elapsed (mn_stats n)) n).

(** [WriteMessage] to the empty buffer, whose contents are returned. *)
Definition serialize (elapsed : Z) (msg : Message) : ST mockNode send_error (list byte) :=
  match WriteMessage msg new_writer with
  | (Ok _, w) => _ ← measure "serialize" (type_name msg) elapsed; mret (w_out w)
  | (Fail e, _) => _ ← measure "serialize" (type_name msg) elapsed; fail (SendIO e)
  | (Panic, _) => panic
  end.

(** [ReadMessage] from the buffer, which gives all that it holds to one read. *)
Definition deserialize (elapsed : Z) (buf : list byte) : ST mockNode send_error Message :=
  match (ReadMessage [buf]).1 with
  | Ok msg => _ ← measure "deserialize" (type_name msg) elapsed; mret msg
  | Fail e => _ ← measure "deserialize" "<nil>" elapsed; fail (SendIO e)
  | Panic => panic
  end.

Definition handle (msg : Message) : ST mockNode send_error (Message + string * error) := λ n,
  let '(r, m) := mn_messageHandler n msg (mn_manager n) in
  (match r with Ok resp => Ok (inl resp) | Fail e => Ok (inr e) | Panic => Panic end, with_manager m n).

Definition process (elapsed : Z) (srcRequest dstRequest : Message) : ST mockNode send_error Message :=
  x ← handle dstRequest;
  match x with
  | inl srcResponse => _ ← measure "process" (type_name srcResponse) elapsed; mret srcResponse
  | inr (type, err) =>
      _ ← measure "process" type elapsed;
      _ ← modify (λ n, with_stats (record_error (type_name srcRequest) (mn_stats n)) n);
      fail (SendHandler err)
  end.

(** [elapsed k] passes during the [k]-th of the five steps. *)
Definition mockNode_SendMessage (elapsed : nat → Z) (srcRequest : Message) : ST mockNode send_error Message :=
  partition ← gets mn_partition;
  if partition : bool then fail SendPartition else
  buf ← serialize (elapsed 0%nat) srcRequest;
  dstRequest ← deserialize (elapsed 1%nat) buf;
  _ ← modify (λ n, with_sentMessages (mn_sentMessages n ++ [dstRequest]) n);
  srcResponse ← process (elapsed 2%nat) srcRequest dstRequest;
  buf ← serialize (elapsed 3%nat) srcResponse;
  deserialize (elapsed 4%nat) buf.

(** What the two steps on each way over the wire record. *)
Definition record_way (e e' : Z) (msg : Message) (s : mockStatter) : mockStatter :=
  record_step "deserialize" (type_name msg) e' (record_step "serialize" (type_name msg) e s).

Lemma type_name_view msg : type_name (MessageWire.view msg) = type_name msg.
Proof. by destruct msg. Qed.

(** Messages arrive as [MessageWire.view] describes. *)
Lemma over_the_wire {A} e e' msg (f : Message → ST mockNode send_error A) n :
  MessageWire.ok msg →
  (buf ← serialize e msg; x ← deserialize e' buf; f x) n =
    f (MessageWire.view msg) (with_stats (record_way e e' msg (mn_stats n)) n).
Proof.
  intros Hok. destruct (MessageWire.message_roundtrip msg Hok) as (bs & _ & Hw & Hd).
  unfold serialize. rewrite Hw. cbn [w_out].
  destruct (Hd (mkReader [] [bs]) []) as (r' & Hr & _); [unfold flat; cbn; by rewrite !app_nil_r|].
  rewrite (bind_run _ _ n bs (with_stats (record_step "serialize" (type_name msg) e (mn_stats n)) n) eq_refl).
  unfold deserialize, ReadMessage, with_bufio. rewrite Hr. cbn [fst]. by rewrite type_name_view.
Qed.

Lemma view_clean msg : clean_message (MessageWire.view msg).
Proof.
  destruct msg; try done. cbn. split; [done|]. apply Forall_forall. intros i (j & -> & _)%list_elem_of_fmap. done.
Qed.

(** The test network is faithful.  A request that is sent to a node that is
    not partitioned reaches its handler as the wire format carries it, without
    the local fields of the instances, in particular without recorded
    components; what the handler does to the manager and what it answers, or
    its error, is what the sender gets, the answer again as the wire format
    carries it.  A partitioned node neither sees the request nor answers.  Every
    step is timed and counted under the type of the message that it is about,
    an error of the handler under the type of the request. *)
Theorem mock_node_delivers (n : mockNode) (elapsed : nat → Z) (msg : Message) (Hok : MessageWire.ok msg) :
  let sent n := with_sentMessages (mn_sentMessages n ++ [MessageWire.view msg]) n in
  let way_there := record_way (elapsed 0%nat) (elapsed 1%nat) msg (mn_stats n) in
  clean_message (MessageWire.view msg) ∧
  (mn_partition n = true → mockNode_SendMessage elapsed msg n = (Fail SendPartition, n)) ∧
  (mn_partition n = false →
    (∀ resp m, mn_messageHandler n (MessageWire.view msg) (mn_manager n) = (Ok resp, m) → MessageWire.ok resp →
       mockNode_SendMessage elapsed msg n =
         (Ok (MessageWire.view resp),
          with_stats (record_way (elapsed 3%nat) (elapsed 4%nat) resp
            (record_step "process" (type_name resp) (elapsed 2%nat) way_there)) (with_manager m (sent n)))) ∧
    (∀ t e m, mn_messageHandler n (MessageWire.view msg) (mn_manager n) = (Fail (t, e), m) →
       mockNode_SendMessage elapsed msg n =
         (Fail (SendHandler e),
          with_stats (record_error (type_name msg) (record_step "process" t (elapsed 2%nat) way_there))
            (with_manager m (sent n))))).
Proof.
  intros sent way_there. split; [apply view_clean|]. unfold mockNode_SendMessage. rewrite bind_gets. split; [by intros ->|].
  intros ->. rewrite (over_the_wire _ _ msg _ n Hok). fold way_there. set (n1 := sent (with_stats way_there n)).
  rewrite (bind_run _ _ (with_stats way_there n) tt n1 eq_refl).
  split; [intros resp m Hh Hr|intros t e m Hh].
  - assert (process (elapsed 2%nat) msg (MessageWire.view msg) n1 =
      (Ok resp, with_stats (record_step "process" (type_name resp) (elapsed 2%nat) way_there) (with_manager m (sent n)))) as Hp.
    { unfold process, handle, mbind, ST_bind. cbn. by rewrite Hh. }
    rewrite (bind_run _ _ _ _ _ Hp). 
    pose proof (over_the_wire (elapsed 3%nat) (elapsed 4%nat) resp mret
      (with_stats (record_step "process" (type_name resp) (elapsed 2%nat) way_there) (with_manager m (sent n))) Hr) as Hw.
    etrans; [|exact Hw]. unfold mbind, ST_bind. repeat case_match; simplify_eq; done.
  - unfold process, handle, mbind, ST_bind. cbn. by rewrite Hh.
Qed.

(** ** Replica sets *)

(** [setupReplicaSet], for the ids that the uuid package has made: every node
    gets a topology that knows all of them and replicates to all. *)
Definition setupReplicaSet (ids : list NodeId) (prtnr : Partitioner) (s : store_state) (now : Time) : list mockNode :=
  let replicas := (λ nid, newMockNode nid prtnr s now) <$> ids in
  (λ n1, with_topology (add_all (mn_ref <$> replicas)
     (NewTopology (nr_id (mn_ref n1)) (nr_dcID (mn_ref n1)) prtnr (length ids))) n1) <$> replicas.

(** [setupEmptyManager], and what [baseManagerTest] starts every test with: a
    manager, the topology that it routes with and its statistics. *)
Definition setupEmptyManager (nid : NodeId) (prtnr : Partitioner) (s : store_state) (now : Time) :
    Manager * Topology nodeRef :=
  (NewManager s now, NewTopology nid "DC1" prtnr 3).

Record baseManagerTest := mkBaseManagerTest {
  bm_manager : Manager;
  bm_topology : Topology nodeRef;
  bm_stats : mockStatter;
}.

Definition baseManagerTest_SetUpTest (nid : NodeId) (prtnr : Partitioner) (s : store_state) (now : Time) : baseManagerTest :=
  mkBaseManagerTest (NewManager s now) (NewTopology nid "DC1" prtnr 3) newMockStatter.

Definition getInstruction (val : Z) (now : Time) : Instruction := NewInstruction "set" "a" [format_int val] now.

(** The suite of tests on several replicas.  [managers], [replicaManagers] and
    [manager] are the managers of the nodes. *)
Record baseReplicaTest := mkBaseReplicaTest {
  br_nodes : list mockNode;
  br_managers : list Manager;
  br_replicaManagers : list Manager;
  br_leader : mockNode;
  br_replicas : list mockNode;
  br_nodeMap : gmap NodeId mockNode;
  br_stats : mockStatter;
}.

(** The suite uses five ids.  The assertion ends the test if there are not more than two nodes. *)
Definition baseReplicaTest_SetUpTest (ids : list NodeId) (prtnr : Partitioner) (s : store_state) (now : Time) :
    option baseReplicaTest :=
  if decide (length ids ≤ 2)%nat then None else
  match setupReplicaSet ids prtnr s now with
  | [] => None
  | leader :: replicas =>
      let nodes := leader :: replicas in
      Some (mkBaseReplicaTest nodes (mn_manager <$> nodes) (mn_manager <$> replicas) leader replicas
              (foldl (λ nm n, <[nr_id (mn_ref n) := n]> nm) ∅ nodes) newMockStatter)
  end.

(** [baseReplicaTest.quorumSize] *)
Definition test_quorumSize (numNodes : nat) : nat := (numNodes `div` 2 + 1)%nat.

Lemma replica_refs (ids : list NodeId) prtnr s now :
  mn_ref <$> ((λ nid, newMockNode nid prtnr s now) <$> ids) =
    (λ nid, mkNodeRef nid (replicate 4 (byte_of_Z 0)) "DC1") <$> ids.
Proof. by rewrite <- list_fmap_compose. Qed.

Lemma replica_ring (ids : list NodeId) nid prtnr key :
  let refs := (λ nid, mkNodeRef nid (replicate 4 (byte_of_Z 0)) "DC1") <$> ids in
  let t := add_all refs (NewTopology nid "DC1" prtnr (length ids)) in
  NoDup ids → Z.of_nat (length ids) ≤ u32_max → replicas_for t key ≡ₚ refs.
Proof.
  intros refs t Hids Hsize. destruct (add_all_fields refs (NewTopology nid "DC1" prtnr (length ids))) as (_ & _ & Hdc & Hrf).
  fold t in Hdc, Hrf. cbn in Hdc, Hrf.
  assert (ids_distinct refs) as Hd.
  { unfold ids_distinct, refs. rewrite <- list_fmap_compose. apply NoDup_fmap; [|done]. by intros ? ? [= ->]. }
  assert (members "DC1" refs = refs) as Hmem.
  { unfold members, refs. clear. induction ids as [|x ids IH]; [done|].
    rewrite fmap_cons, filter_cons, decide_True by done. by rewrite IH. }
  pose proof (add_all_rings refs nid "DC1" prtnr (length ids) "DC1" Hd) as Hr. fold t in Hr. rewrite Hmem in Hr.
  unfold replicas_for. rewrite Hdc, Hrf. rewrite u32_small by lia. unfold replicas_of.
  assert (tokenRing (ring_of "DC1" t) ≡ₚ refs) as Hring.
  { unfold ring_of. destruct (rings t !! "DC1"); [by apply Hr|]. by rewrite Hr. }
  rewrite take_ge; [by rewrite from_token_perm|]. rewrite from_token_perm, Hring. unfold refs. rewrite length_fmap. lia.
Qed.

(** On a replica set of the tests every node replicates every key: the nodes
    of a command are all nodes, in some order, each node is eligible, and asks
    all others.  The quorum that the tests expect of the phases is the one that
    the manager computes exactly if the number of nodes is odd; the suite's five
    are. *)
Theorem replica_set_replicates_everywhere (ids : list NodeId) (prtnr : Partitioner) (s : store_state) (now : Time)
    (n : mockNode) (i : Instance)
    (Hids : NoDup ids) (Hsize : Z.of_nat (length ids) ≤ u32_max) (Hn : n ∈ setupReplicaSet ids prtnr s now) :
  ∃ nodes others, getInstanceNodes (mn_topology n) i = Some nodes ∧ nr_id <$> nodes ≡ₚ ids ∧
    checkLocalInstanceEligibility (mn_topology n) i = Some true ∧
    getInstanceReplicas (mn_topology n) i = Some others ∧ S (length others) = length ids ∧
    (test_quorumSize (length ids) = quorumSize (nr_id <$> others) ↔ Nat.Odd (length ids)).
Proof.
  unfold setupReplicaSet in Hn. cbv zeta in Hn. rewrite replica_refs in Hn. set (refs := _ <$> ids) in Hn.
  apply list_elem_of_fmap in Hn as (n1 & -> & (nid & -> & Hnid)%list_elem_of_fmap).
  cbn [mn_topology with_topology newMockNode mn_ref nr_id nr_dcID].
  set (t := add_all refs _). assert (topology_wf t) as Ht by apply add_all_wf, NewTopology_wf.
  destruct (add_all_fields refs (NewTopology nid "DC1" prtnr (length ids))) as (_ & Hid & Hdc & Hrf). fold t in Hid, Hdc, Hrf.
  cbn in Hid, Hdc, Hrf. assert (replicas_for t (Key (i_Command i)) ≡ₚ refs) as Hperm by by apply replica_ring.
  assert (nr_id <$> refs = ids) as Hrefs by (unfold refs; rewrite <- list_fmap_compose; apply list_fmap_id).
  assert (checkLocalInstanceEligibility t i = Some true) as Hel.
  { unfold checkLocalInstanceEligibility. rewrite (checkLocalKeyEligibility_placement t Ht). f_equal.
    apply bool_decide_eq_true. cbn. rewrite Hperm, Hid. by rewrite Hrefs. }
  destruct (getInstanceReplicas_placement t Ht i) as (others & Hothers & Hoids).
  assert (S (length others) = length ids) as Hlen.
  { pose proof (length_getInstanceReplicas (Pl := topology_placement t Ht) i) as Hl. rewrite <- Hoids in Hl.
    rewrite length_fmap in Hl. cbn [topology_placement local_nodes local_id] in Hl. rewrite length_fmap, Hperm in Hl.
    unfold refs in Hl at 2. rewrite length_fmap in Hl. apply Hl. rewrite Hid. change (nid ∈ nr_id <$> refs). by rewrite Hrefs. }
  exists (replicas_for t (Key (i_Command i))), others. split_and!; [by apply local_nodes_for| |done|done|done|].
  - by rewrite Hperm, Hrefs.
  - unfold test_quorumSize, quorumSize. rewrite length_fmap. rewrite <- Hlen.
    set (r := length others). pose proof (Nat.div_mod_eq r 2). pose proof (Nat.mod_upper_bound r 2 ltac:(done)).
    pose proof (Nat.div_mod_eq (S r) 2). pose proof (Nat.mod_upper_bound (S r) 2 ltac:(done)). split.
    + intros Hq. exists (r `div` 2)%nat. lia.
    + intros [k Hk]. lia.
Qed.

End nodes.

(** ** Fixtures *)

Section fixtures.
Context {St : Store} {Mo : MapOrder} {Pl : Placement}.
Abbreviation M := (ST Manager error).

Definition getBasicInstruction (now : Time) : Instruction := NewInstruction "set" "a" ["b"; "c"] now.

(** The test helper [makeInstance]. *)
Definition makeTestInstance (iid nid : InstanceID) (now : Time) (dependencies : list InstanceID) : Instance :=
  mkInstance iid nid [] (getBasicInstruction now) dependencies INSTANCE_PREACCEPTED 0 false false false [] [] ∅ Time_zero.

(** One pass of the loops of [setupDeps]: a new instance with the given status,
    with the dependencies that the dependency manager reports (none if it
    reports an error), added to the map. *)
Definition setupDep (status : Z) (iid : InstanceID) (now : Time) : M unit :=
  instance ← alloc (with_Status status (makeInstance (getBasicInstruction now) iid []));
  i ← load instance;
  x ← try (deps (DepsMngr.GetAndSetDeps i));
  _ ← store instance (with_Dependencies (match x with inl ids => ids | inr _ => [] end) i);
  _ ← modify (λ m, with_instances (InstanceMap.Add iid instance (m_instances m)) m);
  if decide (status = INSTANCE_EXECUTED) then modify (λ m, with_executed (m_executed m ++ [iid]) m) else mret tt.

(** Four executed instances, four committed, two preaccepted, two accepted. *)
Definition setup_statuses : list Z := [4; 4; 4; 4; 3; 3; 3; 3; 1; 1; 2; 2].

Definition setupDeps (ids : list InstanceID) (now : Time) : M unit :=
  for_each (λ p : Z * InstanceID, setupDep p.1 p.2 now) (zip setup_statuses ids).

(** [setupManager] *)
Definition setupManager (nid : NodeId) (prtnr : Partitioner) (s : store_state) (ids : list InstanceID) (now : Time) :
    Manager * Topology nodeRef :=
  let '(manager, topology) := setupEmptyManager nid prtnr s now in
  ((setupDeps ids now manager).2, topology).

Lemma setupDep_run status iid now m :
  ∃ m' p i, setupDep status iid now m = (Ok tt, m') ∧ m_heap m !! p = None ∧
    m_heap m' = <[p := i]> (m_heap m) ∧ i_InstanceID i = iid ∧ i_Status i = status ∧
    m_instances m' = <[iid := p]> (m_instances m) ∧
    m_executed m' = (if decide (status = INSTANCE_EXECUTED) then m_executed m ++ [iid] else m_executed m) ∧
    ∀ k id, id ∈ s_executed (view (m_depsMngr m') k) → id ∈ s_executed (view (m_depsMngr m) k).
Proof.
  set (i0 := with_Status status (makeInstance (getBasicInstruction now) iid [])).
  set (p := fresh (dom (m_heap m))). set (m0 := with_heap (<[p := i0]> (m_heap m)) m).
  assert (m_heap m !! p = None) as Hp by apply not_elem_of_dom, is_fresh.
  unfold setupDep. rewrite (bind_run _ _ m p m0 eq_refl), bind_load.
  cbn [m0 m_heap with_heap]. rewrite lookup_insert_eq, bind_try. fold m0.
  assert (∀ k id, id ∈ s_executed (view (run_op (OpRecord i0) (m_depsMngr m)) k) → id ∈ s_executed (view (m_depsMngr m) k)) as Hx.
  { intros k id [?|(j & [=] & _)]%executed_run_op. done. }
  cbn [run_op] in Hx. destruct (DepsMngr.GetAndSetDeps i0 (m_depsMngr m)) as [r dm] eqn:Hg. cbn in Hx.
  assert (r ≠ Panic) as Hr.
  { destruct (decide (keys_of i0 = [])) as [Hk|Hk].
    - destruct (mngr_no_keys i0 (m_depsMngr m) Hk) as (E1 & _). rewrite Hg in E1. by simplify_eq.
    - destruct (mngr_GetAndSetDeps i0 (m_depsMngr m) Hk) as (ids & dm' & E1 & _). rewrite Hg in E1. by simplify_eq. }
  assert (deps (DepsMngr.GetAndSetDeps i0) m0 = (r, with_depsMngr dm m0)) as ->.
  { unfold deps. change (m_depsMngr m0) with (m_depsMngr m). by rewrite Hg. }
  destruct r as [ids|e|]; [| |done]; case_decide; eexists _, p, _; (split; [reflexivity|]);
    cbn; rewrite insert_insert_eq; split_and!; done.
Qed.

(** Adding an instance that is not known yet, marked executed if it is. *)
Lemma setupDep_wf status iid now m :
  wf m → status ≤ INSTANCE_EXECUTED → m_instances m !! iid = None →
  wf (setupDep status iid now m).2 ∧
  ∀ iid', m_instances (setupDep status iid now m).2 !! iid' = None ↔ iid' ≠ iid ∧ m_instances m !! iid' = None.
Proof.
  intros Hm Hs Hnew. pose proof Hm as [W1 W2 W3 W4].
  destruct (setupDep_run status iid now m) as (m' & p & i & -> & Hp & Hh & Hid & Hst & Hi & Hx & Hv). cbn [snd].
  assert (∀ iid' q j, stored m' iid' q j ↔ (iid' = iid ∧ q = p ∧ j = i) ∨ (iid' ≠ iid ∧ stored m iid' q j)) as Hstored.
  { intros iid' q j. unfold stored. rewrite Hi, Hh, lookup_insert_Some. split.
    - intros [[[<- <-]|[Hne Hq]] Hj]; [rewrite lookup_insert_eq in Hj; simplify_eq; by left|]. right.
      destruct (W1 _ _ Hq) as (j' & Hj' & _). rewrite lookup_insert_ne in Hj by congruence. done.
    - intros [(-> & -> & ->)|(Hne & Hq & Hj)]; [rewrite lookup_insert_eq; auto|].
      rewrite lookup_insert_ne by congruence. auto. }
  assert (iid ∉ m_executed m) as Hnx.
  { intros (q & j & [Hq _] & _)%W3. congruence. }
  split.
  - split.
    + intros iid' q Hq. rewrite Hi in Hq. apply lookup_insert_Some in Hq as [[<- <-]|[Hne Hq]].
      * exists i. rewrite Hh, lookup_insert_eq. split_and!; [done..|lia].
      * destruct (W1 _ _ Hq) as (j & Hj & ?). exists j. rewrite Hh, lookup_insert_ne by congruence. done.
    + rewrite Hx. case_decide; [|done]. apply NoDup_app. split_and!; [done|set_solver|apply NoDup_singleton].
    + intros iid'. setoid_rewrite Hstored. rewrite Hx. destruct (decide (iid' = iid)) as [->|Hne].
      * case_decide; [|naive_solver]. split; [|set_solver]. intros _. exists p, i. naive_solver.
      * assert (iid' ∈ m_executed m ↔ ∃ q j, ((iid' = iid ∧ q = p ∧ j = i) ∨ iid' ≠ iid ∧ stored m iid' q j) ∧
          i_Status j = INSTANCE_EXECUTED) as <- by (rewrite W3; naive_solver). case_decide; set_solver.
    + intros k id Hk%Hv%W4. rewrite Hx. case_decide; set_solver.
  - intros iid'. rewrite Hi, lookup_insert_None. naive_solver.
Qed.

(** The manager that the tests start from satisfies the invariant that is shown
    of replicas, for any twelve distinct ids. *)
Theorem setup_manager_wf (nid : NodeId) (prtnr : Partitioner) (s : store_state) (ids : list InstanceID) (now : Time)
    (Hids : NoDup ids) :
  wf (setupManager nid prtnr s ids now).1.
Proof.
  change (wf (setupDeps ids now (NewManager s now)).2). unfold setupDeps. assert (Forall (λ st, st ≤ INSTANCE_EXECUTED) setup_statuses) as Hst by by repeat constructor.
  assert (∀ sts m, Forall (λ st, st ≤ INSTANCE_EXECUTED) sts → wf m → (∀ iid, iid ∈ ids → m_instances m !! iid = None) →
    wf (for_each (λ p : Z * InstanceID, setupDep p.1 p.2 now) (zip sts ids) m).2) as Hgen;
    [|by apply Hgen; [done|apply wf_NewManager|]].
  clear Hst. induction Hids as [|iid ids Hiid _ IH]; intros sts m Hst Hm Hnew; [by destruct sts|].
  destruct Hst as [|st sts Hs Hst]; [done|]. cbn [zip zip_with for_each].
  destruct (setupDep_wf st iid now m Hm Hs) as [Hm' Hnone]; [apply Hnew; left|].
  destruct (setupDep_run st iid now m) as (m' & p & i & Hrun & _). cbn [fst snd]. rewrite (bind_run _ _ _ _ _ Hrun).
  rewrite Hrun in Hm', Hnone. apply IH; [done..|]. intros iid' Hin. apply Hnone. split; [by intros ->|apply Hnew; by right].
Qed.

End fixtures.

(** ** Examples *)

Section examples.
#[local] Existing Instances MapOrder_id.

Definition mock_prepare : Message := MPrepareRequest (mkPrepareRequest 3 (mkB16 0 1)).
Definition mock_node : mockNode (St := LogStore) :=
  newMockNode (St := LogStore) (mkB16 1 1) (λ _, []) ([] : @store_state LogStore) Time_zero.

Lemma mock_node_delivers_witness :
  ∃ resp n', mockNode_SendMessage (λ _, 2500000) mock_prepare mock_node = (Ok resp, n') ∧
    resp = MPrepareResponse (mkPrepareResponse true None) ∧ mn_sentMessages n' = [mock_prepare] ∧
    counters (mn_stats n') !! "process.*consensus.PrepareResponse.count" = Some 1 ∧
    timers (mn_stats n') !! "serialize.*consensus.PrepareRequest.time" = Some 3.
Proof.
  assert (MessageWire.ok mock_prepare) as Hok by (split; [constructor|vm_compute; split; [split; discriminate|done]]).
  destruct (mock_node_delivers mock_node (λ _, 2500000) mock_prepare Hok) as (_ & _ & Hd).
  destruct (Hd eq_refl) as [Hd' _].
  assert (mn_messageHandler mock_node (MessageWire.view mock_prepare) (mn_manager mock_node) =
    (Ok (MPrepareResponse (mkPrepareResponse true None)), mn_manager mock_node)) as Hrun by (vm_compute; reflexivity).
  specialize (Hd' _ _ Hrun (conj (Forall_nil_2 _) I)). eexists _, _. split; [exact Hd'|]. split_and!; vm_compute; reflexivity.
Defined.

Lemma replica_set_replicates_everywhere_witness :
  let ids := mkB16 1 <$> [1; 2; 3; 4; 5] in
  let n := default mock_node (head (setupReplicaSet (St := LogStore) ids (λ _, []) ([] : @store_state LogStore) Time_zero)) in
  ∃ nodes others, getInstanceNodes (mn_topology n) Instance_zero = Some nodes ∧ nr_id <$> nodes ≡ₚ ids ∧
    checkLocalInstanceEligibility (mn_topology n) Instance_zero = Some true ∧
    getInstanceReplicas (mn_topology n) Instance_zero = Some others ∧ S (length others) = length ids ∧
    (test_quorumSize (length ids) = quorumSize (nr_id <$> others) ↔ Nat.Odd (length ids)).
Proof.
  intros ids n. apply (replica_set_replicates_everywhere (St := LogStore) ids (λ _, []) ([] : @store_state LogStore) Time_zero).
  - apply (bool_decide_eq_true_1 _). vm_compute. reflexivity.
  - vm_compute. discriminate.
  - exact (list_elem_of_here _ _).
Defined.

End examples.
