(* ===== verification/Convergence.v ===== *)
(** * Replicas converge

    Two replicas that have executed the same commands have the same store,
    although each has executed them in an order of its own.  What the manager
    relies on in the store is a class, [StoreLaws]; the key-value store of
    [src/kvstore] is an instance of it. *)

From S2P Require Import Prelude Bytes Types GoTime Serializer Instruction Containers KVStore.
From S2P Require Import Instance Dependencies Messages Manager Invariant Prepare Handlers.
From S2P Require Import Tarjan Execute Order Execution Leader Replica Frame Components Concurrent Interleaved.

(** ** What the consensus layer relies on *)

(** Commands whose keys do not interfere commute, and a command that fails
    changes nothing. *)
Class StoreLaws (St : Store) := {
  store_commutes : ∀ (c d : Instruction) (s : store_state),
    ¬ interferes (store_InterferingKeys c) (store_InterferingKeys d) →
    (store_ExecuteInstruction d (store_ExecuteInstruction c s).2).2 =
    (store_ExecuteInstruction c (store_ExecuteInstruction d s).2).2;
  store_fails_clean : ∀ (c : Instruction) (s : store_state),
    is_ok (store_ExecuteInstruction c s).1 = false → (store_ExecuteInstruction c s).2 = s;
}.

#[export] Instance interferes_dec p q : Decision (interferes p q).
Proof. unfold interferes. apply _. Defined.

(** ** Sequences that differ in the order of independent elements *)

Section traces.
Context {S A : Type} (f : S → A → S).

Lemma foldl_move l x s :
  (∀ z s, z ∈ l → f (f s z) x = f (f s x) z) → f (foldl f s l) x = foldl f (f s x) l.
Proof.
  revert s. induction l as [|z l IH]; intros s Hl; cbn; [done|].
  rewrite IH by (intros; apply Hl; by right). by rewrite Hl by left.
Qed.

Context (D : A → A → Prop) `{!RelDecision D, !EqDecision A}.
Context (Hcomm : ∀ x y s, ¬ D x y → f (f s x) y = f (f s y) x).

Lemma foldl_dependent_order l1 l2 s :
  NoDup l1 → l1 ≡ₚ l2 →
  (∀ x y, x ∈ l1 → y ∈ l1 → x ≠ y → D x y → precedes l1 x y ↔ precedes l2 x y) →
  foldl f s l1 = foldl f s l2.
Proof.
  intros Hnd. revert l2 s. induction Hnd as [|x l1 Hx Hnd IH]; intros l2 s Hp Hord.
  { by apply Permutation_nil_l in Hp as ->. }
  assert (x ∈ l2) as (a & b & ->)%list_elem_of_split by (rewrite <- Hp; left).
  assert (l1 ≡ₚ a ++ b) as Hp' by (apply (Permutation_cons_inv (a := x)); by rewrite Hp, Permutation_middle).
  assert (NoDup (a ++ x :: b)) as Hnd2 by (rewrite <- Hp; by constructor).
  assert (∀ z, z ∈ a → ¬ D z x) as Hindep.
  { intros z Hz HD. assert (z ∈ l1) as Hz1 by (rewrite Hp'; set_solver).
    assert (precedes (x :: l1) z x) as Hpre.
    { apply Hord; [set_solver|set_solver|by intros ->|done|]. apply precedes_app; [done|left]. }
    apply precedes_cons in Hpre as [[-> _]|[_ ?]%precedes_elem]; done. }
  rewrite foldl_app. cbn. rewrite foldl_move by (intros; by apply Hcomm, Hindep). rewrite <- foldl_app.
  apply IH; [done|]. intros y z Hy Hz Hne HD.
  assert (y ≠ x ∧ z ≠ x) as [Hyx Hzx] by (split; by intros ->).
  assert (precedes (x :: l1) y z ↔ precedes l1 y z) as <- by (rewrite precedes_cons; naive_solver).
  rewrite Hord by set_solver. by apply precedes_remove.
Qed.

End traces.

(** ** The store is what the executed commands have made of it *)

Section replay.
Context {St : Store} {L : StoreLaws St} {Mo : MapOrder} {Uu : UUIDLib}.
Context (agreed : InstanceID → list InstanceID).

(** The command of each instance; [None] when it was committed as a noop. *)
Context (commands : InstanceID → option Instruction).

Definition replay_one (s : store_state) (x : InstanceID) : store_state :=
  match commands x with Some c => (store_ExecuteInstruction c s).2 | None => s end.

Definition replay (s : store_state) (l : list InstanceID) : store_state := foldl replay_one s l.

Definition agreed_commands (m : Manager) : Prop :=
  ∀ x p i, stored m x p i → INSTANCE_COMMITTED ≤ i_Status i →
    (if i_Noop i then None else Some (i_Command i)) = commands x.

(** Steps after which dependencies and commands are committed as agreed. *)
Definition committing_step (x y : Manager * list (prog unit)) : Prop :=
  interleaved_agreeing agreed x y ∧ agreed_commands y.1.

(** What a step does to the store. *)
Lemma interleaved_store x y :
  all_safe agreed True x → interleaved_step x y →
  (m_executed y.1 = m_executed x.1 ∧ m_store y.1 = m_store x.1) ∨ ∃ z p i, executes x.1 y.1 z p i.
Proof.
  assert (∀ m m', quiet m m' → m_executed m' = m_executed m ∧ m_store m' = m_store m) as Hquiet by by intros ? ? [].
  intros Hs Hstep. destruct Hstep as [msg m gs Hm|A op m gs Hop|x y Hgo]; cbn [fst snd].
  - left. by apply Hquiet, quiet_HandleMessage.
  - left. by apply Hquiet, local_action_quiet.
  - destruct (all_safe_go agreed True x y Hs Hgo) as [_ [[-> _]|z p i _ He _|i e _ _ _ Hx _ Hno Hrun]].
    + by left.
    + right. by exists z, p, i.
    + left. split; [done|]. unfold run_command in Hrun. destruct (i_Noop i); [by simplify_eq|].
      pose proof (store_fails_clean (i_Command i) (m_store x.1)) as Hclean. rewrite Hrun in Hclean. by apply Hclean.
Qed.

Lemma replayed_executes s m m' z p i :
  executes m m' z p i → agreed_commands m' → m_store m = replay s (m_executed m) →
  m_store m' = replay s (m_executed m').
Proof.
  intros [[Hz Hp] Hst Hm Hh Hx _ [v Hrun] _] Hcmd Hrep. rewrite Hx. unfold replay. rewrite foldl_app. cbn.
  fold (replay s (m_executed m)). rewrite <- Hrep. unfold replay_one.
  rewrite <- (Hcmd z p (with_Status INSTANCE_EXECUTED i)); [|split; [by rewrite Hm|by rewrite Hh, lookup_insert_eq]|done].
  unfold run_command in Hrun. cbn. destruct (i_Noop i); [by simplify_eq|]. by rewrite Hrun.
Qed.

Lemma reached_replay s now x :
  rtc committing_step (NewManager s now, []) x → m_store x.1 = replay s (m_executed x.1).
Proof.
  intros H. assert (all_safe agreed True (NewManager s now, [])) as H0 by apply all_safe_NewManager.
  assert (m_store (NewManager s now) = replay s (m_executed (NewManager s now))) as Hr by done.
  change (NewManager s now) with (NewManager s now, [] : list (prog unit)).1 in Hr.
  revert H0 Hr. induction H as [|x y z [Hxy Hcmd] _ IH]; [done|]. intros Hx Hr.
  apply IH; [destruct Hxy; by apply (all_safe_step agreed True x)|].
  destruct (interleaved_store x y Hx (proj1 Hxy)) as [[E1 E2]|(w & p & i & He)]; [by rewrite E1, E2|].
  by eapply replayed_executes.
Qed.

(** The commands of two instances interfere. *)
Definition clash (x y : InstanceID) : Prop :=
  match commands x, commands y with
  | Some c, Some d => interferes (store_InterferingKeys c) (store_InterferingKeys d)
  | _, _ => False
  end.

#[export] Instance clash_dec : RelDecision clash.
Proof. intros x y. unfold clash. repeat case_match; apply _. Defined.

Lemma replay_commutes x y s : ¬ clash x y → replay_one (replay_one s x) y = replay_one (replay_one s y) x.
Proof.
  unfold clash, replay_one. intros Hc. destruct (commands x) as [c|], (commands y) as [d|]; try done.
  by apply store_commutes.
Qed.

End replay.

(** Replicas converge.  Take two replicas over the same store, started in the
    same state, whose goroutines interleave in any way and which receive
    different messages in different orders; let what they commit agree, and let
    any two executed commands with interfering keys be related: one depends on the
    other, and if they depend on each other, both do so directly.  Once they have executed
    the same set of commands, in whatever orders, their stores are equal. *)
Theorem replicas_converge `{St : Store, !StoreLaws St, Uu : UUIDLib} (Mo1 Mo2 : MapOrder) agreed commands
    s now1 now2 m1 m2 cs1 cs2 :
  rtc (committing_step (Mo := Mo1) agreed commands) (NewManager s now1, []) (m1, cs1) →
  rtc (committing_step (Mo := Mo2) agreed commands) (NewManager s now2, []) (m2, cs2) →
  m_executed m1 ≡ₚ m_executed m2 →
  (∀ x, x ∈ m_executed m1 → B16_wf x) →
  (∀ x y, x ∈ m_executed m1 → y ∈ m_executed m1 → x ≠ y → clash commands x y →
     related agreed x y) →
  m_store m1 = m_store m2.
Proof.
  intros H1 H2 Hp Hwf Hdep.
  pose proof (reached_replay agreed commands s now1 _ H1) as R1.
  pose proof (reached_replay agreed commands s now2 _ H2) as R2. cbn in R1, R2. rewrite R1, R2.
  assert (∀ Mo x y, committing_step (Mo := Mo) agreed commands x y → interleaved_agreeing (Mo := Mo) agreed x y) as Hsub
    by by intros ? ? ? [].
  apply (rtc_subrel _ _ _ _ (Hsub Mo1)), reached_safe in H1 as [C1 _].
  apply (rtc_subrel _ _ _ _ (Hsub Mo2)), reached_safe in H2 as [C2 _].
  eapply (foldl_dependent_order _ (clash commands)); [|by apply wf_NoDup, C1|done|].
  - intros x y s'. apply replay_commutes.
  - intros x y Hx Hy Hne Hc. apply (same_direct_order agreed); auto.
    + by apply wf_NoDup, C1.
    + by apply wf_NoDup, C2.
    + by apply C1.
    + by apply C2.
    + by rewrite <- Hp.
    + by rewrite <- Hp.
Qed.

(** ** The key-value store *)

Lemma partial_alter_Some (f : option KVStore.Value → option KVStore.Value) k v (d : gmap string KVStore.Value) :
  f (d !! k) = Some v → partial_alter f k d = <[k := v]> d.
Proof.
  intros Hf. apply map_eq. intros k'. destruct (decide (k' = k)) as [->|Hk];
    [by rewrite lookup_partial_alter_eq, lookup_insert_eq|by rewrite lookup_partial_alter_ne, lookup_insert_ne].
Qed.

(** An instruction changes the value of its own key only, depending on nothing
    else. *)
Lemma kv_exec_local i :
  ∃ f, ∀ s, (KVStore.ExecuteInstruction i s).2 =
    KVStore.mkKVStore (partial_alter f (Key i) (KVStore.data s)).
Proof.
  assert (∀ s, s = KVStore.mkKVStore (partial_alter id (Key i) (KVStore.data s))) as Hid.
  { intros [d]. cbn. by rewrite partial_alter_id. }
  destruct (KVStore.exec_cases i KVStore.NewKVStore) as [[Ha _]|[Hn _]].
  - destruct Ha as [i Hc Ha|i arg Hc Ha Ht|i Hc Ha Ht].
    + exists id. intros s. rewrite <- Hid. unfold KVStore.ExecuteInstruction. by rewrite Hc, Ha.
    + exists (λ o, match o with
        | Some e => if Time_Before (Timestamp i) (KVStore.GetTimestamp e) then o else Some (KVStore.VString arg (Timestamp i))
        | None => Some (KVStore.VString arg (Timestamp i)) end).
      intros [d]. rewrite (KVStore.exec_set _ _ arg), KVStore.fmap_state, KVStore.set_state by done. cbn.
      destruct (d !! Key i) as [e|] eqn:He; [destruct (Time_Before (Timestamp i) (KVStore.GetTimestamp e)) eqn:Hb|].
      * by rewrite partial_alter_id by (by rewrite He, Hb).
      * erewrite partial_alter_Some; [done|]. cbn. by rewrite He, Hb.
      * erewrite partial_alter_Some; [done|]. cbn. by rewrite He.
    + exists (λ o, match o with Some _ => Some (KVStore.VTombstone (Timestamp i)) | None => None end).
      intros [d]. rewrite KVStore.exec_del, KVStore.fmap_state by done. unfold KVStore.del. cbn.
      destruct (d !! Key i) as [e|] eqn:He; cbn.
      * erewrite partial_alter_Some; [done|]. cbn. by rewrite He.
      * by rewrite partial_alter_id by (by rewrite He).
  - exists id. intros s. rewrite <- Hid. by destruct (KVStore.exec_cases i s) as [[? _]|[_ [e ->]]].
Qed.

#[export] Instance KVStore_laws : StoreLaws KVStore.KVStore_Store.
Proof.
  split.
  - intros c d s Hn. cbn in *. destruct (kv_exec_local c) as [f Hf], (kv_exec_local d) as [h Hh].
    rewrite !Hf, !Hh. cbn. f_equal. apply partial_alter_partial_alter_ne. intros Heq. apply Hn.
    unfold KVStore.InterferingKeys. rewrite Heq. by left.
  - intros c s Hf. cbn in *. destruct (KVStore.exec_cases c s) as [[_ Hok]|[_ [e ->]]]; [|done]. congruence.
Qed.

(** ** Example *)

Section examples.
#[local] Existing Instances KVStore.KVStore_Store example_placement example_uuid.

Definition kv_agreed (x : InstanceID) : list InstanceID :=
  if decide (x = mkB16 0 3) then [mkB16 0 1] else [].
Definition kv_command (x : InstanceID) : option Instruction :=
  Some (NewInstruction "SET" (if decide (x = mkB16 0 2) then "j" else "k")
    [if decide (x = mkB16 0 1) then "a" else "b"] (mkTime (b1 x) 0 None)).

(** 1 and 3 set the same key, 2 another one. *)
Definition kv_commit (n : Z) : go_choice :=
  let x := mkB16 0 n in
  GDeliver (MCommitRequest (mkCommitRequest (mkInstance x (mkB16 1 1) []
    (default (NewInstruction "" "" [] Time_zero) (kv_command x)) (kv_agreed x) 3 1
    false false false [] [] ∅ Time_zero))).

Definition committing (m : Manager) : bool :=
  agreeing kv_agreed m &&
  forallb (λ '(x, p), match m_heap m !! p with
    | Some i => bool_decide (i_Status i < INSTANCE_COMMITTED ∨
        (if i_Noop i then None else Some (i_Command i)) = kv_command x)
    | None => true
    end) (map_to_list (m_instances m)).

Lemma committing_agrees m : committing m = true → agrees kv_agreed m ∧ agreed_commands kv_command m.
Proof.
  unfold committing. intros [H1%agreeing_agrees H2]%andb_prop. split; [done|]. intros x p i [Hx Hp] Hs.
  rewrite forallb_forall in H2. apply elem_of_map_to_list, list_elem_of_In in Hx. specialize (H2 _ Hx).
  cbn in H2. rewrite Hp in H2. apply bool_decide_eq_true in H2 as [H2|H2]; [lia|done].
Qed.

Definition kv_schedule1 : list go_choice :=
  [kv_commit 1; kv_commit 2; kv_commit 3; GSpawn 9 (mkB16 0 1); GSpawn 9 (mkB16 0 2); GSpawn 9 (mkB16 0 3)] ++
  mjoin (repeat [GAdvance 0; GAdvance 1; GAdvance 2] 30).
Definition kv_schedule2 : list go_choice :=
  [kv_commit 2; GSpawn 9 (mkB16 0 2); kv_commit 3] ++ repeat (GAdvance 0) 20 ++
  [GSpawn 9 (mkB16 0 3)] ++ repeat (GAdvance 1) 20 ++ [kv_commit 1; GSpawn 9 (mkB16 0 3)] ++ repeat (GAdvance 2) 30.

Definition kv_empty : Manager := NewManager KVStore.NewKVStore Time_zero.

Definition kv_played (Mo : MapOrder) (l : list go_choice) : Manager * list (prog unit) :=
  default (kv_empty, []) (go_play committing l (kv_empty, [])).

Lemma kv_schedule_clean : Forall clean_go (kv_schedule1 ++ kv_schedule2).
Proof. by repeat constructor. Qed.

Lemma kv_played_reached (Mo : MapOrder) l y :
  Forall clean_go l → go_play committing l (kv_empty, []) = Some y →
  rtc (committing_step kv_agreed kv_command) (kv_empty, []) y.
Proof.
  intros Hc H. eapply rtc_subrel; [|by apply (go_play_steps _ _ _ _ _ committing_agrees Hc H)].
  intros x y' (? & ? & ?). by split.
Qed.

Definition kv_replica1 : Manager * list (prog unit) := kv_played MapOrder_id kv_schedule1.
Definition kv_replica2 : Manager * list (prog unit) := kv_played MapOrder_rev kv_schedule2.

Lemma kv_reached1 : rtc (committing_step (Mo := MapOrder_id) kv_agreed kv_command) (kv_empty, []) (kv_replica1.1, kv_replica1.2).
Proof.
  apply (kv_played_reached MapOrder_id kv_schedule1); [|vm_compute; reflexivity].
  exact (proj1 (proj1 (Forall_app _ _ _) kv_schedule_clean)).
Qed.

Lemma kv_reached2 : rtc (committing_step (Mo := MapOrder_rev) kv_agreed kv_command) (kv_empty, []) (kv_replica2.1, kv_replica2.2).
Proof.
  apply (kv_played_reached MapOrder_rev kv_schedule2); [|vm_compute; reflexivity].
  exact (proj2 (proj1 (Forall_app _ _ _) kv_schedule_clean)).
Qed.

Lemma kv_executed1 : m_executed kv_replica1.1 = [mkB16 0 1; mkB16 0 2; mkB16 0 3].
Proof. vm_compute. reflexivity. Qed.
Lemma kv_executed2 : m_executed kv_replica2.1 = [mkB16 0 2; mkB16 0 1; mkB16 0 3].
Proof. vm_compute. reflexivity. Qed.

Lemma kv_clash_needs x y :
  x ∈ [mkB16 0 1; mkB16 0 2; mkB16 0 3] → y ∈ [mkB16 0 1; mkB16 0 2; mkB16 0 3] → x ≠ y →
  clash kv_command x y → related kv_agreed x y.
Proof.
  assert (∀ n m, bool_decide (clash kv_command (mkB16 0 n) (mkB16 0 m)) = false → ¬ clash kv_command (mkB16 0 n) (mkB16 0 m)) as Hno.
  { intros n m. by rewrite bool_decide_eq_false. }
  assert (∀ x y, bool_decide (x ≠ y ∧ kv_agreed x = []) = true → ¬ rtc (needs kv_agreed) x y) as Hend.
  { intros a b [Hab E]%bool_decide_eq_true [?|(c & Hc & _)]%rtc_inv; [done|]. unfold needs in Hc. rewrite E in Hc. set_solver. }
  rewrite !elem_of_cons, !elem_of_nil. intros [->|[->|[->|[]]]] [->|[->|[->|[]]]] Hne Hc; try done.
  all: try (exfalso; revert Hc; apply Hno; vm_compute; reflexivity).
  - right. left. split; [left|apply Hend]. vm_compute. reflexivity.
  - left. split; [left|apply Hend]. vm_compute. reflexivity.
Qed.

Lemma replicas_converge_witness : m_store kv_replica1.1 = m_store kv_replica2.1.
Proof.
  apply (replicas_converge (St := KVStore.KVStore_Store) MapOrder_id MapOrder_rev kv_agreed kv_command
    KVStore.NewKVStore Time_zero Time_zero kv_replica1.1 kv_replica2.1 kv_replica1.2 kv_replica2.2).
  - exact kv_reached1.
  - exact kv_reached2.
  - rewrite kv_executed1, kv_executed2. apply Permutation_swap.
  - rewrite kv_executed1. apply Forall_forall. repeat constructor; done.
  - rewrite kv_executed1. exact kv_clash_needs.
Defined.

End examples.
