(* ===== verification/Agreement.v ===== *)
(** * Replicas agree on what is committed

    A network of replicas that send each other the messages of
    [src/consensus/message.go] and answer them.  If those that commit a command
    on their own account (its leader, or a replica that has prepared it) commit
    it with the same dependencies, then every replica does, whichever messages it
    gets and in whichever order: what is known about single replicas
    ([Interleaved], [Convergence]) then applies to all of them. *)

From stdpp Require Import functions.
From S2P Require Import Prelude Bytes Types GoTime Serializer Instruction Containers KVStore.
From S2P Require Import Instance Dependencies Messages Manager Invariant Prepare Handlers.
From S2P Require Import Tarjan Execute Order Execution Leader Replica Frame Components Concurrent Interleaved Convergence.

(** ** Programs that keep an invariant *)

(** Whatever its outcome [op] keeps [I], and what it returns satisfies [P]. *)
Definition keeping {S E A} (I : S → Prop) (P : A → Prop) (op : ST S E A) : Prop :=
  ∀ s, I s → I (op s).2 ∧ ∀ a, (op s).1 = Ok a → P a.

Create HintDb keeping discriminated.

Section keeping.
Context {S E : Type} (I : S → Prop).

Lemma keeping_ret {A} (P : A → Prop) (a : A) : P a → keeping (E:=E) I P (mret a).
Proof. intros Ha s Hs. split; [done|]. by intros ? [= <-]. Qed.

Lemma keeping_fail {A} (P : A → Prop) (e : E) : keeping I P (fail e).
Proof. by intros s Hs. Qed.

Lemma keeping_panic {A} (P : A → Prop) : keeping (E:=E) I P panic.
Proof. by intros s Hs. Qed.

Lemma keeping_gets {A} (P : A → Prop) (f : S → A) : (∀ s, I s → P (f s)) → keeping (E:=E) I P (gets f).
Proof. intros Hf s Hs. split; [done|]. intros ? [= <-]. by apply Hf. Qed.

Lemma keeping_deref {A} (P : A → Prop) (o : option A) : (∀ a, o = Some a → P a) → keeping (E:=E) I P (deref o).
Proof. intros Ho s Hs. destruct o as [a|]; [|by split]. split; [done|]. intros ? [= <-]. by apply Ho. Qed.

Lemma keeping_modify (f : S → S) : (∀ s, I s → I (f s)) → keeping (E:=E) I (λ _, True) (modify f).
Proof. intros Hf s Hs. split; [by apply Hf|done]. Qed.

Lemma keeping_try {A} (P : A → Prop) (op : ST S E A) :
  keeping I P op → keeping I (λ x, match x with inl a => P a | inr _ => True end) (try op).
Proof.
  intros H s Hs. destruct (H s Hs) as [Hi Hp]. unfold try. destruct (op s) as [[a|e|] s']; cbn in *.
  - split; [done|]. intros x [= <-]. by apply Hp.
  - split; [done|]. by intros x [= <-].
  - by split.
Qed.

Lemma keeping_bind {A B} (P : A → Prop) (Q : B → Prop) (op : ST S E A) (k : A → ST S E B) :
  keeping I P op → (∀ a, P a → keeping I Q (k a)) → keeping I Q (op ≫= k).
Proof.
  intros H Hk s Hs. destruct (H s Hs) as [Hi Hp]. unfold mbind, ST_bind. destruct (op s) as [[a|e|] s']; cbn in *.
  - apply Hk; [by apply Hp|done].
  - by split.
  - by split.
Qed.

Lemma keeping_weaken {A} (P Q : A → Prop) (op : ST S E A) : (∀ a, P a → Q a) → keeping I P op → keeping I Q op.
Proof. intros HPQ H s Hs. destruct (H s Hs) as [? HP]. split; [done|]. auto. Qed.

Lemma keeping_for_each {A} (f : A → ST S E unit) l :
  (∀ a, a ∈ l → keeping I (λ _, True) (f a)) → keeping I (λ _, True) (for_each f l).
Proof.
  induction l as [|a l IH]; intros Hf; cbn; [by apply keeping_ret|].
  apply (keeping_bind (λ _, True)); [apply Hf; left|]. intros _ _. apply IH. intros b Hb. apply Hf. by right.
Qed.

End keeping.

Ltac keeping_step :=
  lazymatch goal with
  | |- keeping _ _ (mbind _ _) => eapply keeping_bind; [|intros ? ?]
  | |- keeping _ _ (fmap _ _) => eapply keeping_bind; [|intros ? ?]
  | |- keeping _ _ (mret _) => apply keeping_ret; try done
  | |- keeping _ _ (fail _) => apply keeping_fail
  | |- keeping _ _ panic => apply keeping_panic
  | |- keeping _ _ (gets _) => apply (keeping_gets _ (λ _, True)); done
  | |- keeping _ _ (try _) => eapply keeping_try
  | |- keeping _ _ (for_each _ _) => apply keeping_for_each; intros ? ?
  | |- keeping _ _ (match ?x with _ => _ end) => destruct x eqn:?
  | |- keeping _ _ (let _ := _ in _) => cbv zeta
  | |- keeping _ _ _ => solve [eauto with keeping]
  end.
Ltac keeping_tac := repeat keeping_step.

(** ** Sound instances *)

Section sound.
Context {St : Store} {Mo : MapOrder} {Uu : UUIDLib}.
Abbreviation M := (ST Manager error).

(** What each id stands for: the command, and the dependencies and the noop flag
    that it is committed with. *)
Context (command : InstanceID → Instruction) (agreed : InstanceID → list InstanceID) (noop : InstanceID → bool).

Definition final (i : Instance) : Prop :=
  (∀ d, d ∈ i_Dependencies i ↔ d ∈ agreed (i_InstanceID i)) ∧ i_Noop i = noop (i_InstanceID i).

Definition sound (i : Instance) : Prop :=
  i_Command i = command (i_InstanceID i) ∧ (INSTANCE_COMMITTED ≤ i_Status i → final i).

(** What comes over the network; a commit request is carried out whatever the
    status of its instance. *)
Definition sound_copy (i : Instance) : Prop := unrecorded i ∧ sound i.

Definition sound_message (msg : Message) : Prop :=
  Forall sound_copy (MessageWire.carried msg) ∧ match msg with MCommitRequest r => final (creq_Instance r) | _ => True end.

(** The instances of a replica and the messages it has sent. *)
Definition sound_state (m : Manager) : Prop :=
  (∀ p i, m_heap m !! p = Some i → sound i) ∧ ∀ n msg, (n, msg) ∈ m_outbox m → sound_message msg.

(** *** Memory *)

Lemma sound_frame m m' : m_heap m' = m_heap m → m_outbox m' = m_outbox m → sound_state m → sound_state m'.
Proof. intros Hh Ho [H1 H2]. split; [by rewrite Hh|by rewrite Ho]. Qed.

Lemma sound_insert m p i : sound i → sound_state m → sound_state (with_heap (<[p := i]> (m_heap m)) m).
Proof.
  intros Hi [H1 H2]. split; [|done]. cbn. intros q j [[<- <-]|[_ Hq]]%lookup_insert_Some; [done|by apply (H1 q)].
Qed.

Lemma keeping_load p : keeping sound_state sound (load p).
Proof.
  intros m [H1 H2]. rewrite load_eq. split; [done|]. cbn. intros i. destruct (m_heap m !! p) eqn:Hp; [|done].
  intros [= <-]. by apply (H1 p).
Qed.

Lemma keeping_store p i : sound i → keeping sound_state (λ _, True) (store p i).
Proof. intros Hi. apply keeping_modify. intros m. by apply sound_insert. Qed.

Lemma keeping_alloc i : sound i → keeping sound_state (λ _, True) (alloc i).
Proof. intros Hi m Hm. split; [by apply sound_insert|done]. Qed.

Lemma keeping_alloc_all l : Forall sound l → keeping sound_state (λ _, True) (alloc_all l).
Proof.
  induction 1 as [|i l Hi _ IH]; cbn; [by apply keeping_ret|].
  eapply keeping_bind; [by apply keeping_alloc|intros p _]. eapply keeping_bind; [exact IH|intros ps _]. by apply keeping_ret.
Qed.

Lemma keeping_frame {A} (op : M A) :
  (∀ m, m_heap (op m).2 = m_heap m ∧ m_outbox (op m).2 = m_outbox m) → keeping sound_state (λ _, True) op.
Proof. intros H m Hm. destruct (H m). split; [by eapply sound_frame|done]. Qed.

Lemma keeping_deps {A} (op : ST dependencyMap error A) : keeping sound_state (λ _, True) (deps op).
Proof. apply keeping_frame. intros m. unfold deps. by destruct (op _). Qed.

Lemma keeping_send msg l : sound_message msg → keeping sound_state (λ _, True) (send msg l).
Proof.
  intros Hmsg. apply keeping_modify. intros m [H1 H2]. split; [done|]. cbn.
  intros n x [Hx|(n' & [= -> ->] & _)%list_elem_of_fmap]%elem_of_app; [by eapply H2|done].
Qed.

Lemma keeping_instances_Get iid : keeping sound_state (λ _, True) (instances_Get iid).
Proof. by apply keeping_gets. Qed.

Lemma keeping_lift {A} (P : A → Prop) (r : res error A) : (∀ a, r = Ok a → P a) → keeping sound_state P (lift r).
Proof. intros Hr m Hm. by split. Qed.

Lemma keeping_update p f : (∀ i, sound i → sound (f i)) → keeping sound_state (λ _, True) (update p f).
Proof. intros Hf. eapply keeping_bind; [apply keeping_load|intros i Hi]. by apply keeping_store, Hf. Qed.

Lemma keeping_argument p q : keeping sound_state (λ _, True) (argument p q).
Proof. unfold argument. case_decide; [by apply keeping_ret|]. eapply keeping_bind; [apply keeping_load|intros]. by apply keeping_ret. Qed.

#[local] Hint Resolve keeping_load keeping_deps keeping_instances_Get keeping_argument : keeping.

(** *** The operations *)

Lemma sound_below i i' :
  sound i → i_Command i' = i_Command i → i_InstanceID i' = i_InstanceID i → i_Status i' < INSTANCE_COMMITTED → sound i'.
Proof. intros [Hc _] E1 E2 Hs. split; [by rewrite E1, E2|lia]. Qed.

Lemma sound_same i i' :
  sound i → i_Command i' = i_Command i → i_InstanceID i' = i_InstanceID i → i_Dependencies i' = i_Dependencies i →
  i_Noop i' = i_Noop i → (INSTANCE_COMMITTED ≤ i_Status i' → INSTANCE_COMMITTED ≤ i_Status i) → sound i'.
Proof.
  intros [Hc Hf] E1 E2 E3 E4 Hs. split; [by rewrite E1, E2|]. intros H%Hs%Hf. unfold final. by rewrite E2, E3, E4.
Qed.

Lemma sound_initialize i : sound i → sound (initialize i).
Proof.
  intros Hi. unfold initialize. case_decide; [|done]. eapply sound_same; [exact Hi|done..|]. cbn. lia.
Qed.

Lemma copy_sound i : sound i → sound_copy (Instance.Copy i).
Proof.
  intros Hi. split; [done|]. eapply sound_same; [exact Hi| |done..]. cbn. by destruct (i_Command i).
Qed.

Lemma keeping_getOrSetInstance p : keeping sound_state (λ _, True) (getOrSetInstance p).
Proof.
  unfold getOrSetInstance. eapply (keeping_bind _ (λ _, True)).
  - unfold GetOrSet. eapply keeping_bind; [apply keeping_load|intros i Hi].
    eapply keeping_bind; [apply keeping_instances_Get|intros [q|] _]; [by apply keeping_ret|].
    eapply keeping_bind; [by apply keeping_store, sound_initialize|intros _ _].
    eapply keeping_bind; [|intros; by apply keeping_ret]. apply keeping_modify. intros m. by apply sound_frame.
  - intros [q b] _. eapply keeping_bind; [apply keeping_load|intros i _].
    apply (keeping_bind _ (λ _, True)); [|intros; by apply keeping_ret].
    destruct (decide _); [|by apply keeping_ret].
    eapply keeping_bind; [eapply keeping_try, keeping_deps|intros; by apply keeping_ret].
Qed.
#[local] Hint Resolve keeping_getOrSetInstance : keeping.

Lemma keeping_preaccept p q incr : keeping sound_state (λ _, True) (preaccept p q incr).
Proof.
  unfold preaccept. eapply keeping_bind; [apply keeping_load|intros i Hi].
  eapply keeping_bind; [apply keeping_argument|intros o _].
  assert (∀ j, Instance.preaccept_enter o i = Ok j →
    i_Command j = i_Command i ∧ i_InstanceID j = i_InstanceID i ∧ i_Status j = INSTANCE_PREACCEPTED) as He.
  { intros j. unfold Instance.preaccept_enter, Instance.take_ballot. intros ?; repeat (case_match; simplify_eq); done. }
  eapply keeping_bind; [apply keeping_lift, He|intros j (E1 & E2 & E3)].
  eapply keeping_bind; [apply keeping_store; eapply sound_below; [exact Hi|done..|by rewrite E3]|intros _ _].
  eapply keeping_bind; [apply keeping_deps|intros ids _]. eapply keeping_bind; [by apply (keeping_gets _ (λ _, True))|intros now _].
  apply keeping_store. eapply sound_below; [exact Hi|..]; unfold Instance.preaccept_leave, Instance.bump, Instance.setDeps;
    repeat case_match; cbn; by rewrite ?E1, ?E2, ?E3.
Qed.

Lemma keeping_accept p q incr : keeping sound_state (λ _, True) (accept p q incr).
Proof.
  unfold accept. eapply keeping_bind; [apply keeping_load|intros i Hi].
  eapply keeping_bind; [apply keeping_argument|intros o _].
  eapply keeping_bind; [by apply (keeping_gets _ (λ _, True))|intros now _].
  apply (keeping_bind _ sound); [|intros j; apply keeping_store]. apply keeping_lift. intros j Hj.
  unfold Instance.accept, Instance.bump, Instance.take_ballot, Instance.setDeps in Hj.
  eapply sound_below; [exact Hi|..]; repeat (case_match; simplify_eq); done.
Qed.
#[local] Hint Resolve keeping_preaccept keeping_accept : keeping.

Lemma keeping_preAcceptInstance p incr : keeping sound_state (λ _, True) (preAcceptInstance p incr).
Proof. unfold preAcceptInstance. keeping_tac. Qed.
Lemma keeping_acceptInstance p incr : keeping sound_state (λ _, True) (acceptInstance p incr).
Proof. unfold acceptInstance. keeping_tac. Qed.

Lemma keeping_ignore (op : M unit) :
  keeping sound_state (λ _, True) op → keeping sound_state (λ _, True) (ignore_invalid_status op).
Proof. intros H. unfold ignore_invalid_status. eapply keeping_bind; [by eapply keeping_try|intros [] _]; keeping_tac. Qed.

Lemma keeping_addMissing l : Forall sound l → keeping sound_state (λ _, True) (addMissing l).
Proof.
  intros Hl. unfold addMissing, addMissingInstancesUnsafe. eapply keeping_bind; [by apply keeping_alloc_all|intros ps _].
  apply keeping_for_each. intros p _. unfold addMissingInstance.
  eapply keeping_bind; [apply keeping_getOrSetInstance|intros [q []] _]; [by apply keeping_ret|].
  eapply keeping_bind; [apply keeping_load|intros i Hi]. apply (keeping_bind _ (λ _, True)); [|intros; keeping_tac].
  destruct (decide _); [by apply keeping_ret|]. destruct (decide _) as [Hs|]; [|apply keeping_panic].
  apply keeping_store. eapply sound_same; [exact Hi|done..|]. intros _. by destruct Hs as [-> | ->].
Qed.

Lemma keeping_copies l : keeping sound_state (Forall sound_copy) (copies l).
Proof.
  induction l as [|x l IH]; cbn; [by apply keeping_ret|].
  eapply keeping_bind; [apply keeping_instances_Get|intros [p|] _]; [|done].
  eapply keeping_bind; [apply keeping_load|intros i Hi]. eapply keeping_bind; [exact IH|intros l' Hl'].
  apply keeping_ret. constructor; [by apply copy_sound|done].
Qed.

Lemma keeping_outdated iid b : keeping sound_state (from_option sound True) (outdated iid b).
Proof.
  unfold outdated. eapply keeping_bind; [apply keeping_instances_Get|intros [p|] _]; [|by apply keeping_ret].
  eapply keeping_bind; [apply keeping_load|intros i Hi]. case_decide; by apply keeping_ret.
Qed.

Lemma keeping_updateBallot p b : keeping sound_state (λ _, True) (update p (λ i, (Instance.updateBallot b i).1)).
Proof.
  apply keeping_update. intros i Hi. eapply sound_same; [exact Hi|..]; unfold Instance.updateBallot; by case_decide.
Qed.

Lemma keeping_merge p rs c : keeping sound_state (λ _, True) (mergePreAcceptAttributes p rs c).
Proof.
  revert c. induction rs as [|r rs IH]; intros c; cbn [mergePreAcceptAttributes]; [by apply keeping_ret|].
  eapply keeping_bind; [apply keeping_load|intros i Hi].
  destruct (Instance.mergeAttributes _ i) as [[j b]|e|] eqn:Hm; [|by apply keeping_ret|apply keeping_panic].
  eapply keeping_bind; [|intros; apply IH]. apply keeping_store.
  unfold Instance.mergeAttributes, Instance.setDeps in Hm. destruct (decide _) as [|Hs%dec_stable]; [done|].
  eapply sound_below; [exact Hi|..]; repeat (case_match; simplify_eq); try done; cbn; by rewrite Hs.
Qed.

Lemma keeping_choose p responses :
  Forall sound (known responses) → keeping sound_state (λ _, True) (choosePrepareInstance p responses).
Proof.
  intros Hr. unfold choosePrepareInstance. eapply keeping_bind; [apply keeping_load|intros i Hi].
  destruct (analyzePrepareResponses responses) as [r|] eqn:Ha.
  - case_decide; [by apply keeping_ret|]. eapply keeping_bind; [|intros; by apply keeping_ret]. apply keeping_alloc.
    rewrite Forall_forall in Hr. apply Hr. by apply analyzePrepareResponses_in.
  - case_decide as Hs; [|by apply keeping_ret]. eapply keeping_bind; [|intros; by apply keeping_ret]. apply keeping_store.
    eapply sound_below; [exact Hi|done..|]. cbn. unfold INSTANCE_PREACCEPTED, INSTANCE_COMMITTED in *. lia.
Qed.

(** *** Commits *)

Lemma sound_commit m x p i q o incr :
  sound_state m → stored m x p i → i_InstanceID i = x → m_heap m !! q = Some o → i_InstanceID o = x → final o →
  sound_state (commit p q incr m).2.
Proof.
  intros Hm [Hx Hp] Hid Hq Hido Hf. unfold commit. rewrite bind_load, Hp, bind_argument.
  assert (sound i) as Hi by by apply (proj1 Hm p).
  destruct (decide (q = p)) as [->|Hne]; [assert (o = i) as -> by congruence|rewrite Hq];
    rewrite bind_lift; destruct (Instance.commit _ incr i) as [j|e|] eqn:Hj; try done;
    (apply sound_insert; [|done]; destruct Hi as [Hc _], Hf as [Hd Hn];
     unfold Instance.commit, Instance.bump, Instance.take_ballot, Instance.setDeps in Hj;
     repeat (case_match; simplify_eq); split; try done; intros _; split; cbn; try done; by rewrite ?Hid, <- ?Hido).
Qed.

Lemma sound_commitInstance m p o incr :
  wf m → sound_state m → m_heap m !! p = Some o → final o → sound_state (commitInstance p incr m).2.
Proof.
  intros Hwf Hm Hp Hf. destruct (getOrSetInstance_ok p o m Hwf Hp) as (q & b & m1 & j & Hrun & Hs & Hb).
  pose proof (proj1 (keeping_getOrSetInstance p m Hm)) as Hm1. rewrite Hrun in Hm1. cbn in Hm1.
  unfold commitInstance. rewrite (bind_run _ _ _ _ _ Hrun). cbn [fst].
  assert (sound_state (commit q p incr m1).2) as Hc.
  { destruct b.
    - subst m1. destruct (wf_ptr m Hwf _ _ (proj1 Hs)) as (j' & Hj' & Hid & _).
      assert (j' = j) as -> by (destruct Hs; congruence). by eapply sound_commit.
    - destruct Hb as (-> & -> & _). eapply sound_commit; [done|exact Hs|apply initialize_id|apply Hs|apply initialize_id|].
      unfold final in *. rewrite initialize_id. unfold initialize. by case_decide. }
  assert (keeping sound_state (λ _, True) (i ← load q; deps (DepsMngr.ReportAcknowledged i))) as Hk by keeping_tac.
  unfold mbind at 1, ST_bind at 1. destruct (commit q p incr m1) as [[[]|e|] m2]; cbn in Hc |- *; [|done..].
  by apply (Hk m2 Hc).
Qed.

(** *** The handlers *)

Lemma keeping_replyPreAccept iid ext :
  keeping sound_state (λ r, sound_message (MPreAcceptResponse r)) (replyPreAccept iid ext).
Proof.
  unfold replyPreAccept. eapply keeping_bind; [apply keeping_instances_Get|intros found _].
  eapply keeping_bind; [by apply (keeping_deref _ (λ _, True))|intros p _].
  eapply keeping_bind; [apply keeping_load|intros i Hi]. cbv zeta. set (j := with_DependencyMatch _ i).
  assert (sound j) as Hj by by apply (sound_same i).
  eapply keeping_bind; [by apply keeping_store|intros _ _]. eapply keeping_bind; [apply keeping_copies|intros l Hl].
  apply keeping_ret. split; [|done]. constructor; [by apply copy_sound|done].
Qed.

Lemma keeping_HandlePreAccept r :
  sound_message (MPreAcceptRequest r) → keeping sound_state (λ a, sound_message (MPreAcceptResponse a)) (HandlePreAccept r).
Proof.
  intros [[[_ Hr] _]%Forall_cons _]. unfold HandlePreAccept. cbv zeta.
  eapply keeping_bind; [apply keeping_outdated|intros [i|] Hi].
  - apply keeping_ret. split; [|done]. constructor; [by apply copy_sound|constructor].
  - eapply keeping_bind; [by apply keeping_alloc|intros p _].
    eapply keeping_bind; [apply keeping_ignore, keeping_preAcceptInstance|intros _ _]. apply keeping_replyPreAccept.
Qed.

Lemma sound_copies l : Forall sound_copy l → Forall sound l.
Proof. intros H. eapply Forall_impl; [exact H|]. by intros i []. Qed.

Lemma keeping_HandleAccept r :
  sound_message (MAcceptRequest r) → keeping sound_state (λ _, True) (HandleAccept r).
Proof.
  intros [[[_ Hr] Hl%sound_copies]%Forall_cons _]. unfold HandleAccept. cbv zeta.
  apply (keeping_bind _ (λ _, True)).
  { case_decide; [by apply keeping_ret|].
    eapply keeping_bind; [by eapply keeping_try, keeping_addMissing|intros; by apply keeping_ret]. }
  intros _ _. eapply keeping_bind; [apply keeping_outdated|intros [i|] _]; [by apply keeping_ret|].
  eapply keeping_bind; [by apply keeping_alloc|intros p _].
  eapply keeping_bind; [apply keeping_ignore, keeping_acceptInstance|intros; by apply keeping_ret].
Qed.

Lemma keeping_HandlePrepare r : keeping sound_state (λ a, sound_message (MPrepareResponse a)) (HandlePrepare r).
Proof.
  unfold HandlePrepare. eapply keeping_bind; [apply keeping_instances_Get|intros [p|] _]; [|by apply keeping_ret].
  eapply keeping_bind; [apply keeping_load|intros i _]. cbv zeta. apply (keeping_bind _ (λ _, True)).
  { destruct (bool_decide _); [apply keeping_updateBallot|by apply keeping_ret]. }
  intros _ _. eapply keeping_bind; [apply keeping_load|intros j Hj]. apply keeping_ret.
  split; [|done]. constructor; [by apply copy_sound|constructor].
Qed.

Lemma keeping_HandlePrepareSuccessor r :
  keeping sound_state (λ a, sound_message (MPrepareSuccessorResponse a)) (HandlePrepareSuccessor r).
Proof.
  unfold HandlePrepareSuccessor. eapply keeping_bind; [apply keeping_instances_Get|intros [p|] _]; [|by apply keeping_ret].
  eapply keeping_bind; [apply keeping_load|intros i Hi]. apply keeping_ret.
  split; [|done]. constructor; [by apply copy_sound|constructor].
Qed.

Lemma ignore_state (op : M unit) m : (ignore_invalid_status op m).2 = (op m).2.
Proof. unfold ignore_invalid_status. rewrite bind_try. destruct (op m) as [[[]|e|] m']; try done. cbn. by case_match. Qed.

Lemma sound_HandleCommit r m :
  wf m → sound_state m → sound_message (MCommitRequest r) → sound_state (HandleCommit r m).2.
Proof.
  intros Hwf Hm [[[_ Hr] _]%Forall_cons Hf]. unfold HandleCommit.
  destruct (alloc (creq_Instance r) m) as [[p|e|] m1] eqn:Ha; [|done..]. rewrite (bind_run _ _ _ _ _ Ha), ignore_state.
  pose proof (proj1 (preserves_alloc any_ballot (creq_Instance r) m Hwf)) as Hwf1.
  pose proof (proj1 (keeping_alloc _ Hr m Hm)) as Hm1. rewrite Ha in Hwf1, Hm1.
  eapply sound_commitInstance; [done|done| |exact Hf]. unfold alloc in Ha. simplify_eq. apply lookup_insert_eq.
Qed.

Lemma sound_HandleMessage msg m :
  wf m → sound_state m → sound_message msg →
  sound_state (HandleMessage msg m).2 ∧ ∀ a, (HandleMessage msg m).1 = Ok a → sound_message a.
Proof.
  intros Hwf Hm Hmsg. destruct msg as [r|r|r|r|r| |r|r|r|r|r|r]; cbn [HandleMessage]; try by (split; [done|]).
  - apply (λ H, keeping_bind sound_state _ sound_message _ _ (keeping_HandlePreAccept r Hmsg) H m Hm).
    intros a Ha. by apply keeping_ret.
  - apply (λ H, keeping_bind sound_state _ sound_message _ _ (keeping_HandleAccept r Hmsg) H m Hm).
    intros a _. by apply keeping_ret.
  - pose proof (sound_HandleCommit r m Hwf Hm Hmsg) as Hs. unfold mbind, ST_bind.
    destruct (HandleCommit r m) as [[[]|e|] m']; cbn in *; (split; [done|]); [|done..]. by intros ? [= <-].
  - apply (λ H, keeping_bind sound_state _ sound_message _ _ (keeping_HandlePrepare r) H m Hm).
    intros a Ha. by apply keeping_ret.
  - apply (λ H, keeping_bind sound_state _ sound_message _ _ (keeping_HandlePrepareSuccessor r) H m Hm).
    intros a Ha. by apply keeping_ret.
Qed.

(** *** Execution *)

Lemma sound_annotates m m' : annotates m m' → sound_state m → sound_state m'.
Proof.
  intros [E Ha] [H1 H2]. split; [|by rewrite E]. intros p i' Hp. specialize (Ha p). rewrite Hp in Ha.
  inversion Ha as [i j Hij E1 E2|]; subst. specialize (H1 p i (eq_sym E1)). rewrite Hij. by apply (sound_same i).
Qed.

Lemma sound_effect agreement m m' : effect agreed agreement m m' → sound_state m → sound_state m'.
Proof.
  intros [Ha|x p i _ He _|i e _ Hh _ _ Ho _ _] Hs.
  - by eapply sound_annotates.
  - destruct He as [[_ Hp] Hst _ Hh _ Ho _ _]. destruct Hs as [H1 H2]. split; [|by rewrite Ho].
    rewrite Hh. intros q j [[<- <-]|[_ Hq]]%lookup_insert_Some; [|by apply (H1 q)].
    apply (sound_same i); [by apply (H1 p)|done..|]. by rewrite Hst.
  - by eapply sound_frame.
Qed.

End sound.

(** ** The network *)

(** The replicas with their goroutines, and the answers they have given. *)
Record Net `{St : Store} := mkNet { n_replicas : NodeId → Manager * list (prog unit); n_answers : list Message }.
Arguments mkNet {St} _ _.

Section network.
Context {St : Store} {Uu : UUIDLib} (mo : NodeId → MapOrder).
Context (command : InstanceID → Instruction) (agreed : InstanceID → list InstanceID) (noop : InstanceID → bool).
Abbreviation M := (ST Manager error).

(** The requests that a replica sends about an instance are copies of it; commit
    requests are about committed ones. *)
Definition truthful (m : Manager) (msg : Message) : Prop :=
  match msg with
  | MPreAcceptRequest r => ∃ p i, m_heap m !! p = Some i ∧ pareq_Instance r = Instance.Copy i
  | MAcceptRequest r => ∃ p i, m_heap m !! p = Some i ∧ areq_Instance r = Instance.Copy i ∧ areq_MissingInstances r = []
  | MCommitRequest r => ∃ p i, m_heap m !! p = Some i ∧ INSTANCE_COMMITTED ≤ i_Status i ∧ creq_Instance r = Instance.Copy i
  | MPrepareRequest _ | MPrepareSuccessorRequest _ => True
  | _ => False
  end.

(** What the goroutines of a replica do between their waits (see
    [Concurrent.local_action]), with what they have got from the others.  A
    replica that commits on its own account does so with the agreed
    dependencies. *)
Inductive net_action (Mo : MapOrder) (answers : list Message) (m : Manager) : ∀ {A}, M A → Prop :=
  | na_clock now : net_action Mo answers m (modify (with_now now))
  | na_new i : i_Command i = command (i_InstanceID i) → i_Status i < INSTANCE_COMMITTED → unrecorded i →
      net_action Mo answers m (alloc i)
  | na_send msg replicas : truthful m msg → net_action Mo answers m (send msg replicas)
  | na_getOrSet p : net_action Mo answers m (getOrSetInstance p)
  | na_preAccept p incr : net_action Mo answers m (preAcceptInstance p incr)
  | na_accept p incr : net_action Mo answers m (acceptInstance p incr)
  | na_commit p incr : (∀ i, m_heap m !! p = Some i → final agreed noop i) → net_action Mo answers m (commitInstance p incr)
  | na_addMissing r : MPreAcceptResponse r ∈ answers → net_action Mo answers m (addMissing (pa_MissingInstances r))
  | na_merge p responses changes : Forall (λ r, MPreAcceptResponse r ∈ answers) responses →
      net_action Mo answers m (mergePreAcceptAttributes p responses changes)
  | na_updateBallot p ballot : net_action Mo answers m (update p (λ i, (Instance.updateBallot ballot i).1))
  | na_incrementBallot p : net_action Mo answers m (update p (λ i, (Instance.incrementBallot i).1))
  | na_choose p responses : Forall (λ r, MPrepareResponse r ∈ answers) responses →
      net_action Mo answers m (choosePrepareInstance p responses).

(** One replica takes a step: it answers a message that has been sent to it, acts,
    or executes.  Messages may be lost, repeated and overtaken. *)
Inductive net_step : Net → Net → Prop :=
  | net_receive n n' msg m cs r m' net :
      n_replicas net n = (m, cs) → (n, msg) ∈ m_outbox (n_replicas net n').1 →
      HandleMessage (Mo := mo n) msg m = (r, m') →
      net_step net (mkNet (<[n := (m', cs)]> (n_replicas net))
        (match r with Ok a => a :: n_answers net | _ => n_answers net end))
  | net_act n {A} (op : M A) m cs net :
      n_replicas net n = (m, cs) → net_action (mo n) (n_answers net) m op →
      net_step net (mkNet (<[n := ((op m).2, cs)]> (n_replicas net)) (n_answers net))
  | net_execute n y net :
      go_step (Mo := mo n) (n_replicas net n) y →
      net_step net (mkNet (<[n := y]> (n_replicas net)) (n_answers net)).

(** What a replica has executed of an id. *)
Definition executed_command (x : InstanceID) : option Instruction :=
  if noop x then None else Some (command x).

(** *** What holds throughout *)

Record net_ok (net : Net) : Prop := {
  ok_replicas : ∀ n, all_safe agreed True (n_replicas net n);
  ok_states : ∀ n, sound_state command agreed noop (n_replicas net n).1;
  ok_answers : Forall (sound_message command agreed noop) (n_answers net);
}.

Lemma sound_clean msg : sound_message command agreed noop msg → clean_message msg.
Proof.
  intros [Hc _]. destruct msg; cbn in *; try done; apply Forall_cons in Hc as [[Hu _] Hc]; try done.
  split; [done|]. eapply Forall_impl; [exact Hc|]. by intros i [].
Qed.

Lemma sound_agrees m : wf m → sound_state command agreed noop m → agrees agreed m ∧ agreed_commands executed_command m.
Proof.
  intros Hwf [H _]. split; intros x p i Hs Hc; destruct (H p i (proj2 Hs)) as [Hcmd Hf];
    destruct (wf_ptr m Hwf _ _ (proj1 Hs)) as (i' & Hi' & Hid & _);
    (assert (i' = i) as -> by (destruct Hs; congruence)); destruct (Hf Hc) as [Hd Hn]; rewrite Hid in *.
  - done.
  - unfold executed_command. by rewrite Hn, Hcmd.
Qed.

(** What the answers carry. *)
Lemma answers_missing answers r :
  Forall (sound_message command agreed noop) answers → MPreAcceptResponse r ∈ answers →
  Forall (sound_copy command agreed noop) (pa_MissingInstances r).
Proof. rewrite Forall_forall. intros H Hr. destruct (H _ Hr) as [[_ ?]%Forall_cons _]. done. Qed.

Lemma answers_known answers responses :
  Forall (sound_message command agreed noop) answers → Forall (λ r, MPrepareResponse r ∈ answers) responses →
  Forall (sound_copy command agreed noop) (known responses).
Proof.
  rewrite Forall_forall. intros H Hr. apply Forall_forall. intros i (r & Hin & Hi)%list_elem_of_omap.
  rewrite Forall_forall in Hr. destruct (H _ (Hr r Hin)) as [Hc _]. cbn in Hc. rewrite Hi in Hc. by apply Forall_cons in Hc as [? _].
Qed.

Lemma copies_unrecorded l : Forall (sound_copy command agreed noop) l → Forall unrecorded l.
Proof. intros H. eapply Forall_impl; [exact H|]. by intros i []. Qed.

Lemma net_action_local (Mo : MapOrder) answers m {A} (op : M A) :
  Forall (sound_message command agreed noop) answers → net_action Mo answers m op → local_action op.
Proof.
  intros Ha [now|i Hc Hs Hu|msg l Ht|p|p incr|p incr|p incr Hf|r Hr|p rs c Hr|p b|p|p rs Hr]; constructor; try done.
  - by eapply copies_unrecorded, answers_missing.
  - by eapply copies_unrecorded, answers_known.
Qed.

Lemma truthful_sound m msg :
  sound_state command agreed noop m → truthful m msg → sound_message command agreed noop msg.
Proof.
  intros [Hs _] Ht. assert (∀ p i, m_heap m !! p = Some i → sound_copy command agreed noop (Instance.Copy i)) as Hcopy
    by (intros p i Hp; by eapply copy_sound, Hs).
  destruct msg as [r|r|r|r|r| |r|r|r|r|r|r]; cbn in Ht; try done.
  - destruct Ht as (p & i & Hp & E). split; [|done]. cbn. rewrite E. constructor; [by eapply Hcopy|constructor].
  - destruct Ht as (p & i & Hp & E & El). split; [|done]. cbn. rewrite E, El. constructor; [by eapply Hcopy|constructor].
  - destruct Ht as (p & i & Hp & Hc & E). unfold sound_message. cbn. rewrite E. split; [constructor; [by eapply Hcopy|constructor]|].
    destruct (Hs p i Hp) as [_ Hf]. by apply Hf.
Qed.

Lemma net_action_sound (Mo : MapOrder) answers m {A} (op : M A) :
  wf m → sound_state command agreed noop m → Forall (sound_message command agreed noop) answers →
  net_action Mo answers m op → sound_state command agreed noop (op m).2.
Proof.
  intros Hwf Hm Ha Hop. destruct Hop as [now|i Hc Hs Hu|msg l Ht|p|p incr|p incr|p incr Hf|r Hr|p rs c Hr|p b|p|p rs Hr].
  - by eapply sound_frame.
  - apply keeping_alloc; [|done]. split; [done|lia].
  - apply keeping_send; [|done]. by eapply truthful_sound.
  - by apply keeping_getOrSetInstance.
  - by apply keeping_preAcceptInstance.
  - by apply keeping_acceptInstance.
  - destruct (m_heap m !! p) as [o|] eqn:Hp; [by eapply sound_commitInstance; [..|apply Hf]|].
    unfold commitInstance, getOrSetInstance, GetOrSet, mbind, ST_bind. rewrite load_eq, Hp. done.
  - apply keeping_addMissing; [|done]. by eapply sound_copies, answers_missing.
  - by apply keeping_merge.
  - by apply keeping_updateBallot.
  - apply keeping_update; [|done]. intros i Hi. by apply (sound_same _ _ _ i).
  - apply keeping_choose; [|done]. by eapply sound_copies, answers_known.
Qed.

(** A step of the network is one of a single replica, after which everything is
    committed as agreed. *)
Lemma net_step_replica net net' :
  net_ok net → net_step net net' →
  ∃ n y, n_replicas net' = <[n := y]> (n_replicas net) ∧ interleaved_step (Mo := mo n) (n_replicas net n) y ∧
    sound_state command agreed noop y.1 ∧ wf y.1 ∧ Forall (sound_message command agreed noop) (n_answers net').
Proof.
  intros [H1 H2 H3] Hstep. destruct Hstep as [n n' msg m cs r m' net Hn Hmsg Hrun|n A op m cs net Hn Hop|n y net Hch].
  - assert (wf m ∧ sound_state command agreed noop m) as [Hwf Hs].
    { split; [|by specialize (H2 n); rewrite Hn in H2]. destruct (H1 n) as [[W _] _]. by rewrite Hn in W. }
    destruct (H2 n') as [_ Hout]. pose proof (Hout _ _ Hmsg) as Hsm. pose proof (sound_clean msg Hsm) as Hcl.
    destruct (sound_HandleMessage (Mo := mo n) command agreed noop msg m Hwf Hs Hsm) as [Hs' Ha].
    pose proof (proj1 (preserves_HandleMessage (Mo := mo n) any_ballot ltac:(done) msg m Hwf)) as Hwf'.
    rewrite Hrun in Hs', Ha, Hwf'. cbn in *. exists n, (m', cs). split_and!; [done| |done|done|].
    + rewrite Hn. assert (m' = (HandleMessage (Mo := mo n) msg m).2) as -> by by rewrite Hrun. by apply interleaved_message.
    + destruct r; [|done..]. constructor; [by apply Ha|done].
  - assert (wf m ∧ sound_state command agreed noop m) as [Hwf Hs].
    { split; [|by specialize (H2 n); rewrite Hn in H2]. destruct (H1 n) as [[W _] _]. by rewrite Hn in W. }
    pose proof (net_action_local _ _ _ _ H3 Hop) as Hl. destruct (local_action_quiet op Hl) as [Hg _].
    exists n, ((op m).2, cs). split_and!; [done| |by eapply net_action_sound|by apply (Hg m Hwf)|done].
    rewrite Hn. by apply interleaved_local.
  - destruct (all_safe_go agreed True _ _ (H1 n) Hch) as [[[W _ _] _] He].
    exists n, y. split_and!; [done|by apply interleaved_go|by eapply sound_effect|done|done].
Qed.

Definition net_start (s : NodeId → store_state) (now : NodeId → Time) : Net :=
  mkNet (λ n, (NewManager (s n) (now n), [])) [].

Lemma net_start_ok s now : net_ok (net_start s now).
Proof.
  split; cbn; [intros n; apply all_safe_NewManager| |constructor].
  intros n. split; cbn; [done|]. by intros ? ? ?%elem_of_nil.
Qed.

(** The history of every replica is one in which everything is committed as
    agreed. *)
Definition histories (s : NodeId → store_state) (now : NodeId → Time) (net : Net) : Prop :=
  net_ok net ∧ ∀ n, rtc (committing_step (Mo := mo n) agreed executed_command)
    (NewManager (s n) (now n), []) (n_replicas net n).

Lemma histories_step s now net net' : histories s now net → net_step net net' → histories s now net'.
Proof.
  intros [Hok Hh] Hstep. destruct (net_step_replica net net' Hok Hstep) as (n & y & Hn & Hex & Hs & Hwf & Ha).
  destruct (sound_agrees y.1 Hwf Hs) as [Hag Hcmd]. destruct Hok as [H1 H2 _].
  assert (committing_step (Mo := mo n) agreed executed_command (n_replicas net n) y) as Hc by done.
  split; [split; [| |done]|]; intros k; rewrite Hn; destruct (decide (k = n)) as [->|Hne];
    rewrite ?fn_lookup_insert, ?fn_lookup_insert_ne by done; try done.
  - by apply (all_safe_step (Mo := mo n) agreed True (n_replicas net n)).
  - eapply rtc_r; [apply Hh|done].
Qed.

Lemma net_histories s now net : rtc net_step (net_start s now) net → histories s now net.
Proof.
  assert (∀ x y, rtc net_step x y → histories s now x → histories s now y) as H.
  { induction 1 as [|x y z Hxy _ IH]; [done|]. intros Hx. by apply IH, (histories_step _ _ x). }
  intros Hr. apply (H _ _ Hr). split; [apply net_start_ok|intros; apply rtc_refl].
Qed.

(** C2. Replicas agree on what they commit.  Take a network of replicas that start
    empty and send each other messages, which may be lost, repeated, delayed and
    overtaken, and let every replica that commits a command on its own account,
    after its own phases, commit it with the same dependencies and the same noop
    flag.  Then wherever a command is committed, by a commit request, by an
    instance that another answer carries or by a prepare, it is the same command
    with these dependencies. *)
Theorem replicas_agree_on_commits (s : NodeId → store_state) (now : NodeId → Time) (net : Net)
    (n : NodeId) (x : InstanceID) (i : Instance)
    (Hrun : rtc net_step (net_start s now) net)
    (Hknown : lookup (n_replicas net n).1 x = Some i) (Hcommitted : INSTANCE_COMMITTED ≤ i_Status i) :
  i_Command i = command x ∧ (∀ d, d ∈ i_Dependencies i ↔ d ∈ agreed x) ∧ i_Noop i = noop x.
Proof.
  destruct (net_histories s now net Hrun) as [[H1 H2 _] _]. destruct (H1 n) as [[W _] _].
  rewrite <- (lookup_id _ _ _ W Hknown). apply lookup_stored in Hknown as (p & _ & Hp).
  destruct (H2 n) as [Hs _]. destruct (Hs p i Hp) as [Hc Hf]. by destruct (Hf Hcommitted).
Qed.


End network.

(** ** Schedules *)

(** A command is created, preaccepted or committed at a replica, the commit
    request of an instance is sent, the [k]th message of another replica received,
    or a goroutine of the execute phase is started or goes on. *)
Inductive net_choice :=
  | ANew (n : NodeId) (i : Instance)
  | APreAccept (n : NodeId) (p : ptr)
  | ACommit (n : NodeId) (p : ptr)
  | ASendCommit (n : NodeId) (p : ptr) (to : NodeId)
  | AReceive (n from : NodeId) (k : nat)
  | AExecute (n : NodeId) (a : go_choice).

Section schedules.
Context {St : Store} {Uu : UUIDLib} (mo : NodeId → MapOrder).
Context (command : InstanceID → Instruction) (agreed : InstanceID → list InstanceID) (noop : InstanceID → bool).

Definition net_set (n : NodeId) (m : Manager) (net : Net) : Net :=
  mkNet (<[n := (m, (n_replicas net n).2)]> (n_replicas net)) (n_answers net).

Definition net_perform (a : net_choice) (net : Net) : option Net :=
  match a with
  | ANew n i =>
      if decide (i_Command i = command (i_InstanceID i) ∧ i_Status i < INSTANCE_COMMITTED ∧ i_StronglyConnected i = ∅)
      then Some (net_set n (alloc i (n_replicas net n).1).2 net) else None
  | APreAccept n p => Some (net_set n (preAcceptInstance (Mo := mo n) p true (n_replicas net n).1).2 net)
  | ACommit n p =>
      i ← m_heap (n_replicas net n).1 !! p;
      if decide (i_Dependencies i = agreed (i_InstanceID i) ∧ i_Noop i = noop (i_InstanceID i))
      then Some (net_set n (commitInstance p true (n_replicas net n).1).2 net) else None
  | ASendCommit n p to =>
      i ← m_heap (n_replicas net n).1 !! p;
      if decide (INSTANCE_COMMITTED ≤ i_Status i)
      then Some (net_set n (send (MCommitRequest (mkCommitRequest (Instance.Copy i))) [to] (n_replicas net n).1).2 net)
      else None
  | AReceive n from k =>
      x ← m_outbox (n_replicas net from).1 !! k;
      if decide (x.1 = n) then
        let '(r, m) := HandleMessage (Mo := mo n) x.2 (n_replicas net n).1 in
        Some (mkNet (<[n := (m, (n_replicas net n).2)]> (n_replicas net))
          (match r with Ok a => a :: n_answers net | _ => n_answers net end))
      else None
  | AExecute n (GDeliver _) => None
  | AExecute n a =>
      y ← go_perform (Mo := mo n) a (n_replicas net n);
      Some (mkNet (<[n := y]> (n_replicas net)) (n_answers net))
  end.

Lemma net_perform_step a net net' :
  net_perform a net = Some net' → net_step mo command agreed noop net net'.
Proof.
  assert (∀ n {A} (op : ST Manager error A), net_action command agreed noop (mo n) (n_answers net) (n_replicas net n).1 op →
    net_step mo command agreed noop net (net_set n (op (n_replicas net n).1).2 net)) as Hact.
  { intros n A op Hop. apply (net_act mo command agreed noop n op); [apply surjective_pairing|done]. }
  destruct a as [n i|n p|n p|n p to|n from k|n a]; cbn [net_perform]; intros H.
  - case_decide as Hc; simplify_eq. destruct Hc as (? & ? & ?). by apply Hact, na_new.
  - simplify_eq. apply Hact, na_preAccept.
  - destruct (m_heap _ !! p) as [i|] eqn:Hp; [|done]. cbn in H. case_decide as Hc; simplify_eq.
    apply Hact, na_commit. intros j Hj. assert (j = i) as -> by congruence. destruct Hc as [Hd Hn]. split; [by rewrite Hd|done].
  - destruct (m_heap _ !! p) as [i|] eqn:Hp; [|done]. cbn in H. case_decide as Hc; simplify_eq.
    apply (Hact n _ (send (MCommitRequest (mkCommitRequest (Instance.Copy i))) [to])), na_send. by exists p, i.
  - destruct (m_outbox _ !! k) as [[to msg]|] eqn:Hk; [|done]. cbn in H. case_decide as Hc; [|done].
    destruct (HandleMessage msg _) as [r m] eqn:Hrun. simplify_eq.
    eapply (net_receive mo command agreed noop _ from msg (n_replicas net n).1 (n_replicas net n).2 r m net);
      [apply surjective_pairing|by eapply list_elem_of_lookup_2|done].
  - assert (match a with GDeliver _ => False | _ => True end) as Ha by by destruct a.
    assert (go_perform (Mo := mo n) a (n_replicas net n) ≫= (λ y, Some (mkNet (<[n := y]> (n_replicas net)) (n_answers net)))
      = Some net') as H' by (by destruct a). clear H. destruct (go_perform a _) as [y|] eqn:Hy; [|done]. cbn in H'. simplify_eq.
    by eapply net_execute, go_perform_go.
Qed.

Fixpoint net_play (l : list net_choice) (net : Net) : option Net :=
  match l with [] => Some net | a :: l => net ← net_perform a net; net_play l net end.

Lemma net_play_steps l net net' : net_play l net = Some net' → rtc (net_step mo command agreed noop) net net'.
Proof.
  revert net. induction l as [|a l IH]; intros net; cbn; [intros [= <-]; apply rtc_refl|].
  destruct (net_perform a net) as [net1|] eqn:Ha; [|done]. cbn. intros H.
  eapply rtc_l; [by apply (net_perform_step a)|by apply IH].
Qed.

End schedules.

(** ** Example *)

Section examples.
#[local] Existing Instances KVStore.KVStore_Store example_uuid.

(** Two commands on one key.  Replica 1 commits the first; replica 2 hears of it,
    and commits the second, which depends on it.  Each executes both, with its own
    order of map iterations. *)
Definition agreement_orders (n : NodeId) : MapOrder := if decide (n = mkB16 1 1) then MapOrder_id else MapOrder_rev.
Definition agreement_command (x : InstanceID) : Instruction :=
  NewInstruction "SET" "k" [if decide (x = mkB16 0 1) then "a" else "b"] (mkTime (b1 x) 0 None).
Definition agreement_deps (x : InstanceID) : list InstanceID := if decide (x = mkB16 0 2) then [mkB16 0 1] else [].
Definition agreement_instance (k : Z) : Instance :=
  mkInstance (mkB16 0 k) (mkB16 1 k) [] (agreement_command (mkB16 0 k)) [] 0 0 false false false [] [] ∅ Time_zero.

Definition agreement_schedule : list net_choice :=
  [ANew (mkB16 1 1) (agreement_instance 1); APreAccept (mkB16 1 1) 1; ACommit (mkB16 1 1) 1;
   ASendCommit (mkB16 1 1) 1 (mkB16 1 2); AReceive (mkB16 1 2) (mkB16 1 1) 0;
   ANew (mkB16 1 2) (agreement_instance 2); APreAccept (mkB16 1 2) 2; ACommit (mkB16 1 2) 2;
   ASendCommit (mkB16 1 2) 2 (mkB16 1 1); AReceive (mkB16 1 1) (mkB16 1 2) 0] ++
  (AExecute (mkB16 1 1) <$> GSpawn 9 (mkB16 0 2) :: repeat (GAdvance 0) 20) ++
  (AExecute (mkB16 1 2) <$> [GSpawn 9 (mkB16 0 1); GSpawn 9 (mkB16 0 2)] ++ mjoin (repeat [GAdvance 1; GAdvance 0] 20)).

Definition agreement_start : Net := net_start (λ _, KVStore.NewKVStore) (λ _, Time_zero).
Definition agreement_net : Net :=
  default agreement_start (net_play agreement_orders agreement_command agreement_deps (λ _, false) agreement_schedule agreement_start).

Lemma agreement_reached :
  rtc (net_step agreement_orders agreement_command agreement_deps (λ _, false)) agreement_start agreement_net.
Proof.
  assert (match net_play agreement_orders agreement_command agreement_deps (λ _, false) agreement_schedule agreement_start
    with Some _ => true | None => false end = true) as H by (vm_compute; reflexivity).
  unfold agreement_net. destruct (net_play _ _ _ _ _ _) as [net|] eqn:Hp; [|done].
  exact (net_play_steps _ _ _ _ _ _ _ Hp).
Qed.

Lemma replicas_agree_on_commits_witness :
  ∃ i, lookup (n_replicas agreement_net (mkB16 1 1)).1 (mkB16 0 2) = Some i ∧
    i_Command i = agreement_command (mkB16 0 2) ∧ (∀ d, d ∈ i_Dependencies i ↔ d ∈ [mkB16 0 1]) ∧ i_Noop i = false.
Proof.
  destruct (lookup (n_replicas agreement_net (mkB16 1 1)).1 (mkB16 0 2)) as [i|] eqn:Hi; [|vm_compute in Hi; discriminate Hi].
  exists i. split; [reflexivity|].
  apply (replicas_agree_on_commits (St := KVStore.KVStore_Store) agreement_orders agreement_command agreement_deps (λ _, false)
    (λ _, KVStore.NewKVStore) (λ _, Time_zero) agreement_net (mkB16 1 1) (mkB16 0 2) i agreement_reached Hi).
  vm_compute in Hi. injection Hi as <-. vm_compute. discriminate.
Defined.

Lemma agreement_executed n : n = 1 ∨ n = 2 → m_executed (n_replicas agreement_net (mkB16 1 n)).1 = [mkB16 0 1; mkB16 0 2].
Proof. intros [-> | ->]; vm_compute; reflexivity. Qed.


End examples.
