(* ===== verification/Runs.v ===== *)
(** * Runs of three replicas

    What is needed to compute runs of the protocol: queries of clients, messages
    that are delivered and answers that are given, with the operations of the
    development and the key/value store. *)

From S2P Require Import Prelude Bytes Types GoTime Serializer Instruction Containers KVStore.
From S2P Require Import Instance Dependencies Messages Manager Invariant Prepare Handlers.
From S2P Require Import Tarjan Execute Order Execution Leader Replica Frame Components Concurrent Interleaved Network.

Section runs.
#[local] Existing Instances KVStore.KVStore_Store MapOrder_id example_uuid.

(** ** Clients and network *)

(** The query of a client of the replica [n], which gets the id [k]. *)
Definition query (n k : Z) (command : Instruction) (run : QueryRun) (m : Manager) : Manager :=
  (ExecuteQuery (Pl := example_place (node n)) command (mkB16 0 k) [0; 1]%nat 1%positive run m).2.

Definition del (t : Z) : Instruction := NewInstruction "DEL" "a" [] (mkTime t 0 None).
Definition set (v : string) (t : Z) : Instruction := NewInstruction "SET" "a" [v] (mkTime t 0 None).
Definition get : Instruction := NewInstruction "GET" "a" [] Time_zero.

Definition idle : Manager := NewManager KVStore.NewKVStore Time_zero.

(** A wait that goes on, and one that ends with [answers] after [f]. *)
Definition waiting {A} : Wait A := mkWait (λ _, None) [].
Definition during {A} (f : Manager → Manager) (answers : list A) : Wait A := mkWait (λ m, Some (f m)) answers.

(** The message that has been sent last. *)
Definition latest (m : Manager) : Message :=
  match last (m_outbox m) with Some (_, msg) => msg | None => MCommitResponse end.

Definition receives (msg : Message) (m : Manager) : Manager := (HandleMessage msg m).2.
Definition preaccept_answer (msg : Message) (m : Manager) : list PreAcceptResponse :=
  match (HandleMessage msg m).1 with Ok (MPreAcceptResponse r) => [r] | _ => [] end.
Definition accept_answer (msg : Message) (m : Manager) : list AcceptResponse :=
  match (HandleMessage msg m).1 with Ok (MAcceptResponse r) => [r] | _ => [] end.
Definition prepare_answer (msg : Message) (m : Manager) : list PrepareResponse :=
  match (HandleMessage msg m).1 with Ok (MPrepareResponse r) => [r] | _ => [] end.

(** A round of the execute phase in which each wait for a commit ends with it,
    after [f]. *)
Definition committed_after (f : Manager → Manager) : Round := λ _ _,
  let w := mkProceedWait (λ m, Some (f m)) true in
  mkAttempt (mkPrepareRun w [] [] (λ _, None) w (mkPhaseRun waiting 0 waiting waiting)) (λ _, None) false.

(** A round in which the waits for a commit end with their timeouts, and the
    replica, the first of the successors that it knows, prepares. *)
Definition taken_over (prepare : Wait PrepareResponse) (preaccept : Wait PreAcceptResponse)
    (accept : Wait AcceptResponse) : Round := λ _ _,
  let w := mkProceedWait Some false in
  mkAttempt (mkPrepareRun w [] [] (λ _, None) w (mkPhaseRun prepare 0 preaccept accept)) (λ _, None) false.

(** What has been committed with the id [k]: the key and the dependencies. *)
Definition committed (m : Manager) (k : Z) : option (string * list InstanceID) :=
  i ← lookup m (mkB16 0 k);
  if decide (INSTANCE_COMMITTED ≤ i_Status i) then Some (Key (i_Command i), i_Dependencies i) else None.

End runs.
