(* ===== verification/Forgotten.v ===== *)
(** * A command that is forgotten too early

    Three replicas of one key, and a run of the protocol without failures in
    which two interfering commands are committed without either depending on
    the other, even indirectly, because two replicas have dropped the first from
    their dependencies while the third has not heard of it.  All states are
    computed with the operations of the development: [ExecuteQuery] for the
    leaders, [HandleMessage] for the others, with the messages that have been
    sent and the answers that have been given. *)

From S2P Require Import Prelude Bytes Types GoTime Serializer Instruction Containers KVStore.
From S2P Require Import Instance Dependencies Messages Manager Invariant Prepare Handlers.
From S2P Require Import Tarjan Execute Order Execution Leader Replica Frame Components Concurrent Interleaved Network Runs.

Section scenario.
#[local] Existing Instances KVStore.KVStore_Store MapOrder_id example_uuid.

(** ** Three commands that depend on each other *)

(** Replica 1 leads 1 and, while it waits for answers, 2; replica 2 leads 3.  While
    they wait each hears of the other's commands. *)
Definition x_asking : Manager := query 1 1 (del 1) (mkQueryRun waiting waiting []) idle.
Definition y_asking : Manager := query 1 2 (del 2) (mkQueryRun waiting waiting []) x_asking.
Definition e_asking : Manager := query 2 3 (del 3) (mkQueryRun waiting waiting []) idle.
Definition x_preaccept : Message := latest x_asking.
Definition y_preaccept : Message := latest y_asking.
Definition e_preaccept : Message := latest e_asking.

(** 2 is committed with the dependencies 1 and 3, and its query waits for their
    commits. *)
Definition e_asked : Manager := receives y_preaccept (receives x_preaccept e_asking).
Definition y_preaccepting : Wait PreAcceptResponse :=
  during (receives e_preaccept) (preaccept_answer y_preaccept (receives x_preaccept e_asking)).
Definition y_accept : Message := latest (query 1 2 (del 2) (mkQueryRun y_preaccepting waiting []) x_asking).
Definition y_accepting : Wait AcceptResponse := during id (accept_answer y_accept e_asked).
Definition y_query : Manager → Manager := query 1 2 (del 2) (mkQueryRun y_preaccepting y_accepting []).
Definition y_commit : Message := latest (y_query x_asking).

(** 1 is committed with the dependency 3, and its query waits for the commit of 3. *)
Definition x_preaccepting : Wait PreAcceptResponse := during y_query (preaccept_answer x_preaccept e_asking).
Definition x_accept : Message := latest (query 1 1 (del 1) (mkQueryRun x_preaccepting waiting []) idle).
Definition x_accepting : Wait AcceptResponse := during id (accept_answer x_accept (receives y_accept e_asked)).
Definition x_executing : Manager := query 1 1 (del 1) (mkQueryRun x_preaccepting x_accepting []) idle.
Definition x_commit : Message := latest x_executing.

(** 3 is committed with the dependencies 1 and 2. *)
Definition e_preaccepting : Wait PreAcceptResponse :=
  during (λ m, receives x_accept (receives y_accept (receives y_preaccept (receives x_preaccept m))))
    (preaccept_answer e_preaccept y_asking).
Definition e_accept : Message := latest (query 2 3 (del 3) (mkQueryRun e_preaccepting waiting []) idle).
Definition e_accepting : Wait AcceptResponse := during id (accept_answer e_accept x_executing).
Definition e_commit : Message := latest (query 2 3 (del 3) (mkQueryRun e_preaccepting e_accepting []) idle).

(** When replica 1 hears of this the query of 2 goes on, and executes 1 and 2; the
    query of 1 then finds its own command executed, and executes 3. *)
Definition y_executes (m : Manager) : Manager :=
  match m_instances m !! mkB16 0 2 with Some p => (managerExecuteInstance (Pl := example_place (node 1)) p [] m).2 | None => m end.
Definition replica1 : Manager :=
  query 1 1 (del 1) (mkQueryRun x_preaccepting x_accepting
    [committed_after (λ m, y_executes (receives e_commit (receives e_accept m)))]) idle.

(** Replica 2 executes the three when it has heard of the commits of 1 and 2. *)
Definition replica2 : Manager :=
  query 2 3 (del 3) (mkQueryRun e_preaccepting e_accepting
    [committed_after (λ m, receives y_commit (receives x_commit m))]) idle.

(** ** Two more, of which the first three are forgotten *)

(** Replica 3, which has heard of nothing so far, leads 4.  Replica 1 is asked
    about it, and answers too late. *)
Definition c_asking : Manager := query 3 4 (set "c" 5) (mkQueryRun waiting waiting []) idle.
Definition c_preaccept : Message := latest c_asking.
Definition replica1_c : Manager := receives c_preaccept replica1.

(** Replica 1 leads 5.  Replica 2 is asked about it, and answers too late;
    replica 3 answers in time. *)
Definition b_asking : Manager := query 1 5 (set "b" 4) (mkQueryRun waiting waiting []) replica1_c.
Definition b_preaccept : Message := latest b_asking.
Definition replica2_b : Manager := receives b_preaccept replica2.
Definition b_preaccepting : Wait PreAcceptResponse := during id (preaccept_answer b_preaccept c_asking).
Definition b_commit : Message := latest (query 1 5 (set "b" 4) (mkQueryRun b_preaccepting waiting []) replica1_c).

(** Now replica 2 is asked about 4, and answers in time. *)
Definition c_preaccepting : Wait PreAcceptResponse :=
  during (λ m, receives b_commit (receives b_preaccept m)) (preaccept_answer c_preaccept replica2_b).
Definition c_accept : Message := latest (query 3 4 (set "c" 5) (mkQueryRun c_preaccepting waiting []) idle).
Definition c_accepting : Wait AcceptResponse := during id (accept_answer c_accept (receives c_preaccept replica2_b)).
Definition replica3 : Manager := query 3 4 (set "c" 5) (mkQueryRun c_preaccepting c_accepting []) idle.
Definition c_commit : Message := latest replica3.

(** Replica 1 executes 5 when it has heard of 4; replica 3 hears of 1, 2 and 3, and
    executes them with the next command, about which replica 1 answers. *)
Definition replica1_end : Manager :=
  query 1 5 (set "b" 4) (mkQueryRun b_preaccepting waiting [committed_after (receives c_commit)]) replica1_c.
Definition replica3_late : Manager := receives y_commit (receives e_commit (receives x_commit replica3)).
Definition f_preaccept : Message := latest (query 3 6 get (mkQueryRun waiting waiting []) replica3_late).
Definition f_preaccepting : Wait PreAcceptResponse := during id (preaccept_answer f_preaccept replica1_end).
Definition f_accept : Message := latest (query 3 6 get (mkQueryRun f_preaccepting waiting []) replica3_late).
Definition f_accepting : Wait AcceptResponse := during id (accept_answer f_accept (receives f_preaccept replica1_end)).
Definition replica3_end : Manager := query 3 6 get (mkQueryRun f_preaccepting f_accepting []) replica3_late.

(** ** The outcome *)

Definition outcome (x : InstanceID) : list InstanceID :=
  mkB16 0 <$> (if decide (x = mkB16 0 1) then [3] else if decide (x = mkB16 0 2) then [3; 1]
    else if decide (x = mkB16 0 3) then [2; 1] else if decide (x = mkB16 0 4) then [5]
    else if decide (x = mkB16 0 5) then [4] else []).

(** What is closed under the dependencies. *)
Lemma closed_outcome (l : list Z) x y :
  forallb (λ k, forallb (λ d, bool_decide (d ∈ mkB16 0 <$> l)) (outcome (mkB16 0 k))) l = true →
  x ∈ mkB16 0 <$> l → rtc (needs outcome) x y → y ∈ mkB16 0 <$> l.
Proof.
  intros Hl Hx H. induction H as [|x z y Hxz _ IH]; [done|]. apply IH. clear IH.
  apply list_elem_of_fmap in Hx as (k & -> & Hk%list_elem_of_In). rewrite forallb_forall in Hl.
  specialize (Hl k Hk). rewrite forallb_forall in Hl. by apply (bool_decide_eq_true_1 _), Hl, list_elem_of_In.
Qed.

(** A write is lost although nothing fails.  Five commands on one key are
    committed on two of three replicas, on both with the same dependencies.  1, 2
    and 3 depend on each other, 4 and 5 on each other, but none of the first on
    one of the others or the other way around.  So one replica executes the
    deletions 1, 2 and 3 before the write 4, the other after it; one has the
    value, the other none.  Replicas 1 and 2 had told the leaders of 4 and 5 that
    these depend on 1, 2 and 3, and had dropped them with the answer, as they
    were executed and acknowledged; but those answers came too late to be
    counted, and for the next command that each of the two was asked about they
    did not know of 1, 2 and 3 any more. *)
Theorem executed_commands_forgotten :
  let v := mkTime 5 0 None in
  (∀ k, k ∈ [1; 2; 3; 4; 5] → committed replica1_end k = Some ("a", outcome (mkB16 0 k)) ∧
                              committed replica3_end k = Some ("a", outcome (mkB16 0 k))) ∧
  ¬ rtc (needs outcome) (mkB16 0 4) (mkB16 0 1) ∧ ¬ rtc (needs outcome) (mkB16 0 1) (mkB16 0 4) ∧
  m_executed replica1_end = mkB16 0 <$> [1; 2; 3; 4; 5] ∧
  m_executed replica3_end = mkB16 0 <$> [4; 5; 1; 2; 3; 6] ∧
  KVStore.data (m_store replica1_end) !! "a" = Some (KVStore.VString "c" v) ∧
  KVStore.data (m_store replica3_end) !! "a" = Some (KVStore.VTombstone (mkTime 3 0 None)).
Proof.
  intros v. split_and!; try (vm_compute; reflexivity).
  - rewrite <- Forall_forall. repeat (constructor; [split; vm_compute; reflexivity|]). constructor.
  - intros H%(closed_outcome [4; 5]); [|vm_compute; reflexivity|set_solver]. set_solver.
  - intros H%(closed_outcome [1; 2; 3]); [|vm_compute; reflexivity|set_solver]. set_solver.
Qed.

End scenario.
