(* ===== verification/Recovery.v ===== *)
(** * What recovery makes of committed commands

    A replica that takes over a command completes what the replicas that answer
    have decided, if they agree; where they have got no further than the
    preaccept it starts over, and among several accepts it follows the first it
    is told of.  Three runs then show what the last two lead to: a replica
    commits something else than what has been committed already, because those
    that answer do not know of it or their answers do not say enough.  The
    states of the runs are computed as in [Forgotten]. *)

From S2P Require Import Prelude Bytes Types GoTime Serializer Instruction Containers KVStore.
From S2P Require Import Instance Dependencies Messages Manager Invariant Prepare Handlers.
From S2P Require Import Tarjan Execute Order Execution Leader Replica Frame Components Concurrent Interleaved Network Runs.

(** ** What recovery continues *)

Section continues.
Context {St : Store} {Mo : MapOrder} {Pl : Placement}.
Abbreviation M := (ST Manager error).

(** [iid] is stored at [p] with this status, command, dependencies and noop flag. *)
Definition holds (m : Manager) (iid : InstanceID) (p : ptr) (status : Z) (command : Instruction)
    (dependencies : list InstanceID) (noop : bool) : Prop :=
  wf m ∧ ∃ i, stored m iid p i ∧ i_Status i = status ∧ i_Command i = command ∧
    i_Dependencies i = dependencies ∧ i_Noop i = noop.

(** Both [acceptInstance] and [commitInstance], where [op] changes the instance
    that is stored to [i']. *)
Lemma change_stored m iid p i i' q c (op : ptr → ptr → bool → M unit) (full : ptr → bool → M unit) :
  (∀ q, full q true = (x ← getOrSetInstance q; _ ← op x.1 q true;
                       j ← load x.1; deps (DepsMngr.ReportAcknowledged j))) →
  wf m → preserves (grows any_ballot) (full q true) →
  stored m iid p i → m_heap m !! q = Some c → i_InstanceID c = iid → keys_of i' ≠ [] →
  op p q true m = (Ok tt, with_heap (<[p := i']> (m_heap m)) m) →
  ∃ m', full q true m = (Ok tt, m') ∧ only_at iid m m' ∧ wf m' ∧ stored m' iid p i'.
Proof.
  intros Hfull Hwf Hg Hst Hq Hid Hk Hop. rewrite <- Hid in Hst.
  destruct (report_stored m _ p i i' Hwf Hst Hk) as (m' & Hrep & Hoa & Hl & _).
  assert (full q true m = (Ok tt, m')) as Hrun.
  { rewrite Hfull, (bind_run _ _ _ _ _ (getOrSetInstance_found _ _ _ _ _ Hq (proj1 Hst) (proj2 Hst))).
    cbn [fst]. by rewrite (bind_run _ _ _ _ _ Hop). }
  specialize (Hg m Hwf). rewrite Hrun in Hg. cbn [snd] in Hg. destruct Hg as [Hwf' [He _]].
  destruct (He _ _ _ Hst) as (j & [Hp Hj] & _). exists m'. rewrite <- Hid. split_and!; try done.
  unfold lookup in Hl. rewrite Hp in Hl. by split.
Qed.

(** What the argument of [accept] and [commit] is. *)
Lemma arg_value_either m p i q c :
  m_heap m !! p = Some i → m_heap m !! q = Some c →
  ∃ o, arg_value m p q o ∧ (o = None ∧ c = i ∨ o = Some c).
Proof.
  intros Hp Hq. unfold arg_value. case_decide; subst.
  - exists None. simplify_eq. auto.
  - exists (Some c). eauto.
Qed.

Lemma acceptInstance_takes m iid p i q c :
  wf m → stored m iid p i → m_heap m !! q = Some c → i_InstanceID c = iid →
  i_Status i ≤ INSTANCE_ACCEPTED → keys_of i ≠ [] →
  ∃ m', acceptInstance q true m = (Ok tt, m') ∧ only_at iid m m' ∧
    holds m' iid p INSTANCE_ACCEPTED (i_Command i) (i_Dependencies c) (i_Noop c).
Proof.
  intros Hwf Hst Hq Hid Hs Hk. destruct (arg_value_either m p i q c (proj2 Hst) Hq) as (o & Ho & Hc).
  assert (∃ i', Instance.accept o (m_now m) true i = Ok i' ∧ i_Status i' = INSTANCE_ACCEPTED ∧
    i_Command i' = i_Command i ∧ i_Dependencies i' = i_Dependencies c ∧ i_Noop i' = i_Noop c) as (i' & Ha & Hi').
  { unfold Instance.accept. rewrite decide_False by lia. eexists. split; [reflexivity|].
    destruct Hc as [[-> ->]| ->]; [done|]. unfold Instance.take_ballot. case_decide; done. }
  destruct (change_stored m iid p i i' q c accept acceptInstance) as (m' & Hrun & Hoa & Hwf' & Hst'); try done.
  - by apply preserves_acceptInstance.
  - unfold keys_of. by destruct Hi' as (_ & -> & _).
  - unfold accept. by rewrite bind_load, (proj2 Hst), (bind_arg _ _ _ _ _ Ho), bind_gets, bind_lift, Ha.
  - exists m'. split_and!; [done..|]. split; [done|]. by exists i'.
Qed.

Lemma commitInstance_takes m iid p i q c :
  wf m → stored m iid p i → m_heap m !! q = Some c → i_InstanceID c = iid →
  i_Status i ≤ INSTANCE_COMMITTED → keys_of i ≠ [] →
  ∃ m', commitInstance q true m = (Ok tt, m') ∧ only_at iid m m' ∧
    holds m' iid p INSTANCE_COMMITTED (i_Command i) (i_Dependencies c) (i_Noop c).
Proof.
  intros Hwf Hst Hq Hid Hs Hk. destruct (arg_value_either m p i q c (proj2 Hst) Hq) as (o & Ho & Hc).
  assert (∃ i', Instance.commit o true i = Ok i' ∧ i_Status i' = INSTANCE_COMMITTED ∧
    i_Command i' = i_Command i ∧ i_Dependencies i' = i_Dependencies c ∧ i_Noop i' = i_Noop c) as (i' & Ha & Hi').
  { unfold Instance.commit. rewrite decide_False by lia. eexists. split; [reflexivity|].
    destruct Hc as [[-> ->]| ->]; [done|]. unfold Instance.take_ballot. case_decide; done. }
  destruct (change_stored m iid p i i' q c commit commitInstance) as (m' & Hrun & Hoa & Hwf' & Hst'); try done.
  - by apply preserves_commitInstance.
  - unfold keys_of. by destruct Hi' as (_ & -> & _).
  - unfold commit. by rewrite bind_load, (proj2 Hst), (bind_arg _ _ _ _ _ Ho), bind_lift, Ha.
  - exists m'. split_and!; [done..|]. split; [done|]. by exists i'.
Qed.

(** Nothing that happens during the wait touches [iid], and the wait ends. *)
Definition undisturbed {A} (iid : InstanceID) (w : Wait A) : Prop :=
  ∀ m, wf m → ∃ m', w_meanwhile w m = Some m' ∧ wf m' ∧ ∀ p i, stored m iid p i → stored m' iid p i.

(** A quorum accepts. *)
Definition accepting (replicas : list NodeId) (w : Wait AcceptResponse) : Prop :=
  (awaited replicas ≤ length (w_arrivals w))%nat ∧
  forallb a_Accepted (take (awaited replicas) (w_arrivals w)) = true.

Lemma managerAcceptPhase_takes m iid p i q c w :
  wf m → stored m iid p i → m_heap m !! q = Some c → i_InstanceID c = iid →
  i_Status i ≤ INSTANCE_ACCEPTED → keys_of i ≠ [] →
  undisturbed iid w → accepting (getInstanceReplicas c) w →
  ∃ m', managerAcceptPhase q w m = (Ok tt, m') ∧
    holds m' iid p INSTANCE_ACCEPTED (i_Command i) (i_Dependencies c) (i_Noop c).
Proof.
  intros Hwf Hst Hq Hid Hs Hk Hw [Hlen Hacc].
  destruct (acceptInstance_takes m iid p i q c Hwf Hst Hq Hid Hs Hk) as (m1 & H1 & Hoa & Hwf1 & i1 & Hst1 & Hi1).
  set (replicas := getInstanceReplicas c) in *.
  destruct (Hw (send (MAcceptRequest (mkAcceptRequest (Instance.Copy i1) [])) replicas m1).2) as (m2 & H2 & Hwf2 & Hkeep).
  { by apply (preserves_send any_ballot). }
  assert (stored m2 iid p i1) as Hst2 by (by apply Hkeep).
  exists m2. split; [|split; [done|by exists i1]].
  unfold managerAcceptPhase. rewrite bind_load, Hq. fold replicas.
  rewrite (bind_run _ _ m tt m1) by (unfold ignore_invalid_status; by rewrite bind_try, H1).
  rewrite bind_instances_Get, Hid, (proj1 Hst1). cbn [deref]. rewrite bind_ret.
  rewrite (sendAccept_cases p replicas w m1 m2 i1 i1 (proj2 Hst1) H2 (proj2 Hst2)).
  rewrite decide_False by lia. by rewrite Hacc.
Qed.

Lemma managerCommitPhase_takes m iid p i q c :
  wf m → stored m iid p i → m_heap m !! q = Some c → i_InstanceID c = iid →
  i_Status i ≤ INSTANCE_COMMITTED → keys_of i ≠ [] →
  ∃ m' i', managerCommitPhase q m = (Ok tt, m') ∧
    holds m' iid p INSTANCE_COMMITTED (i_Command i) (i_Dependencies c) (i_Noop c) ∧ stored m' iid p i' ∧
    m_outbox m' = m_outbox m ++
      map (λ n, (n, MCommitRequest (mkCommitRequest (Instance.Copy i')))) (getInstanceReplicas c).
Proof.
  intros Hwf Hst Hq Hid Hs Hk.
  destruct (commitInstance_takes m iid p i q c Hwf Hst Hq Hid Hs Hk) as (m1 & H1 & Hoa & Hwf1 & i1 & Hst1 & Hi1).
  set (msg := MCommitRequest (mkCommitRequest (Instance.Copy i1))).
  exists (send msg (getInstanceReplicas c) m1).2, i1. split_and!.
  - unfold managerCommitPhase. rewrite bind_load, Hq.
    rewrite (bind_run _ _ m tt m1) by (unfold ignore_invalid_status; by rewrite bind_try, H1).
    rewrite bind_instances_Get, Hid, (proj1 Hst1). cbn [deref]. rewrite bind_ret.
    unfold sendCommit. by rewrite bind_load, (proj2 Hst1).
  - split; [by apply (preserves_send any_ballot)|]. by exists i1.
  - done.
  - cbn. by rewrite (oa_outbox _ _ _ Hoa).
Qed.

(** The answer to a prepare of a replica that, if it knows [iid], has the same
    command under it. *)
Definition replied (ballot : Z) (iid : InstanceID) (command : Instruction) (r : PrepareResponse) : Prop :=
  ∃ m m', wf m ∧ (∀ i, lookup m iid = Some i → i_Command i = command) ∧
    HandlePrepare (mkPrepareRequest ballot iid) m = (Ok r, m') ∧ p_Accepted r = true.

Lemma replied_answers ballot iid command r :
  replied ballot iid command r → answers_prepare ballot iid r ∧ p_Accepted r = true.
Proof. intros (m & m' & _ & _ & Hr & Ha). split; [by exists m, m'|done]. Qed.

Lemma replied_instance ballot iid command r k :
  replied ballot iid command r → p_Instance r = Some k →
  i_InstanceID k = iid ∧ i_Command k = command ∧ i_Status k ≤ INSTANCE_EXECUTED.
Proof.
  intros (m & m' & Hwf & Hcmd & Hrun & _) Hk. unfold HandlePrepare in Hrun. cbn [preq_InstanceID preq_Ballot] in Hrun.
  rewrite bind_instances_Get in Hrun. destruct (m_instances m !! iid) as [p|] eqn:Hp.
  2: { unfold mret, ST_ret in Hrun. by simplify_eq. }
  destruct (wf_ptr m Hwf _ _ Hp) as (i & Hi & Hid & Hst). specialize (Hcmd i).
  unfold lookup in Hcmd. rewrite Hp in Hcmd. specialize (Hcmd Hi). rewrite bind_load, Hi in Hrun.
  assert (∃ b, k = Instance.Copy (with_MaxBallot b i)) as [b ->].
  2: { split_and!; [done| |done]. cbn. rewrite Hcmd. by destruct command. }
  case_bool_decide as Hb.
  - unfold update, mbind, ST_bind in Hrun. rewrite load_eq, Hi in Hrun. unfold store, modify in Hrun.
    rewrite load_eq in Hrun. cbn in Hrun. rewrite lookup_insert_eq in Hrun. unfold mret, ST_ret in Hrun.
    simplify_eq. cbn in Hk. simplify_eq. unfold Instance.updateBallot. rewrite decide_True by done. by eexists.
  - rewrite bind_ret, bind_load, Hi in Hrun. unfold mret, ST_ret in Hrun. simplify_eq. cbn in Hk.
    simplify_eq. exists (i_MaxBallot i). by destruct i.
Qed.

(** *** Starting over *)

Lemma preAcceptInstance_takes m iid p i q c :
  wf m → stored m iid p i → m_heap m !! q = Some c → i_InstanceID c = iid →
  i_Status i ≤ INSTANCE_PREACCEPTED → keys_of i ≠ [] →
  ∃ m' i', preAcceptInstance q true m = (Ok tt, m') ∧ wf m' ∧ stored m' iid p i' ∧
    i_Status i' = INSTANCE_PREACCEPTED ∧ i_Command i' = i_Command i ∧ i_Noop i' = i_Noop c ∧
    ∀ d, d ∈ i_Dependencies i' ↔ d ≠ iid ∧ interfering i (view (m_depsMngr m)) d.
Proof.
  intros Hwf Hst Hq Hid Hs Hk. destruct (arg_value_either m p i q c (proj2 Hst) Hq) as (o & Ho & Hc).
  assert (∃ i1, Instance.preaccept_enter o i = Ok i1 ∧ i_Status i1 = INSTANCE_PREACCEPTED ∧
    i_Command i1 = i_Command i ∧ i_Noop i1 = i_Noop c ∧ i_ReadOnly i1 = i_ReadOnly i ∧
    i_InstanceID i1 = i_InstanceID i) as (i1 & He & S1 & S2 & S3 & S4 & S5).
  { unfold Instance.preaccept_enter. rewrite decide_False by lia. eexists. split; [reflexivity|].
    destruct Hc as [[-> ->]| ->]; [done|]. unfold Instance.take_ballot. case_decide; done. }
  assert (keys_of i1 = keys_of i) as Hk1 by (unfold keys_of; by rewrite S2).
  destruct (preaccept_ok m p q i o i1 true (proj2 Hst) Ho He) as (ids & dm & Hg & Hrun); [by rewrite Hk1|].
  destruct (mngr_GetAndSetDeps i1 (m_depsMngr m)) as (ids' & dm' & Hg' & _ & Hids & _); [by rewrite Hk1|].
  rewrite Hg in Hg'. simplify_eq. pose proof Hst as [Hp Hi].
  assert (i_InstanceID i = i_InstanceID c) as Hic by (destruct (wf_ptr m Hwf _ _ Hp) as (? & ? & ? & _); by simplify_eq).
  eexists _, (Instance.preaccept_leave ids' (m_now m) true i1).
  assert (preAcceptInstance q true m = preaccept p q true m) as Hpre.
  { unfold preAcceptInstance. by rewrite (bind_run _ _ _ _ _ (getOrSetInstance_found _ _ _ _ _ Hq Hp Hi)). }
  split; [by rewrite Hpre|]. split_and!; try done.
  - pose proof (preserves_preAcceptInstance any_ballot ltac:(done) true ltac:(done) q m Hwf) as [H _].
    by rewrite Hpre, Hrun in H.
  - split; [done|]. cbn. apply lookup_insert_eq.
  - intros d. change (i_Dependencies _) with ids' at 1. rewrite Hids, S5, Hic. unfold interfering. by rewrite Hk1, S4.
Qed.

(** A quorum preaccepts. *)
Definition preaccepting (replicas : list NodeId) (w : Wait PreAcceptResponse) : Prop :=
  (awaited replicas ≤ length (w_arrivals w))%nat ∧
  ∀ r, r ∈ take (awaited replicas) (w_arrivals w) →
    pa_Accepted r = true ∧ Forall carriable (pa_MissingInstances r).

Lemma addMissing_all rs m iid p i :
  wf m → stored m iid p i → (∀ r, r ∈ rs → Forall carriable (pa_MissingInstances r)) →
  ∃ m', for_each (λ r, addMissing (pa_MissingInstances r)) rs m = (Ok tt, m') ∧ wf m' ∧ stored m' iid p i.
Proof.
  revert m. induction rs as [|r rs IH]; intros m Hwf Hst Hr; [by exists m|].
  destruct (addMissing_ok (pa_MissingInstances r) m Hwf) as (m1 & H1 & _); [apply Hr; left|].
  destruct (keeps_addMissing (pa_MissingInstances r) m Hwf) as [Hwf1 Hk]. rewrite H1 in Hwf1, Hk.
  destruct (IH m1 Hwf1) as (m' & H' & Hm'); [by apply Hk|intros; apply Hr; by right|].
  exists m'. cbn [for_each]. by rewrite (bind_run _ _ _ _ _ H1).
Qed.

Lemma managerPreAcceptPhase_takes m iid p i q c w :
  wf m → stored m iid p i → m_heap m !! q = Some c → i_InstanceID c = iid → i_Status i ≤ INSTANCE_PREACCEPTED →
  keys_of i ≠ [] → undisturbed iid w → preaccepting (getInstanceReplicas c) w →
  ∃ m' changed i', managerPreAcceptPhase q w m = (Ok (changed, None), m') ∧ wf m' ∧ stored m' iid p i' ∧
    i_Status i' = INSTANCE_PREACCEPTED ∧ i_Command i' = i_Command i ∧ i_Noop i' = i_Noop c ∧
    ∀ d, d ∈ i_Dependencies i' ↔ (d ≠ iid ∧ interfering i (view (m_depsMngr m)) d) ∨
      ∃ r, r ∈ take (awaited (getInstanceReplicas c)) (w_arrivals w) ∧ d ∈ i_Dependencies (pa_Instance r).
Proof.
  intros Hwf Hst Hq Hid Hs Hk Hw [Hlen Hacc]. set (replicas := getInstanceReplicas c) in *.
  set (rs := take (awaited replicas) (w_arrivals w)) in *.
  destruct (preAcceptInstance_takes m iid p i q c Hwf Hst Hq Hid Hs Hk) as (m1 & i1 & H1 & Hwf1 & Hst1 & S1 & S2 & S3 & Hd1).
  set (msg := MPreAcceptRequest (mkPreAcceptRequest (Instance.Copy i1))).
  destruct (Hw (send msg replicas m1).2) as (m2 & H2 & Hwf2 & Hkeep); [by apply (preserves_send any_ballot)|].
  assert (stored m2 iid p i1) as Hst2 by by apply Hkeep.
  destruct (addMissing_all rs m2 iid p i1 Hwf2 Hst2) as (m3 & H3 & Hwf3 & Hst3); [intros r Hr; by apply Hacc|].
  destruct (mergePreAcceptAttributes_spec p rs m3 i1 false (proj2 Hst3) S1) as (i' & ch & H4 & Hi' & Hd & _).
  eexists _, _, i'. split_and!.
  - unfold managerPreAcceptPhase. rewrite bind_load, Hq. cbv zeta. rewrite bind_try, H1, bind_ret, bind_instances_Get, Hid, (proj1 Hst1).
    cbn [deref]. rewrite bind_ret, bind_try. fold replicas.
    assert (sendPreAccept p replicas w m1 = (Ok rs, m2)) as ->.
    { unfold sendPreAccept. rewrite bind_load, (proj2 Hst1). fold msg. unfold mbind at 1, ST_bind at 1. cbn [send modify].
      unfold mbind at 1, ST_bind at 1, wait. cbn [send modify snd] in H2. rewrite H2, receive_quorum.
      rewrite decide_False by lia. fold rs. assert (forallb pa_Accepted rs = true) as ->; [|done].
      apply forallb_forall. intros r Hr%list_elem_of_In. by apply Hacc. }
    rewrite bind_try, H3. exact H4.
  - pose proof (preserves_mergePreAcceptAttributes any_ballot p rs false m3 Hwf3) as [H _]. by rewrite H4 in H.
  - split; [apply Hst3|]. cbn. apply lookup_insert_eq.
  - by rewrite Hi'.
  - by rewrite Hi'.
  - by rewrite Hi'.
  - intros d. rewrite <- (elem_of_list_to_set (C := gset InstanceID)), Hd, elem_of_union, elem_of_list_to_set, Hd1.
    unfold response_deps. rewrite elem_of_union_list. setoid_rewrite list_elem_of_fmap. split; (intros [?|Hx]; [by left|right]).
    + destruct Hx as (X & (r & -> & Hr) & Hx). exists r. split; [done|]. by apply elem_of_list_to_set in Hx.
    + destruct Hx as (r & Hr & Hx). eexists. split; [by exists r|]. by apply elem_of_list_to_set.
Qed.

(** What is left of the answers after they have been checked: the ballot. *)
Lemma managerPrepareCheckResponses_ok m iid p i responses :
  wf m → stored m iid p i → forallb p_Accepted responses = true →
  ∃ m' b, managerPrepareCheckResponses p responses m = (Ok tt, m') ∧ wf m' ∧
    stored m' iid p (with_MaxBallot b i) ∧ m_instances m' = m_instances m ∧ m_outbox m' = m_outbox m ∧
    m_depsMngr m' = m_depsMngr m.
Proof.
  intros Hwf Hst Hacc.
  assert (∃ b, (Instance.updateBallot (highest_ballot responses) i).1 = with_MaxBallot b i) as [b Hb].
  { unfold Instance.updateBallot. case_decide; [by eexists|]. exists (i_MaxBallot i). by destruct i. }
  set (m' := with_heap (<[p := with_MaxBallot b i]> (m_heap m)) m).
  assert (managerPrepareCheckResponses p responses m = (Ok tt, m')) as Hrun.
  { unfold managerPrepareCheckResponses. unfold mbind at 1, ST_bind at 1. unfold update, mbind, ST_bind.
    rewrite load_eq, (proj2 Hst). unfold store, modify. by rewrite Hacc, Hb. }
  exists m', b. split_and!; [done| | |done..].
  - pose proof (preserves_managerPrepareCheckResponses any_ballot (λ _ _ _, I) (λ _ _, I) p responses m Hwf) as [Hwf' _].
    by rewrite Hrun in Hwf'.
  - split; [apply Hst|]. cbn. by rewrite lookup_insert_eq.
Qed.

(** The commit requests that end a phase. *)
Definition announces (m : Manager) (iid : InstanceID) (p : ptr) (replicas : list NodeId) : Prop :=
  ∃ i sent, stored m iid p i ∧
    m_outbox m = sent ++ map (λ n, (n, MCommitRequest (mkCommitRequest (Instance.Copy i)))) replicas.

Lemma accept_and_commit_takes m iid p i q c w :
  wf m → stored m iid p i → m_heap m !! q = Some c → i_InstanceID c = iid → i_Command c = i_Command i →
  i_Status i ≤ INSTANCE_ACCEPTED → keys_of i ≠ [] →
  undisturbed iid w → accepting (getInstanceReplicas i) w →
  ∃ m', accept_and_commit q p w m = (Ok tt, m') ∧
    holds m' iid p INSTANCE_COMMITTED (i_Command i) (i_Dependencies c) (i_Noop c) ∧
    announces m' iid p (getInstanceReplicas i).
Proof.
  intros Hwf Hst Hq Hid Hcmd Hs Hk Hu Ha.
  assert (getInstanceReplicas c = getInstanceReplicas i) as Hr by (unfold getInstanceReplicas; by rewrite Hcmd).
  destruct (managerAcceptPhase_takes m iid p i q c w) as (m1 & H1 & Hwf1 & i1 & Hst1 & S1 & S2 & S3 & S4);
    try done; [by rewrite Hr|].
  destruct (managerCommitPhase_takes m1 iid p i1 p i1) as (m2 & i2 & H2 & Hh2 & Hst2 & Ho); try done.
  - apply Hst1.
  - destruct (wf_ptr m1 Hwf1 _ _ (proj1 Hst1)) as (? & ? & ? & _). destruct Hst1. by simplify_eq.
  - by rewrite S1.
  - unfold keys_of. by rewrite S2.
  - exists m2. unfold accept_and_commit. rewrite (bind_run _ _ _ _ _ H1). split; [done|].
    rewrite <- S2, <- S3, <- S4. split; [done|]. exists i2. eexists. split; [done|]. rewrite Ho. f_equal.
    unfold getInstanceReplicas. by rewrite S2.
Qed.

(** From the instance [c] that has been chosen on. *)
Lemma continue_chosen m iid p i q c run :
  wf m → stored m iid p i → m_heap m !! q = Some c → i_InstanceID c = iid → i_Command c = i_Command i →
  i_Status i ≤ INSTANCE_ACCEPTED → INSTANCE_ACCEPTED ≤ i_Status c ≤ INSTANCE_EXECUTED → keys_of i ≠ [] →
  (i_Status c = INSTANCE_ACCEPTED →
     undisturbed iid (ph_accept run) ∧ accepting (getInstanceReplicas i) (ph_accept run)) →
  ∃ m', (if decide (i_Status c = INSTANCE_ACCEPTED) then accept_and_commit q p (ph_accept run)
         else if decide (i_Status c = INSTANCE_COMMITTED ∨ i_Status c = INSTANCE_EXECUTED)
              then managerCommitPhase q else fail (Errorf "Unknown instance status")) m = (Ok tt, m') ∧
    holds m' iid p INSTANCE_COMMITTED (i_Command i) (i_Dependencies c) (i_Noop c) ∧
    announces m' iid p (getInstanceReplicas i).
Proof.
  intros Hwf Hst Hq Hid Hcmd Hs Hc Hk Hw. unfold INSTANCE_ACCEPTED, INSTANCE_EXECUTED in Hs, Hc.
  case_decide as Hca; [by destruct (Hw Hca); eapply accept_and_commit_takes|].
  rewrite decide_True by (unfold INSTANCE_COMMITTED, INSTANCE_EXECUTED, INSTANCE_ACCEPTED in *; lia).
  destruct (managerCommitPhase_takes m iid p i q c) as (m2 & i2 & H2 & Hh2 & Hst2 & Ho); try done.
  { unfold INSTANCE_COMMITTED. lia. }
  exists m2. split_and!; [done..|]. exists i2. eexists. split; [done|]. rewrite Ho.
  unfold getInstanceReplicas. by rewrite Hcmd.
Qed.

(** The first of several instances in the same ballot and of the same, highest
    status. *)
Lemma highest_status_first b before k after status o :
  (∀ j, j ∈ before ++ k :: after → b ≤ i_MaxBallot j) → status < i_Status k →
  (∀ j, j ∈ before → i_Status j < i_Status k) → (∀ j, j ∈ after → i_Status j ≤ i_Status k) →
  highest_status b status o (before ++ k :: after) = Some k.
Proof.
  revert status o. induction before as [|j before IH]; intros status o Hb Hs Hbefore Hafter; cbn [app highest_status].
  - pose proof (Hb k ltac:(left)). rewrite decide_False by lia. rewrite decide_True by lia.
    assert (∀ j, j ∈ after → b ≤ i_MaxBallot j) as Hb' by set_solver. clear Hb Hs Hbefore.
    induction after as [|j after IH]; [done|]. cbn [highest_status].
    pose proof (Hb' j ltac:(left)). pose proof (Hafter j ltac:(left)).
    rewrite decide_False by lia. rewrite decide_False by lia. apply IH; set_solver.
  - pose proof (Hb j ltac:(left)). pose proof (Hbefore j ltac:(left)). rewrite decide_False by lia.
    case_decide; apply IH; try done; set_solver.
Qed.

Lemma analyze_first ballot iid command responses before k after :
  0 ≤ ballot → (∀ r, r ∈ responses → replied ballot iid command r) →
  known responses = before ++ k :: after → 0 < i_Status k →
  (∀ j, j ∈ before → i_Status j < i_Status k) → (∀ j, j ∈ after → i_Status j ≤ i_Status k) →
  analyzePrepareResponses responses = Some k ∧ ∀ j, j ∈ known responses → i_MaxBallot j = ballot.
Proof.
  intros Hb Hr Hk Hpos Hbefore Hafter.
  assert (∀ j, j ∈ known responses → i_MaxBallot j = ballot) as Hball.
  { intros j (r & Hin & Hj)%list_elem_of_omap. destruct (replied_answers _ _ _ _ (Hr r Hin)). by eapply answers_prepare_ballot. }
  split; [|done]. pose proof (highest_ballot_le responses ballot Hb) as Hle.
  assert (highest_ballot responses ≤ ballot) as Hle' by (apply Hle; intros j Hj; by rewrite Hball).
  unfold analyzePrepareResponses.
  assert (highest_status (highest_ballot responses) 0 None (known responses) = Some k) as Hhs.
  { rewrite Hk. apply highest_status_first; try done. intros j Hj. rewrite Hball; [done|by rewrite Hk]. }
  destruct (known responses); [by destruct before|exact Hhs].
Qed.

(** The instance that is taken when nobody who answers has got beyond the
    preaccept. *)
Lemma choose_preaccepted m iid p i responses ballot command :
  wf m → stored m iid p i → i_Status i ≤ INSTANCE_PREACCEPTED → i_Command i = command → 0 ≤ ballot →
  (∀ r, r ∈ responses → replied ballot iid command r) →
  (∀ k, k ∈ known responses → i_Status k = INSTANCE_PREACCEPTED) →
  ∃ m' q c i', choosePrepareInstance p responses m = (Ok (q, INSTANCE_PREACCEPTED), m') ∧ wf m' ∧
    stored m' iid p i' ∧ i_Status i' = i_Status i ∧ i_Command i' = i_Command i ∧ i_ReadOnly i' = i_ReadOnly i ∧
    m_heap m' !! q = Some c ∧ i_InstanceID c = iid ∧ i_Command c = command ∧ m_depsMngr m' = m_depsMngr m ∧
    (known responses = [] ∧ i_Noop c = true ∨ c ∈ known responses).
Proof.
  intros Hwf Hst Hs Hcmd Hb Hr Hk. unfold choosePrepareInstance. rewrite bind_load, (proj2 Hst).
  destruct (known responses) as [|k after] eqn:Hkn.
  - unfold analyzePrepareResponses. rewrite Hkn, decide_True by done.
    eexists _, p, (Instance.setNoop i), (Instance.setNoop i). split; [reflexivity|].
    destruct Hst as [Hp Hi]. destruct (wf_ptr m Hwf _ _ Hp) as (? & ? & Hid & ?). simplify_eq.
    split_and!; try done; [|by split; [done|cbn; apply lookup_insert_eq]|cbn; apply lookup_insert_eq|by left].
    pose proof (preserves_choosePrepareInstance any_ballot p responses m Hwf) as [H _].
    unfold choosePrepareInstance in H. rewrite bind_load, Hi in H.
    unfold analyzePrepareResponses in H. by rewrite Hkn, decide_True in H by done.
  - destruct (analyze_first ballot iid command responses [] k after) as [Ha _]; try done.
    + by rewrite (Hk k ltac:(left)).
    + by intros j ?%elem_of_nil.
    + intros j Hj. rewrite (Hk k ltac:(left)), (Hk j ltac:(by right)). lia.
    + rewrite Ha, (Hk k ltac:(left)), decide_False by lia.
      destruct (alloc_eq k m) as (q & Hal & Hn). rewrite (bind_run _ _ _ _ _ Hal).
      assert (k ∈ known responses) as Hin by (rewrite Hkn; left).
      pose proof Hin as (r & Hr1 & Hr2)%list_elem_of_omap.
      destruct (replied_instance _ _ _ _ _ (Hr r Hr1) Hr2) as (? & ? & _).
      eexists _, q, k, i. split_and!; [done|by apply wf_alloc| |done..| | | | |by right; left]; try done.
      * split; [apply Hst|]. cbn. rewrite lookup_insert_ne; [apply Hst|]. intros ->. by rewrite (proj2 Hst) in Hn.
      * cbn. apply lookup_insert_eq.
Qed.

End continues.

(** ** An acknowledged write *)

Section lost_write.
#[local] Existing Instances KVStore.KVStore_Store MapOrder_id example_uuid.

Definition x_set : Instruction := set "x" 1.
Definition x_asking : Manager := query 1 1 x_set (mkQueryRun waiting waiting []) idle.
Definition x_preaccept : Message := latest x_asking.

(** Replica 1 leads the write 1; replica 2 answers. *)
Definition leader : Manager :=
  query 1 1 x_set (mkQueryRun (during id (preaccept_answer x_preaccept idle)) waiting []) idle.
Definition second : Manager := receives x_preaccept idle.

(** Replica 2 leads the read 2, about which replica 3 answers. *)
Definition y_asking : Manager := query 2 2 get (mkQueryRun waiting waiting []) second.
Definition y_preaccept : Message := latest y_asking.
Definition third : Manager := receives y_preaccept idle.
Definition y_preaccepting : Wait PreAcceptResponse := during id (preaccept_answer y_preaccept idle).
Definition y_accept : Message := latest (query 2 2 get (mkQueryRun y_preaccepting waiting []) second).
Definition y_accepting : Wait AcceptResponse := during id (accept_answer y_accept third).
Definition y_run : list Round → QueryRun := mkQueryRun y_preaccepting y_accepting.
Definition y_commit : Message := latest (query 2 2 get (y_run []) second).
Definition third_y : Manager := receives y_commit (receives y_accept third).

(** Its execution waits for the commit of 1, in vain.  Replica 2 takes 1 over;
    replica 3 does not know of it. *)
Definition x_prepare : Message := latest (query 2 2 get (y_run [taken_over waiting waiting waiting]) second).
Definition x_prepared : Wait PrepareResponse := during id (prepare_answer x_prepare third_y).
Definition x_again : Message := latest (query 2 2 get (y_run [taken_over x_prepared waiting waiting]) second).
Definition x_preaccepted : Wait PreAcceptResponse :=
  during id (preaccept_answer x_again (receives x_prepare third_y)).
Definition second_end : Manager :=
  query 2 2 get (y_run [taken_over x_prepared x_preaccepted waiting]) second.
Definition third_end : Manager :=
  receives (latest second_end) (receives x_again (receives x_prepare third_y)).
Definition leader_end : Manager := receives (latest second_end) (receives y_commit leader).
End lost_write.

(** ** Dependencies *)

Section changed_dependencies.
#[local] Existing Instances KVStore.KVStore_Store MapOrder_id example_uuid.

(** Replica 1 leads the deletion 2, about which replica 3 answers; replica 2 leads
    the write 1, and has not heard of the deletion. *)
Definition d_asking : Manager := query 1 2 (del 1) (mkQueryRun waiting waiting []) idle.
Definition d_preaccept : Message := latest d_asking.
Definition d_leader : Manager :=
  query 1 2 (del 1) (mkQueryRun (during id (preaccept_answer d_preaccept idle)) waiting []) idle.
Definition d_third : Manager := receives d_preaccept idle.

Definition w_set : Instruction := set "w" 2.
Definition w_asking : Manager := query 2 1 w_set (mkQueryRun waiting waiting []) idle.
Definition w_preaccept : Message := latest w_asking.
Definition w_preaccepting : Wait PreAcceptResponse := during id (preaccept_answer w_preaccept d_third).
Definition w_accept : Message := latest (query 2 1 w_set (mkQueryRun w_preaccepting waiting []) idle).
Definition w_third : Manager := receives w_preaccept d_third.
Definition w_accepting : Wait AcceptResponse := during id (accept_answer w_accept w_third).
Definition w_query (rounds : list Round) : Manager :=
  query 2 1 w_set (mkQueryRun w_preaccepting w_accepting rounds) idle.
Definition w_commit : Message := latest (w_query []).
Definition w_third_committed : Manager := receives w_commit (receives w_accept w_third).

(** The write depends on the deletion; replica 2 takes the deletion over. *)
Definition d_prepare : Message := latest (w_query [taken_over waiting waiting waiting]).
Definition d_prepared : Wait PrepareResponse := during id (prepare_answer d_prepare w_third_committed).
Definition d_again : Message := latest (w_query [taken_over d_prepared waiting waiting]).
Definition d_third_prepared : Manager := receives d_prepare w_third_committed.
Definition d_preaccepted : Wait PreAcceptResponse := during id (preaccept_answer d_again d_third_prepared).
Definition w_end : Manager := w_query [taken_over d_prepared d_preaccepted waiting].

(** Replica 2 executes the deletion with the next read, 3, about which replica 3
    answers. *)
Definition d_third_end : Manager := receives (latest w_end) (receives d_again d_third_prepared).
Definition r_preaccept : Message := latest (query 2 3 get (mkQueryRun waiting waiting []) w_end).
Definition r_preaccepting : Wait PreAcceptResponse := during id (preaccept_answer r_preaccept d_third_end).
Definition r_end : Manager := query 2 3 get (mkQueryRun r_preaccepting waiting []) w_end.

(** Replica 1 hears of the write, of what has become of its deletion and of the
    read, and executes them with one more read, 4. *)
Definition d_late : Manager := receives (latest r_end) (receives (latest w_end) (receives w_commit d_leader)).
Definition s_preaccept : Message := latest (query 1 4 get (mkQueryRun waiting waiting []) d_late).
Definition s_third : Manager := receives (latest r_end) (receives r_preaccept d_third_end).
Definition s_preaccepting : Wait PreAcceptResponse := during id (preaccept_answer s_preaccept s_third).
Definition s_accept : Message := latest (query 1 4 get (mkQueryRun s_preaccepting waiting []) d_late).
Definition s_accepting : Wait AcceptResponse := during id (accept_answer s_accept (receives s_preaccept s_third)).
Definition d_end : Manager := query 1 4 get (mkQueryRun s_preaccepting s_accepting []) d_late.

End changed_dependencies.

(** ** Accepted dependencies *)

Section overridden_accept.
#[local] Existing Instances KVStore.KVStore_Store MapOrder_id example_uuid.

(** The replica [n] prepares the command [k], as [HandlePrepareSuccessor] has it
    do when another replica asks for it. *)
Definition takes_over (n k : Z) (run : Round) (m : Manager) : Manager :=
  match m_instances m !! mkB16 0 k with
  | Some p => (prepareSuccessorTask (Pl := example_place (node n)) p (run (mkB16 0 k)) m).2
  | None => m
  end.

(** Replica 2 is about to lead 1, replica 3 to lead 2, and neither has heard of the
    other's.  Replica 1 leads 3; both answer, but replica 1 gets the answer of
    replica 2 only. *)
Definition second_own : Manager := query 2 1 (set "u" 1) (mkQueryRun waiting waiting []) idle.
Definition third_own : Manager := query 3 2 (set "v" 2) (mkQueryRun waiting waiting []) idle.
Definition z_set : Instruction := set "z" 3.
Definition z_asking : Manager := query 1 3 z_set (mkQueryRun waiting waiting []) idle.
Definition z_preaccept : Message := latest z_asking.
Definition second_z : Manager := receives z_preaccept second_own.
Definition third_z : Manager := receives z_preaccept third_own.

(** It accepts 3 with the dependency 1, and is not heard of. *)
Definition z_accepting : Manager :=
  query 1 3 z_set (mkQueryRun (during id (preaccept_answer z_preaccept second_own)) waiting []) idle.

(** Replica 2 takes 3 over, together with replica 3, and commits it. *)
Definition p2_prepare : Message := latest (takes_over 2 3 (taken_over waiting waiting waiting) second_z).
Definition p2_prepared : Wait PrepareResponse := during id (prepare_answer p2_prepare third_z).
Definition p2_preaccept : Message := latest (takes_over 2 3 (taken_over p2_prepared waiting waiting) second_z).
Definition third_p2 : Manager := receives p2_prepare third_z.
Definition p2_preaccepted : Wait PreAcceptResponse := during id (preaccept_answer p2_preaccept third_p2).
Definition third_p2' : Manager := receives p2_preaccept third_p2.
Definition p2_accept : Message :=
  latest (takes_over 2 3 (taken_over p2_prepared p2_preaccepted waiting) second_z).
Definition p2_accepted : Wait AcceptResponse := during id (accept_answer p2_accept third_p2').
Definition second_committed : Manager :=
  takes_over 2 3 (taken_over p2_prepared p2_preaccepted p2_accepted) second_z.
Definition third_accepted : Manager := receives p2_accept third_p2'.

(** The commit is lost; replica 3 takes 3 over, together with replica 1. *)
Definition p3_prepare : Message := latest (takes_over 3 3 (taken_over waiting waiting waiting) third_accepted).
Definition p3_prepared : Wait PrepareResponse := during id (prepare_answer p3_prepare z_accepting).
Definition p3_accept : Message :=
  latest (takes_over 3 3 (taken_over p3_prepared waiting waiting) third_accepted).
Definition first_p3 : Manager := receives p3_accept (receives p3_prepare z_accepting).
Definition p3_accepted : Wait AcceptResponse := during id (accept_answer p3_accept (receives p3_prepare z_accepting)).
Definition third_committed : Manager :=
  takes_over 3 3 (taken_over p3_prepared waiting p3_accepted) third_accepted.
Definition first_committed : Manager := receives (latest third_committed) first_p3.

End overridden_accept.

(** ** Theorems *)

(** C22. Recovery completes what it finds decided.  A replica takes over a command
    that it has at most accepted, and the replicas that answer accept its ballot.
    If one of them has accepted, committed or executed the command, and all
    instances that have got as far, the replica's own included, have the same
    dependencies and noop flag, then the prepare succeeds, provided a quorum
    accepts in case nobody has committed yet: the replica holds the command as
    committed with these dependencies and this flag, and the last thing it does is
    to send this commit to every other replica of the key. *)
Theorem recovery_continues_decision `{Store, MapOrder, Placement}
    m iid p i responses run ballot j dependencies noop :
  wf m → stored m iid p i → i_Status i ≤ INSTANCE_ACCEPTED → keys_of i ≠ [] → 0 ≤ ballot →
  (∀ r, r ∈ responses → replied ballot iid (i_Command i) r) →
  j ∈ known responses → INSTANCE_ACCEPTED ≤ i_Status j →
  (∀ k, k = i ∨ k ∈ known responses → i_Status j ≤ i_Status k →
     i_Dependencies k = dependencies ∧ i_Noop k = noop) →
  ((∀ k, k ∈ known responses → i_Status k ≤ INSTANCE_ACCEPTED) →
     undisturbed iid (ph_accept run) ∧ accepting (getInstanceReplicas i) (ph_accept run)) →
  ∃ m', managerPrepareApply p responses run m = (Ok tt, m') ∧
    holds m' iid p INSTANCE_COMMITTED (i_Command i) dependencies noop ∧
    announces m' iid p (getInstanceReplicas i).
Proof.
  intros Hwf Hst Hs Hk Hb Hr Hj Hjs Hd Hw.
  assert (∀ r, r ∈ responses → answers_prepare ballot iid r ∧ p_Accepted r = true) as Hans
    by (intros r Hin; eapply replied_answers; by apply Hr).
  destruct (managerPrepareCheckResponses_ok m iid p i responses Hwf Hst) as (m0 & b & Hcheck & Hwf0 & Hst0 & _).
  { apply forallb_forall. intros r Hin. by apply Hans, list_elem_of_In. }
  destruct (prepare_continues_highest_status p responses m0 _ ballot iid j (proj2 Hst0) Hb Hans Hj)
    as (q & c & m1 & Hchoose & Hq & Hc & Hci & Hck & Him & Hhm & Hwf1); [unfold INSTANCE_ACCEPTED in *; lia|].
  pose proof (Hck j Hj) as Hcj.
  assert (i_InstanceID c = iid ∧ i_Command c = i_Command i ∧ i_Status c ≤ INSTANCE_EXECUTED ∧
          i_Dependencies c = dependencies ∧ i_Noop c = noop) as (Hid & Hcmd & Hx & <- & <-).
  { destruct Hc as [->|Hin].
    - destruct (wf_ptr m Hwf _ _ (proj1 Hst)) as (? & ? & ? & _). destruct Hst. simplify_eq.
      split_and!; try done; [unfold INSTANCE_ACCEPTED, INSTANCE_EXECUTED in *; cbn; lia|..]; apply (Hd i); auto.
    - pose proof Hin as (r & Hr1 & Hr2)%list_elem_of_omap.
      destruct (replied_instance _ _ _ _ _ (Hr r Hr1) Hr2) as (? & ? & ?). split_and!; try done; apply (Hd c); auto. }
  assert (stored m1 iid p (with_MaxBallot b i)) as Hst1.
  { destruct Hst0. split; [by rewrite Him|]. by eapply lookup_weaken. }
  destruct (continue_chosen m1 iid p (with_MaxBallot b i) q c run (Hwf1 Hwf0) Hst1 Hq Hid Hcmd Hs
    ltac:(lia) Hk) as (m' & Hrun & Hh & Hann).
  { intros Hca. apply Hw. intros k Hin. rewrite <- Hca. by apply Hck. }
  exists m'. split_and!; [|done..]. unfold managerPrepareApply.
  rewrite (bind_run _ _ _ _ _ Hcheck), (bind_run _ _ _ _ _ Hchoose). cbv beta iota.
  rewrite decide_False by (unfold INSTANCE_ACCEPTED, INSTANCE_PREACCEPTED in *; lia). done.
Qed.

Section continues_example.
#[local] Existing Instances LogStore MapOrder_id example_placement.

(** A replica that has committed what [example_manager] has preaccepted. *)
Definition example_knowing : Manager :=
  (HandleCommit (mkCommitRequest (example_request 1 5 3 [mkB16 0 7])) example_empty).2.
Definition example_reply : PrepareResponse :=
  match (HandlePrepare (mkPrepareRequest 9 (mkB16 0 1)) example_knowing).1 with
  | Ok r => r | _ => mkPrepareResponse false None
  end.
Definition example_phases : PhaseRun := mkPhaseRun (mkWait Some []) 0 (mkWait Some []) (mkWait Some []).

Lemma example_knowing_wf : wf example_knowing.
Proof. apply (preserves_HandleCommit Z.le); [by intros|apply wf_NewManager]. Qed.

Lemma example_replied r : r ∈ [example_reply] → replied 9 (mkB16 0 1) (i_Command example_stored) r.
Proof.
  intros ->%list_elem_of_singleton. exists example_knowing.
  exists (HandlePrepare (mkPrepareRequest 9 (mkB16 0 1)) example_knowing).2.
  split_and!; [apply example_knowing_wf| |vm_compute; reflexivity..].
  intros i Hi. assert (lookup example_knowing (mkB16 0 1) = Some i) as Hi' by done.
  vm_compute in Hi'. simplify_eq. vm_compute. reflexivity.
Qed.

End continues_example.

Lemma recovery_continues_decision_witness :
  ∃ m', managerPrepareApply (St := LogStore) (Mo := MapOrder_id) (Pl := example_placement)
      example_at [example_reply] example_phases example_manager = (Ok tt, m') ∧
    holds m' (mkB16 0 1) example_at INSTANCE_COMMITTED (i_Command example_stored) [mkB16 0 7] false.
Proof.
  destruct (recovery_continues_decision (H := LogStore) (H0 := MapOrder_id) (H1 := example_placement)
    example_manager (mkB16 0 1) example_at example_stored [example_reply] example_phases 9
    (default Instance_zero (p_Instance example_reply)) [mkB16 0 7] false) as (m' & Hrun & Hh & _).
  - apply example_manager_wf.
  - split; vm_compute; reflexivity.
  - vm_compute. discriminate.
  - vm_compute. discriminate.
  - lia.
  - exact example_replied.
  - vm_compute. left.
  - vm_compute. discriminate.
  - intros k [->|Hk] Hs; [vm_compute in Hs; by destruct Hs|].
    vm_compute in Hk. apply list_elem_of_singleton in Hk as ->. split; vm_compute; reflexivity.
  - intros Hk. exfalso. specialize (Hk (default Instance_zero (p_Instance example_reply))).
    apply Hk; vm_compute; [left|reflexivity].
  - exists m'. exact (conj Hrun Hh).
Defined.

(** C23. Where nobody who answers has got beyond the preaccept, recovery starts
    over, whatever the leader has committed in the meantime.  A replica that has at
    most preaccepted a command takes it over; the answers accept its ballot, and
    each instance in them is preaccepted, with the same command.  Then the prepare
    succeeds if a quorum preaccepts and a quorum accepts, while nothing else
    touches the instance, and the missing instances that come with the answers
    have keys and a known status: the command is committed with the dependencies
    that this replica finds now and those in the counted answers, and this is sent
    to all other replicas.  If none of those that answer the prepare knows the
    command, it is committed as a noop, although this replica may have preaccepted
    it itself, as part of the quorum with which the leader has committed it;
    otherwise the noop flag is that of one of the answers. *)
Theorem recovery_starts_over `{Store, MapOrder, Placement} m iid p i responses run ballot :
  wf m → stored m iid p i → i_Status i ≤ INSTANCE_PREACCEPTED → keys_of i ≠ [] → 0 ≤ ballot →
  (∀ r, r ∈ responses → replied ballot iid (i_Command i) r) →
  (∀ k, k ∈ known responses → i_Status k = INSTANCE_PREACCEPTED) →
  undisturbed iid (ph_preaccept run) → preaccepting (getInstanceReplicas i) (ph_preaccept run) →
  undisturbed iid (ph_accept run) → accepting (getInstanceReplicas i) (ph_accept run) →
  ∃ m' dependencies noop, managerPrepareApply p responses run m = (Ok tt, m') ∧
    holds m' iid p INSTANCE_COMMITTED (i_Command i) dependencies noop ∧
    announces m' iid p (getInstanceReplicas i) ∧
    (∀ d, d ∈ dependencies ↔ (d ≠ iid ∧ interfering i (view (m_depsMngr m)) d) ∨
       ∃ r, r ∈ take (awaited (getInstanceReplicas i)) (w_arrivals (ph_preaccept run)) ∧
         d ∈ i_Dependencies (pa_Instance r)) ∧
    (known responses = [] → noop = true) ∧
    (known responses ≠ [] → ∃ k, k ∈ known responses ∧ noop = i_Noop k).
Proof.
  intros Hwf Hst Hs Hk Hb Hr Hkn Hpu Hpa Hau Haa.
  destruct (managerPrepareCheckResponses_ok m iid p i responses Hwf Hst) as (m0 & b & Hcheck & Hwf0 & Hst0 & _ & _ & Hdm0).
  { apply forallb_forall. intros r Hin%list_elem_of_In. by destruct (replied_answers _ _ _ _ (Hr r Hin)). }
  destruct (choose_preaccepted m0 iid p _ responses ballot (i_Command i) Hwf0 Hst0 Hs eq_refl Hb Hr Hkn)
    as (m1 & q & c & i1 & Hchoose & Hwf1 & Hst1 & S1 & S2 & S3 & Hq & Hid & Hcmd & Hdm & Hc).
  assert (keys_of i1 = keys_of i) as Hk1 by (unfold keys_of; by rewrite S2).
  assert (getInstanceReplicas c = getInstanceReplicas i) as Hrc by (unfold getInstanceReplicas; by rewrite Hcmd).
  destruct (managerPreAcceptPhase_takes m1 iid p i1 q c (ph_preaccept run))
    as (m2 & changed & i2 & H2 & Hwf2 & Hst2 & T1 & T2 & T3 & Hd); try done; [by rewrite S1|by rewrite Hk1|by rewrite Hrc|].
  assert (i_Command i2 = i_Command i) as T2' by by rewrite T2, S2.
  assert (getInstanceReplicas i2 = getInstanceReplicas i) as Hr2 by (unfold getInstanceReplicas; by rewrite T2').
  assert (keys_of i2 ≠ []) as Hk2 by (unfold keys_of; by rewrite T2').
  destruct (wf_ptr m2 Hwf2 _ _ (proj1 Hst2)) as (i2' & Hi2 & Hid2 & _). rewrite (proj2 Hst2) in Hi2. simplify_eq.
  assert (∃ m', (if changed then accept_and_commit p p (ph_accept run) else managerCommitPhase p) m2 = (Ok tt, m') ∧
    holds m' (i_InstanceID c) p INSTANCE_COMMITTED (i_Command i2') (i_Dependencies i2') (i_Noop i2') ∧
    announces m' (i_InstanceID c) p (getInstanceReplicas i2')) as (m' & Hrun & Hh & Hann).
  { destruct changed.
    - apply (accept_and_commit_takes m2 _ p i2' p i2'); try done; [apply Hst2|by rewrite T1|by rewrite Hr2].
    - destruct (managerCommitPhase_takes m2 _ p i2' p i2' Hwf2 Hst2 (proj2 Hst2) Hid2) as (m' & i' & ? & ? & ? & Ho);
        [by rewrite T1|done|]. exists m'. split_and!; [done..|]. exists i'. eexists. done. }
  exists m', (i_Dependencies i2'), (i_Noop i2'). rewrite T2', Hr2 in *. split_and!; [|done..| | |].
  - unfold managerPrepareApply. rewrite (bind_run _ _ _ _ _ Hcheck), (bind_run _ _ _ _ _ Hchoose). cbv beta iota.
    rewrite decide_True by done. by rewrite (bind_run _ _ _ _ _ H2).
  - intros d. rewrite Hd, Hrc, Hdm, Hdm0. unfold interfering. by rewrite Hk1, S3.
  - rewrite T3. intros He. destruct Hc as [[_ ?]|Hc]; [done|]. rewrite He in Hc. by apply elem_of_nil in Hc.
  - rewrite T3. intros He. destruct Hc as [[? _]|Hc]; [done|]. by exists c.
Qed.

(** C24. Recovery follows the first accept it is told of.  A replica that has at
    most accepted a command takes it over, and the answers accept its ballot; no
    instance in them has got beyond the accept.  The prepare then commits the
    dependencies and the noop flag of the first of the accepted ones among them,
    if a quorum accepts while nothing else touches the instance, and announces
    this to all other replicas, no matter in which ballots this one and the
    others, this replica's own included, have been accepted: the instances in the
    answers all carry the ballot of the prepare.  An accept that a later ballot
    has superseded may thus be what is committed. *)
Theorem recovery_follows_first_accept `{Store, MapOrder, Placement}
    m iid p i responses run ballot before k after :
  wf m → stored m iid p i → i_Status i ≤ INSTANCE_ACCEPTED → keys_of i ≠ [] → 0 ≤ ballot →
  (∀ r, r ∈ responses → replied ballot iid (i_Command i) r) →
  known responses = before ++ k :: after → i_Status k = INSTANCE_ACCEPTED →
  (∀ j, j ∈ before → i_Status j < INSTANCE_ACCEPTED) → (∀ j, j ∈ after → i_Status j ≤ INSTANCE_ACCEPTED) →
  undisturbed iid (ph_accept run) → accepting (getInstanceReplicas i) (ph_accept run) →
  (∀ j, j ∈ known responses → i_MaxBallot j = ballot) ∧
  ∃ m', managerPrepareApply p responses run m = (Ok tt, m') ∧
    holds m' iid p INSTANCE_COMMITTED (i_Command i) (i_Dependencies k) (i_Noop k) ∧
    announces m' iid p (getInstanceReplicas i).
Proof.
  intros Hwf Hst Hs Hk Hb Hr Hkn Hks Hbefore Hafter Hau Haa. rewrite <- Hks in Hbefore, Hafter.
  destruct (analyze_first ballot iid (i_Command i) responses before k after Hb Hr Hkn) as [Ha Hball];
    [by rewrite Hks|done..|]. split; [done|].
  destruct (managerPrepareCheckResponses_ok m iid p i responses Hwf Hst) as (m0 & b & Hcheck & Hwf0 & Hst0 & _ & _ & _).
  { apply forallb_forall. intros r Hin%list_elem_of_In. by destruct (replied_answers _ _ _ _ (Hr r Hin)). }
  assert (k ∈ known responses) as (r & Hr1 & Hr2)%list_elem_of_omap by (rewrite Hkn; set_solver).
  destruct (replied_instance _ _ _ _ _ (Hr r Hr1) Hr2) as (Hid & Hcmd & _).
  destruct (alloc_eq k m0) as (q & Hal & Hn).
  destruct (accept_and_commit_takes (alloc k m0).2 iid p (with_MaxBallot b i) q k (ph_accept run)) as (m' & Hrun & Hh & Hann);
    try done; rewrite ?Hal.
  - by apply wf_alloc.
  - split; [apply Hst0|]. cbn. rewrite lookup_insert_ne; [apply Hst0|]. intros ->. by rewrite (proj2 Hst0) in Hn.
  - cbn. apply lookup_insert_eq.
  - exists m'. split_and!; [|done..]. unfold managerPrepareApply, choosePrepareInstance.
    rewrite (bind_run _ _ _ _ _ Hcheck). rewrite Hal in Hrun. cbn [snd] in Hrun.
    erewrite bind_run; [|rewrite bind_load, (proj2 Hst0), Ha, decide_False by (cbn; lia);
      rewrite (bind_run _ _ _ _ _ Hal); reflexivity].
    cbv beta iota. rewrite Hks, decide_False by done. by rewrite decide_True.
Qed.

Section answers_example.
#[local] Existing Instances LogStore MapOrder_id example_placement.

Lemma undisturbed_at_once {A} iid (l : list A) : undisturbed iid (mkWait Some l).
Proof. intros m Hwf. by exists m. Qed.

(** The answer of the replica in state [m], whose instance 1, if it has one, is
    that of the examples. *)
Definition example_reply_of (m : Manager) : PrepareResponse :=
  match (HandlePrepare (mkPrepareRequest 9 (mkB16 0 1)) m).1 with
  | Ok r => r | _ => mkPrepareResponse false None
  end.

Lemma example_replied_of m :
  wf m → (∀ i, lookup m (mkB16 0 1) = Some i → i_Command i = i_Command example_stored) →
  p_Accepted (example_reply_of m) = true → replied 9 (mkB16 0 1) (i_Command example_stored) (example_reply_of m).
Proof.
  intros Hwf Hc Ha. unfold example_reply_of in *. exists m.
  exists (HandlePrepare (mkPrepareRequest 9 (mkB16 0 1)) m).2. split_and!; try done.
  destruct (HandlePrepare _ m) as [[r| |] m']; done.
Qed.

(** Replicas that have accepted instance 1 in different ballots. *)
Definition example_accepted (ballot dep : Z) : Manager :=
  (HandleAccept (mkAcceptRequest (example_request 1 ballot 2 [mkB16 0 dep]) []) example_empty).2.

Lemma example_accepted_wf ballot dep : wf (example_accepted ballot dep).
Proof. apply (preserves_HandleAccept Z.le); [by intros|apply wf_NewManager]. Qed.

Definition example_restart : PhaseRun :=
  mkPhaseRun (mkWait Some []) 0
    (mkWait Some [mkPreAcceptResponse true 9 (example_request 1 9 1 [mkB16 0 7]) []])
    (mkWait Some [mkAcceptResponse true 9]).
End answers_example.

Lemma recovery_starts_over_witness :
  ∃ m' dependencies noop,
    managerPrepareApply (St := LogStore) (Mo := MapOrder_id) (Pl := example_placement)
      example_at [example_reply_of example_empty] example_restart example_manager = (Ok tt, m') ∧
    holds m' (mkB16 0 1) example_at INSTANCE_COMMITTED (i_Command example_stored) dependencies noop ∧
    mkB16 0 7 ∈ dependencies ∧ noop = true.
Proof.
  destruct (recovery_starts_over (H := LogStore) (H0 := MapOrder_id) (H1 := example_placement)
    example_manager (mkB16 0 1) example_at example_stored [example_reply_of example_empty] example_restart 9)
    as (m' & dependencies & noop & Hrun & Hh & _ & Hd & Hn & _).
  - apply example_manager_wf.
  - split; vm_compute; reflexivity.
  - vm_compute. discriminate.
  - vm_compute. discriminate.
  - lia.
  - intros r ->%list_elem_of_singleton. apply example_replied_of; [apply wf_NewManager| |vm_compute; reflexivity].
    intros i Hi. vm_compute in Hi. discriminate.
  - intros k Hk. vm_compute in Hk. by apply elem_of_nil in Hk.
  - apply undisturbed_at_once.
  - split; [vm_compute; lia|]. intros r Hr. vm_compute in Hr. apply list_elem_of_singleton in Hr as ->. by split.
  - apply undisturbed_at_once.
  - split; [vm_compute; lia|]. vm_compute. reflexivity.
  - exists m', dependencies, noop. split_and!; [exact Hrun|exact Hh| |apply Hn; vm_compute; reflexivity].
    apply Hd. right. eexists. split; [vm_compute; left|vm_compute; left].
Defined.

Lemma recovery_follows_first_accept_witness :
  ∃ m', managerPrepareApply (St := LogStore) (Mo := MapOrder_id) (Pl := example_placement)
      example_at [example_reply_of (example_accepted 6 7); example_reply_of (example_accepted 8 9)]
      example_restart example_manager = (Ok tt, m') ∧
    holds m' (mkB16 0 1) example_at INSTANCE_COMMITTED (i_Command example_stored) [mkB16 0 7] false.
Proof.
  destruct (recovery_follows_first_accept (H := LogStore) (H0 := MapOrder_id) (H1 := example_placement)
    example_manager (mkB16 0 1) example_at example_stored
    [example_reply_of (example_accepted 6 7); example_reply_of (example_accepted 8 9)] example_restart 9
    [] (default Instance_zero (p_Instance (example_reply_of (example_accepted 6 7))))
    [default Instance_zero (p_Instance (example_reply_of (example_accepted 8 9)))]) as (_ & m' & Hrun & Hh & _).
  - apply example_manager_wf.
  - split; vm_compute; reflexivity.
  - vm_compute. discriminate.
  - vm_compute. discriminate.
  - lia.
  - intros r [->| ->%list_elem_of_singleton]%elem_of_cons;
      (apply example_replied_of; [apply example_accepted_wf| |vm_compute; reflexivity]);
      intros i Hi; vm_compute in Hi; simplify_eq; vm_compute; reflexivity.
  - vm_compute. reflexivity.
  - vm_compute. reflexivity.
  - by intros j ?%elem_of_nil.
  - intros j ->%list_elem_of_singleton. vm_compute. discriminate.
  - apply undisturbed_at_once.
  - split; [vm_compute; lia|]. vm_compute. reflexivity.
  - exists m'. exact (conj Hrun Hh).
Defined.

(** An acknowledged write is lost.  The leader of a write has committed and
    executed it with a quorum, itself and replica 2, and its client has been sent
    the result; the commit does not reach the others.  Replica 2 then runs a read,
    with replica 3 as its quorum, and has to take the write over.  As replica 3 has
    not heard of it, the prepare commits a noop in its place, on both: the read
    returns nothing, and the store of the leader, which ignores the commit of what
    it has executed, differs from theirs for good. *)
Theorem recovery_loses_acknowledged_write :
  let value := KVStore.VString "x" (mkTime 1 0 None) in
  let state (m : @Manager KVStore.KVStore_Store) :=
    (λ i, (i_Status i, i_Noop i, i_Dependencies i)) <$> lookup m (mkB16 0 1) in
  state leader = Some (INSTANCE_EXECUTED, false, []) ∧
  m_results leader = [(1%positive, mkResult (St := KVStore.KVStore_Store) (Some value) None)] ∧
  state leader_end = Some (INSTANCE_EXECUTED, false, []) ∧
  KVStore.data (m_store leader_end) !! "a" = Some value ∧
  state second_end = Some (INSTANCE_EXECUTED, true, [mkB16 0 2]) ∧
  state third_end = Some (INSTANCE_COMMITTED, true, [mkB16 0 2]) ∧
  m_executed second_end = mkB16 0 <$> [1; 2] ∧
  m_results second_end = [(1%positive, mkResult (St := KVStore.KVStore_Store) None None)] ∧
  KVStore.data (m_store second_end) !! "a" = None.
Proof. intros value state. split_and!; vm_compute; reflexivity. Qed.

(** Recovery commits other dependencies than the leader.  The leader of a
    deletion has committed it without dependencies, after replica 3 has agreed, and
    has executed it.  Replica 2, whose write depends on the deletion, takes it over:
    replica 3 answers that it has preaccepted it, so the prepare starts again with
    a preaccept, in which both find that the deletion depends on the write.  The
    leader executes the deletion first, replica 2 the write, as it has the earlier
    id.  All commands being executed on both, one has the value and the other has
    not, and they answer reads accordingly. *)
Theorem recovery_changes_dependencies :
  let value := KVStore.VString "w" (mkTime 2 0 None) in
  let deleted := KVStore.VTombstone (mkTime 1 0 None) in
  committed d_leader 2 = Some ("a", []) ∧ committed d_end 2 = Some ("a", []) ∧
  committed r_end 2 = Some ("a", [mkB16 0 1]) ∧
  committed d_end 1 = Some ("a", [mkB16 0 2]) ∧ committed r_end 1 = Some ("a", [mkB16 0 2]) ∧
  m_executed d_end = mkB16 0 <$> [2; 1; 3; 4] ∧ m_executed r_end = mkB16 0 <$> [1; 2; 3] ∧
  KVStore.data (m_store d_end) !! "a" = Some value ∧ KVStore.data (m_store r_end) !! "a" = Some deleted ∧
  r_val <$> (m_results d_end).*2 = [Some (KVStore.VBoolean false Time_zero); Some value] ∧
  r_val <$> (m_results r_end).*2 = [Some value; Some deleted].
Proof. intros value deleted. split_and!; vm_compute; reflexivity. Qed.

(** Recovery takes an earlier accept for the latest.  The leader of 3 has
    accepted it with the dependency 1, alone.  Replica 2 takes it over together with
    replica 3: both accept it with the dependencies 1 and 2, in a later ballot, and
    replica 2 commits this.  Then replica 3, to which the commit has not come
    through, takes it over together with the leader.  As an answer to a prepare
    carries the ballot of the prepare, and not the one of the accept, the older of
    the two accepts is not recognised as such; it is the one that is continued,
    and the leader and replica 3 commit 3 with the dependency 1 only. *)
Theorem recovery_overrides_accepted :
  let state (m : @Manager KVStore.KVStore_Store) :=
    (λ i, (i_Status i, i_MaxBallot i, i_Dependencies i)) <$> lookup m (mkB16 0 3) in
  state z_accepting = Some (INSTANCE_ACCEPTED, 2, [mkB16 0 1]) ∧
  state third_accepted = Some (INSTANCE_ACCEPTED, 4, mkB16 0 <$> [2; 1]) ∧
  committed second_committed 3 = Some ("a", mkB16 0 <$> [2; 1]) ∧
  committed third_committed 3 = Some ("a", [mkB16 0 1]) ∧
  committed first_committed 3 = Some ("a", [mkB16 0 1]).
Proof. intros state. split_and!; vm_compute; reflexivity. Qed.
